(* ===== verification/_CoqProject ===== *)
-Q . S2P
Prelude.v
Framing.v
Utf8.v
Errors.v
Values.v
Arguments.v
Message.v
JsonProtocol.v
JsonReference.v
MsgPackFormat.v
MsgPackParse.v
MsgPackProtocol.v
Brotli.v
MsgPackReference.v
MessageBuffer.v
Link.v
Resume.v
Races.v
Bus.v
Dispatch.v
SendQueue.v
Handshake.v
Negotiate.v
RustStr.v
JsonText.v
Urls.v
Retry.v
Connection.v
WebSocket.v
Runtime.v
Pings.v
Client.v
Lifecycle.v
Closing.v
Reuse.v
Reconnect.v
Upload.v
Builder.v
Usage.v
Starts.v
Pieces.v
Session.v
Attempts.v
FakeHub.v
HubApi.v
Handlers.v
HubTraffic.v
EndToEnd.v
Survival.v
Recorder.v
ProtocolTests.v
ClientTests.v
IntegrationTests.v
Witnesses.v
ClientWitnesses.v
SystemWitnesses.v
