(* ===== verification/Prelude.v ===== *)
(** * signalrr: a model of the SignalR client and its correctness

    [signalrr] is a SignalR client: it negotiates with a server over HTTP, opens a WebSocket,
    shakes hands, and then exchanges hub messages (calls of methods in both directions, streams,
    pings, acknowledgements) in JSON or MessagePack.  When the transport drops it reconnects, and
    with stateful reconnect it resumes the same connection and resends what the server has not
    acknowledged.  This library translates the client's own logic into Rocq functions and proves
    what makes it correct; where the code does not do what it means to, a theorem shows the
    behaviour.

    ** The parts and where they are modelled

    - [Prelude]: [Result], machine integers, strings as UTF-8 bytes, generic lemmas, tactics.
    - [Framing] ([src/framing]): length-prefixed and separator-terminated messages.
    - [Utf8]: the check behind [String::from_utf8].  [Errors] ([src/error.rs],
      [src/hub/protocol.rs]): the error types.
    - [Values], [Arguments] ([src/hub/arguments.rs]), [Message] ([src/hub/message.rs]): JSON and
      MessagePack values, invocation arguments, hub messages and their JSON form.
    - [JsonProtocol] ([src/hub/json.rs]) with the trait [HubProtocol], and what a protocol promises
      to its clients ([protocol_ok]).
    - [MsgPackFormat], [MsgPackParse], [MsgPackProtocol] ([src/hub/messagepack]): the encoding, the
      parser with its raw slice of arguments, the writer.  [Brotli]: the compressed variant.
    - [JsonReference], [MsgPackReference]: concrete codecs that satisfy what the protocols ask of
      [serde_json] and [rmpv].  [JsonText]: a printer and a reader of JSON texts as [serde_json]
      writes and reads them (without fractions and exponents, nested at most 127 levels deep).
    - [MessageBuffer] ([src/hub_connection/message_buffer.rs]): numbering, buffering, resending and
      acknowledging for stateful reconnect.  [Link]: two endpoints with a buffer each, joined by
      transports that drop and are resumed.  [Resume], [Races]: what arrives over such a link.
    - [Bus] ([src/bus.rs]): handlers and pending calls.  [Dispatch]
      ([src/hub_connection/dispatch.rs]): what an inbound message does.
    - [SendQueue] ([src/transport/send_queue.rs]): the worker that writes to the socket.
      [WebSocket] ([src/transport/websocket.rs]): the handles on a socket, sending with and without
      the queue, closing, and calls of these that interleave with the worker.
    - [Handshake] ([src/handshake.rs]), [Negotiate] ([src/negotiate.rs], [src/access_token.rs]),
      [Connection] ([src/connection.rs], the reader of [src/transport/websocket.rs]): how a
      connection is established.
    - [RustStr]: the functions on [str] that the code uses.  [Urls]: what the functions that build
      URLs do to path and query, from the documented behaviour of [url].
    - [Retry] ([retry.rs], [callbacks.rs], [state.rs]), [Runtime] ([runtime.rs]: sending, the
      receive task, the keepalive task), [Pings] (the keepalive task beside what is sent and
      received), [Client] (calls of hub methods, streams), [Lifecycle]
      (start, close, the supervisor, and their interleavings), all of [src/hub_connection].
      [Upload] ([upload_stream.rs], [stream.rs]): the tasks that upload the items of client
      streams, and the stream a caller reads.  [HubApi]: handlers, typed and not, and callbacks.
      [Handlers]: handlers that act on the state of the application, and their dispatch.
    - [Builder] ([src/builder.rs], [HubConnectionConfig]): every method of the builder, and what a
      sequence of calls configures.
    - [Closing], [Reuse], [Reconnect]: what callers can rely on, and what they cannot.  [Usage]:
      [start] and [close] for one caller, as runs of the interleaved system, and the program
      [examples/connect.rs].  [Starts]: calls of [start] that overlap.  [Session]: an abstract
      machine of what a connection promises to its owner, and that start, close and the
      supervisor implement it.  [Pieces]: a reconnect attempt cut where other tasks can run.
      [Attempts]: a close between two of its pieces.
    - [FakeHub] ([src/test_support/mod.rs]): the server for tests: its listener, negotiation over
      HTTP, the server side of a WebSocket.  [HubTraffic]: what the client sends, as that server
      sees it.  [EndToEnd]: calls in both directions through all the parts.  [Survival]: a call
      whose transport is lost and resumed, and one whose send fails.
    - [Recorder] ([examples/record.rs]): the program that records frames, from its configuration
      to its loop and its files.
    - [ProtocolTests], [ClientTests]: the unit tests of the modules, as boolean functions that run
      the model on the inputs of the tests, and the snapshots of
      [tests/messagepack_brotli_snapshots.rs].  [IntegrationTests] ([tests/connect.rs],
      [tests/reconnect.rs]): client and fake hub run against each other.  Each file ends with a
      theorem that all its tests pass, which compares the model with what the authors expect.
    - [Witnesses], [ClientWitnesses], [SystemWitnesses]: the theorems with hypotheses on concrete
      inputs and runs.

    ** State, effects, errors

    A struct is a [Record], an enum an [Inductive] type, a fallible function returns [result], and
    stateful code takes and returns its state.  The transport, the HTTP client and the sockets act
    on a world of any type ([Transport], [HttpClient], [Sockets]).  Asynchronous code is cut where
    it waits: [MessageBuffer.send] where it releases its lock, the worker of the send queue and
    the two tasks of the runtime at an iteration of their loop, [start] and [close] at the locks
    they take, the supervisor at its waits, the upload tasks at an item or a command, [send] and
    [close] of a transport at the channels and locks they wait for; step relations ([link_step],
    [queue_step], [watch_step], [system_step], [client_step], [upload_step], [ws_step]) let the pieces
    interleave.  Lists that a state records ([q_answers], [lc_called], [ns_requests], [wa_calls],
    ...) exist to state properties, and no operation reads them; what is sent is stated of the
    world the transport acts on.

    ** What the theorems show

    - Framing: the parsers accept exactly the wire format, return on every input, and read back
      what the writers write, with the limit of 2 GiB.
    - Protocols: each of the three protocols reads back what it writes, up to the canonical form a
      receiver sees (JSON for values without floats, and with Brotli some fields and messages are
      lost, as the theorem says); [skip_value] consumes exactly one value; decoding returns on every frame.
    - Stateful reconnect: when each side sends one message at a time and through its buffer, then
      over any drops and resumes messages are processed in order, at most once, and all of them
      once the link is drained; a resumed sequence is never rejected; the buffer's accounting is an
      invariant.  The code does not keep to that condition: [Races] shows what overlapping sends,
      completions that bypass the buffer and an old acknowledgement timer do.
    - Bus and dispatch: a completion reaches its caller once, cancelling reaches everyone, an
      invocation calls every handler of its name once and in order and is answered as the outcome
      of all of them says, also when they act on a common state; the receive task keeps the
      invariants and reports a closed transport once.
    - Send queue and transport: what is written, in order, one answer for each caller, progress,
      and a shutdown it can lose; a send that says [Ok] was written, and after a close nothing more is.
    - Calls: for every protocol that meets [CallProtocol] (JSON and MessagePack do), a call reaches
      the server as it was made and its answer reaches the caller, and a call of the server is
      answered with the result of the handler; arguments that cannot be read are reported.  With
      stateful reconnect a call outlives the loss of its transport: the resume keeps its caller
      waiting and writes it again, and the answer over the new transport reaches the caller; a call whose send fails is sent by the
      next resume all the same.
    - Streams: uploads are sent in order, whole, and come to an end; a reader gets the items in
      order; an upload that outlives its connection feeds a stream of the next one.
    - Establishing a connection: negotiation returns within its bounds and follows the protocol of
      redirects and tokens; the handshake takes the first record and loses nothing of the rest; a
      connection is resumable exactly when both sides agreed; negotiation URLs say what the options
      say, the URL of the socket keeps path and parameters and adds the tokens (and what the
      replacement of its scheme can break), and a logged URL hides the access token.  The options a builder makes are those of the
      last calls, and consistent with the protocol.
    - Keepalive: unless a notification still waits for the task, it pings only when no call was sent
      through the runtime for the interval, and reports a timeout only when nothing was received
      for it; completions do not put a ping off.
    - Lifecycle: a connection with one owner refines a machine of six phases (idle, up, up without
      a supervisor, retrying, up after a close that an attempt has overtaken, wedged after a failed
      close), whose events are what the callbacks hear; the closed callbacks run at most once for each successful start under every
      interleaving; reconnecting ends after at most as many attempts as the policy has delays; a
      session of one caller ends in one of four ways; a close that fails leaves the connection
      unusable, a close can miss the end of another one, a reconnect attempt can overtake a close,
      and of two starts that overlap the second undoes the first; invocation ids are used again after a resume or reconnect, with wrong or cancelled answers as the consequence.
    - The fake hub and the recorder: a client negotiates with the hub, shakes hands and is heard in
      order, and the messages the hub cannot see; the recorder acknowledges what the client would,
      its files do not overwrite each other, and a frame that ends it.

    ** Bounds and fuel

    Loops that are not structural take fuel, and a theorem or lemma shows that it is enough:
    [Framing.Binary.parse] takes the length of its input ([binary_parse_total]), [decode_message]
    the length of the frame ([decode_returns]), [skip_value] the 512 levels of nesting the code
    allows, [negotiate_with_source] the 101 iterations the redirect limit allows
    ([negotiate_terminates]); [recv] of the fake hub takes as much as there are messages
    ([recv_next]), [reconnect_run] the times at which the supervisor wakes up.  Sequence ids are
    unbounded integers; the link sends only while the next id is below the largest [i64].  [usize]
    is 64 bits wide.  The counter of invocation ids wraps at 64 bits.

    ** Parameters

    [serde_json], [rmpv], the Brotli decompressor, [reqwest], [url] and [tungstenite] are
    parameters ([JsonText], [MsgPack], [BrotliDecoder], [HttpClient], [UrlLib], [Sockets], [Sink],
    [HandshakeText]), as are the environment and the files of the recorder ([Host]); the
    properties a proof needs of them are fields of these classes or hypotheses, and the reference
    instances satisfy them.

    ** Not modelled

    When log lines are written (their text is [format_data_detail] and [redact_access_token]), the
    waiting for asynchronous handlers, whose output is their result, and for room in the buffer
    after a send, streams that never end, accessors (record fields), the benchmark, and the
    JSON case of one integration test, whose text has a fraction.  The tests that compress use a
    compressor of their own.  The builder is that of the default features with
    [messagepack-brotli].  The split of [start] and [close] is at their waits; in the
    interleavings of [Lifecycle] the supervisor's reconnect attempt is one step, which [Pieces]
    cuts, with a close in between in [Session] and [Attempts]; what the supervisor does on a loss is
    one step everywhere.  Operations of the network always return in the model: that [start] or an
    attempt returns is said under this condition, while the code opens a socket without a timeout.
    An abort of [start] leaves the network in any state. *)

From Stdlib Require Import ZArith Lia Strings.Byte String Ascii.
From stdpp Require Import base list strings gmap numbers.

Local Open Scope Z_scope.

(** ** Rust's [Result] *)

(** [result E A] is Rust's [Result<A, E>]. *)
Inductive result (E A : Type) : Type :=
| Ok (a : A)
| Err (e : E).
Arguments Ok {E A} a.
Arguments Err {E A} e.

(** The [?] operator and [map], [map_err], [ok], [ok_or] of the standard library. *)
#[global] Instance result_ret E : MRet (result E) := fun _ a => Ok a.
#[global] Instance result_bind E : MBind (result E) := fun _ _ f r =>
  match r with Ok a => f a | Err e => Err e end.
#[global] Instance result_fmap E : FMap (result E) := fun _ _ f r =>
  match r with Ok a => Ok (f a) | Err e => Err e end.

Definition map_err {E F A} (f : E -> F) (r : result E A) : result F A :=
  match r with Ok a => Ok a | Err e => Err (f e) end.

Definition ok_or {E A} (o : option A) (e : E) : result E A :=
  match o with Some a => Ok a | None => Err e end.

Definition is_ok {E A} (r : result E A) : bool :=
  match r with Ok _ => true | Err _ => false end.

(** [collect::<Result<Vec<_>, _>>()]: the first error wins. *)
Fixpoint collect {E A} (rs : list (result E A)) : result E (list A) :=
  match rs with
  | [] => Ok []
  | Ok a :: rest => match collect rest with Ok l => Ok (a :: l) | Err e => Err e end
  | Err e :: _ => Err e
  end.

#[global] Instance result_eq_dec {E A} `{EqDecision E, EqDecision A} : EqDecision (result E A).
Proof. solve_decision. Defined.

(** ** Machine integers

    [usize] is 64 bits wide; a [u8] is [Byte.byte].  [as i32] keeps the low 32 bits in two's
    complement. *)

Notation u8 := Byte.byte.

Definition u8_to_Z (b : u8) : Z := Z.of_N (Byte.to_N b).

(** [z as u8] *)
Definition Z_to_u8 (z : Z) : u8 :=
  match Byte.of_N (Z.to_N (z `mod` 256)) with Some b => b | None => Byte.x00 end.

(** [z as i32] *)
Definition as_i32 (z : Z) : Z := (z + 2 ^ 31) `mod` 2 ^ 32 - 2 ^ 31.

Definition u64_max : Z := 2 ^ 64 - 1.
Definition i64_max : Z := 2 ^ 63 - 1.
Definition i64_min : Z := - 2 ^ 63.

(** [a.saturating_sub(b)] on an unsigned integer. *)
Definition saturating_sub (a b : Z) : Z := Z.max 0 (a - b).

(** [v.len()] *)
Definition len {A} (l : list A) : Z := Z.of_nat (length l).

(** [&v[from..to]] for [from <= to <= v.len()]. *)
Definition slice {A} (from to : Z) (l : list A) : list A :=
  take (Z.to_nat (to - from)) (drop (Z.to_nat from) l).

(** ** Strings

    A Rust [String] is its sequence of UTF-8 bytes, one [ascii] per byte. *)

Definition bytes_of_string : string -> list u8 := String.list_byte_of_string.
Definition string_of_bytes : list u8 -> string := String.string_of_list_byte.

(** [str::to_ascii_lowercase] *)
Definition ascii_lower (c : ascii) : ascii :=
  let n := N_of_ascii c in
  if (N.leb 65 n && N.leb n 90)%bool then ascii_of_N (n + 32) else c.

Fixpoint to_ascii_lowercase (s : string) : string :=
  match s with
  | EmptyString => EmptyString
  | String c s' => String (ascii_lower c) (to_ascii_lowercase s')
  end.

#[global] Instance u8_eq_dec : EqDecision u8 := Byte.byte_eq_dec.

(** ** Generic lemmas *)

Lemma u8_to_Z_range b : 0 <= u8_to_Z b < 256.
Proof. unfold u8_to_Z. pose proof (Byte.to_N_bounded b). lia. Qed.

Lemma Z_to_u8_to_Z z : u8_to_Z (Z_to_u8 z) = z `mod` 256.
Proof.
  unfold Z_to_u8, u8_to_Z. pose proof (Z.mod_pos_bound z 256 ltac:(lia)) as Hz.
  destruct (Byte.of_N _) eqn:E.
  - apply Byte.to_of_N in E. rewrite E. lia.
  - apply Byte.of_N_None_iff in E. lia.
Qed.

Lemma u8_to_Z_to_u8 b : Z_to_u8 (u8_to_Z b) = b.
Proof.
  unfold Z_to_u8. rewrite Z.mod_small by apply u8_to_Z_range.
  unfold u8_to_Z. rewrite N2Z.id, Byte.of_to_N. done.
Qed.

Lemma string_of_bytes_of_string s : string_of_bytes (bytes_of_string s) = s.
Proof. apply String.string_of_list_byte_of_string. Qed.

Lemma bytes_of_string_of_bytes l : bytes_of_string (string_of_bytes l) = l.
Proof. apply String.list_byte_of_string_of_list_byte. Qed.

Lemma bytes_app s t : bytes_of_string (s +:+ t) = bytes_of_string s ++ bytes_of_string t.
Proof.
  unfold bytes_of_string. induction s as [|c s IH]; [done|].
  exact (f_equal (cons (Ascii.byte_of_ascii c)) IH).
Qed.

Lemma len_app {A} (l k : list A) : len (l ++ k) = len l + len k.
Proof. unfold len. rewrite length_app. lia. Qed.

Lemma len_cons {A} (x : A) l : len (x :: l) = 1 + len l.
Proof. unfold len. simpl. lia. Qed.

Lemma len_nonneg {A} (l : list A) : 0 <= len l.
Proof. unfold len. lia. Qed.

Lemma len_nil {A} : len (@nil A) = 0.
Proof. done. Qed.

Lemma to_nat_len {A} (l : list A) : Z.to_nat (len l) = length l.
Proof. unfold len. apply Nat2Z.id. Qed.

Lemma collect_Ok_iff {E A} (rs : list (result E A)) l :
  collect rs = Ok l <-> Forall2 (fun r a => r = Ok a) rs l.
Proof.
  revert l. induction rs as [|[a|e] rs IH]; intros l; simpl.
  - split; [by intros [= <-]|]. intros Hl. by inversion Hl.
  - split.
    + destruct (collect rs) as [l'|e'] eqn:Hc; [|done]. intros [= <-].
      constructor; [done|]. by apply IH.
    + intros Hl. inversion Hl as [|?? ? l' Ha Hr]; simplify_eq.
      apply IH in Hr. by rewrite Hr.
  - split; [done|]. intros Hl. inversion Hl. done.
Qed.

Lemma collect_map_Ok {E A B} (f : A -> result E B) (g : A -> B) l :
  (forall a, a ∈ l -> f a = Ok (g a)) -> collect (map f l) = Ok (map g l).
Proof.
  intros H. apply collect_Ok_iff. induction l as [|a l IH]; simpl; constructor.
  - apply H. left.
  - apply IH. intros a' Ha'. apply H. by right.
Qed.

Lemma filter_none {A} (P : A -> Prop) `{!forall x, Decision (P x)} (l : list A) :
  Forall (fun x => ~ P x) l -> filter P l = [].
Proof. induction 1 as [|x l Hx _ IH]; [done|]. by rewrite filter_cons_False. Qed.

Lemma filter_all {A} (P : A -> Prop) `{!forall x, Decision (P x)} (l : list A) :
  Forall P l -> filter P l = l.
Proof. induction 1 as [|x l Hx _ IH]; [done|]. by rewrite filter_cons_True, IH. Qed.

Lemma to_ascii_lowercase_idemp s :
  to_ascii_lowercase (to_ascii_lowercase s) = to_ascii_lowercase s.
Proof.
  induction s as [|c s IH]; simpl; [done|]. f_equal; [|done].
  destruct c as [[] [] [] [] [] [] [] []]; reflexivity.
Qed.

(** ** Automation *)

Create HintDb signalrr.
#[export] Hint Resolve len_nonneg u8_to_Z_range : signalrr.
#[export] Hint Rewrite @len_app @len_cons @len_nil @bytes_of_string_of_bytes
  @string_of_bytes_of_string to_ascii_lowercase_idemp : signalrr.

(** Case analysis on every [match] and [if] of the goal, closing the impossible cases. *)
Ltac break := repeat (case_match; simplify_eq/=; try done).

(** Case analysis on the [match]es of a hypothesis. *)
Ltac break_in H := repeat (case_match; simplify_eq/=; try done).

(** Turns the boolean comparisons of the code into propositions. *)
Ltac bool_to_prop :=
  repeat match goal with
  | H : (_ && _)%bool = true |- _ => apply andb_true_iff in H as [? ?]
  | H : (_ && _)%bool = false |- _ => apply andb_false_iff in H
  | H : (_ || _)%bool = false |- _ => apply orb_false_iff in H as [? ?]
  | H : (_ || _)%bool = true |- _ => apply orb_true_iff in H
  | H : negb _ = true |- _ => apply negb_true_iff in H
  | H : negb _ = false |- _ => apply negb_false_iff in H
  | H : (_ =? _) = true |- _ => apply Z.eqb_eq in H
  | H : (_ =? _) = false |- _ => apply Z.eqb_neq in H
  | H : (_ <=? _) = true |- _ => apply Z.leb_le in H
  | H : (_ <=? _) = false |- _ => apply Z.leb_gt in H
  | H : (_ <? _) = true |- _ => apply Z.ltb_lt in H
  | H : (_ <? _) = false |- _ => apply Z.ltb_ge in H
  end.

(** ** Bit operations *)

(** Bits or-ed in above the bits in use add up. *)
Lemma lor_shiftl_add a b n :
  0 <= n -> 0 <= a < 2 ^ n -> Z.lor a (Z.shiftl b n) = a + b * 2 ^ n.
Proof.
  intros Hn Ha. rewrite <- Z.shiftl_mul_pow2 by done.
  rewrite <- Z.add_lor_land. replace (Z.land a (Z.shiftl b n)) with 0; [lia|].
  symmetry. apply Z.bits_inj'. intros i Hi. rewrite Z.land_spec, Z.bits_0.
  destruct (decide (i < n)).
  - rewrite Z.shiftl_spec_low by lia. apply andb_false_r.
  - rewrite <- (Z.mod_small a (2 ^ n)) by done.
    rewrite Z.mod_pow2_bits_high by lia. done.
Qed.

Lemma land_7f z : Z.land z 0x7f = z `mod` 128.
Proof. change 0x7f with (Z.ones 7). rewrite Z.land_ones by lia. done. Qed.

Lemma lor_80 z : 0 <= z < 128 -> Z.lor z 0x80 = z + 128.
Proof. intros Hz. exact (lor_shiftl_add z 1 7 ltac:(lia) Hz). Qed.
