(* ===== verification/Framing.v ===== *)
(** * Message framing ([src/framing/binary.rs], [src/framing/text.rs])

    Module [Binary] models [BinaryMessageFormat]: a varint length prefix before every payload,
    read back by a loop over an offset into the input.  Module [Text] models
    [TextMessageFormat]: records ended by the byte [0x1e].

    Each has a declarative specification of the wire format ([framed], [records]) and a theorem
    that the parser accepts exactly that format. *)

From Stdlib Require Import ZArith Lia String Ascii.
From stdpp Require Import base list strings.
From S2P Require Import Prelude.

Local Open Scope Z_scope.

(** [FramingError] of [src/error.rs]. *)
Inductive FramingError : Type :=
| IncompleteMessage
| CannotReadSize
| MessageTooLarge.

#[global] Instance FramingError_eq_dec : EqDecision FramingError.
Proof. solve_decision. Defined.

Module Binary.

Definition MAX_LENGTH_PREFIX_SIZE : Z := 5.
Definition NUM_BITS_TO_SHIFT : list Z := [0; 7; 14; 21; 28].

(** The loop of [write] that fills [len_buffer]. *)
Fixpoint write_len (fuel : nat) (size : Z) : list u8 :=
  match fuel with
  | O => []
  | S fuel =>
      let size_part := Z.land size 0x7f in
      let size := Z.shiftr size 7 in
      let size_part := if 0 <? size then Z.lor size_part 0x80 else size_part in
      Z_to_u8 size_part :: (if size =? 0 then [] else write_len fuel size)
  end.

(** [BinaryMessageFormat::write] *)
Definition write (payload : list u8) : list u8 :=
  write_len (S (length payload)) (len payload) ++ payload.

(** The inner loop of [parse]: reads the length prefix at [offset].  [None] stands for a panic
    (an index out of range) or for running out of fuel. *)
Fixpoint read_size (fuel : nat) (input : list u8) (offset num_bytes size : Z)
    : option (result FramingError (Z * Z * u8)) :=
  match fuel with
  | O => None
  | S fuel =>
      if len input <=? offset + num_bytes then Some (Err CannotReadSize)
      else
        match input !! Z.to_nat (offset + num_bytes),
              NUM_BITS_TO_SHIFT !! Z.to_nat num_bytes with
        | Some byte_read, Some bits =>
            let size := Z.lor size (Z.shiftl (Z.land (u8_to_Z byte_read) 0x7f) bits) in
            let num_bytes := num_bytes + 1 in
            if (Z.min MAX_LENGTH_PREFIX_SIZE (len input - offset) <=? num_bytes)
               || (Z.land (u8_to_Z byte_read) 0x80 =? 0)
            then Some (Ok (num_bytes, size, byte_read))
            else read_size fuel input offset num_bytes size
        | _, _ => None
        end
  end.

(** The outer loop of [parse]. *)
Fixpoint parse_loop (fuel : nat) (input : list u8) (offset : Z) (acc : list (list u8))
    : option (result FramingError (list (list u8))) :=
  match fuel with
  | O => None
  | S fuel =>
      if offset <? len input then
        match read_size 5 input offset 0 0 with
        | None => None
        | Some (Err e) => Some (Err e)
        | Some (Ok (num_bytes, size, byte_read)) =>
            if negb (Z.land (u8_to_Z byte_read) 0x80 =? 0)
               && (num_bytes <? MAX_LENGTH_PREFIX_SIZE)
            then Some (Err CannotReadSize)
            else if (num_bytes =? MAX_LENGTH_PREFIX_SIZE) && (7 <? u8_to_Z byte_read)
            then Some (Err MessageTooLarge)
            else if offset + num_bytes + size <=? len input then
              parse_loop fuel input (offset + num_bytes + size)
                (acc ++ [slice (offset + num_bytes) (offset + num_bytes + size) input])
            else Some (Err IncompleteMessage)
        end
      else Some (Ok acc)
  end.

(** [BinaryMessageFormat::parse].  [parse_total] shows that the default is never used. *)
Definition parse (input : list u8) : result FramingError (list (list u8)) :=
  default (Err IncompleteMessage) (parse_loop (S (length input)) input 0 []).

(** The bits a prefix byte contributes, and its continuation bit. *)
Definition payload_bits (b : u8) : Z := Z.land (u8_to_Z b) 0x7f.
Definition continues (b : u8) : bool := negb (Z.land (u8_to_Z b) 0x80 =? 0).

(** The wire format: [prefix_of p n] says that the bytes [p] are a length prefix for [n]. *)
Fixpoint prefix_value (p : list u8) : Z :=
  match p with
  | [] => 0
  | b :: p => payload_bits b + 128 * prefix_value p
  end.

Record prefix_of (p : list u8) (n : Z) : Prop := {
  prefix_short : len p <= MAX_LENGTH_PREFIX_SIZE;
  prefix_shape : exists init last, p = init ++ [last] /\
    Forall (fun b => continues b = true) init /\ continues last = false /\
    (len p = MAX_LENGTH_PREFIX_SIZE -> u8_to_Z last <= 7);
  prefix_number : prefix_value p = n
}.

Inductive framed : list u8 -> list (list u8) -> Prop :=
| framed_nil : framed [] []
| framed_cons p m rest ms :
    prefix_of p (len m) -> framed rest ms -> framed (p ++ m ++ rest) (m :: ms).

(** *** Reading one prefix *)

Lemma payload_bits_mod b : payload_bits b = u8_to_Z b `mod` 128.
Proof. apply land_7f. Qed.

Lemma continues_spec b : continues b = (128 <=? u8_to_Z b).
Proof. destruct b; reflexivity. Qed.

Lemma payload_bits_range b : 0 <= payload_bits b < 128.
Proof. rewrite payload_bits_mod. apply Z.mod_pos_bound. lia. Qed.

Lemma prefix_value_range p : 0 <= prefix_value p < 2 ^ (7 * len p).
Proof.
  induction p as [|b p IH]; simpl; [done|]. rewrite len_cons.
  replace (7 * (1 + len p)) with (7 + 7 * len p) by lia.
  rewrite Z.pow_add_r by (pose proof (len_nonneg p); lia).
  change (2 ^ 7) with 128. pose proof (payload_bits_range b). lia.
Qed.

Lemma prefix_value_snoc p b :
  prefix_value (p ++ [b]) = prefix_value p + payload_bits b * 2 ^ (7 * len p).
Proof.
  induction p as [|c p IH]; simpl; [change (len []) with 0; lia|].
  rewrite IH, len_cons. replace (7 * (1 + len p)) with (7 + 7 * len p) by lia.
  rewrite Z.pow_add_r by (pose proof (len_nonneg p); lia). change (2 ^ 7) with 128. lia.
Qed.

Lemma shift_table (k : nat) :
  (k < 5)%nat -> NUM_BITS_TO_SHIFT !! k = Some (7 * Z.of_nat k).
Proof. intros Hk. do 5 (destruct k; [reflexivity|]). lia. Qed.

(** What the inner loop computes, over the unread bytes [s]. *)
Lemma read_size_run fuel pre init s :
  (length init + fuel = 5)%nat -> (fuel > 0)%nat -> s <> [] ->
  exists q b s', s = q ++ b :: s' /\ Forall (fun c => continues c = true) q /\
    len init + len q + 1 <= 5 /\
    (continues b = false \/ len init + len q + 1 = 5 \/ s' = []) /\
    read_size fuel (pre ++ init ++ s) (len pre) (len init) (prefix_value init) =
      Some (Ok (len init + len q + 1, prefix_value (init ++ q ++ [b]), b)).
Proof.
  revert init s. induction fuel as [|fuel IH]; intros init s Hfuel Hpos Hs; [lia|].
  destruct s as [|b s]; [done|]. cbn [read_size].
  assert (Hlen : len (pre ++ init ++ b :: s) = len pre + len init + 1 + len s)
    by (autorewrite with signalrr; lia).
  rewrite Hlen. pose proof (len_nonneg s) as Hs0.
  replace (len pre + len init + 1 + len s <=? len pre + len init) with false by lia.
  replace ((pre ++ init ++ b :: s) !! Z.to_nat (len pre + len init)) with (Some b).
  2: { unfold len. rewrite <- Nat2Z.inj_add, Nat2Z.id.
       rewrite lookup_app_r by lia. rewrite lookup_app_r by lia.
       replace (length pre + length init - length pre - length init)%nat with 0%nat by lia. done. }
  rewrite to_nat_len, shift_table by lia.
  fold (payload_bits b). change (Z.of_nat (length init)) with (len init).
  rewrite lor_shiftl_add by (try apply prefix_value_range; pose proof (len_nonneg init); lia).
  rewrite <- prefix_value_snoc.
  assert (Hb : (Z.land (u8_to_Z b) 0x80 =? 0) = negb (continues b))
    by (unfold continues; by rewrite negb_involutive). rewrite Hb.
  destruct (Z.min MAX_LENGTH_PREFIX_SIZE _ <=? _) eqn:Hmin; cbn [orb].
  - exists [], b, s. cbn. unfold MAX_LENGTH_PREFIX_SIZE in Hmin. bool_to_prop.
    change (len (@nil u8)) with 0. rewrite Z.add_0_r.
    assert (Hi : len init + 1 <= 5) by (unfold len; lia).
    split_and!; [done|done|done| |done].
    destruct s; [by right; right|]. right; left. autorewrite with signalrr in *.
    unfold len in *. lia.
  - unfold MAX_LENGTH_PREFIX_SIZE in Hmin. bool_to_prop.
    destruct (continues b) eqn:Hc; cbn [negb orb].
    + destruct (IH (init ++ [b]) s) as (q & c & s' & -> & Hq & Hle & Hend & Hrun).
      { rewrite length_app. simpl. lia. } { unfold len in *. lia. }
      { intros ->. autorewrite with signalrr in *. lia. }
      exists (b :: q), c, s'. autorewrite with signalrr in *.
      replace (len init + (1 + len q) + 1) with (len init + (1 + 0) + len q + 1) by lia.
      split_and!; [done|by constructor|lia| |].
      { destruct Hend as [?|[?|?]]; [by left|right; left; lia|by right; right]. }
      rewrite <- !app_assoc in Hrun. cbn [app] in Hrun.
      replace (len init + 1) with (len init + (1 + 0)) by lia. rewrite Hrun.
      rewrite <- ?app_assoc. done.
    + exists [], b, s. change (len (@nil u8)) with 0. rewrite Z.add_0_r. cbn [app].
      split_and!; [done|done|unfold len; lia|by left|done].
Qed.

(** *** The frame loop *)

Lemma slice_app {A} (l m k : list A) a b :
  a = len l -> b = len l + len m -> slice a b (l ++ m ++ k) = m.
Proof.
  intros -> ->. unfold slice. rewrite to_nat_len, drop_app_length.
  replace (len l + len m - len l) with (len m) by lia.
  by rewrite to_nat_len, take_app_length.
Qed.

(** A prefix that the loop accepts is a prefix of the wire format, and the other way round. *)
Lemma accepted_prefix q b (s' : list u8) :
  Forall (fun c => continues c = true) q -> len q + 1 <= 5 ->
  (continues b && (len q + 1 <? MAX_LENGTH_PREFIX_SIZE)) = false ->
  ((len q + 1 =? MAX_LENGTH_PREFIX_SIZE) && (7 <? u8_to_Z b)) = false ->
  (continues b = false \/ len q + 1 = 5 \/ s' = []) ->
  prefix_of (q ++ [b]) (prefix_value (q ++ [b])).
Proof.
  intros Hq Hlen Hc Hseven Hend. unfold MAX_LENGTH_PREFIX_SIZE in *.
  assert (Hb : continues b = false).
  { destruct (continues b) eqn:E; [|done]. simpl in Hc. bool_to_prop.
    replace (len q + 1 =? 5) with true in Hseven by lia. simpl in Hseven.
    rewrite continues_spec in E. bool_to_prop. lia. }
  split; [autorewrite with signalrr; unfold MAX_LENGTH_PREFIX_SIZE; lia| |done].
  exists q, b. split_and!; [done|done|done|]. autorewrite with signalrr.
  unfold MAX_LENGTH_PREFIX_SIZE. intros Hfive.
  replace (len q + 1 =? 5) with true in Hseven by lia. simpl in Hseven. bool_to_prop. lia.
Qed.

Lemma prefix_unique init last k q b (s' : list u8) :
  init ++ last :: k = q ++ b :: s' ->
  Forall (fun c => continues c = true) init -> continues last = false ->
  Forall (fun c => continues c = true) q ->
  len init + 1 <= 5 -> (continues b = false \/ len q + 1 = 5 \/ s' = []) ->
  init = q /\ last = b /\ k = s'.
Proof.
  intros Heq Hi Hl Hq Hlen Hend.
  assert (Hcase : forall (x y : list u8) c d k1 k2, x ++ c :: k1 = y ++ d :: k2 ->
    Forall (fun c => continues c = true) y -> continues c = false -> (length y <= length x)%nat).
  { clear. intros x. induction x as [|e x IH]; intros [|f y] c d k1 k2; simpl; intros [= ];
      subst; try lia. { intros Hy. apply Forall_cons in Hy as [Hf _]. congruence. }
    intros Hy Hc. apply Forall_cons in Hy as [_ Hy].
    match goal with H : x ++ _ = y ++ _ |- _ => pose proof (IH _ _ _ _ _ H Hy Hc) end. lia. }
  pose proof (Hcase _ _ _ _ _ _ Heq Hq Hl) as Hle1.
  assert (Hlen' : length init = length q).
  { destruct (continues b) eqn:Hb.
    - destruct Hend as [?|[Hfive| ->]]; [done|unfold len in *; lia|].
      apply (f_equal length) in Heq. rewrite !length_app in Heq. simpl in Heq. lia.
    - pose proof (Hcase _ _ _ _ _ _ (eq_sym Heq) Hi Hb). lia. }
  apply app_inj_1 in Heq as [-> [= -> ->]]; done.
Qed.

(** One iteration of the frame loop on the unread bytes [s]. *)
Lemma parse_loop_step fuel pre s acc :
  s <> [] ->
  exists q b s', s = q ++ b :: s' /\ Forall (fun c => continues c = true) q /\
    len q + 1 <= 5 /\ (continues b = false \/ len q + 1 = 5 \/ s' = []) /\
    parse_loop (S fuel) (pre ++ s) (len pre) acc =
      if continues b && (len q + 1 <? MAX_LENGTH_PREFIX_SIZE) then Some (Err CannotReadSize)
      else if (len q + 1 =? MAX_LENGTH_PREFIX_SIZE) && (7 <? u8_to_Z b)
      then Some (Err MessageTooLarge)
      else let size := prefix_value (q ++ [b]) in
      if size <=? len s' then
        let m := take (Z.to_nat size) s' in
        parse_loop fuel ((pre ++ (q ++ [b]) ++ m) ++ drop (Z.to_nat size) s')
          (len (pre ++ (q ++ [b]) ++ m)) (acc ++ [m])
      else Some (Err IncompleteMessage).
Proof.
  intros Hs. destruct (read_size_run 5 pre [] s) as (q & b & s' & -> & Hq & Hle & Hend & Hrun);
    [done|lia|done|]. change (len (@nil u8)) with 0 in *. rewrite Z.add_0_l in *.
  exists q, b, s'. split_and!; [done..|]. cbn [parse_loop].
  replace (len pre <? len (pre ++ q ++ b :: s')) with true.
  2: { autorewrite with signalrr. pose proof (len_nonneg q). pose proof (len_nonneg s'). lia. }
  cbn [app] in Hrun. change (prefix_value []) with 0 in Hrun. rewrite Hrun. clear Hrun.
  fold (continues b).
  destruct (continues b && _); [done|]. destruct ((len q + 1 =? _) && _); [done|].
  cbv zeta. set (size := prefix_value (q ++ [b])).
  assert (Hsize : 0 <= size) by apply prefix_value_range.
  assert (Hlen : len (pre ++ q ++ b :: s') = len pre + (len q + 1) + len s')
    by (autorewrite with signalrr; lia). rewrite Hlen.
  replace (len pre + (len q + 1) + size <=? len pre + (len q + 1) + len s')
    with (size <=? len s') by lia.
  destruct (size <=? len s') eqn:Hfit; [|done]. bool_to_prop.
  set (m := take (Z.to_nat size) s'). set (rest := drop (Z.to_nat size) s').
  assert (Hm : len m = size) by (unfold m, len in *; rewrite length_take; lia).
  assert (Hsplit : pre ++ q ++ b :: s' = (pre ++ q ++ [b]) ++ m ++ rest).
  { unfold m, rest. rewrite take_drop, <- !app_assoc. done. }
  rewrite Hsplit. rewrite slice_app by (autorewrite with signalrr; lia).
  rewrite <- !app_assoc. f_equal. autorewrite with signalrr. lia.
Qed.

Lemma parse_loop_complete s ms :
  framed s ms -> forall fuel pre acc, (fuel > length s)%nat ->
  parse_loop fuel (pre ++ s) (len pre) acc = Some (Ok (acc ++ ms)).
Proof.
  induction 1 as [|p m rest ms Hp Hrest IH]; intros [|fuel] pre acc Hfuel; simpl in Hfuel; try lia.
  - simpl. rewrite app_nil_r, Z.ltb_irrefl, app_nil_r. done.
  - destruct Hp as [Hshort (init & last & -> & Hinit & Hlast & Hfive) Hnum].
    destruct (parse_loop_step fuel pre ((init ++ [last]) ++ m ++ rest) acc)
      as (q & b & s' & Hs & Hq & Hle & Hend & Hstep); [by destruct init|].
    rewrite <- app_assoc in Hs. cbn [app] in Hs.
    unfold MAX_LENGTH_PREFIX_SIZE in Hshort. autorewrite with signalrr in Hshort.
    apply prefix_unique in Hs as (<- & <- & <-); [|done..|lia|done].
    rewrite Hstep. clear Hstep. rewrite Hlast. cbn [andb].
    replace ((len init + 1 =? MAX_LENGTH_PREFIX_SIZE) && (7 <? u8_to_Z last)) with false.
    2: { symmetry. apply andb_false_iff. destruct (Z.eqb_spec (len init + 1) MAX_LENGTH_PREFIX_SIZE);
         [right|by left]. apply Z.ltb_ge, Hfive. autorewrite with signalrr. lia. }
    cbv zeta. rewrite Hnum, to_nat_len, take_app_length, drop_app_length.
    replace (len m <=? len (m ++ rest)) with true
      by (autorewrite with signalrr; pose proof (len_nonneg rest); lia).
    rewrite IH, <- app_assoc; [done|]. rewrite !length_app in Hfuel. simpl in Hfuel. lia.
Qed.

Lemma parse_loop_sound fuel pre s acc l :
  parse_loop fuel (pre ++ s) (len pre) acc = Some (Ok l) ->
  exists ms, l = acc ++ ms /\ framed s ms.
Proof.
  revert pre s acc. induction fuel as [|fuel IH]; intros pre s acc; [done|].
  destruct (decide (s = [])) as [->|Hs].
  { simpl. rewrite app_nil_r, Z.ltb_irrefl. intros [= <-]. exists [].
    rewrite app_nil_r. by split; [|constructor]. }
  destruct (parse_loop_step fuel pre s acc Hs) as (q & b & s' & -> & Hq & Hle & Hend & ->).
  destruct (_ && (_ <? _)) eqn:Hc; [done|]. destruct (_ && (7 <? _)) eqn:Hseven; [done|].
  cbv zeta. destruct (_ <=? len s') eqn:Hfit; [|done]. apply Z.leb_le in Hfit.
  intros Hl. apply IH in Hl as (ms & -> & Hms).
  eexists (_ :: ms). split; [by rewrite <- app_assoc|].
  pose proof (prefix_value_range (q ++ [b])) as Hsize.
  set (m := take _ s') in *. set (rest := drop _ s') in *.
  replace (q ++ b :: s') with ((q ++ [b]) ++ m ++ rest)
    by (unfold m, rest; rewrite take_drop, <- app_assoc; done).
  constructor; [|done].
  replace (len m) with (prefix_value (q ++ [b]))
    by (unfold m, len in *; rewrite length_take; lia).
  by apply accepted_prefix with s'.
Qed.

Lemma parse_loop_total fuel pre s acc :
  (fuel > length s)%nat -> parse_loop fuel (pre ++ s) (len pre) acc <> None.
Proof.
  revert pre s acc. induction fuel as [|fuel IH]; intros pre s acc Hfuel; [lia|].
  destruct (decide (s = [])) as [->|Hs].
  { simpl. rewrite app_nil_r, Z.ltb_irrefl. done. }
  destruct (parse_loop_step fuel pre s acc Hs) as (q & b & s' & -> & Hq & Hle & Hend & ->).
  destruct (_ && (_ <? _)); [done|]. destruct (_ && (7 <? _)); [done|].
  cbv zeta. destruct (_ <=? len s'); [|done]. apply IH.
  rewrite length_drop. rewrite length_app in Hfuel. simpl in Hfuel. lia.
Qed.

Lemma parse_run input : parse_loop (S (length input)) input 0 [] = Some (parse input).
Proof.
  unfold parse. destruct (parse_loop _ _ _ _) eqn:E; [done|].
  exfalso. apply (parse_loop_total (S (length input)) [] input []); [lia|done].
Qed.

Lemma parse_framed input ms : parse input = Ok ms <-> framed input ms.
Proof.
  pose proof (parse_run input) as Hrun. split; intros H.
  - rewrite H in Hrun. apply (parse_loop_sound _ []) in Hrun as (ms' & -> & ?). done.
  - pose proof (parse_loop_complete _ _ H (S (length input)) [] []) as Hc.
    cbn [app] in Hc. change (len (@nil u8)) with 0 in Hc. rewrite Hc in Hrun by lia. congruence.
Qed.

(** *** What [write] produces *)

Lemma write_len_shape fuel n :
  0 <= n < Z.of_nat fuel ->
  exists init last, write_len fuel n = init ++ [last] /\
    Forall (fun c => continues c = true) init /\ continues last = false /\
    prefix_value (init ++ [last]) = n /\ u8_to_Z last * 2 ^ (7 * len init) <= n /\
    (forall k, 1 <= k -> n < 2 ^ (7 * k) -> len init + 1 <= k).
Proof.
  revert n. induction fuel as [|fuel IH]; intros n Hn; [lia|]. cbn [write_len].
  rewrite land_7f, Z.shiftr_div_pow2 by lia. change (2 ^ 7) with 128.
  pose proof (Z.div_mod n 128 ltac:(lia)) as Hdm. pose proof (Z.mod_pos_bound n 128 ltac:(lia)).
  destruct (n / 128 =? 0) eqn:Hz; bool_to_prop.
  - replace (0 <? n / 128) with false by lia. exists [], (Z_to_u8 (n `mod` 128)).
    cbn [app prefix_value]. rewrite continues_spec, payload_bits_mod, Z_to_u8_to_Z.
    rewrite (Z.mod_small (n `mod` 128) 256) by lia. rewrite Z.mod_mod by lia.
    change (len (@nil u8)) with 0. change (2 ^ (7 * 0)) with 1.
    split_and!; [done|done|lia|lia|lia|intros; lia].
  - replace (0 <? n / 128) with true by lia.
    destruct (IH (n / 128)) as (init & last & -> & Hi & Hl & Hv & Hbig & Hk); [nia|].
    exists (Z_to_u8 (Z.lor (n `mod` 128) 0x80) :: init), last.
    rewrite lor_80 by lia. autorewrite with signalrr.
    assert (Hb : u8_to_Z (Z_to_u8 (n `mod` 128 + 128)) = n `mod` 128 + 128)
      by (rewrite Z_to_u8_to_Z; apply Z.mod_small; lia).
    pose proof (len_nonneg init).
    split_and!; [done| |done| | |].
    + constructor; [|done]. rewrite continues_spec, Hb. lia.
    + cbn [app prefix_value]. rewrite Hv, payload_bits_mod, Hb.
      replace (n `mod` 128 + 128) with (n `mod` 128 + 1 * 128) by lia.
      rewrite Z.mod_add, Z.mod_mod by lia. lia.
    + replace (7 * (1 + len init)) with (7 + 7 * len init) by lia.
      rewrite Z.pow_add_r by lia. change (2 ^ 7) with 128. nia.
    + intros k Hk1 Hlt. destruct (decide (k = 1)) as [->|]; [change (2 ^ (7 * 1)) with 128 in *; lia|].
      specialize (Hk (k - 1) ltac:(lia)).
      replace (7 * k) with (7 + 7 * (k - 1)) in Hlt by lia. rewrite Z.pow_add_r in Hlt by lia.
      change (2 ^ 7) with 128 in Hlt. enough (len init + 1 <= k - 1) by lia. apply Hk.
      apply Z.div_lt_upper_bound; lia.
Qed.

Lemma write_len_prefix (payload : list u8) :
  len payload < 2 ^ 31 ->
  prefix_of (write_len (S (length payload)) (len payload)) (len payload).
Proof.
  intros Hsmall. destruct (write_len_shape (S (length payload)) (len payload))
    as (init & last & -> & Hi & Hl & Hv & Hbig & Hk); [unfold len; lia|].
  assert (Hinit : len init + 1 <= 5) by (apply Hk; [lia|]; change (2 ^ (7 * 5)) with (2 ^ 35);
    change (2 ^ 31) with 2147483648 in *; change (2 ^ 35) with 34359738368; lia).
  split; [autorewrite with signalrr; unfold MAX_LENGTH_PREFIX_SIZE; lia| |done].
  exists init, last. split_and!; [done|done|done|]. autorewrite with signalrr.
  unfold MAX_LENGTH_PREFIX_SIZE. intros Hfive. replace (len init) with 4 in Hbig by lia.
  change (2 ^ (7 * 4)) with 268435456 in Hbig. change (2 ^ 31) with 2147483648 in *. lia.
Qed.

Lemma framed_write_all (payloads : list (list u8)) :
  Forall (fun p => len p < 2 ^ 31) payloads -> framed (concat (map write payloads)) payloads.
Proof.
  induction 1 as [|p ps Hp Hps IH]; [constructor|].
  cbn [map concat]. unfold write at 1. rewrite <- app_assoc.
  constructor; [by apply write_len_prefix|done].
Qed.

Lemma prefix_of_bound p n : prefix_of p n -> 0 <= n < 2 ^ 31.
Proof.
  intros [Hshort (init & last & -> & Hi & Hl & Hfive) <-].
  split; [apply prefix_value_range|]. autorewrite with signalrr in *.
  unfold MAX_LENGTH_PREFIX_SIZE in *. rewrite prefix_value_snoc.
  pose proof (prefix_value_range init) as [Hr0 Hr]. pose proof (payload_bits_range last).
  pose proof (len_nonneg init). destruct (decide (len init = 4)) as [E|].
  - rewrite E in *. rewrite payload_bits_mod. specialize (Hfive ltac:(lia)).
    pose proof (u8_to_Z_range last). rewrite Z.mod_small by lia.
    change (2 ^ (7 * 4)) with 268435456 in *. change (2 ^ 31) with 2147483648. lia.
  - assert (2 ^ (7 * len init) <= 2 ^ 21) by (apply Z.pow_le_mono_r; lia).
    change (2 ^ 21) with 2097152 in *. change (2 ^ 31) with 2147483648. nia.
Qed.

Lemma framed_bounds s ms :
  framed s ms -> Forall (fun m => len m < 2 ^ 31) ms /\ len (concat ms) + len ms <= len s.
Proof.
  induction 1 as [|p m rest ms Hp Hr [IH1 IH2]]; [by split; [constructor|unfold len; simpl]|]. split.
  - constructor; [|done]. apply prefix_of_bound in Hp. apply Hp.
  - simpl. autorewrite with signalrr. destruct Hp as [_ (init & last & -> & _) _].
    autorewrite with signalrr. pose proof (len_nonneg init). lia.
Qed.

(** C4: the binary parser accepts exactly the wire format: [parse] succeeds with the messages
    [ms] if and only if the input is a sequence of frames, each a valid length prefix of at most
    five bytes followed by that many bytes, whose payloads are [ms]. *)
Theorem binary_parse_spec (input : list u8) (ms : list (list u8)) :
  parse input = Ok ms <-> framed input ms.
Proof. apply parse_framed. Qed.

(** Writing any payloads below 2 GiB one after the other and parsing the bytes gives the
    payloads back, in order. *)
Theorem binary_write_parse (payloads : list (list u8)) :
  Forall (fun p => len p < 2 ^ 31) payloads ->
  parse (concat (map write payloads)) = Ok payloads.
Proof. intros H. by apply parse_framed, framed_write_all. Qed.

Lemma binary_write_parse_witness :
  parse (concat (map write [[Byte.x20; Byte.x1e]; []; repeat Byte.xff 300])) =
    Ok [[Byte.x20; Byte.x1e]; []; repeat Byte.xff 300].
Proof. apply binary_write_parse. repeat constructor. Defined.

(** [parse] returns on every input: neither loop runs out of iterations and no index is out
    of range, whatever the bytes are. *)
Theorem binary_parse_total (input : list u8) :
  exists r, parse_loop (S (length input)) input 0 [] = Some r /\ parse input = r.
Proof. exists (parse input). split; [apply parse_run|done]. Qed.

(** C38: the 2 GiB limit is enforced on both sides: every message [parse] returns is shorter than
    2^31 bytes and the messages fit into the input, and a single written payload is read back
    exactly when it is shorter than 2^31 bytes. *)
Theorem binary_bounds (input : list u8) (ms : list (list u8)) (payload : list u8) :
  (parse input = Ok ms ->
    Forall (fun m => len m < 2 ^ 31) ms /\ len (concat ms) + len ms <= len input) /\
  (parse (write payload) = Ok [payload] <-> len payload < 2 ^ 31).
Proof.
  split; [intros H; by apply framed_bounds, parse_framed|]. split; intros H.
  - apply parse_framed, framed_bounds in H as [H _]. by apply Forall_inv in H.
  - rewrite <- (app_nil_r (write payload)). apply parse_framed, (framed_write_all [payload]).
    by constructor.
Qed.

Lemma binary_bounds_witness :
  Forall (fun m => len m < 2 ^ 31) [[Byte.xff]; [Byte.x7f]] /\ 2 + 2 <= 4.
Proof.
  exact (proj1 (binary_bounds [Byte.x01; Byte.xff; Byte.x01; Byte.x7f] [[Byte.xff]; [Byte.x7f]] [])
           eq_refl).
Defined.

End Binary.

Module Text.

(** [RECORD_SEPARATOR] *)
Definition RECORD_SEPARATOR : ascii := ascii_of_nat 30.

(** [TextMessageFormat::write] *)
Definition write (output : string) : string :=
  (output ++ String RECORD_SEPARATOR EmptyString)%string.

(** [str::split] on a character. *)
Fixpoint split (sep : ascii) (s : string) : list string :=
  match s with
  | EmptyString => [EmptyString]
  | String c s' =>
      if Ascii.eqb c sep then EmptyString :: split sep s'
      else match split sep s' with
           | part :: parts => String c part :: parts
           | [] => [String c EmptyString]
           end
  end.

Fixpoint ends_with (c : ascii) (s : string) : bool :=
  match s with
  | EmptyString => false
  | String d EmptyString => Ascii.eqb d c
  | String _ s' => ends_with c s'
  end.

Definition is_empty (s : string) : bool :=
  match s with EmptyString => true | _ => false end.

(** [TextMessageFormat::parse] *)
Definition parse (input : string) : result FramingError (list string) :=
  if is_empty input || negb (ends_with RECORD_SEPARATOR input)
  then Err IncompleteMessage
  else Ok (List.filter (fun part => negb (is_empty part)) (split RECORD_SEPARATOR input)).

(** [s.contains(c)] *)
Fixpoint contains (c : ascii) (s : string) : bool :=
  match s with
  | EmptyString => false
  | String d s' => Ascii.eqb d c || contains c s'
  end.

(** A record that survives framing: not empty, without a separator inside. *)
Definition is_record (s : string) : bool :=
  negb (is_empty s) && negb (contains RECORD_SEPARATOR s).

(** [input] without the character [c]. *)
Fixpoint without (c : ascii) (s : string) : string :=
  match s with
  | EmptyString => EmptyString
  | String d s' => if Ascii.eqb d c then without c s' else String d (without c s')
  end.

(** The frames of [ss], one after the other. *)
Definition write_all (ss : list string) : string :=
  foldr (fun s acc => (write s ++ acc)%string) EmptyString ss.

Lemma split_write s rest :
  contains RECORD_SEPARATOR s = false ->
  split RECORD_SEPARATOR (write s ++ rest)%string = s :: split RECORD_SEPARATOR rest.
Proof.
  unfold write. induction s as [|c s IH]; simpl; [done|].
  intros [Hc Hs]%orb_false_iff. rewrite Hc, IH by done. done.
Qed.

Lemma ends_with_app c s d t : ends_with c (s ++ String d t)%string = ends_with c (String d t).
Proof.
  induction s as [|e s IH]; [done|]. cbn [String.append]. rewrite <- IH.
  destruct s; done.
Qed.

Lemma ends_with_write s : ends_with RECORD_SEPARATOR (write s) = true.
Proof. unfold write. rewrite ends_with_app. reflexivity. Qed.

Lemma string_app_nil_r s : (s ++ "")%string = s.
Proof. induction s as [|c s IH]; [done|]. exact (f_equal (String c) IH). Qed.

Lemma write_all_cons s ss : write_all (s :: ss) = (write s ++ write_all ss)%string.
Proof. done. Qed.

Lemma write_nonempty s : is_empty (write s) = false.
Proof. by destruct s. Qed.

Lemma is_empty_app s t : is_empty s = false -> is_empty (s ++ t)%string = false.
Proof. by destruct s. Qed.

Lemma ends_with_write_all ss :
  ss <> [] -> ends_with RECORD_SEPARATOR (write_all ss) = true.
Proof.
  induction ss as [|s [|t ss] IH]; [done|..]; intros _; rewrite write_all_cons.
  - rewrite string_app_nil_r. apply ends_with_write.
  - rewrite write_all_cons in *. destruct (write t ++ write_all ss)%string eqn:E.
    + exfalso. by destruct t.
    + rewrite ends_with_app. by apply IH.
Qed.

Lemma split_write_all ss :
  Forall (fun s => is_record s = true) ss ->
  List.filter (fun part => negb (is_empty part)) (split RECORD_SEPARATOR (write_all ss)) = ss.
Proof.
  induction 1 as [|s ss Hs Hss IH]; [done|]. unfold is_record in Hs. bool_to_prop.
  rewrite write_all_cons, split_write by done. simpl.
  replace (is_empty s) with false. simpl. by rewrite IH.
Qed.

Lemma parse_write_all ss :
  ss <> [] -> Forall (fun s => is_record s = true) ss -> parse (write_all ss) = Ok ss.
Proof.
  intros Hne Hss. unfold parse. rewrite ends_with_write_all by done.
  replace (is_empty (write_all ss)) with false.
  2: { destruct ss as [|s ss]; [done|]. rewrite write_all_cons. by destruct s. }
  cbn [orb negb]. by rewrite split_write_all.
Qed.

Lemma split_parts c s :
  Forall (fun part => contains c part = false) (split c s) /\
  foldr String.append EmptyString (split c s) = without c s.
Proof.
  induction s as [|d s [IH1 IH2]]; simpl; [by repeat constructor|].
  destruct (Ascii.eqb d c) eqn:E; [by split; [constructor|]|].
  destruct (split c s) as [|p ps]; simpl in *.
  - split; [constructor; [|done]; simpl; by rewrite E|by rewrite <- IH2].
  - apply Forall_cons in IH1 as [Hp Hps].
    split; [constructor; [simpl; by rewrite E, Hp|done]|by rewrite <- IH2].
Qed.

Lemma concat_nonempty_parts parts :
  foldr String.append EmptyString (List.filter (fun p => negb (is_empty p)) parts) =
  foldr String.append EmptyString parts.
Proof. induction parts as [|[|c p] ps IH]; simpl; [done|done|by rewrite IH]. Qed.

(** Text framing round trip: writing a non-empty list of non-empty records that do not
    contain the record separator, one after the other, and parsing the text gives the records
    back. *)
Theorem text_write_parse (ss : list string) :
  ss <> [] -> Forall (fun s => is_record s = true) ss -> parse (write_all ss) = Ok ss.
Proof. apply parse_write_all. Qed.

Lemma text_write_parse_witness : parse (write_all ["lol"; "kek"]) = Ok ["lol"; "kek"].
Proof. apply text_write_parse; [done|]. repeat constructor. Defined.

(** The text parser loses and invents nothing: it fails (as incomplete) exactly on inputs
    that do not end with the record separator, and otherwise returns records that are not empty,
    hold no separator, and together are the input without its separators. *)
Theorem text_parse_spec (input : string) :
  match parse input with
  | Err e => e = IncompleteMessage /\ ends_with RECORD_SEPARATOR input = false
  | Ok ms => ends_with RECORD_SEPARATOR input = true /\
      Forall (fun s => is_record s = true) ms /\
      foldr String.append EmptyString ms = without RECORD_SEPARATOR input
  end.
Proof.
  unfold parse. destruct (ends_with RECORD_SEPARATOR input) eqn:E; simpl.
  2: { by rewrite orb_true_r. }
  destruct (is_empty input) eqn:Hi; [by destruct input|]. cbn [orb].
  destruct (split_parts RECORD_SEPARATOR input) as [Hparts Hcat].
  split_and!; [done| |by rewrite concat_nonempty_parts].
  apply List.Forall_forall. intros s [Hin Hs]%filter_In.
  unfold is_record. rewrite Hs. simpl.
  rewrite List.Forall_forall in Hparts. by rewrite (Hparts s Hin).
Qed.

End Text.
