(* ===== verification/Utf8.v ===== *)
(** * Rust strings: UTF-8 validation and number formatting

    The parts of Rust's standard library that the client relies on when it turns received bytes
    into a [String]: [String::from_utf8] with the text of its error, and [to_string] on
    integers. *)

From Stdlib Require Import ZArith Lia String.
From stdpp Require Import base list strings pretty.
From S2P Require Import Prelude.

Local Open Scope Z_scope.

Definition in_range (lo hi : Z) (b : u8) : bool :=
  (lo <=? u8_to_Z b) && (u8_to_Z b <=? hi).

(** A continuation byte [0x80..=0xbf]. *)
Definition continuation : u8 -> bool := in_range 0x80 0xbf.

(** The second byte allowed after a leading byte of width three or four. *)
Definition second_ok (b0 b1 : u8) : bool :=
  (in_range 0xe0 0xe0 b0 && in_range 0xa0 0xbf b1)
  || (in_range 0xe1 0xec b0 && continuation b1)
  || (in_range 0xed 0xed b0 && in_range 0x80 0x9f b1)
  || (in_range 0xee 0xef b0 && continuation b1)
  || (in_range 0xf0 0xf0 b0 && in_range 0x90 0xbf b1)
  || (in_range 0xf1 0xf3 b0 && continuation b1)
  || (in_range 0xf4 0xf4 b0 && in_range 0x80 0x8f b1).

(** Validation from byte [index] on: [None] when the bytes are UTF-8, otherwise the error with
    [valid_up_to] and [error_len]. *)
Fixpoint utf8_check (bytes : list u8) (index : Z) : option (Z * option Z) :=
  match bytes with
  | [] => None
  | b0 :: l0 =>
      if u8_to_Z b0 <? 0x80 then utf8_check l0 (index + 1)
      else if in_range 0xc2 0xdf b0 then
        match l0 with
        | [] => Some (index, None)
        | b1 :: l1 => if continuation b1 then utf8_check l1 (index + 2) else Some (index, Some 1)
        end
      else if in_range 0xe0 0xef b0 then
        match l0 with
        | [] => Some (index, None)
        | b1 :: l1 =>
            if second_ok b0 b1 then
              match l1 with
              | [] => Some (index, None)
              | b2 :: l2 =>
                  if continuation b2 then utf8_check l2 (index + 3) else Some (index, Some 2)
              end
            else Some (index, Some 1)
        end
      else if in_range 0xf0 0xf4 b0 then
        match l0 with
        | [] => Some (index, None)
        | b1 :: l1 =>
            if second_ok b0 b1 then
              match l1 with
              | [] => Some (index, None)
              | b2 :: l2 =>
                  if continuation b2 then
                    match l2 with
                    | [] => Some (index, None)
                    | b3 :: l3 =>
                        if continuation b3 then utf8_check l3 (index + 4)
                        else Some (index, Some 3)
                    end
                  else Some (index, Some 2)
              end
            else Some (index, Some 1)
        end
      else Some (index, Some 1)
  end.

Definition utf8_valid (bytes : list u8) : bool :=
  match utf8_check bytes 0 with None => true | Some _ => false end.

(** [to_string] of [Utf8Error]. *)
Definition utf8_error_text (e : Z * option Z) : string :=
  match e with
  | (valid_up_to, Some error_len) =>
      ("invalid utf-8 sequence of " +:+ pretty error_len +:+ " bytes from index "
       +:+ pretty valid_up_to)%string
  | (valid_up_to, None) =>
      ("incomplete utf-8 byte sequence from index " +:+ pretty valid_up_to)%string
  end.

(** [String::from_utf8], with the error as its text. *)
Definition from_utf8 (bytes : list u8) : result string string :=
  match utf8_check bytes 0 with
  | None => Ok (string_of_bytes bytes)
  | Some e => Err (utf8_error_text e)
  end.

(** [s] is a Rust [String]: its bytes are UTF-8. *)
Definition is_str (s : string) : bool := utf8_valid (bytes_of_string s).

(** ** Lemmas *)

Lemma utf8_check_shift bytes i j : utf8_check bytes i = None -> utf8_check bytes j = None.
Proof.
  revert i j. induction bytes as [bytes IH] using (well_founded_induction
    (well_founded_ltof _ (@length u8))). unfold ltof in IH.
  intros i j. destruct bytes as [|b0 l0]; [done|]. cbn [utf8_check].
  break; intros; eapply IH; try done; simpl; lia.
Qed.

Lemma utf8_check_app l k i :
  utf8_check l i = None -> utf8_check k 0 = None -> utf8_check (l ++ k) i = None.
Proof.
  revert i. induction l as [l IH] using (well_founded_induction
    (well_founded_ltof _ (@length u8))). unfold ltof in IH.
  intros i Hl Hk. destruct l as [|b0 l0]; [by apply utf8_check_shift with 0|].
  cbn [utf8_check app] in *.
  destruct (_ <? 0x80); [apply IH; [simpl; lia|done|done]|].
  destruct (in_range 0xc2 0xdf b0).
  { destruct l0 as [|b1 l1]; [done|]. cbn [app]. destruct (continuation b1); [|done].
    apply IH; [simpl; lia|done|done]. }
  destruct (in_range 0xe0 0xef b0).
  { destruct l0 as [|b1 l1]; [done|]. cbn [app]. destruct (second_ok b0 b1); [|done].
    destruct l1 as [|b2 l2]; [done|]. cbn [app]. destruct (continuation b2); [|done].
    apply IH; [simpl; lia|done|done]. }
  destruct (in_range 0xf0 0xf4 b0); [|done].
  destruct l0 as [|b1 l1]; [done|]. cbn [app]. destruct (second_ok b0 b1); [|done].
  destruct l1 as [|b2 l2]; [done|]. cbn [app]. destruct (continuation b2); [|done].
  destruct l2 as [|b3 l3]; [done|]. cbn [app]. destruct (continuation b3); [|done].
  apply IH; [simpl; lia|done|done].
Qed.

Lemma utf8_valid_iff l : utf8_valid l = true <-> utf8_check l 0 = None.
Proof. unfold utf8_valid. by destruct (utf8_check l 0). Qed.

Lemma utf8_valid_app l k : utf8_valid l = true -> utf8_valid k = true -> utf8_valid (l ++ k) = true.
Proof. rewrite !utf8_valid_iff. apply utf8_check_app. Qed.

Lemma utf8_valid_ascii l : Forall (fun b => u8_to_Z b < 0x80) l -> utf8_valid l = true.
Proof.
  rewrite utf8_valid_iff. generalize 0 as i. induction l as [|b l IH]; intros i Hl; [done|].
  apply Forall_cons in Hl as [Hb Hl]. cbn [utf8_check].
  replace (u8_to_Z b <? 0x80) with true by lia. by apply IH.
Qed.

Lemma from_utf8_valid l : utf8_valid l = true -> from_utf8 l = Ok (string_of_bytes l).
Proof. rewrite utf8_valid_iff. unfold from_utf8. by intros ->. Qed.

Lemma from_utf8_str s : is_str s = true -> from_utf8 (bytes_of_string s) = Ok s.
Proof. intros H. rewrite from_utf8_valid by done. by rewrite string_of_bytes_of_string. Qed.

(** Valid bytes are ASCII bytes and sequences of bytes above them that are valid on their own. *)
Lemma utf8_valid_ind (P : list u8 -> Prop) :
  P [] ->
  (forall b l, u8_to_Z b < 0x80 -> P l -> P (b :: l)) ->
  (forall p l, Forall (fun b => 0x80 <= u8_to_Z b) p -> utf8_valid p = true -> P l -> P (p ++ l)) ->
  forall l, utf8_valid l = true -> P l.
Proof.
  intros Hnil Hascii Hseq l Hl. apply utf8_valid_iff in Hl. revert Hl. generalize 0 as i.
  induction l as [l IH] using (well_founded_induction (well_founded_ltof _ (@length u8))).
  unfold ltof in IH. intros i. destruct l as [|b0 l0]; [done|].
  assert (Hrange : forall lo hi b, in_range lo hi b = true -> 0x80 <= lo -> 0x80 <= u8_to_Z b).
  { unfold in_range. intros. bool_to_prop. lia. }
  assert (Hsecond : forall b1, second_ok b0 b1 = true -> 0x80 <= u8_to_Z b1).
  { unfold second_ok, continuation, in_range. intros b1 H. bool_to_prop.
    repeat (destruct H as [H|H]; bool_to_prop; [lia|]). bool_to_prop. lia. }
  cbn [utf8_check]. destruct (u8_to_Z b0 <? 0x80) eqn:E0.
  { intros Hl. apply Hascii; [lia|]. eapply IH; [simpl; lia|done]. }
  assert (Hb0 : 0x80 <= u8_to_Z b0) by lia.
  destruct (in_range 0xc2 0xdf b0) eqn:E2; [|destruct (in_range 0xe0 0xef b0) eqn:E3;
    [|destruct (in_range 0xf0 0xf4 b0) eqn:E4; [|done]]].
  - destruct l0 as [|b1 l1]; [done|]. destruct (continuation b1) eqn:C1; [|done].
    intros Hl. apply (Hseq [b0; b1]); [by repeat constructor; try by eapply Hrange| |eapply IH; [simpl; lia|done]].
    unfold utf8_valid. cbn [utf8_check]. by rewrite E0, E2, C1.
  - destruct l0 as [|b1 l1]; [done|]. destruct (second_ok b0 b1) eqn:C1; [|done].
    destruct l1 as [|b2 l2]; [done|]. destruct (continuation b2) eqn:C2; [|done].
    intros Hl. apply (Hseq [b0; b1; b2]); [|
      unfold utf8_valid; cbn [utf8_check]; by rewrite E0, E2, E3, C1, C2|eapply IH; [simpl; lia|done]].
    repeat constructor; [done|by apply Hsecond|by eapply Hrange].
  - destruct l0 as [|b1 l1]; [done|]. destruct (second_ok b0 b1) eqn:C1; [|done].
    destruct l1 as [|b2 l2]; [done|]. destruct (continuation b2) eqn:C2; [|done].
    destruct l2 as [|b3 l3]; [done|]. destruct (continuation b3) eqn:C3; [|done].
    intros Hl. apply (Hseq [b0; b1; b2; b3]); [|
      unfold utf8_valid; cbn [utf8_check]; by rewrite E0, E2, E3, E4, C1, C2, C3|eapply IH; [simpl; lia|done]].
    repeat constructor; [done|by apply Hsecond|by eapply Hrange..].
Qed.
