(* ===== verification/Errors.v ===== *)
(** * Errors of the client ([src/error.rs], [src/hub/protocol.rs]) and the wire format tag

    [Error] and [ProtocolError] keep the constructors of the source.  An error of a third-party
    crate is its display text. *)

From Stdlib Require Import ZArith String.
From stdpp Require Import base strings.
From S2P Require Import Prelude Framing.

(** [Error] *)
Inductive Error : Type :=
| EUrlParse (s : string)
| EHttp (s : string)
| EWebSocket (s : string)
| ENegotiate (s : string)
| EUnauthorized (s : string)
| EHandshake (s : string)
| EFraming (e : FramingError)
| EJson (s : string)
| ENotConnected
| ECanceled
| EInvocation (s : string)
| EAborted (s : string)
| EInvalidState (s : string)
| EProtocol (s : string)
| EInvalidArguments (s : string).

(** [Display] of [FramingError] *)
Definition framing_error_text (e : FramingError) : string :=
  match e with
  | IncompleteMessage => "message is incomplete"
  | CannotReadSize => "cannot read message size"
  | MessageTooLarge => "messages bigger than 2GB are not supported"
  end.

(** [Display] of [Error] *)
Definition error_text (e : Error) : string :=
  match e with
  | EUrlParse s => "URL parse error: " +:+ s
  | EHttp s => "HTTP request failed: " +:+ s
  | EWebSocket s => "WebSocket error: " +:+ s
  | ENegotiate s => "negotiate failed: " +:+ s
  | EUnauthorized s => "unauthorized: " +:+ s
  | EHandshake s => "handshake failed: " +:+ s
  | EFraming e => "framing error: " +:+ framing_error_text e
  | EJson s => "JSON error: " +:+ s
  | ENotConnected => "not connected"
  | ECanceled => "invocation canceled"
  | EInvocation s => "invocation error: " +:+ s
  | EAborted s => "connection aborted: " +:+ s
  | EInvalidState s => "invalid connection state: " +:+ s
  | EProtocol s => "protocol error: " +:+ s
  | EInvalidArguments s => "invalid invocation arguments: " +:+ s
  end.

(** [ProtocolError] *)
Inductive ProtocolError : Type :=
| PInvalidInput (s : string)
| PInvalidPayload (s : string)
| PMessagePack (s : string)
| PJson (s : string)
| PFraming (e : FramingError).

(** [Display] of [ProtocolError] *)
Definition protocol_error_text (e : ProtocolError) : string :=
  match e with
  | PInvalidInput s => "invalid input: " +:+ s
  | PInvalidPayload s => "invalid payload: " +:+ s
  | PMessagePack s => "messagepack error: " +:+ s
  | PJson s => s
  | PFraming e => framing_error_text e
  end.

(** [impl From<ProtocolError> for Error] *)
Definition error_from_protocol (e : ProtocolError) : Error :=
  match e with
  | PJson s => EJson s
  | PFraming e => EFraming e
  | other => EProtocol (protocol_error_text other)
  end.

(** [TransferFormat] *)
Inductive TransferFormat : Type :=
| FText
| FBinary.

(** [HubProtocolInput] *)
Inductive HubProtocolInput : Type :=
| IText (text : string)
| IBinary (bytes : list u8).

#[global] Instance Error_eq_dec : EqDecision Error.
Proof. solve_decision. Defined.
#[global] Instance ProtocolError_eq_dec : EqDecision ProtocolError.
Proof. solve_decision. Defined.
#[global] Instance TransferFormat_eq_dec : EqDecision TransferFormat.
Proof. solve_decision. Defined.
