(* ===== verification/Values.v ===== *)
(** * Dynamic values: [serde_json::Value], [rmpv::Value] and the codecs behind them

    The two value types are the public data of the crates [serde_json] and [rmpv].  What those
    crates compute on text and bytes is not part of the client: it is the parameter of the
    classes [JsonText] and [MsgPack], and the classes [JsonTextLaws] and [MsgPackLaws] state the
    documented behaviour the client relies on. *)

From Stdlib Require Import ZArith Lia String Ascii.
From stdpp Require Import base list strings gmap.
From S2P Require Import Prelude Framing Utf8.

Local Open Scope Z_scope.

(** ** [serde_json::Value] *)

(** [serde_json::Number]: an unsigned or a negative 64-bit integer or a float (its bits). *)
Inductive number : Type :=
| PosInt (n : Z)
| NegInt (n : Z)
| Float (bits : Z).

(** An object is a [serde_json::Map]: a [BTreeMap], kept in the order of its keys. *)
Inductive json : Type :=
| JNull
| JBool (b : bool)
| JNumber (n : number)
| JString (s : string)
| JArray (l : list json)
| JObject (m : list (string * json)).

Abbreviation object := (list (string * json)).

(** [Map::insert] *)
Fixpoint obj_insert (k : string) (v : json) (m : object) : object :=
  match m with
  | [] => [(k, v)]
  | (k', v') :: m' =>
      match String.compare k k' with
      | Lt => (k, v) :: m
      | Eq => (k, v) :: m'
      | Gt => (k', v') :: obj_insert k v m'
      end
  end.

(** [Map::get] *)
Fixpoint obj_get (k : string) (m : object) : option json :=
  match m with
  | [] => None
  | (k', v') :: m' => if String.eqb k k' then Some v' else obj_get k m'
  end.

(** [iter.collect::<Map<_, _>>()] *)
Definition obj_collect (l : list (string * json)) : object :=
  fold_left (fun m kv => obj_insert kv.1 kv.2 m) l [].

(** [iter.collect::<HashMap<String, String>>()] *)
Definition hash_collect (l : list (string * string)) : gmap string string :=
  fold_left (fun h kv => <[kv.1 := kv.2]> h) l ∅.

(** [Number::as_i64], [as_u64], and [From<i64>]. *)
Definition num_as_i64 (n : number) : option Z :=
  match n with
  | PosInt n => if n <=? i64_max then Some n else None
  | NegInt n => Some n
  | Float _ => None
  end.

Definition num_as_u64 (n : number) : option Z :=
  match n with PosInt n => Some n | _ => None end.

(** [Number::as_f64] on a number that holds a float. *)
Definition num_float (n : number) : option Z :=
  match n with Float bits => Some bits | _ => None end.

Definition num_from_i64 (z : Z) : number := if z <? 0 then NegInt z else PosInt z.

(** [Value::as_i64], [as_str], [as_array], [as_object], [as_bool] *)
Definition j_as_i64 (v : json) : option Z :=
  match v with JNumber n => num_as_i64 n | _ => None end.
Definition j_as_str (v : json) : option string :=
  match v with JString s => Some s | _ => None end.
Definition j_as_array (v : json) : option (list json) :=
  match v with JArray l => Some l | _ => None end.
Definition j_as_object (v : json) : option object :=
  match v with JObject m => Some m | _ => None end.
Definition j_as_bool (v : json) : option bool :=
  match v with JBool b => Some b | _ => None end.

(** ** [rmpv::Value] *)

(** An integer is a [u64] or an [i64]; a string read from the wire may hold bytes that are not
    UTF-8; a float is its bits. *)
Inductive mp_value : Type :=
| MNil
| MBoolean (b : bool)
| MInteger (n : Z)
| MF32 (bits : Z)
| MF64 (bits : Z)
| MString (s : string)
| MInvalidString (bytes : list u8)
| MBinary (bytes : list u8)
| MArray (l : list mp_value)
| MMap (m : list (mp_value * mp_value))
| MExt (tag : Z) (bytes : list u8).

(** [Value::as_i64], [as_u64], [as_str], [as_bool], [as_array] *)
Definition m_as_i64 (v : mp_value) : option Z :=
  match v with MInteger n => if n <=? i64_max then Some n else None | _ => None end.
Definition m_as_u64 (v : mp_value) : option Z :=
  match v with MInteger n => if 0 <=? n then Some n else None | _ => None end.
Definition m_as_str (v : mp_value) : option string :=
  match v with MString s => Some s | _ => None end.
Definition m_as_bool (v : mp_value) : option bool :=
  match v with MBoolean b => Some b | _ => None end.
Definition m_as_array (v : mp_value) : option (list mp_value) :=
  match v with MArray l => Some l | _ => None end.

(** ** Induction *)

Section json_induction.
Context (P : json -> Prop).
Context (Hnull : P JNull) (Hbool : forall b, P (JBool b)) (Hnum : forall n, P (JNumber n)).
Context (Hstr : forall s, P (JString s)).
Context (Harr : forall l, Forall P l -> P (JArray l)).
Context (Hobj : forall m, Forall (fun kv => P kv.2) m -> P (JObject m)).

Fixpoint json_ind' (v : json) : P v :=
  match v with
  | JNull => Hnull
  | JBool b => Hbool b
  | JNumber n => Hnum n
  | JString s => Hstr s
  | JArray l => Harr l ((fix go l : Forall P l :=
      match l with [] => Forall_nil_2 P | v :: l => Forall_cons_2 P v l (json_ind' v) (go l) end) l)
  | JObject m => Hobj m ((fix go (m : object) : Forall (fun kv => P kv.2) m :=
      match m with
      | [] => Forall_nil_2 _
      | (k, v) :: m => Forall_cons_2 (fun kv => P kv.2) (k, v) m (json_ind' v) (go m)
      end) m)
  end.
End json_induction.

Section mp_induction.
Context (P : mp_value -> Prop).
Context (Hleaf : forall v, (forall l, v <> MArray l) -> (forall m, v <> MMap m) -> P v).
Context (Harr : forall l, Forall P l -> P (MArray l)).
Context (Hmap : forall m, Forall (fun kv => P kv.1 /\ P kv.2) m -> P (MMap m)).

Fixpoint mp_ind' (v : mp_value) : P v.
Proof.
  destruct v as [| | | | | | | |l|m|]; try (apply Hleaf; intros ? ?; discriminate).
  - apply Harr. induction l as [|v l IH]; constructor; [apply mp_ind'|apply IH].
  - apply Hmap. induction m as [|[k v] m IH]; constructor; [split; apply mp_ind'|apply IH].
Defined.
End mp_induction.

(** ** Well-formed values *)

(** Keys in strictly increasing order, as a [BTreeMap] keeps them. *)
Fixpoint keys_sorted (ks : list string) : bool :=
  match ks with
  | k :: ((k' :: _) as rest) =>
      match String.compare k k' with Lt => keys_sorted rest | _ => false end
  | _ => true
  end.

(** What every [serde_json::Value] satisfies: integers in range, floats as [fl] says, strings of
    UTF-8 bytes, objects with sorted keys. *)
Fixpoint json_wf (fl : Z -> bool) (v : json) : bool :=
  match v with
  | JNull | JBool _ => true
  | JNumber (PosInt n) => (0 <=? n) && (n <=? u64_max)
  | JNumber (NegInt n) => (i64_min <=? n) && (n <? 0)
  | JNumber (Float bits) => fl bits
  | JString s => is_str s
  | JArray l => forallb (json_wf fl) l
  | JObject m => keys_sorted (map fst m) && forallb (fun kv => is_str kv.1 && json_wf fl kv.2) m
  end.

(** No floats: the text of a float may not read back to the same bits. *)
Definition json_exact : json -> bool := json_wf (fun _ => false).

(** A finite [f64], the only floats [serde_json] numbers hold. *)
Definition finite_f64 (bits : Z) : bool :=
  (0 <=? bits) && (bits <? 2 ^ 64) && negb (Z.land (Z.shiftr bits 52) 0x7ff =? 0x7ff).

(** Nesting of arrays and objects. *)
Fixpoint json_depth (v : json) : Z :=
  match v with
  | JArray l => 1 + foldr (fun v d => Z.max (json_depth v) d) 0 l
  | JObject m => 1 + foldr (fun kv d => Z.max (json_depth kv.2) d) 0 m
  | _ => 0
  end.

(** ** JSON text ([serde_json]) *)

Class JsonText := {
  json_to_string : json -> result string string;
  json_from_str : string -> result string json
}.

(** Printing a value succeeds with a non-empty text of UTF-8 bytes without control characters
    (JSON escapes them inside strings), and reading it back gives the value when it is nested
    less than the reader's recursion limit of 128. *)
Class JsonTextLaws (JT : JsonText) : Prop := {
  json_print_read : forall v, json_exact v = true -> json_depth v < 128 ->
    exists s, json_to_string v = Ok s /\ json_from_str s = Ok v /\
      Text.is_record s = true /\ is_str s = true
}.

(** ** MessagePack bytes ([rmp], [rmpv]) *)

(** [rmp::Marker] *)
Inductive Marker : Type :=
| FixPos (n : Z) | FixNeg (n : Z) | FixMap (n : Z) | FixArray (n : Z) | FixStr (n : Z)
| Null | Reserved | False_ | True_
| Bin8 | Bin16 | Bin32 | Ext8 | Ext16 | Ext32 | F32 | F64
| U8 | U16 | U32 | U64 | I8 | I16 | I32 | I64
| FixExt1 | FixExt2 | FixExt4 | FixExt8 | FixExt16
| Str8 | Str16 | Str32 | Array16 | Array32 | Map16 | Map32.

(** [rmpv::encode::write_value] into a [Vec], [rmpv::decode::read_value],
    [rmp::decode::read_array_len] and [rmp::decode::read_marker] on a slice (with the rest of the
    slice), and [serde_json::to_value] of an [rmpv::Value].  Errors are their texts. *)
Class MsgPack := {
  mp_write_value : mp_value -> result string (list u8);
  mp_read_value : list u8 -> result string (mp_value * list u8);
  mp_read_array_len : list u8 -> option (Z * list u8);
  mp_read_marker : list u8 -> option (Marker * list u8);
  mp_to_json : mp_value -> result string json
}.

(** ** Lemmas on objects *)

Lemma json_exact_object m :
  json_exact (JObject m) =
    keys_sorted (map fst m) && forallb (fun kv => is_str kv.1 && json_exact kv.2) m.
Proof. done. Qed.

Lemma obj_get_insert k k' v m :
  obj_get k (obj_insert k' v m) = if String.eqb k k' then Some v else obj_get k m.
Proof.
  induction m as [|[k1 v1] m IH]; [done|]. cbn [obj_insert].
  destruct (String.compare k' k1) eqn:E; cbn [obj_get]; [|done|].
  - apply String.compare_eq_iff in E as ->. by destruct (String.eqb k k1).
  - rewrite IH. destruct (String.eqb_spec k k1) as [->|]; [|done].
    destruct (String.eqb_spec k1 k') as [->|]; [|done].
    pose proof (String.compare_antisym k' k') as Ha. rewrite E in Ha. done.
Qed.

Lemma keys_sorted_insert k v m :
  keys_sorted (map fst m) = true -> keys_sorted (map fst (obj_insert k v m)) = true.
Proof.
  induction m as [|[k1 v1] m IH]; [done|]. cbn [obj_insert].
  destruct (String.compare k k1) eqn:E.
  - apply String.compare_eq_iff in E as ->. done.
  - cbn [map fst keys_sorted]. by rewrite E.
  - intros Hs. assert (Hm : keys_sorted (map fst m) = true)
      by (simpl in Hs; destruct (map fst m); [done|]; by destruct (String.compare k1 s)).
    specialize (IH Hm). rewrite String.compare_antisym in E.
    destruct (String.compare k1 k) eqn:E'; try done.
    destruct m as [|[k2 v2] m]; cbn [obj_insert map fst keys_sorted] in *; [by rewrite E'|].
    destruct (String.compare k k2); cbn [map fst keys_sorted] in *; [|by rewrite E'|].
    + by rewrite E'.
    + destruct (String.compare k1 k2); done.
Qed.

Lemma forallb_insert (P : string * json -> bool) k v m :
  P (k, v) = true -> forallb P m = true -> forallb P (obj_insert k v m) = true.
Proof.
  intros Hk. induction m as [|[k1 v1] m IH]; cbn [obj_insert forallb]; [by rewrite Hk|].
  intros [H1 Hm]%andb_true_iff. destruct (String.compare k k1); cbn [forallb].
  - by rewrite Hk, Hm.
  - by rewrite Hk, H1, Hm.
  - by rewrite H1, IH.
Qed.

Lemma depth_insert k v m d :
  json_depth v <= d -> json_depth (JObject m) <= 1 + d ->
  json_depth (JObject (obj_insert k v m)) <= 1 + d.
Proof.
  simpl. intros Hv. induction m as [|[k1 v1] m IH]; cbn [obj_insert foldr snd]; [lia|].
  intros Hm. destruct (String.compare k k1); cbn [foldr snd]; lia.
Qed.

Lemma obj_insert_perm k v m :
  k ∉ map fst m -> obj_insert k v m ≡ₚ (k, v) :: m.
Proof.
  induction m as [|[k1 v1] m IH]; [done|]. cbn [map fst obj_insert].
  intros [Hne Hm]%not_elem_of_cons. destruct (String.compare k k1) eqn:E; [|done|].
  - by apply String.compare_eq_iff in E.
  - rewrite IH by done. by constructor.
Qed.

Lemma obj_collect_perm l : NoDup (map fst l) -> obj_collect l ≡ₚ l.
Proof.
  unfold obj_collect. enough (forall acc, NoDup (map fst l ++ map fst acc) ->
    fold_left (fun m kv => obj_insert kv.1 kv.2 m) l acc ≡ₚ l ++ acc) as H.
  { intros Hl. rewrite H by (by rewrite app_nil_r). by rewrite app_nil_r. }
  induction l as [|[k v] l IH]; intros acc; [done|]. cbn [map fst fold_left app snd].
  intros [Hk Hnd]%NoDup_cons. rewrite not_elem_of_app in Hk.
  assert (Hp : obj_insert k v acc ≡ₚ (k, v) :: acc) by (apply obj_insert_perm; tauto).
  assert (Hf : map fst (obj_insert k v acc) ≡ₚ k :: map fst acc)
    by (by rewrite Hp).
  rewrite IH, Hp; [by rewrite Permutation_middle|].
  rewrite Hf, <- Permutation_middle. constructor; [rewrite not_elem_of_app; tauto|done].
Qed.

Lemma hash_collect_list_to_map l :
  NoDup l.*1 -> hash_collect l = list_to_map l.
Proof.
  intros Hl. unfold hash_collect.
  enough (forall (l : list (string * string)) (acc : gmap string string),
    fold_left (fun h kv => <[kv.1 := kv.2]> h) l acc = list_to_map (reverse l) ∪ acc) as H.
  { rewrite H, (right_id_L ∅ (∪)). symmetry. apply list_to_map_proper; [done|].
    symmetry. apply reverse_Permutation. }
  clear. induction l as [|[k v] l IH]; intros acc; simpl; [by rewrite (left_id_L ∅ (∪))|].
  rewrite IH, reverse_cons, list_to_map_app. simpl.
  rewrite <- (assoc_L (∪)). f_equal. by rewrite insert_union_singleton_l, insert_empty.
Qed.
