(* ===== verification/Arguments.v ===== *)
(** * Invocation arguments ([src/hub/arguments.rs]) and the conversions between the two value
    types ([src/hub/messagepack/write.rs], [src/hub/messagepack/parse.rs])

    Arguments are kept the way the protocol delivered them: a list of JSON values or the bytes
    of one MessagePack array.  They are compared as JSON values, so equality of arguments is the
    relation [args_eq], coarser than Leibniz equality. *)

From Stdlib Require Import ZArith Lia String.
From stdpp Require Import base list strings.
From S2P Require Import Prelude Framing Utf8 Errors Values.

Local Open Scope Z_scope.

(** [Repr]; [Arguments] is an [Arc] of it. *)
Inductive Arguments : Type :=
| AJson (values : list json)
| AMessagePack (bytes : list u8).

(** [Default for Repr] *)
Definition arguments_default : Arguments := AJson [].

(** [json_to_value] *)
Fixpoint json_to_value (value : json) : mp_value :=
  match value with
  | JNull => MNil
  | JBool b => MBoolean b
  | JNumber n =>
      match num_as_i64 n with
      | Some z => MInteger z
      | None =>
          match num_as_u64 n with
          | Some z => MInteger z
          | None => MF64 (default 0 (num_float n))
          end
      end
  | JString s => MString s
  | JArray l => MArray (map json_to_value l)
  | JObject m => MMap (map (fun kv => (MString kv.1, json_to_value kv.2)) m)
  end.

(** [json_to_value] of an [Option] *)
Definition json_to_value_opt (value : option json) : mp_value :=
  match value with None => MNil | Some v => json_to_value v end.

(** [json_array_value] *)
Definition json_array_value (values : list json) : mp_value := MArray (map json_to_value values).

Section arguments.
Context `{MP : MsgPack}.

(** [value_to_json] *)
Definition value_to_json (v : mp_value) : json :=
  match mp_to_json v with Ok j => j | Err _ => JNull end.

(** [value_to_json_array] *)
Definition value_to_json_array (v : mp_value) : result ProtocolError (list json) :=
  match m_as_array v with
  | Some l => Ok (map value_to_json l)
  | None => Err (PInvalidPayload "expected array")
  end.

(** [Arguments::messagepack_value] *)
Definition messagepack_value (a : Arguments) : result ProtocolError mp_value :=
  match a with
  | AJson values => Ok (json_array_value values)
  | AMessagePack bytes =>
      match mp_read_value bytes with
      | Ok (v, _) => Ok v
      | Err e => Err (PMessagePack ("failed to decode arguments: " +:+ e))
      end
  end.

(** [Arguments::json_values] *)
Definition json_values (a : Arguments) : result ProtocolError (list json) :=
  match a with
  | AJson values => Ok values
  | AMessagePack _ => v ← messagepack_value a; value_to_json_array v
  end.

(** [Arguments::to_json] *)
Definition arguments_to_json (a : Arguments) : result Error (list json) :=
  map_err error_from_protocol (json_values a).

(** [Arguments::from_messagepack] *)
Definition from_messagepack (bytes : list u8) : result ProtocolError Arguments :=
  match mp_read_array_len bytes with
  | None => Err (PInvalidPayload "expected array")
  | Some _ => Ok (AMessagePack bytes)
  end.

(** [Arguments::deserialize] into a type [T], given the deserializers of the two crates for
    [T]; their errors are their texts. *)
Definition deserialize {T} (from_seq : list json -> result string T)
    (from_slice : list u8 -> result string T) (a : Arguments) : result Error T :=
  match a with
  | AJson values => map_err EInvalidArguments (from_seq values)
  | AMessagePack bytes => map_err EInvalidArguments (from_slice bytes)
  end.

(** [PartialEq for Arguments] *)
Definition args_eq (a b : Arguments) : Prop :=
  exists l, json_values a = Ok l /\ json_values b = Ok l.

End arguments.
