(* ===== verification/Message.v ===== *)
(** * Hub messages and their JSON layout ([src/hub/message.rs])

    The message types keep the fields of the source; a [HashMap<String, String>] of headers is a
    [gmap].  [from_json_value] and [to_json_value] translate between messages and JSON values;
    [json_canon] is the message that arrives when a message is written and read back. *)

From Stdlib Require Import ZArith Lia String.
From stdpp Require Import base list strings gmap.
From S2P Require Import Prelude Framing Utf8 Errors Values Arguments.

Local Open Scope Z_scope.

(** [MessageType], with its numbers. *)
Inductive MessageType : Type :=
| TInvocation | TStreamItem | TCompletion | TStreamInvocation | TCancelInvocation
| TPing | TClose | TAck | TSequence.

#[global] Instance MessageType_eq_dec : EqDecision MessageType.
Proof. solve_decision. Defined.

Definition message_type_number (t : MessageType) : Z :=
  match t with
  | TInvocation => 1
  | TStreamItem => 2
  | TCompletion => 3
  | TStreamInvocation => 4
  | TCancelInvocation => 5
  | TPing => 6
  | TClose => 7
  | TAck => 8
  | TSequence => 9
  end.

(** [MessageType::from_i32] *)
Definition from_i32 (value : Z) : option MessageType :=
  match value with
  | 1 => Some TInvocation
  | 2 => Some TStreamItem
  | 3 => Some TCompletion
  | 4 => Some TStreamInvocation
  | 5 => Some TCancelInvocation
  | 6 => Some TPing
  | 7 => Some TClose
  | 8 => Some TAck
  | 9 => Some TSequence
  | _ => None
  end.

Abbreviation headers := (gmap string string).

Record InvocationMessage := {
  inv_headers : headers;
  inv_invocation_id : option string;
  inv_target : string;
  inv_arguments : Arguments;
  inv_stream_ids : option (list string)
}.

Record StreamInvocationMessage := {
  sinv_headers : headers;
  sinv_invocation_id : string;
  sinv_target : string;
  sinv_arguments : list json;
  sinv_stream_ids : option (list string)
}.

Record StreamItemMessage := {
  item_headers : headers;
  item_invocation_id : option string;
  item_item : json
}.

Record CompletionMessage := {
  comp_headers : headers;
  comp_invocation_id : string;
  comp_error : option string;
  comp_result : option json
}.

Record CancelInvocationMessage := {
  cancel_headers : headers;
  cancel_invocation_id : string
}.

Record CloseMessage := {
  close_error : option string;
  close_allow_reconnect : option bool
}.

Record AckMessage := { ack_sequence_id : Z }.

Record SequenceMessage := { seq_sequence_id : Z }.

(** [HubMessage] *)
Inductive HubMessage : Type :=
| HInvocation (m : InvocationMessage)
| HStreamInvocation (m : StreamInvocationMessage)
| HStreamItem (m : StreamItemMessage)
| HCompletion (m : CompletionMessage)
| HCancelInvocation (m : CancelInvocationMessage)
| HPing
| HClose (m : CloseMessage)
| HAck (m : AckMessage)
| HSequence (m : SequenceMessage).

(** [HubMessage::message_type] *)
Definition message_type (m : HubMessage) : MessageType :=
  match m with
  | HInvocation _ => TInvocation
  | HStreamInvocation _ => TStreamInvocation
  | HStreamItem _ => TStreamItem
  | HCompletion _ => TCompletion
  | HCancelInvocation _ => TCancelInvocation
  | HPing => TPing
  | HClose _ => TClose
  | HAck _ => TAck
  | HSequence _ => TSequence
  end.

(** [parse_headers] *)
Definition parse_headers (value : json) : headers :=
  match j_as_object value with
  | Some map =>
      hash_collect (omap (fun kv => (fun s => (kv.1, s)) <$> j_as_str kv.2) map)
  | None => ∅
  end.

(** [parse_optional_string] *)
Definition parse_optional_string (value : option json) : option string :=
  value ≫= j_as_str.

(** [parse_optional_string_list] *)
Definition parse_optional_string_list (value : option json) : option (list string) :=
  (fun value => omap j_as_str (default [] (j_as_array value))) <$> value.

(** [insert_optional_map] *)
Definition insert_optional_map (map : object) (key : string) (value : headers) : object :=
  if decide (value = ∅) then map
  else obj_insert key (JObject (obj_collect ((fun kv => (kv.1, JString kv.2)) <$> map_to_list value)))
         map.

(** [insert_optional_string] *)
Definition insert_optional_string (map : object) (key : string) (value : option string) : object :=
  match value with Some value => obj_insert key (JString value) map | None => map end.

(** [insert_optional_string_list] *)
Definition insert_optional_string_list (map : object) (key : string)
    (value : option (list string)) : object :=
  match value with
  | Some ((_ :: _) as value) => obj_insert key (JArray (JString <$> value)) map
  | _ => map
  end.

(** The [type] entry every message starts with. *)
Definition type_entry (t : MessageType) : object :=
  obj_insert "type" (JNumber (num_from_i64 (message_type_number t))) [].

(** [InvocationMessage::from_json] *)
Definition invocation_from_json (obj : object) : option InvocationMessage :=
  target ← obj_get "target" obj ≫= j_as_str;
  arguments ← obj_get "arguments" obj ≫= j_as_array;
  Some {| inv_headers := parse_headers (default JNull (obj_get "headers" obj));
          inv_invocation_id := parse_optional_string (obj_get "invocationId" obj);
          inv_target := target;
          inv_arguments := AJson arguments;
          inv_stream_ids := parse_optional_string_list (obj_get "streamIds" obj) |}.

(** [InvocationMessage::to_json] *)
Definition invocation_to_json `{MsgPack} (m : InvocationMessage) : result ProtocolError json :=
  let map := type_entry TInvocation in
  let map := insert_optional_map map "headers" (inv_headers m) in
  let map := insert_optional_string map "invocationId" (inv_invocation_id m) in
  let map := obj_insert "target" (JString (inv_target m)) map in
  arguments ← json_values (inv_arguments m);
  let map := obj_insert "arguments" (JArray arguments) map in
  let map := insert_optional_string_list map "streamIds" (inv_stream_ids m) in
  Ok (JObject map).

(** [StreamInvocationMessage::from_json] *)
Definition stream_invocation_from_json (obj : object) : option StreamInvocationMessage :=
  invocation_id ← obj_get "invocationId" obj ≫= j_as_str;
  target ← obj_get "target" obj ≫= j_as_str;
  arguments ← obj_get "arguments" obj ≫= j_as_array;
  Some {| sinv_headers := parse_headers (default JNull (obj_get "headers" obj));
          sinv_invocation_id := invocation_id;
          sinv_target := target;
          sinv_arguments := arguments;
          sinv_stream_ids := parse_optional_string_list (obj_get "streamIds" obj) |}.

(** [StreamInvocationMessage::to_json] *)
Definition stream_invocation_to_json (m : StreamInvocationMessage) : json :=
  let map := type_entry TStreamInvocation in
  let map := insert_optional_map map "headers" (sinv_headers m) in
  let map := obj_insert "invocationId" (JString (sinv_invocation_id m)) map in
  let map := obj_insert "target" (JString (sinv_target m)) map in
  let map := obj_insert "arguments" (JArray (sinv_arguments m)) map in
  let map := insert_optional_string_list map "streamIds" (sinv_stream_ids m) in
  JObject map.

(** [StreamItemMessage::from_json] *)
Definition stream_item_from_json (obj : object) : option StreamItemMessage :=
  item ← obj_get "item" obj;
  Some {| item_headers := parse_headers (default JNull (obj_get "headers" obj));
          item_invocation_id := parse_optional_string (obj_get "invocationId" obj);
          item_item := item |}.

(** [StreamItemMessage::to_json] *)
Definition stream_item_to_json (m : StreamItemMessage) : json :=
  let map := type_entry TStreamItem in
  let map := insert_optional_map map "headers" (item_headers m) in
  let map := insert_optional_string map "invocationId" (item_invocation_id m) in
  JObject (obj_insert "item" (item_item m) map).

(** [CompletionMessage::from_json] *)
Definition completion_from_json (obj : object) : option CompletionMessage :=
  invocation_id ← obj_get "invocationId" obj ≫= j_as_str;
  Some {| comp_headers := parse_headers (default JNull (obj_get "headers" obj));
          comp_invocation_id := invocation_id;
          comp_error := parse_optional_string (obj_get "error" obj);
          comp_result := obj_get "result" obj |}.

(** [CompletionMessage::to_json] *)
Definition completion_to_json (m : CompletionMessage) : json :=
  let map := type_entry TCompletion in
  let map := insert_optional_map map "headers" (comp_headers m) in
  let map := obj_insert "invocationId" (JString (comp_invocation_id m)) map in
  let map := insert_optional_string map "error" (comp_error m) in
  let map := match comp_result m with
             | Some result => obj_insert "result" result map
             | None => map
             end in
  JObject map.

(** [CancelInvocationMessage::from_json] *)
Definition cancel_from_json (obj : object) : option CancelInvocationMessage :=
  invocation_id ← obj_get "invocationId" obj ≫= j_as_str;
  Some {| cancel_headers := parse_headers (default JNull (obj_get "headers" obj));
          cancel_invocation_id := invocation_id |}.

(** [CancelInvocationMessage::to_json] *)
Definition cancel_to_json (m : CancelInvocationMessage) : json :=
  let map := type_entry TCancelInvocation in
  let map := insert_optional_map map "headers" (cancel_headers m) in
  JObject (obj_insert "invocationId" (JString (cancel_invocation_id m)) map).

(** [CloseMessage::from_json] *)
Definition close_from_json (obj : object) : option CloseMessage :=
  Some {| close_error := parse_optional_string (obj_get "error" obj);
          close_allow_reconnect := obj_get "allowReconnect" obj ≫= j_as_bool |}.

(** [CloseMessage::to_json] *)
Definition close_to_json (m : CloseMessage) : json :=
  let map := type_entry TClose in
  let map := insert_optional_string map "error" (close_error m) in
  let map := match close_allow_reconnect m with
             | Some allow_reconnect => obj_insert "allowReconnect" (JBool allow_reconnect) map
             | None => map
             end in
  JObject map.

(** [AckMessage::from_json] and [to_json] *)
Definition ack_from_json (obj : object) : option AckMessage :=
  sequence_id ← obj_get "sequenceId" obj ≫= j_as_i64;
  Some {| ack_sequence_id := sequence_id |}.

Definition ack_to_json (m : AckMessage) : json :=
  JObject (obj_insert "sequenceId" (JNumber (num_from_i64 (ack_sequence_id m)))
             (type_entry TAck)).

(** [SequenceMessage::from_json] and [to_json] *)
Definition sequence_from_json (obj : object) : option SequenceMessage :=
  sequence_id ← obj_get "sequenceId" obj ≫= j_as_i64;
  Some {| seq_sequence_id := sequence_id |}.

Definition sequence_to_json (m : SequenceMessage) : json :=
  JObject (obj_insert "sequenceId" (JNumber (num_from_i64 (seq_sequence_id m)))
             (type_entry TSequence)).

(** [HubMessage::from_json_value] *)
Definition from_json_value (value : json) : option HubMessage :=
  obj ← j_as_object value;
  number ← obj_get "type" obj ≫= j_as_i64;
  message_type ← from_i32 (as_i32 number);
  match message_type with
  | TInvocation => HInvocation <$> invocation_from_json obj
  | TStreamInvocation => HStreamInvocation <$> stream_invocation_from_json obj
  | TStreamItem => HStreamItem <$> stream_item_from_json obj
  | TCompletion => HCompletion <$> completion_from_json obj
  | TCancelInvocation => HCancelInvocation <$> cancel_from_json obj
  | TPing => Some HPing
  | TClose => HClose <$> close_from_json obj
  | TAck => HAck <$> ack_from_json obj
  | TSequence => HSequence <$> sequence_from_json obj
  end.

(** [HubMessage::to_json_value] *)
Definition to_json_value `{MsgPack} (m : HubMessage) : result ProtocolError json :=
  match m with
  | HInvocation m => invocation_to_json m
  | HStreamInvocation m => Ok (stream_invocation_to_json m)
  | HStreamItem m => Ok (stream_item_to_json m)
  | HCompletion m => Ok (completion_to_json m)
  | HCancelInvocation m => Ok (cancel_to_json m)
  | HPing => Ok (JObject (type_entry TPing))
  | HClose m => Ok (close_to_json m)
  | HAck m => Ok (ack_to_json m)
  | HSequence m => Ok (sequence_to_json m)
  end.

(** ** The message that arrives *)

(** An empty list of stream ids is not written. *)
Definition canon_stream_ids (ids : option (list string)) : option (list string) :=
  match ids with Some [] => None | _ => ids end.

(** Arguments arrive as JSON values; everything else is kept. *)
Definition json_canon `{MsgPack} (m : HubMessage) : result ProtocolError HubMessage :=
  match m with
  | HInvocation m =>
      l ← json_values (inv_arguments m);
      Ok (HInvocation {| inv_headers := inv_headers m;
                         inv_invocation_id := inv_invocation_id m;
                         inv_target := inv_target m;
                         inv_arguments := AJson l;
                         inv_stream_ids := canon_stream_ids (inv_stream_ids m) |})
  | HStreamInvocation m =>
      Ok (HStreamInvocation {| sinv_headers := sinv_headers m;
                               sinv_invocation_id := sinv_invocation_id m;
                               sinv_target := sinv_target m;
                               sinv_arguments := sinv_arguments m;
                               sinv_stream_ids := canon_stream_ids (sinv_stream_ids m) |})
  | m => Ok m
  end.

(** The sequence numbers of a message are [i64]s. *)
Definition ids_in_range (m : HubMessage) : bool :=
  match m with
  | HAck m => (i64_min <=? ack_sequence_id m) && (ack_sequence_id m <=? i64_max)
  | HSequence m => (i64_min <=? seq_sequence_id m) && (seq_sequence_id m <=? i64_max)
  | _ => true
  end.

(** ** Reading back what was inserted *)

Lemma get_type_entry k t :
  obj_get k (type_entry t) =
    if String.eqb k "type" then Some (JNumber (num_from_i64 (message_type_number t))) else None.
Proof. apply obj_get_insert. Qed.

Lemma get_optional_string k m key v :
  obj_get k (insert_optional_string m key v) =
    if String.eqb k key then (match v with Some s => Some (JString s) | None => obj_get k m end)
    else obj_get k m.
Proof.
  destruct v as [s|]; cbn [insert_optional_string]; [apply obj_get_insert|].
  by destruct (String.eqb k key).
Qed.

Lemma get_optional_string_list k m key v :
  obj_get k (insert_optional_string_list m key v) =
    if String.eqb k key then
      (match canon_stream_ids v with
       | Some l => Some (JArray (JString <$> l))
       | None => obj_get k m
       end)
    else obj_get k m.
Proof.
  destruct v as [[|s l]|]; cbn [insert_optional_string_list canon_stream_ids];
    rewrite ?obj_get_insert; by destruct (String.eqb k key).
Qed.

Definition headers_value_json (h : headers) : json :=
  JObject (obj_collect ((fun kv => (kv.1, JString kv.2)) <$> map_to_list h)).

Lemma get_optional_map k m key h :
  obj_get k (insert_optional_map m key h) =
    if String.eqb k key then (if decide (h = ∅) then obj_get k m else Some (headers_value_json h))
    else obj_get k m.
Proof.
  unfold insert_optional_map. case_decide; [by destruct (String.eqb k key)|].
  by rewrite obj_get_insert.
Qed.

Lemma omap_strings (l : list string) : omap j_as_str (JString <$> l) = l.
Proof. induction l as [|s l IH]; [done|]. cbn. by rewrite IH. Qed.

Lemma parse_headers_value h : parse_headers (headers_value_json h) = h.
Proof.
  unfold parse_headers, headers_value_json. cbn [j_as_object].
  set (l := (fun kv : string * string => (kv.1, JString kv.2)) <$> map_to_list h).
  assert (Hk : map fst l = (map_to_list h).*1).
  { unfold l. by rewrite <- list_fmap_compose. }
  pose proof (NoDup_fst_map_to_list h) as Hnd.
  assert (Hp : omap (fun kv => (fun s => (kv.1, s)) <$> j_as_str kv.2) (obj_collect l)
               ≡ₚ map_to_list h).
  { rewrite obj_collect_perm by (by rewrite Hk). unfold l. clear.
    induction (map_to_list h) as [|[k v] t IH]; [done|]. cbn. by rewrite IH. }
  rewrite hash_collect_list_to_map by (by rewrite Hp).
  etrans; [symmetry; apply list_to_map_proper; [exact Hnd|by symmetry]|].
  apply list_to_map_to_list.
Qed.

Lemma headers_read m h :
  obj_get "headers" m = None ->
  parse_headers (default JNull (obj_get "headers" (insert_optional_map m "headers" h))) = h.
Proof.
  intros Hm. rewrite get_optional_map. cbn. case_decide as Hh; [by rewrite Hm, Hh|].
  apply parse_headers_value.
Qed.

Lemma num_from_i64_read z :
  i64_min <= z <= i64_max -> num_as_i64 (num_from_i64 z) = Some z.
Proof.
  unfold num_from_i64, num_as_i64. intros Hz. destruct (z <? 0); [done|].
  by replace (z <=? i64_max) with true by lia.
Qed.

Lemma type_read t : from_i32 (as_i32 (message_type_number t)) = Some t.
Proof. by destruct t. Qed.

#[export] Hint Rewrite obj_get_insert get_type_entry get_optional_string
  get_optional_string_list get_optional_map : message.

Lemma canon_list_read ids :
  parse_optional_string_list
    (match canon_stream_ids ids with Some l => Some (JArray (JString <$> l)) | None => None end) =
  canon_stream_ids ids.
Proof.
  destruct ids as [[|s l]|]; [done| |done]. cbn. by rewrite omap_strings.
Qed.

Lemma optional_string_read v :
  parse_optional_string (match v with Some s => Some (JString s) | None => None end) = v.
Proof. by destruct v. Qed.

Lemma optional_headers_read h :
  parse_headers (default JNull (if decide (h = ∅) then None else Some (headers_value_json h))) = h.
Proof. case_decide as Hh; [by rewrite Hh|]. apply parse_headers_value. Qed.

#[export] Hint Rewrite canon_list_read optional_string_read optional_headers_read : message.

Lemma from_json_typed obj t :
  obj_get "type" obj = Some (JNumber (num_from_i64 (message_type_number t))) ->
  from_json_value (JObject obj) =
    match t with
    | TInvocation => HInvocation <$> invocation_from_json obj
    | TStreamInvocation => HStreamInvocation <$> stream_invocation_from_json obj
    | TStreamItem => HStreamItem <$> stream_item_from_json obj
    | TCompletion => HCompletion <$> completion_from_json obj
    | TCancelInvocation => HCancelInvocation <$> cancel_from_json obj
    | TPing => Some HPing
    | TClose => HClose <$> close_from_json obj
    | TAck => HAck <$> ack_from_json obj
    | TSequence => HSequence <$> sequence_from_json obj
    end.
Proof.
  intros Ht. unfold from_json_value. cbn [j_as_object mbind option_bind].
  rewrite Ht. by destruct t.
Qed.

(** Reads a field of an object built by the writers. *)
Ltac read_field :=
  autorewrite with message; cbn [String.eqb Ascii.eqb Bool.eqb].

(** Reads a whole message of type [t]; [unf] unfolds its reader. *)
Ltac read_message t unf :=
  rewrite (from_json_typed _ t) by (by repeat read_field);
  unf; repeat read_field; cbn [mbind option_bind j_as_str j_as_array j_as_i64]; read_field.

Lemma from_to_json_value `{MsgPack} (m : HubMessage) :
  ids_in_range m = true ->
  (v ← to_json_value m; Ok (from_json_value v)) = Some <$> json_canon m.
Proof.
  destruct m as [m|m|m|m|m| |m|m|m]; cbn [to_json_value ids_in_range]; intros Hids.
  - unfold invocation_to_json, json_canon.
    destruct (json_values _) as [l|e]; [|done]. cbn [mbind result_bind].
    read_message TInvocation ltac:(unfold invocation_from_json). done.
  - cbn [mbind result_bind]. unfold stream_invocation_to_json.
    read_message TStreamInvocation ltac:(unfold stream_invocation_from_json). done.
  - cbn [mbind result_bind]. unfold stream_item_to_json.
    read_message TStreamItem ltac:(unfold stream_item_from_json). destruct m; done.
  - cbn [mbind result_bind]. unfold completion_to_json.
    destruct m as [h i e [r|]]; cbn [comp_result comp_headers comp_invocation_id comp_error];
    read_message TCompletion ltac:(unfold completion_from_json); done.
  - cbn [mbind result_bind]. unfold cancel_to_json.
    read_message TCancelInvocation ltac:(unfold cancel_from_json). destruct m; done.
  - done.
  - cbn [mbind result_bind]. unfold close_to_json.
    destruct m as [e [r|]]; cbn [close_allow_reconnect close_error];
    read_message TClose ltac:(unfold close_from_json); done.
  - cbn [mbind result_bind]. unfold ack_to_json.
    read_message TAck ltac:(unfold ack_from_json).
    rewrite num_from_i64_read by (bool_to_prop; lia).
    by destruct m.
  - cbn [mbind result_bind]. unfold sequence_to_json.
    read_message TSequence ltac:(unfold sequence_from_json).
    rewrite num_from_i64_read by (bool_to_prop; lia).
    by destruct m.
Qed.

(** The JSON layout of messages round trips: whenever a message can be written as a JSON
    value, reading that value gives the same message, with its arguments as JSON values and an
    empty list of stream ids dropped; writing fails only when encoded arguments cannot be
    decoded. *)
Theorem json_value_roundtrip `{MsgPack} (m : HubMessage) :
  ids_in_range m = true ->
  (v ← to_json_value m; Ok (from_json_value v)) = Some <$> json_canon m.
Proof. apply from_to_json_value. Qed.

(** ** Messages whose JSON text reads back *)

Definition headers_ok (h : headers) : bool :=
  forallb (fun kv => is_str kv.1 && is_str kv.2) (map_to_list h).

Definition opt_str_ok (o : option string) : bool :=
  match o with Some s => is_str s | None => true end.

Definition strs_ok (o : option (list string)) : bool :=
  match o with Some l => forallb is_str l | None => true end.

Definition value_ok (v : json) : bool := json_exact v && (json_depth v <=? 126).

(** The strings of a message are UTF-8 and its values hold no floats and are not nested too
    deeply for the JSON reader. *)
Definition message_exact `{MsgPack} (m : HubMessage) : bool :=
  match m with
  | HInvocation m =>
      headers_ok (inv_headers m) && opt_str_ok (inv_invocation_id m) && is_str (inv_target m)
      && match json_values (inv_arguments m) with Ok l => value_ok (JArray l) | Err _ => false end
      && strs_ok (inv_stream_ids m)
  | HStreamInvocation m =>
      headers_ok (sinv_headers m) && is_str (sinv_invocation_id m) && is_str (sinv_target m)
      && value_ok (JArray (sinv_arguments m)) && strs_ok (sinv_stream_ids m)
  | HStreamItem m =>
      headers_ok (item_headers m) && opt_str_ok (item_invocation_id m) && value_ok (item_item m)
  | HCompletion m =>
      headers_ok (comp_headers m) && is_str (comp_invocation_id m) && opt_str_ok (comp_error m)
      && match comp_result m with Some v => value_ok v | None => true end
  | HCancelInvocation m => headers_ok (cancel_headers m) && is_str (cancel_invocation_id m)
  | HPing => true
  | HClose m => opt_str_ok (close_error m)
  | HAck _ | HSequence _ => ids_in_range m
  end.

Definition obj_ok (m : object) : Prop :=
  json_exact (JObject m) = true /\ json_depth (JObject m) <= 1 + 126.

Lemma obj_ok_insert k v m :
  is_str k = true -> value_ok v = true -> obj_ok m -> obj_ok (obj_insert k v m).
Proof.
  unfold value_ok, obj_ok. rewrite !json_exact_object.
  intros Hk [Hv Hvd]%andb_true_iff [[Hs Hm]%andb_true_iff Hd]. bool_to_prop. split.
  - rewrite keys_sorted_insert by done.
    rewrite forallb_insert; [done| |done]. cbn. by rewrite Hk, Hv.
  - by apply depth_insert.
Qed.

Lemma forallb_str_values l : forallb is_str l = true -> json_exact (JArray (JString <$> l)) = true.
Proof.
  unfold json_exact. cbn [json_wf]. induction l as [|s l IH]; [done|]. cbn.
  intros [Hs Hl]%andb_true_iff. by rewrite Hs, IH.
Qed.

Lemma depth_strings (l : list string) : json_depth (JArray (JString <$> l)) <= 1.
Proof. cbn [json_depth]. induction l as [|s l IH]; cbn in *; lia. Qed.

Lemma obj_ok_optional_string k v m :
  is_str k = true -> opt_str_ok v = true -> obj_ok m -> obj_ok (insert_optional_string m k v).
Proof.
  destruct v as [s|]; cbn; [|done]. intros Hk Hs Hm. apply obj_ok_insert; [done| |done].
  unfold value_ok. cbn. by rewrite Hs.
Qed.

Lemma obj_ok_optional_string_list k v m :
  is_str k = true -> strs_ok v = true -> obj_ok m -> obj_ok (insert_optional_string_list m k v).
Proof.
  destruct v as [[|s l]|]; cbn [insert_optional_string_list strs_ok]; [done| |done].
  intros Hk Hs Hm. apply obj_ok_insert; [done| |done].
  unfold value_ok. rewrite forallb_str_values by done.
  pose proof (depth_strings (s :: l)). cbn [andb]. lia.
Qed.

Lemma obj_ok_collect (l : list (string * string)) :
  forallb (fun kv => is_str kv.1 && is_str kv.2) l = true ->
  value_ok (JObject (obj_collect ((fun kv => (kv.1, JString kv.2)) <$> l))) = true.
Proof.
  intros Hl. unfold value_ok, obj_collect.
  enough (forall acc, json_exact (JObject acc) = true -> json_depth (JObject acc) <= 1 + 0 ->
    let m := fold_left (fun m kv => obj_insert kv.1 kv.2 m)
               ((fun kv => (kv.1, JString kv.2)) <$> l) acc in
    json_exact (JObject m) = true /\ json_depth (JObject m) <= 1 + 0) as H.
  { destruct (H []) as [H1 H2]; [done|done|]. rewrite H1. cbn [andb]. lia. }
  induction l as [|[k v] l IH]; intros acc Hacc Hd; [done|]. cbn [fmap list_fmap fold_left fst snd].
  cbn in Hl. bool_to_prop. apply IH; [done| |].
  - rewrite json_exact_object in *. bool_to_prop. rewrite keys_sorted_insert by done.
    rewrite forallb_insert; [done| |done]. cbn. by rewrite !andb_true_iff.
  - by apply depth_insert.
Qed.

Lemma obj_ok_optional_map k h m :
  is_str k = true -> headers_ok h = true -> obj_ok m -> obj_ok (insert_optional_map m k h).
Proof.
  unfold insert_optional_map. intros Hk Hh Hm. case_decide; [done|].
  apply obj_ok_insert; [done| |done]. by apply obj_ok_collect.
Qed.

Lemma obj_ok_type t : obj_ok (type_entry t).
Proof. by destruct t. Qed.

#[export] Hint Resolve obj_ok_insert obj_ok_optional_string obj_ok_optional_string_list
  obj_ok_optional_map obj_ok_type : message.

Lemma str_value_ok s : is_str s = true -> value_ok (JString s) = true.
Proof. unfold value_ok. cbn. by intros ->. Qed.

Lemma int_value_ok z :
  (i64_min <=? z) && (z <=? i64_max) = true -> value_ok (JNumber (num_from_i64 z)) = true.
Proof.
  intros Hz. unfold value_ok, num_from_i64. bool_to_prop.
  destruct (z <? 0) eqn:E; unfold json_exact; cbn [json_wf json_depth]; unfold i64_min, i64_max, u64_max in *;
    bool_to_prop; lia.
Qed.

#[export] Hint Resolve str_value_ok int_value_ok : message.

(** The JSON value of an exact message reads back. *)
Lemma to_json_exact `{MsgPack} m :
  message_exact m = true ->
  exists v, to_json_value m = Ok v /\ json_exact v = true /\ json_depth v < 128.
Proof.
  enough (message_exact m = true -> exists o, to_json_value m = Ok (JObject o) /\ obj_ok o) as He.
  { intros Hm. destruct (He Hm) as (o & -> & Ho1 & Ho2). exists (JObject o).
    split_and!; [done|done|lia]. }
  destruct m as [m|m|m|m|m| |m|m|m]; cbn [message_exact to_json_value]; intros Hm.
  - unfold invocation_to_json. destruct (json_values _) as [l|e]; cbn [mbind result_bind].
    + bool_to_prop. eexists. split; [done|]. eauto 8 with message.
    + rewrite andb_false_r in Hm. done.
  - bool_to_prop. eexists. split; [done|]. eauto 8 with message.
  - bool_to_prop. eexists. split; [done|]. eauto 8 with message.
  - unfold completion_to_json. bool_to_prop. destruct (comp_result m).
    all: eexists; (split; [done|]); eauto 8 with message.
  - bool_to_prop. eexists. split; [done|]. eauto 8 with message.
  - eexists. split; [done|]. auto with message.
  - unfold close_to_json. destruct (close_allow_reconnect m) as [[]|].
    all: eexists; (split; [done|]); auto 8 with message.
  - eexists. split; [done|]. auto 8 with message.
  - eexists. split; [done|]. auto 8 with message.
Qed.
