(* ===== verification/JsonProtocol.v ===== *)
(** * The hub protocol trait ([src/hub/protocol.rs]) and the JSON protocol ([src/hub/json.rs])

    [HubProtocol] is the trait object the rest of the client is written against; [JsonProtocol]
    is its implementation for text transports, over the JSON text functions of [serde_json]. *)

From Stdlib Require Import ZArith Lia String.
From stdpp Require Import base list strings.
From S2P Require Import Prelude Framing Utf8 Errors Values Arguments Message.

Local Open Scope Z_scope.

(** [trait HubProtocol] *)
Record HubProtocol := {
  name : string;
  version : Z;
  transfer_format : TransferFormat;
  parse_messages : HubProtocolInput -> result ProtocolError (list HubMessage);
  write_message : HubMessage -> result ProtocolError (list u8)
}.

(** The input a transport delivers for a written message. *)
Definition as_input (f : TransferFormat) (payload : list u8) : HubProtocolInput :=
  match f with
  | FText => IText (string_of_bytes payload)
  | FBinary => IBinary payload
  end.

(** What a protocol promises to its clients for the messages it supports: a written message is
    UTF-8 text when the protocol says so, and parsing it gives one message equivalent to the
    one written, or nothing when the receiving side ignores messages of that kind. *)
Record protocol_ok (p : HubProtocol) (supported : HubMessage -> Prop)
    (arrives : HubMessage -> list HubMessage -> Prop) : Prop := {
  written_text : forall m bytes, supported m -> write_message p m = Ok bytes ->
    transfer_format p = FText -> utf8_valid bytes = true;
  written_parses : forall m, supported m -> exists bytes ms,
    write_message p m = Ok bytes /\
    parse_messages p (as_input (transfer_format p) bytes) = Ok ms /\ arrives m ms
}.

Section json_protocol.
Context `{JT : JsonText, MP : MsgPack}.

(** The loop of [JsonProtocol::parse_messages]. *)
Fixpoint json_parse_frames (frames : list string) : result ProtocolError (list HubMessage) :=
  match frames with
  | [] => Ok []
  | message :: frames =>
      json_value ← map_err PJson (json_from_str message);
      messages ← json_parse_frames frames;
      Ok (match from_json_value json_value with
          | Some parsed => parsed :: messages
          | None => messages
          end)
  end.

(** [JsonProtocol::parse_messages] *)
Definition json_parse_messages (input : HubProtocolInput) : result ProtocolError (list HubMessage) :=
  match input with
  | IBinary _ => Err (PInvalidInput "invalid input for JSON hub protocol; expected text")
  | IText text => frames ← map_err PFraming (Text.parse text); json_parse_frames frames
  end.

(** [JsonProtocol::write_message] *)
Definition json_write_message (m : HubMessage) : result ProtocolError (list u8) :=
  value ← to_json_value m;
  json ← map_err PJson (json_to_string value);
  Ok (bytes_of_string (Text.write json)).

(** [impl HubProtocol for JsonProtocol] *)
Definition JsonProtocol : HubProtocol := {|
  name := "json";
  version := 2;
  transfer_format := FText;
  parse_messages := json_parse_messages;
  write_message := json_write_message
|}.

End json_protocol.

(** The message of type [json_canon m] arrives. *)
Definition json_arrives `{MsgPack} (m : HubMessage) (ms : list HubMessage) : Prop :=
  exists m', json_canon m = Ok m' /\ ms = [m'].

Definition json_supported `{MsgPack} (m : HubMessage) : Prop :=
  message_exact m = true /\ ids_in_range m = true.

Section json_laws.
Context `{JT : JsonText, MP : MsgPack, JL : !JsonTextLaws JT}.

(** The text of an exact message: one record, its value read back. *)
Lemma json_written m :
  message_exact m = true -> exists v s, to_json_value m = Ok v /\
    json_write_message m = Ok (bytes_of_string (Text.write s)) /\ json_from_str s = Ok v /\
    Text.is_record s = true /\ is_str s = true.
Proof.
  intros Hm. destruct (to_json_exact m Hm) as (v & Hv & He & Hd).
  destruct (json_print_read v He Hd) as (s & Hs & Hr & Hrec & Hstr).
  exists v, s. split_and!; [done| |done|done|done].
  unfold json_write_message. rewrite Hv. cbn. by rewrite Hs.
Qed.

Lemma text_write_bytes s :
  bytes_of_string (Text.write s) = bytes_of_string s ++ [Byte.x1e].
Proof.
  unfold Text.write, bytes_of_string. induction s as [|c s IH]; [done|].
  exact (f_equal (cons (Ascii.byte_of_ascii c)) IH).
Qed.

Lemma json_arrives_all ms ss :
  Forall2 (fun m s => exists v, to_json_value m = Ok v /\ json_from_str s = Ok v /\
    ids_in_range m = true) ms ss ->
  exists ms', Forall2 (fun m m' => json_canon m = Ok m') ms ms' /\
    json_parse_frames ss = Ok ms'.
Proof.
  induction 1 as [|m s ms ss (v & Hv & Hs & Hids) _ (ms' & Hms & IH)]; [by exists []|].
  pose proof (from_to_json_value m Hids) as Hrt. rewrite Hv in Hrt. cbn in Hrt.
  destruct (json_canon m) as [m'|e] eqn:Hc; [|done]. cbn in Hrt. injection Hrt as Hrt.
  exists (m' :: ms'). split; [by constructor|]. cbn. rewrite Hs. cbn. rewrite IH. cbn.
  by rewrite Hrt.
Qed.

Lemma json_protocol_laws : protocol_ok JsonProtocol json_supported json_arrives.
Proof.
  split.
  - intros m bytes [Hm _] Hw _. destruct (json_written m Hm) as (v & s & _ & Hw' & _ & _ & Hs).
    cbn in Hw. rewrite Hw in Hw'. injection Hw' as ->. rewrite text_write_bytes.
    by apply utf8_valid_app.
  - intros m [Hm Hids]. destruct (json_written m Hm) as (v & s & Hv & Hw & Hr & Hrec & Hstr).
    destruct (json_arrives_all [m] [s]) as (ms' & Hms & Hp); [constructor; [eauto|constructor]|].
    exists (bytes_of_string (Text.write s)), ms'. cbn [transfer_format JsonProtocol].
    split_and!; [done| |].
    + cbn. rewrite string_of_bytes_of_string.
      pose proof (Text.parse_write_all [s]) as Ht. cbn [Text.write_all foldr] in Ht.
      rewrite Text.string_app_nil_r in Ht. rewrite Ht; [done|done|by constructor].
    + inversion Hms as [|? m' ? ? Hm' Hnil]; subst. inversion Hnil; subst. by exists m'.
Qed.

Lemma concat_frames ss :
  string_of_bytes (concat (map (fun s => bytes_of_string (Text.write s)) ss)) = Text.write_all ss.
Proof.
  unfold bytes_of_string, string_of_bytes.
  enough (forall l s, String.string_of_list_byte (String.list_byte_of_string s ++ l) =
    (s +:+ String.string_of_list_byte l)) as Happ.
  { induction ss as [|s ss IH]; [done|]. cbn [map concat]. rewrite Happ, IH. done. }
  intros l s. induction s as [|c s IH]; [done|].
  change (String (Ascii.ascii_of_byte (Ascii.byte_of_ascii c))
    (String.string_of_list_byte (String.list_byte_of_string s ++ l)) =
    String c (s +:+ String.string_of_list_byte l)).
  by rewrite IH, Ascii.ascii_of_byte_of_ascii.
Qed.

(** Frames of messages sent as one text. *)
Lemma json_frames_roundtrip (ms : list HubMessage) :
  ms <> [] -> Forall json_supported ms ->
  exists frames ms', Forall2 (fun m bytes => json_write_message m = Ok bytes) ms frames /\
    utf8_valid (concat frames) = true /\
    Forall2 (fun m m' => json_canon m = Ok m') ms ms' /\
    json_parse_messages (IText (string_of_bytes (concat frames))) = Ok ms'.
Proof.
  intros Hne Hms.
  assert (Hss : exists ss, Forall2 (fun m s => (exists v, to_json_value m = Ok v /\
      json_from_str s = Ok v /\ ids_in_range m = true) /\
      json_write_message m = Ok (bytes_of_string (Text.write s)) /\
      Text.is_record s = true /\ is_str s = true) ms ss).
  { clear Hne. induction Hms as [|m ms [Hm Hids] _ [ss IH]]; [by exists []|].
    destruct (json_written m Hm) as (v & s & ?). exists (s :: ss). constructor; [|done].
    destruct_and!. eauto 10. }
  destruct Hss as [ss Hss].
  destruct (json_arrives_all ms ss) as (ms' & Hms' & Hparse);
    [by eapply Forall2_impl; [exact Hss|naive_solver]|].
  exists (map (fun s => bytes_of_string (Text.write s)) ss), ms'. split_and!; [| |done|].
  - clear -Hss. induction Hss as [|m s ms ss Hs _ IH]; constructor; naive_solver.
  - clear -Hss. induction Hss as [|m s ms ss (_ & _ & _ & Hs) _ IH]; [done|]. cbn [map concat].
    apply utf8_valid_app; [|done]. rewrite text_write_bytes. by apply utf8_valid_app.
  - rewrite concat_frames. cbn. rewrite Text.parse_write_all; [done| |].
    + intros ->. inversion Hss; subst. done.
    + clear -Hss. induction Hss; constructor; naive_solver.
Qed.

(** C36: JSON protocol round trip: the frames of messages with UTF-8 strings, sequence numbers in range
    and values without floats that are nested at most 126 levels deep, sent one after the other as
    one text, are valid UTF-8 and parse to the same messages in the same order (arguments as JSON
    values, an empty list of stream ids dropped). *)
Theorem json_protocol_roundtrip (ms : list HubMessage) :
  ms <> [] -> Forall json_supported ms ->
  exists frames ms', Forall2 (fun m bytes => json_write_message m = Ok bytes) ms frames /\
    utf8_valid (concat frames) = true /\
    Forall2 (fun m m' => json_canon m = Ok m') ms ms' /\
    json_parse_messages (IText (string_of_bytes (concat frames))) = Ok ms'.
Proof. apply json_frames_roundtrip. Qed.

End json_laws.
