(* ===== verification/JsonReference.v ===== *)
(** * A concrete JSON text codec satisfying [JsonTextLaws]

    The client's theorems hold for every implementation of the text functions of [serde_json]
    that satisfies [JsonTextLaws].  This file gives one: values are counted and the number is
    written in binary, so that printing and reading are inverse.  It shows that the laws can be
    satisfied and is the instance the witnesses use. *)

From Stdlib Require Import ZArith Lia String Ascii.
From stdpp Require Import base list strings gmap countable.
From S2P Require Import Prelude Framing Utf8 Errors Values Arguments Message JsonProtocol.

Local Open Scope Z_scope.

Abbreviation leaf := (option (bool + (nat * Z) + string)).

Fixpoint json_tree (v : json) : gen_tree leaf :=
  match v with
  | JNull => GenLeaf None
  | JBool b => GenLeaf (Some (inl (inl b)))
  | JNumber (PosInt n) => GenLeaf (Some (inl (inr (0%nat, n))))
  | JNumber (NegInt n) => GenLeaf (Some (inl (inr (1%nat, n))))
  | JNumber (Float n) => GenLeaf (Some (inl (inr (2%nat, n))))
  | JString s => GenLeaf (Some (inr s))
  | JArray l => GenNode 0 (map json_tree l)
  | JObject m =>
      GenNode 1 (map (fun kv => GenNode 2 [GenLeaf (Some (inr kv.1)); json_tree kv.2]) m)
  end.

Fixpoint tree_json (t : gen_tree leaf) : json :=
  match t with
  | GenLeaf None => JNull
  | GenLeaf (Some (inl (inl b))) => JBool b
  | GenLeaf (Some (inl (inr (0%nat, n)))) => JNumber (PosInt n)
  | GenLeaf (Some (inl (inr (1%nat, n)))) => JNumber (NegInt n)
  | GenLeaf (Some (inl (inr (_, n)))) => JNumber (Float n)
  | GenLeaf (Some (inr s)) => JString s
  | GenNode 0 l => JArray (map tree_json l)
  | GenNode _ l =>
      JObject (map (fun t =>
        match t with
        | GenNode _ [GenLeaf (Some (inr k)); v] => (k, tree_json v)
        | _ => (EmptyString, JNull)
        end) l)
  end.

Lemma tree_json_tree v : tree_json (json_tree v) = v.
Proof.
  induction v as [| |[]| |l IH|m IH] using json_ind'; try done; cbn; f_equal; rewrite map_map.
  - induction IH as [|v l Hv _ IH]; cbn; [done|]. by rewrite Hv, IH.
  - induction IH as [|[k v] m Hv _ IH]; cbn in *; [done|]. by rewrite Hv, IH.
Qed.

#[global] Instance json_eq_dec : EqDecision json.
Proof.
  intros v w. destruct (decide (json_tree v = json_tree w)) as [H|H].
  - left. rewrite <- (tree_json_tree v), <- (tree_json_tree w). by rewrite H.
  - right. by intros ->.
Defined.

#[global] Instance json_countable : Countable json :=
  inj_countable' json_tree tree_json tree_json_tree.

Fixpoint print_positive (p : positive) : string :=
  match p with
  | xH => "1"
  | xO p => String "o"%char (print_positive p)
  | xI p => String "i"%char (print_positive p)
  end.

Fixpoint read_positive (s : string) : option positive :=
  match s with
  | String "1"%char EmptyString => Some xH
  | String "o"%char s => xO <$> read_positive s
  | String "i"%char s => xI <$> read_positive s
  | _ => None
  end.

#[global] Instance ReferenceJson : JsonText := {|
  json_to_string v := Ok (print_positive (encode v));
  json_from_str s := ok_or (read_positive s ≫= decode) "not a value"
|}.

Lemma read_print_positive p : read_positive (print_positive p) = Some p.
Proof. induction p as [p IH|p IH|]; cbn; [by rewrite IH..|done]. Qed.

Lemma print_positive_record p : Text.is_record (print_positive p) = true.
Proof.
  unfold Text.is_record. apply andb_true_iff. split; [by destruct p|].
  induction p as [p IH|p IH|]; done.
Qed.

Lemma print_positive_str p : is_str (print_positive p) = true.
Proof.
  apply utf8_valid_ascii. unfold bytes_of_string.
  induction p as [p IH|p IH|]; cbn; by repeat constructor.
Qed.

#[global] Instance ReferenceJson_laws : JsonTextLaws ReferenceJson.
Proof.
  split. intros v _ _. exists (print_positive (encode v)). split_and!; [done| | |].
  - cbn. rewrite read_print_positive. cbn. by rewrite decode_encode.
  - apply print_positive_record.
  - apply print_positive_str.
Qed.
