(* ===== verification/MsgPackFormat.v ===== *)
(** * The MessagePack format and what the client relies on of [rmp] and [rmpv]

    [layout] states the published MessagePack format: which marker, length field, payload bytes
    and nested values a value is written as.  The class [MsgPackLaws] says that the codec follows
    it, that a written value reads back, and how [rmpv] values serialize to JSON values. *)

From Stdlib Require Import ZArith Lia String.
From stdpp Require Import base list strings.
From S2P Require Import Prelude Framing Utf8 Errors Values Arguments.

Local Open Scope Z_scope.

(** A big-endian number. *)
Definition be_value (bytes : list u8) : Z :=
  fold_left (fun acc b => acc * 256 + u8_to_Z b) bytes 0.

(** [h] is [n] as [size] big-endian bytes. *)
Definition sized (size : nat) (n : Z) (h : list u8) : Prop :=
  length h = size /\ be_value h = n.

(** The pairs of a map as the sequence of values on the wire. *)
Definition flatten (m : list (mp_value * mp_value)) : list mp_value :=
  concat (map (fun kv => [kv.1; kv.2]) m).

(** What an [rmpv::Value] can hold and MessagePack can express. *)
Fixpoint mp_wf (v : mp_value) : bool :=
  match v with
  | MNil | MBoolean _ => true
  | MInteger n => (i64_min <=? n) && (n <=? u64_max)
  | MF32 bits => (0 <=? bits) && (bits <? 2 ^ 32)
  | MF64 bits => (0 <=? bits) && (bits <? 2 ^ 64)
  | MString s => is_str s && (len (bytes_of_string s) <? 2 ^ 32)
  | MInvalidString bytes => negb (utf8_valid bytes) && (len bytes <? 2 ^ 32)
  | MBinary bytes => len bytes <? 2 ^ 32
  | MArray l => (len l <? 2 ^ 32) && forallb mp_wf l
  | MMap m => (len m <? 2 ^ 32) && forallb (fun kv => mp_wf kv.1 && mp_wf kv.2) m
  | MExt tag bytes => (- 128 <=? tag) && (tag <=? 127) && (len bytes <? 2 ^ 32)
  end.

Fixpoint mp_depth (v : mp_value) : Z :=
  match v with
  | MArray l => 1 + foldr (fun v d => Z.max (mp_depth v) d) 0 l
  | MMap m => 1 + foldr (fun kv d => Z.max (Z.max (mp_depth kv.1) (mp_depth kv.2)) d) 0 m
  | _ => 0
  end.

(** The bytes of a string value. *)
Definition str_bytes (v : mp_value) : option (list u8) :=
  match v with
  | MString s => Some (bytes_of_string s)
  | MInvalidString bytes => Some bytes
  | _ => None
  end.

(** [layout v marker field own kids]: [v] is the marker, then the length [field], then the bytes
    [own] (for an extension, its type byte first), then the values [kids]. *)
Inductive layout : mp_value -> Marker -> list u8 -> list u8 -> list mp_value -> Prop :=
| lay_nil : layout MNil Null [] [] []
| lay_bool (b : bool) : layout (MBoolean b) (if b then True_ else False_) [] [] []
| lay_fixpos n : 0 <= n < 128 -> layout (MInteger n) (FixPos n) [] [] []
| lay_fixneg n : - 32 <= n < 0 -> layout (MInteger n) (FixNeg n) [] [] []
| lay_int8 n m own : m = U8 \/ m = I8 -> length own = 1%nat -> layout (MInteger n) m [] own []
| lay_int16 n m own : m = U16 \/ m = I16 -> length own = 2%nat -> layout (MInteger n) m [] own []
| lay_int32 n m own : m = U32 \/ m = I32 -> length own = 4%nat -> layout (MInteger n) m [] own []
| lay_int64 n m own : m = U64 \/ m = I64 -> length own = 8%nat -> layout (MInteger n) m [] own []
| lay_f32 bits own : length own = 4%nat -> layout (MF32 bits) F32 [] own []
| lay_f64 bits own : length own = 8%nat -> layout (MF64 bits) F64 [] own []
| lay_fixstr v own : str_bytes v = Some own -> len own < 32 -> layout v (FixStr (len own)) [] own []
| lay_str8 v h own : str_bytes v = Some own -> sized 1 (len own) h -> layout v Str8 h own []
| lay_str16 v h own : str_bytes v = Some own -> sized 2 (len own) h -> layout v Str16 h own []
| lay_str32 v h own : str_bytes v = Some own -> sized 4 (len own) h -> layout v Str32 h own []
| lay_bin8 own h : sized 1 (len own) h -> layout (MBinary own) Bin8 h own []
| lay_bin16 own h : sized 2 (len own) h -> layout (MBinary own) Bin16 h own []
| lay_bin32 own h : sized 4 (len own) h -> layout (MBinary own) Bin32 h own []
| lay_fixarray l : len l < 16 -> layout (MArray l) (FixArray (len l)) [] [] l
| lay_array16 l h : sized 2 (len l) h -> layout (MArray l) Array16 h [] l
| lay_array32 l h : sized 4 (len l) h -> layout (MArray l) Array32 h [] l
| lay_fixmap m : len m < 16 -> layout (MMap m) (FixMap (len m)) [] [] (flatten m)
| lay_map16 m h : sized 2 (len m) h -> layout (MMap m) Map16 h [] (flatten m)
| lay_map32 m h : sized 4 (len m) h -> layout (MMap m) Map32 h [] (flatten m)
| lay_fixext tag data m : (m, length data) ∈ [(FixExt1, 1%nat); (FixExt2, 2%nat); (FixExt4, 4%nat);
    (FixExt8, 8%nat); (FixExt16, 16%nat)] ->
    layout (MExt tag data) m [] (Z_to_u8 tag :: data) []
| lay_ext8 tag data h : sized 1 (len data) h -> layout (MExt tag data) Ext8 h (Z_to_u8 tag :: data) []
| lay_ext16 tag data h : sized 2 (len data) h -> layout (MExt tag data) Ext16 h (Z_to_u8 tag :: data) []
| lay_ext32 tag data h : sized 4 (len data) h -> layout (MExt tag data) Ext32 h (Z_to_u8 tag :: data) [].

(** Nesting up to which a written value is promised to read back ([rmpv] reads 1024 levels). *)
Definition READ_DEPTH : Z := 600.

Class MsgPackLaws (MP : MsgPack) : Prop := {
  (** A marker is one byte. *)
  read_marker_byte : forall bytes m rest,
    mp_read_marker bytes = Some (m, rest) -> exists b, bytes = b :: rest;
  (** Reading a value consumes at least one byte. *)
  read_value_consumes : forall bytes v rest,
    mp_read_value bytes = Ok (v, rest) -> (length rest < length bytes)%nat;
  (** Writing succeeds and follows the format. *)
  write_layout : forall v, mp_wf v = true ->
    exists bytes m field own kids kid_bytes,
      mp_write_value v = Ok bytes /\ layout v m field own kids /\
      Forall2 (fun k b => mp_write_value k = Ok b) kids kid_bytes /\
      forall rest, mp_read_marker (bytes ++ rest) =
        Some (m, field ++ own ++ concat kid_bytes ++ rest);
  (** A written value reads back. *)
  read_written : forall v bytes rest, mp_wf v = true -> mp_depth v <= READ_DEPTH ->
    mp_write_value v = Ok bytes -> mp_read_value (bytes ++ rest) = Ok (v, rest);
  (** The length of a written array reads back, followed by its elements. *)
  read_written_array : forall l bytes rest, mp_wf (MArray l) = true ->
    mp_write_value (MArray l) = Ok bytes ->
    exists elements, Forall2 (fun v b => mp_write_value v = Ok b) l elements /\
      mp_read_array_len (bytes ++ rest) = Some (len l, concat elements ++ rest);
  (** Only arrays have an array length. *)
  read_written_other : forall v bytes rest, mp_wf v = true -> mp_write_value v = Ok bytes ->
    m_as_array v = None -> mp_read_array_len (bytes ++ rest) = None;
  (** [serde]'s data model: values as JSON values. *)
  to_json_nil : mp_to_json MNil = Ok JNull;
  to_json_bool : forall b, mp_to_json (MBoolean b) = Ok (JBool b);
  to_json_pos : forall n, 0 <= n <= u64_max -> mp_to_json (MInteger n) = Ok (JNumber (PosInt n));
  to_json_neg : forall n, i64_min <= n < 0 -> mp_to_json (MInteger n) = Ok (JNumber (NegInt n));
  to_json_f64 : forall b, finite_f64 b = true -> mp_to_json (MF64 b) = Ok (JNumber (Float b));
  to_json_str : forall s, mp_to_json (MString s) = Ok (JString s);
  to_json_array : forall l, mp_to_json (MArray l) = JArray <$> collect (map mp_to_json l);
  to_json_map : forall (m : list (string * mp_value)),
    mp_to_json (MMap (map (fun kv => (MString kv.1, kv.2)) m)) =
      (fun l => JObject (obj_collect l)) <$>
        collect (map (fun kv => (fun j => (kv.1, j)) <$> mp_to_json kv.2) m)
}.

Lemma mp_depth_nonneg v : 0 <= mp_depth v.
Proof.
  destruct v as [| | | | | | | |l|m|]; cbn; try lia.
  - induction l; cbn; lia.
  - induction m; cbn; lia.
Qed.

(** ** Sorted objects *)

Lemma ascii_compare_trans a b c :
  Ascii.compare a b = Lt -> Ascii.compare b c = Lt -> Ascii.compare a c = Lt.
Proof.
  unfold Ascii.compare. rewrite !N.compare_lt_iff. lia.
Qed.

Lemma ascii_compare_refl a : Ascii.compare a a = Eq.
Proof. unfold Ascii.compare. apply N.compare_refl. Qed.

Lemma string_compare_trans s t u :
  String.compare s t = Lt -> String.compare t u = Lt -> String.compare s u = Lt.
Proof.
  revert t u. induction s as [|a s IH]; intros [|b t] [|c u]; cbn; try done.
  destruct (Ascii.compare a b) eqn:Hab; [|intros _|done].
  - apply Ascii.compare_eq_iff in Hab as ->. destruct (Ascii.compare b c); [|done|done]. apply IH.
  - destruct (Ascii.compare b c) eqn:Hbc; [|intros _|done].
    + apply Ascii.compare_eq_iff in Hbc as ->. by rewrite Hab.
    + by rewrite (ascii_compare_trans _ _ _ Hab Hbc).
Qed.

Lemma keys_sorted_head k ks :
  keys_sorted (k :: ks) = true -> Forall (fun k' => String.compare k k' = Lt) ks.
Proof.
  revert k. induction ks as [|k1 ks IH]; intros k; [done|]. cbn.
  destruct (String.compare k k1) eqn:E; [done| |done]. intros Hs.
  constructor; [done|]. eapply Forall_impl; [by apply IH|].
  intros k' Hk'. by eapply string_compare_trans.
Qed.

Lemma keys_sorted_tail k ks : keys_sorted (k :: ks) = true -> keys_sorted ks = true.
Proof. destruct ks; [done|]. cbn. by destruct (String.compare k s). Qed.

Lemma obj_insert_last k v acc :
  Forall (fun kv => String.compare kv.1 k = Lt) acc -> obj_insert k v acc = acc ++ [(k, v)].
Proof.
  induction 1 as [|[k1 v1] acc Hk _ IH]; [done|]. cbn in *.
  rewrite String.compare_antisym, Hk. cbn. by rewrite IH.
Qed.

(** Collecting the entries of an object gives the object. *)
Lemma obj_collect_sorted m : keys_sorted (map fst m) = true -> obj_collect m = m.
Proof.
  unfold obj_collect. enough (forall acc, keys_sorted (map fst m) = true ->
    Forall (fun kv => Forall (fun k => String.compare kv.1 k = Lt) (map fst m)) acc ->
    fold_left (fun m kv => obj_insert kv.1 kv.2 m) m acc = acc ++ m) as H.
  { intros Hs. by apply H. }
  induction m as [|[k v] m IH]; intros acc Hs Hacc; [by rewrite app_nil_r|].
  cbn [fold_left fst snd]. rewrite obj_insert_last.
  2: { eapply Forall_impl; [exact Hacc|]. intros kv Hkv. by apply Forall_inv in Hkv. }
  rewrite IH; [by rewrite <- app_assoc|by eapply keys_sorted_tail|].
  apply Forall_app. split.
  - eapply Forall_impl; [exact Hacc|]. intros kv Hkv. by apply Forall_inv_tail in Hkv.
  - constructor; [|done]. by apply keys_sorted_head.
Qed.

Section conversions.
Context `{MP : MsgPack, ML : !MsgPackLaws MP}.

(** A JSON value survives the way through [rmpv]. *)
Lemma to_json_of_json v : json_wf finite_f64 v = true -> mp_to_json (json_to_value v) = Ok v.
Proof.
  induction v as [|b|n|s|l IH|m IH] using json_ind'; cbn [json_wf json_to_value]; intros Hv.
  - apply to_json_nil.
  - apply to_json_bool.
  - destruct n as [n|n|b]; cbn in *; bool_to_prop.
    + destruct (n <=? i64_max); by apply to_json_pos.
    + by apply to_json_neg.
    + apply to_json_f64. done.
  - apply to_json_str.
  - rewrite to_json_array, map_map.
    rewrite (collect_map_Ok _ id); [cbn; by rewrite map_id|].
    intros v Hin. rewrite Forall_forall in IH. apply IH; [done|].
    rewrite forallb_forall in Hv. apply Hv. by apply list_elem_of_In.
  - bool_to_prop. rewrite <- (map_map (fun kv => (kv.1, json_to_value kv.2))
      (fun kv => (MString kv.1, kv.2))), to_json_map, map_map.
    rewrite (collect_map_Ok _ id); [cbn; by rewrite map_id, obj_collect_sorted|].
    intros [k v] Hin. cbn. rewrite Forall_forall in IH. pose proof (IH _ Hin) as IHv. cbn in IHv.
    rewrite IHv; [done|].
    match goal with H : forallb _ m = true |- _ => rewrite forallb_forall in H;
      apply list_elem_of_In in Hin; specialize (H _ Hin); cbn in H end. by bool_to_prop.
Qed.

Lemma value_to_json_of_json v :
  json_wf finite_f64 v = true -> value_to_json (json_to_value v) = v.
Proof. intros Hv. unfold value_to_json. by rewrite to_json_of_json. Qed.

Lemma values_to_json_of_json l :
  forallb (json_wf finite_f64) l = true -> map value_to_json (map json_to_value l) = l.
Proof.
  induction l as [|v l IH]; [done|]. cbn. intros [Hv Hl]%andb_true_iff.
  by rewrite value_to_json_of_json, IH.
Qed.

End conversions.
