(* ===== verification/MsgPackParse.v ===== *)
(** * Reading MessagePack messages ([src/hub/messagepack/parse.rs])

    [skip_value] steps over one encoded value without decoding it, [decode_message] decodes the
    array of a frame but keeps the arguments of an invocation encoded, and [parse_message] builds
    the hub message.  Both loops of the source consume at least a byte per iteration, so the
    length of the input bounds them ([skip_run], [decode_run]). *)

From Stdlib Require Import ZArith Lia String.
From stdpp Require Import base list strings gmap.
From S2P Require Import Prelude Framing Utf8 Errors Values Arguments Message MsgPackFormat.

Local Open Scope Z_scope.

Definition ERROR_RESULT : Z := 1.
Definition VOID_RESULT : Z := 2.
Definition NON_VOID_RESULT : Z := 3.
Definition MAX_DEPTH : Z := 512.

(** [truncated] *)
Definition truncated : ProtocolError := PInvalidPayload "truncated messagepack value".

(** [take]: the head and what is left of [rest]. *)
Definition take_bytes (rest : list u8) (n : Z) : result ProtocolError (list u8 * list u8) :=
  if len rest <? n then Err truncated
  else Ok (take (Z.to_nat n) rest, drop (Z.to_nat n) rest).

(** [read_len] *)
Definition read_len (rest : list u8) (size : Z) : result ProtocolError (Z * list u8) :=
  '(head, rest) ← take_bytes rest size;
  Ok (fold_left (fun n byte => Z.lor (Z.shiftl n 8) (u8_to_Z byte)) head 0, rest).

(** The [match marker] of [skip_value]: the bytes and the values that follow. *)
Definition marker_sizes (marker : Marker) (rest : list u8)
    : result ProtocolError (Z * Z * list u8) :=
  match marker with
  | FixPos _ | FixNeg _ | Null | True_ | False_ => Ok (0, 0, rest)
  | U8 | I8 => Ok (1, 0, rest)
  | U16 | I16 => Ok (2, 0, rest)
  | U32 | I32 | F32 => Ok (4, 0, rest)
  | U64 | I64 | F64 => Ok (8, 0, rest)
  | FixStr n => Ok (n, 0, rest)
  | Str8 | Bin8 => '(n, rest) ← read_len rest 1; Ok (n, 0, rest)
  | Str16 | Bin16 => '(n, rest) ← read_len rest 2; Ok (n, 0, rest)
  | Str32 | Bin32 => '(n, rest) ← read_len rest 4; Ok (n, 0, rest)
  | FixArray n => Ok (0, n, rest)
  | Array16 => '(n, rest) ← read_len rest 2; Ok (0, n, rest)
  | Array32 => '(n, rest) ← read_len rest 4; Ok (0, n, rest)
  | FixMap n => Ok (0, 2 * n, rest)
  | Map16 => '(n, rest) ← read_len rest 2; Ok (0, 2 * n, rest)
  | Map32 =>
      '(n, rest) ← read_len rest 4;
      if n * 2 <=? u64_max then Ok (0, n * 2, rest) else Err truncated
  | FixExt1 => Ok (2, 0, rest)
  | FixExt2 => Ok (3, 0, rest)
  | FixExt4 => Ok (5, 0, rest)
  | FixExt8 => Ok (9, 0, rest)
  | FixExt16 => Ok (17, 0, rest)
  | Ext8 => '(n, rest) ← read_len rest 1; Ok (n + 1, 0, rest)
  | Ext16 => '(n, rest) ← read_len rest 2; Ok (n + 1, 0, rest)
  | Ext32 => '(n, rest) ← read_len rest 4; Ok (n + 1, 0, rest)
  | Reserved => Err (PInvalidPayload "reserved messagepack marker")
  end.

Section decode.
Context `{MP : MsgPack}.

(** The loop over the nested values; [None] means out of fuel. *)
Fixpoint skip_values (skip : list u8 -> option (result ProtocolError (list u8)))
    (fuel : nat) (values : Z) (rest : list u8) : option (result ProtocolError (list u8)) :=
  if values <=? 0 then Some (Ok rest)
  else
    match fuel with
    | O => None
    | S fuel =>
        match skip rest with
        | Some (Ok rest) => skip_values skip fuel (values - 1) rest
        | r => r
        end
    end.

(** [skip_value], with [fuel] for the recursion. *)
Fixpoint skip_value_fuel (fuel : nat) (rest : list u8) (depth : Z)
    : option (result ProtocolError (list u8)) :=
  if MAX_DEPTH <? depth then Some (Err (PInvalidPayload "messagepack nesting is too deep"))
  else
    match fuel with
    | O => None
    | S fuel =>
        match mp_read_marker rest with
        | None => Some (Err truncated)
        | Some (marker, rest) =>
            match marker_sizes marker rest with
            | Err e => Some (Err e)
            | Ok (bytes, values, rest) =>
                match take_bytes rest bytes with
                | Err e => Some (Err e)
                | Ok (_, rest) =>
                    skip_values (fun rest => skip_value_fuel fuel rest (depth + 1))
                      (S (length rest)) values rest
                end
            end
        end
    end.

Definition skip_value (rest : list u8) (depth : Z) : result ProtocolError (list u8) :=
  default (Err truncated) (skip_value_fuel (Z.to_nat (MAX_DEPTH + 1 - depth)) rest depth).

(** The loop of [decode_message]; [None] means out of fuel. *)
Fixpoint decode_items (fuel : nat) (arguments_index index n : Z) (items : list mp_value)
    (raw_arguments : option (list u8)) (rest : list u8)
    : option (result ProtocolError (list mp_value * option (list u8))) :=
  if n <=? index then Some (Ok (items, raw_arguments))
  else
    match fuel with
    | O => None
    | S fuel =>
        let is_invocation :=
          bool_decide ((head items ≫= m_as_i64) = Some (message_type_number TInvocation)) in
        if (index =? arguments_index) && is_invocation then
          match skip_value rest 0 with
          | Err e => Some (Err e)
          | Ok rest' =>
              decode_items fuel arguments_index (index + 1) n (items ++ [MNil])
                (Some (slice 0 (len rest - len rest') rest)) rest'
          end
        else
          match mp_read_value rest with
          | Err e => Some (Err (PMessagePack ("failed to decode messagepack payload: " +:+ e)))
          | Ok (v, rest') =>
              decode_items fuel arguments_index (index + 1) n (items ++ [v]) raw_arguments rest'
          end
    end.

(** [decode_message] *)
Definition decode_message (frame : list u8) (arguments_index : Z)
    : result ProtocolError (list mp_value * option (list u8)) :=
  match mp_read_array_len frame with
  | None => Err (PInvalidPayload "invalid payload")
  | Some (n, rest) =>
      default (Err truncated)
        (decode_items (S (length rest)) arguments_index 0 n [] None rest)
  end.

End decode.

(** ** Messages from decoded items *)

(** [value_to_i64] *)
Definition value_to_i64 (v : mp_value) : result ProtocolError Z :=
  ok_or (m_as_i64 v) (PInvalidPayload "expected integer").

(** [value_to_string] *)
Definition value_to_string (v : mp_value) : result ProtocolError string :=
  ok_or (m_as_str v) (PInvalidPayload "expected string").

(** [optional_string] *)
Definition optional_string (v : mp_value) : result ProtocolError (option string) :=
  match v with
  | MNil => Ok None
  | _ => Some <$> value_to_string v
  end.

(** [&data[i]], which the callers guard. *)
Definition item_at (data : list mp_value) (i : nat) : mp_value := default MNil (data !! i).

(** [create_message_headers] *)
Definition create_message_headers (data : list mp_value) : result ProtocolError headers :=
  if len data <? 2 then Err (PInvalidPayload "invalid headers")
  else
    match item_at data 1 with
    | MNil => Ok ∅
    | MMap m =>
        hash_collect <$> collect (map (fun kv =>
          k ← value_to_string kv.1; v ← value_to_string kv.2; Ok (k, v)) m)
    | _ => Err (PInvalidPayload "invalid headers")
    end.

(** [create_close_message] *)
Definition create_close_message (data : list mp_value) : result ProtocolError CloseMessage :=
  if len data <? 2 then Err (PInvalidPayload "invalid payload for Close message")
  else
    error ← optional_string (item_at data 1);
    Ok {| close_error := error; close_allow_reconnect := data !! 2%nat ≫= m_as_bool |}.

(** [create_ping_message] *)
Definition create_ping_message (data : list mp_value) : result ProtocolError unit :=
  match data with
  | [] => Err (PInvalidPayload "invalid payload for Ping message")
  | _ => Ok tt
  end.

(** [create_ack_message] *)
Definition create_ack_message (data : list mp_value) : result ProtocolError AckMessage :=
  if len data <? 2 then Err (PInvalidPayload "invalid payload for Ack message")
  else sequence_id ← value_to_i64 (item_at data 1); Ok {| ack_sequence_id := sequence_id |}.

(** [create_sequence_message] *)
Definition create_sequence_message (data : list mp_value) : result ProtocolError SequenceMessage :=
  if len data <? 2 then Err (PInvalidPayload "invalid payload for Sequence message")
  else sequence_id ← value_to_i64 (item_at data 1); Ok {| seq_sequence_id := sequence_id |}.

Section create.
Context `{MP : MsgPack}.

(** [create_completion_message] *)
Definition create_completion_message (data : list mp_value)
    : result ProtocolError CompletionMessage :=
  let invalid := PInvalidPayload "invalid payload for Completion message" in
  if len data <? 4 then Err invalid
  else
    headers ← create_message_headers data;
    result_kind ← value_to_i64 (item_at data 3);
    if negb (result_kind =? VOID_RESULT) && (len data <? 5) then Err invalid
    else
      invocation_id ← value_to_string (item_at data 2);
      if result_kind =? ERROR_RESULT then
        error ← optional_string (default MNil (data !! 4%nat));
        Ok {| comp_headers := headers; comp_invocation_id := invocation_id;
              comp_error := error; comp_result := None |}
      else if result_kind =? NON_VOID_RESULT then
        Ok {| comp_headers := headers; comp_invocation_id := invocation_id;
              comp_error := None; comp_result := value_to_json <$> data !! 4%nat |}
      else
        Ok {| comp_headers := headers; comp_invocation_id := invocation_id;
              comp_error := None; comp_result := None |}.

(** [create_stream_item_message] *)
Definition create_stream_item_message (data : list mp_value)
    : result ProtocolError StreamItemMessage :=
  if len data <? 4 then Err (PInvalidPayload "invalid payload for StreamItem message")
  else
    headers ← create_message_headers data;
    invocation_id ← optional_string (item_at data 2);
    Ok {| item_headers := headers; item_invocation_id := invocation_id;
          item_item := value_to_json (item_at data 3) |}.

(** [create_invocation_message] *)
Definition create_invocation_message (data : list mp_value) (raw_arguments : option (list u8))
    : result ProtocolError InvocationMessage :=
  match 5 <=? len data, raw_arguments with
  | true, Some raw_arguments =>
      headers ← create_message_headers data;
      invocation_id ← optional_string (item_at data 2);
      target ← value_to_string (item_at data 3);
      arguments ← from_messagepack raw_arguments;
      Ok {| inv_headers := headers; inv_invocation_id := invocation_id; inv_target := target;
            inv_arguments := arguments; inv_stream_ids := Some [] |}
  | _, _ => Err (PInvalidPayload "invalid payload for Invocation message")
  end.

(** [parse_message] *)
Definition parse_message (data : list mp_value) (raw_arguments : option (list u8))
    : result ProtocolError (option HubMessage) :=
  match data with
  | [] => Err (PInvalidPayload "invalid payload")
  | first :: _ =>
      message_type ← value_to_i64 first;
      match from_i32 (as_i32 message_type) with
      | None => Ok None
      | Some TInvocation => Some ∘ HInvocation <$> create_invocation_message data raw_arguments
      | Some TStreamItem => Some ∘ HStreamItem <$> create_stream_item_message data
      | Some TCompletion => Some ∘ HCompletion <$> create_completion_message data
      | Some TPing => (fun _ => Some HPing) <$> create_ping_message data
      | Some TClose => Some ∘ HClose <$> create_close_message data
      | Some TAck => Some ∘ HAck <$> create_ack_message data
      | Some TSequence => Some ∘ HSequence <$> create_sequence_message data
      | Some TStreamInvocation | Some TCancelInvocation => Ok None
      end
  end.

End create.

(** ** Skipping a written value *)

Lemma read_len_be (h rest : list u8) (size : nat) (n : Z) :
  sized size n h -> read_len (h ++ rest) (Z.of_nat size) = Ok (n, rest).
Proof.
  intros [Hl Hn]. unfold read_len, take_bytes. rewrite len_app.
  replace (_ <? _) with false by (pose proof (len_nonneg rest); unfold len in *; lia).
  rewrite Nat2Z.id, take_app_length', drop_app_length' by done. cbn. subst n.
  do 2 f_equal. unfold be_value. generalize 0.
  clear. induction h as [|b h IH]; intros acc; [done|]. cbn [fold_left]. rewrite IH. f_equal.
  rewrite Z.lor_comm, lor_shiftl_add; [lia|lia|apply u8_to_Z_range].
Qed.

(** The marker of a value tells its bytes and nested values. *)
Lemma layout_sizes v m field own kids rest :
  layout v m field own kids -> mp_wf v = true ->
  marker_sizes m (field ++ rest) = Ok (len own, len kids, rest).
Proof.
  assert (Hflat : forall m, len (flatten m) = 2 * len m).
  { intros l. unfold flatten. induction l as [|kv l IH]; [done|]. cbn [map concat].
    rewrite len_app, IH, (len_cons kv). unfold len. cbn. lia. }
  intros Hl Hwf. destruct Hl; cbn [marker_sizes app]; rewrite ?Hflat;
    repeat match goal with
    | H : _ \/ _ |- _ => destruct H as [->| ->]
    | H : sized 1 _ _ |- _ => pose proof (read_len_be _ rest 1 _ H) as Hr; change (Z.of_nat 1) with 1 in Hr;
        rewrite Hr; clear Hr H
    | H : sized 2 _ _ |- _ => pose proof (read_len_be _ rest 2 _ H) as Hr; change (Z.of_nat 2) with 2 in Hr;
        rewrite Hr; clear Hr H
    | H : sized 4 _ _ |- _ => pose proof (read_len_be _ rest 4 _ H) as Hr; change (Z.of_nat 4) with 4 in Hr;
        rewrite Hr; clear Hr H
    end;
    try (unfold len; match goal with H : length _ = _ |- _ => rewrite H end; done);
    try done; try (rewrite len_cons, Z.add_comm; done).
  - by destruct b.
  - cbn in *. bool_to_prop. replace (_ <=? _) with true by (unfold u64_max; lia).
    by rewrite (Z.mul_comm (len m)).
  - rewrite len_cons. unfold len.
    repeat match goal with H : (_, _) ∈ _ :: _ |- _ => apply elem_of_cons in H as [[= -> ->]|H] end;
      [done..|]. by apply elem_of_nil in H.
Qed.

(** Nested values are less deep than the value they are in. *)
Lemma layout_kids v m field own kids :
  layout v m field own kids -> mp_wf v = true ->
  Forall (fun k => mp_wf k = true /\ 0 <= mp_depth k < mp_depth v) kids.
Proof.
  assert (Harr : forall l, forallb mp_wf l = true ->
    Forall (fun k => mp_wf k = true /\ 0 <= mp_depth k < mp_depth (MArray l)) l).
  { intros l Hl. cbn. induction l as [|v' l IH]; [done|]. cbn in *. bool_to_prop.
    pose proof (mp_depth_nonneg v'). constructor; [split; [done|lia]|].
    eapply Forall_impl; [by apply IH|]. cbn. intros k [? ?]. split; [done|lia]. }
  assert (Hmap : forall m, forallb (fun kv => mp_wf kv.1 && mp_wf kv.2) m = true ->
    Forall (fun k => mp_wf k = true /\ 0 <= mp_depth k < mp_depth (MMap m)) (flatten m)).
  { intros l Hl. cbn. induction l as [|[k' v'] l IH]; [done|]. cbn in *. bool_to_prop.
    pose proof (mp_depth_nonneg k'). pose proof (mp_depth_nonneg v').
    do 2 (constructor; [split; [done|lia]|]).
    eapply Forall_impl; [by apply IH|]. cbn. intros k [? ?]. split; [done|lia]. }
  intros Hl Hwf. destruct Hl; try (by constructor); cbn in Hwf; bool_to_prop; auto.
Qed.

Section laws.
Context `{MP : MsgPack, ML : !MsgPackLaws MP}.

(** Skipping consumes at least one byte. *)
Lemma take_bytes_Ok rest n head rest' :
  take_bytes rest n = Ok (head, rest') -> (length rest' <= length rest)%nat.
Proof.
  unfold take_bytes. destruct (_ <? _); [done|]. intros [= <- <-]. rewrite length_drop. lia.
Qed.

Lemma marker_sizes_Ok m rest b v rest' :
  marker_sizes m rest = Ok (b, v, rest') -> (length rest' <= length rest)%nat.
Proof.
  assert (Hread : forall size n rest', read_len rest size = Ok (n, rest') ->
    (length rest' <= length rest)%nat).
  { intros size n r. unfold read_len. destruct (take_bytes rest size) as [[h t]|e] eqn:Ht; [|done].
    cbn. intros [= _ <-]. by eapply take_bytes_Ok. }
  destruct m; cbn [marker_sizes]; intros H; try (injection H as _ _ <-; done); try done;
    match type of H with context [read_len rest ?s] =>
      destruct (read_len rest s) as [[n r]|e] eqn:Hr; cbn in H; [|done] end;
    apply Hread in Hr; try (by injection H as _ _ <-).
  destruct (_ <=? _); [by injection H as _ _ <-|done].
Qed.

Lemma skip_values_Ok (skip : list u8 -> option (result ProtocolError (list u8))) fuel values rest rest' :
  (forall r r', skip r = Some (Ok r') -> (length r' < length r)%nat) ->
  skip_values skip fuel values rest = Some (Ok rest') -> (length rest' <= length rest)%nat.
Proof.
  intros Hskip. revert values rest. induction fuel as [|fuel IH]; intros values rest; cbn;
    (destruct (values <=? 0); [by intros [= <-]|]); [done|].
  destruct (skip rest) as [[r|e]|] eqn:Hs; [|done|done]. intros H%IH. apply Hskip in Hs. lia.
Qed.

Lemma skip_fuel_Ok fuel rest depth rest' :
  skip_value_fuel fuel rest depth = Some (Ok rest') -> (length rest' < length rest)%nat.
Proof.
  revert rest depth rest'. induction fuel as [|fuel IH]; intros rest depth rest'; cbn -[skip_values];
    (destruct (MAX_DEPTH <? depth); [done|]); [done|].
  destruct (mp_read_marker rest) as [[m r]|] eqn:Hm; [|done].
  apply read_marker_byte in Hm as [b ->].
  destruct (marker_sizes m r) as [[[n v] r1]|e] eqn:Hs; [|done]. apply marker_sizes_Ok in Hs.
  destruct (take_bytes r1 n) as [[h r2]|e] eqn:Ht; [|done]. apply take_bytes_Ok in Ht.
  intros H. apply skip_values_Ok in H; [cbn; lia|]. intros r0 r' Hr. by eapply IH.
Qed.

Lemma skip_values_run (skip : list u8 -> option (result ProtocolError (list u8))) fuel values rest :
  (forall r, skip r <> None) ->
  (forall r r', skip r = Some (Ok r') -> (length r' < length r)%nat) ->
  (length rest < fuel)%nat -> skip_values skip fuel values rest <> None.
Proof.
  intros Hnone Hless. revert values rest. induction fuel as [|fuel IH]; intros values rest Hf; [lia|].
  cbn. destruct (values <=? 0); [done|].
  destruct (skip rest) as [[r|e]|] eqn:Hs; [|done|by apply Hnone in Hs].
  apply IH. apply Hless in Hs. lia.
Qed.

(** The fuel of [skip_value] is enough. *)
Lemma skip_fuel_run fuel rest depth :
  MAX_DEPTH < depth + Z.of_nat fuel -> skip_value_fuel fuel rest depth <> None.
Proof.
  revert rest depth. induction fuel as [|fuel IH]; intros rest depth Hf; cbn -[skip_values];
    (destruct (MAX_DEPTH <? depth) eqn:Hd; [done|]; apply Z.ltb_ge in Hd); [lia|].
  destruct (mp_read_marker rest) as [[m r]|] eqn:Hm; [|done].
  destruct (marker_sizes m r) as [[[n v] r1]|e] eqn:Hs; [|done].
  destruct (take_bytes r1 n) as [[h r2]|e] eqn:Ht; [|done].
  apply skip_values_run; [|intros r0 r' H; by eapply skip_fuel_Ok|lia].
  intros r0. apply IH. lia.
Qed.

Lemma skip_run rest depth : 0 <= depth ->
  skip_value_fuel (Z.to_nat (MAX_DEPTH + 1 - depth)) rest depth = Some (skip_value rest depth).
Proof.
  intros Hd. unfold skip_value. destruct (skip_value_fuel _ _ _) eqn:E; [done|].
  exfalso. eapply skip_fuel_run; [|exact E]. lia.
Qed.

(** Written values are not empty. *)
Lemma written_not_empty v b : mp_wf v = true -> mp_write_value v = Ok b -> (0 < length b)%nat.
Proof.
  intros Hwf Hw. destruct (write_layout v Hwf) as (b' & m & f & o & k & kb & Hw' & _ & _ & Hm).
  assert (b' = b) as -> by congruence. specialize (Hm []). apply read_marker_byte in Hm as [x Hx].
  destruct b; [done|]. cbn. lia.
Qed.

Lemma skip_values_written (skip : list u8 -> option (result ProtocolError (list u8)))
    kids kid_bytes fuel rest :
  Forall2 (fun (_ : mp_value) b => forall rest, skip (b ++ rest) = Some (Ok rest)) kids kid_bytes ->
  (length kids <= fuel)%nat ->
  skip_values skip fuel (len kids) (concat kid_bytes ++ rest) = Some (Ok rest).
Proof.
  intros Hk. revert fuel. induction Hk as [|k b kids bs Hb _ IH]; intros fuel Hf; [by destruct fuel|].
  destruct fuel as [|fuel]; cbn in Hf; [lia|]. cbn [skip_values concat].
  replace (_ <=? _) with false by (rewrite len_cons; pose proof (len_nonneg kids); lia).
  rewrite <- app_assoc, Hb. replace (len (k :: kids) - 1) with (len kids) by (rewrite len_cons; lia).
  apply IH. lia.
Qed.

Lemma written_length kids kid_bytes :
  Forall (fun k => mp_wf k = true) kids ->
  Forall2 (fun k b => mp_write_value k = Ok b) kids kid_bytes ->
  (length kids <= length (concat kid_bytes))%nat.
Proof.
  intros Hwf H. induction H as [|k b ks bs Hk _ IH]; cbn; [lia|].
  apply Forall_cons in Hwf as [Hk1 Hks]. rewrite length_app.
  specialize (IH Hks). pose proof (written_not_empty k b Hk1 Hk). lia.
Qed.

(** Skipping a written value leaves what follows it. *)
Lemma skip_written fuel v bytes depth rest :
  mp_wf v = true -> mp_write_value v = Ok bytes -> 0 <= depth ->
  depth + mp_depth v <= MAX_DEPTH -> MAX_DEPTH < depth + Z.of_nat fuel ->
  skip_value_fuel fuel (bytes ++ rest) depth = Some (Ok rest).
Proof.
  revert v bytes depth rest. induction fuel as [|fuel IH]; intros v bytes depth rest Hwf Hw Hd Hv Hf;
    pose proof (mp_depth_nonneg v); [lia|].
  destruct (write_layout v Hwf) as (b' & m & f & own & kids & kb & Hw' & Hl & Hk & Hm).
  assert (b' = bytes) as -> by congruence. clear Hw'.
  cbn -[skip_values]. replace (_ <? _) with false by lia. rewrite Hm.
  rewrite (layout_sizes _ _ _ _ _ _ Hl Hwf). unfold take_bytes.
  replace (_ <? _) with false
    by (rewrite len_app; pose proof (len_nonneg (concat kb ++ rest)); lia).
  rewrite to_nat_len, drop_app_length. pose proof (layout_kids _ _ _ _ _ Hl Hwf) as Hkids.
  apply skip_values_written.
  - clear -Hk Hkids IH Hd Hv Hf. induction Hk as [|k b ks bs Hb _ IHk]; [by constructor|].
    apply Forall_cons in Hkids as [[? ?] ?]. constructor; [|by apply IHk].
    intros r. apply (IH k); [done|done|lia..].
  - rewrite length_app. apply written_length in Hk; [lia|].
    eapply Forall_impl; [exact Hkids|]. by intros k [? _].
Qed.

Lemma skip_value_written v bytes rest :
  mp_wf v = true -> mp_write_value v = Ok bytes -> mp_depth v <= MAX_DEPTH ->
  skip_value (bytes ++ rest) 0 = Ok rest.
Proof.
  intros Hwf Hw Hd. unfold skip_value.
  by rewrite (skip_written _ v) by (done || unfold MAX_DEPTH in *; lia).
Qed.

(** ** Decoding a written array *)

Lemma skip_value_Ok rest depth rest' : 0 <= depth ->
  skip_value rest depth = Ok rest' -> (length rest' < length rest)%nat.
Proof. intros Hd H. eapply skip_fuel_Ok. by rewrite skip_run, H. Qed.

(** The fuel of [decode_message] is enough. *)
Lemma decode_run fuel ai index n items raw rest :
  (length rest < fuel)%nat -> decode_items fuel ai index n items raw rest <> None.
Proof.
  revert index items raw rest. induction fuel as [|fuel IH]; intros index items raw rest Hf; [lia|].
  cbn. destruct (n <=? index); [done|]. destruct (_ && _).
  - destruct (skip_value rest 0) as [r|e] eqn:Hs; [|done]. apply skip_value_Ok in Hs; [|done].
    apply IH. lia.
  - destruct (mp_read_value rest) as [[v r]|e] eqn:Hr; [|done]. apply read_value_consumes in Hr.
    apply IH. lia.
Qed.

(** A value the decoder reads back. *)
Definition readable (v : mp_value) : Prop := mp_wf v = true /\ mp_depth v <= READ_DEPTH.

Definition is_invocation_array (l : list mp_value) : Prop :=
  (head l ≫= m_as_i64) = Some (message_type_number TInvocation).

(** Elements that are not the arguments of an invocation are read as they are. *)
Lemma decode_plain l bs fuel ai pre n raw rest :
  Forall readable l -> Forall2 (fun v b => mp_write_value v = Ok b) l bs ->
  0 < ai -> len pre + len l <= n ->
  (len pre <= ai < len pre + len l -> ~ is_invocation_array (pre ++ l)) ->
  decode_items (length l + fuel) ai (len pre) n pre raw (concat bs ++ rest) =
    decode_items fuel ai (len pre + len l) n (pre ++ l) raw rest.
Proof.
  intros Hr Hw. revert pre Hr. induction Hw as [|v b l bs Hv _ IH]; intros pre Hr Hai Hn Hinv.
  { by rewrite app_nil_r, Z.add_0_r. }
  apply Forall_cons in Hr as [[Hwf Hd] Hr]. rewrite len_cons in *. pose proof (len_nonneg l).
  cbn [length Nat.add decode_items concat]. replace (n <=? len pre) with false by lia.
  replace (_ && _) with false.
  - rewrite <- app_assoc, (read_written v b) by done.
    replace (len pre + 1) with (len (pre ++ [v])) by (rewrite len_app; done).
    rewrite IH; rewrite ?len_app, ?len_cons, ?len_nil, <- ?app_assoc in *; cbn [app]; try done; try lia.
    + f_equal. lia.
    + intros ?. apply Hinv. lia.
  - symmetry. apply andb_false_iff. destruct (decide (len pre = ai)) as [Heq|]; [|left; lia].
    right. apply bool_decide_eq_false_2. intros Hi. apply Hinv; [lia|].
    unfold is_invocation_array. destruct pre; [|done]. unfold len in Heq. cbn in Heq. lia.
Qed.

Lemma decode_done fuel ai n items raw rest :
  decode_items fuel ai n n items raw rest = Some (Ok (items, raw)).
Proof. destruct fuel; cbn; by rewrite Z.leb_refl. Qed.

Lemma array_elements l bytes :
  mp_wf (MArray l) = true -> mp_write_value (MArray l) = Ok bytes ->
  exists bs, Forall2 (fun v b => mp_write_value v = Ok b) l bs /\
    mp_read_array_len bytes = Some (len l, concat bs) /\ (length l <= length (concat bs))%nat.
Proof.
  intros Hwf Hw. destruct (read_written_array l bytes [] Hwf Hw) as (bs & Hbs & Hr).
  rewrite !app_nil_r in Hr. exists bs. split_and!; [done|done|]. apply written_length; [|done].
  cbn in Hwf. apply andb_true_iff in Hwf as [_ Hwf]. rewrite forallb_forall in Hwf.
  apply Forall_forall. intros v Hv. apply Hwf. by apply list_elem_of_In.
Qed.

(** An array that is not an invocation with arguments decodes to its elements. *)
Lemma decode_written_plain l bytes ai :
  mp_wf (MArray l) = true -> Forall readable l -> mp_write_value (MArray l) = Ok bytes ->
  0 < ai -> (ai < len l -> ~ is_invocation_array l) ->
  decode_message bytes ai = Ok (l, None).
Proof.
  intros Hwf Hr Hw Hai Hinv. destruct (array_elements l bytes Hwf Hw) as (bs & Hbs & Ha & Hlen).
  unfold decode_message. rewrite Ha.
  pose proof (decode_plain l bs (S (length (concat bs)) - length l) ai [] (len l) None []
    Hr Hbs Hai ltac:(done)) as Hd. rewrite app_nil_r in Hd.
  replace (length l + _)%nat with (S (length (concat bs))) in Hd by lia.
  change (len []) with 0 in Hd. rewrite Hd by (intros [_ ?]; apply Hinv; lia).
  by rewrite Z.add_0_l, decode_done.
Qed.

(** The arguments of an invocation stay encoded. *)
Lemma decode_written_invocation before args after bytes abytes :
  let l := before ++ args :: after in
  mp_wf (MArray l) = true -> Forall readable before -> Forall readable after ->
  mp_depth args <= MAX_DEPTH -> mp_write_value (MArray l) = Ok bytes ->
  mp_write_value args = Ok abytes -> before <> [] -> is_invocation_array before ->
  decode_message bytes (len before) = Ok (before ++ MNil :: after, Some abytes).
Proof.
  cbv zeta. intros Hwf Hb Ha Hd Hw Hargs Hne Hinv.
  destruct (array_elements _ bytes Hwf Hw) as (bs & Hbs & Har & Hlen).
  apply Forall2_app_inv_l in Hbs as (bb & ab & Hbb & Hab & ->).
  apply Forall2_cons_inv_l in Hab as (ab0 & ab' & Hab0 & Hab & ->).
  assert (ab0 = abytes) as -> by congruence. clear Hab0.
  unfold decode_message. rewrite Har. rewrite concat_app in *. cbn [concat] in *.
  assert (Hpos : 0 < len before) by (destruct before; [done|rewrite len_cons; pose proof (len_nonneg before); lia]).
  set (total := S (length (concat bb ++ abytes ++ concat ab'))).
  rewrite length_app in Hlen. cbn in Hlen.
  pose proof (decode_plain before bb (total - length before) (len before) []
    (len (before ++ args :: after)) None (abytes ++ concat ab') Hb Hbb Hpos) as Hp.
  replace (length before + _)%nat with total in Hp by lia. change (len []) with 0 in Hp.
  rewrite len_app, len_cons in *. pose proof (len_nonneg after).
  rewrite Hp by (lia || (intros; lia)). clear Hp. cbn [app].
  destruct (total - length before)%nat as [|fuel] eqn:Hfuel; [lia|]. cbn [decode_items].
  replace (_ <=? _) with false by lia. rewrite Z.add_0_l, Z.eqb_refl, bool_decide_eq_true_2 by done.
  cbn [andb]. rewrite (skip_value_written args) by
    (done || (cbn in Hwf; apply andb_true_iff in Hwf as [_ Hwf]; rewrite forallb_app in Hwf;
              cbn in Hwf; by bool_to_prop)).
  replace (slice 0 _ _) with abytes.
  2: { unfold slice. rewrite len_app, drop_0, take_app_length'; [done|]. unfold len. lia. }
  pose proof (decode_plain after ab' (fuel - length after) (len before) (before ++ [MNil])
    (len before + (1 + len after)) (Some abytes) [] Ha Hab Hpos) as Hp.
  replace (length after + _)%nat with fuel in Hp by lia.
  rewrite app_nil_r, len_app, len_cons in Hp. change (len []) with 0 in Hp.
  rewrite Z.add_0_r in Hp. rewrite Hp by (lia || (intros; lia)).
  rewrite <- app_assoc. replace (len before + 1 + len after) with (len before + (1 + len after)) by lia.
  by rewrite decode_done.
Qed.

(** Skipping is exact: the bytes of any value nested at most 512 deep, followed by anything,
    are skipped up to what follows, without looking at the value. *)
Theorem skip_value_exact (v : mp_value) (bytes rest : list u8) :
  mp_wf v = true -> mp_write_value v = Ok bytes -> mp_depth v <= MAX_DEPTH ->
  skip_value (bytes ++ rest) 0 = Ok rest.
Proof. apply skip_value_written. Qed.

(** The decoder returns on every input: neither the recursion nor the loops run out of
    iterations, whatever lengths the bytes claim, and a skipped value is at least one byte. *)
Theorem decode_returns (bytes : list u8) (arguments_index n : Z) (rest : list u8) :
  (exists r, skip_value_fuel (Z.to_nat (MAX_DEPTH + 1)) bytes 0 = Some r /\ skip_value bytes 0 = r /\
    forall bytes', r = Ok bytes' -> (length bytes' < length bytes)%nat) /\
  (mp_read_array_len bytes = Some (n, rest) ->
    exists r, decode_items (S (length rest)) arguments_index 0 n [] None rest = Some r /\
      decode_message bytes arguments_index = r).
Proof.
  split.
  - exists (skip_value bytes 0). split_and!; [by rewrite <- skip_run|done|].
    intros bytes'. by apply skip_value_Ok.
  - intros Hn. unfold decode_message. rewrite Hn.
    destruct (decode_items _ _ _ _ _ _ _) as [r|] eqn:E; [eauto|].
    exfalso. eapply decode_run; [|exact E]. lia.
Qed.

End laws.
