(* ===== verification/MsgPackProtocol.v ===== *)
(** * The MessagePack protocol ([src/hub/messagepack/write.rs], [src/hub/messagepack/mod.rs])

    The writers build the array of a message, [pack_payload] encodes and frames it, and
    [MessagePackProtocol] is the implementation of the protocol trait for binary transports. *)

From Stdlib Require Import ZArith Lia String.
From stdpp Require Import base list strings gmap.
From S2P Require Import Prelude Framing Utf8 Errors Values Arguments Message JsonProtocol.
From S2P Require Import MsgPackFormat MsgPackParse.

Local Open Scope Z_scope.

(** [headers_value] *)
Definition headers_value (h : headers) : mp_value :=
  if decide (h = ∅) then MMap []
  else MMap (map (fun kv => (MString kv.1, MString kv.2)) (map_to_list h)).

(** [optional_string_value] *)
Definition optional_string_value (value : option string) : mp_value :=
  default MNil (MString <$> value).

(** [Value::from] of a message type's number. *)
Definition type_value (t : MessageType) : mp_value := MInteger (message_type_number t).

(** The stream ids a payload ends with, when there are any. *)
Definition stream_ids_values (stream_ids : option (list string)) : list mp_value :=
  match stream_ids with
  | Some ((_ :: _) as stream_ids) => [MArray (map MString stream_ids)]
  | _ => []
  end.

(** The kind of result of a completion. *)
Definition result_kind (m : CompletionMessage) : Z :=
  if bool_decide (is_Some (comp_error m)) then ERROR_RESULT
  else if bool_decide (is_Some (comp_result m)) then NON_VOID_RESULT
  else VOID_RESULT.

(** The value after the kind of result. *)
Definition result_values (m : CompletionMessage) : list mp_value :=
  let kind := result_kind m in
  if kind =? ERROR_RESULT then [json_to_value_opt (JString <$> comp_error m)]
  else if kind =? NON_VOID_RESULT then [json_to_value_opt (comp_result m)]
  else [].

Section write.
Context `{MP : MsgPack}.

(** [encode_array] *)
Definition encode_array (values : list mp_value) : result ProtocolError (list u8) :=
  map_err (fun e => PMessagePack ("failed to encode messagepack payload: " +:+ e))
    (mp_write_value (MArray values)).

(** [pack_payload] *)
Definition pack_payload (payload : list mp_value) : result ProtocolError (list u8) :=
  packed ← encode_array payload;
  Ok (Binary.write packed).

(** [write_ping] *)
Definition write_ping : result ProtocolError (list u8) := pack_payload [type_value TPing].

(** [write_cancel_invocation] *)
Definition write_cancel_invocation (m : CancelInvocationMessage) : result ProtocolError (list u8) :=
  pack_payload [type_value TCancelInvocation; headers_value (cancel_headers m);
                MString (cancel_invocation_id m)].

(** [write_completion] *)
Definition write_completion (m : CompletionMessage) : result ProtocolError (list u8) :=
  pack_payload ([type_value TCompletion; headers_value (comp_headers m);
                 MString (comp_invocation_id m); MInteger (result_kind m)] ++ result_values m).

(** [write_stream_item] *)
Definition write_stream_item (m : StreamItemMessage) : result ProtocolError (list u8) :=
  pack_payload [type_value TStreamItem; headers_value (item_headers m);
                optional_string_value (item_invocation_id m); json_to_value (item_item m)].

(** [write_stream_invocation] *)
Definition write_stream_invocation (m : StreamInvocationMessage) : result ProtocolError (list u8) :=
  pack_payload ([type_value TStreamInvocation; headers_value (sinv_headers m);
                 MString (sinv_invocation_id m); MString (sinv_target m);
                 json_array_value (sinv_arguments m)] ++ stream_ids_values (sinv_stream_ids m)).

(** [write_invocation] *)
Definition write_invocation (m : InvocationMessage) : result ProtocolError (list u8) :=
  arguments ← messagepack_value (inv_arguments m);
  pack_payload ([type_value TInvocation; headers_value (inv_headers m);
                 optional_string_value (inv_invocation_id m); MString (inv_target m);
                 arguments] ++ stream_ids_values (inv_stream_ids m)).

(** [write_close] *)
Definition write_close : result ProtocolError (list u8) := pack_payload [type_value TClose; MNil].

(** [write_ack] *)
Definition write_ack (m : AckMessage) : result ProtocolError (list u8) :=
  pack_payload [type_value TAck; MInteger (ack_sequence_id m)].

(** [write_sequence] *)
Definition write_sequence (m : SequenceMessage) : result ProtocolError (list u8) :=
  pack_payload [type_value TSequence; MInteger (seq_sequence_id m)].

(** [write_message] *)
Definition mp_write_message (m : HubMessage) : result ProtocolError (list u8) :=
  match m with
  | HInvocation m => write_invocation m
  | HStreamInvocation m => write_stream_invocation m
  | HStreamItem m => write_stream_item m
  | HCompletion m => write_completion m
  | HPing => write_ping
  | HCancelInvocation m => write_cancel_invocation m
  | HClose _ => write_close
  | HAck m => write_ack m
  | HSequence m => write_sequence m
  end.

Definition null_message : ProtocolError := PInvalidPayload "cannot encode message which is null".

(** The loop over the frames in [parse_messages], given what is done with one frame. *)
Fixpoint parse_frames (parse_frame : list u8 -> result ProtocolError (option HubMessage))
    (frames : list (list u8)) : result ProtocolError (list HubMessage) :=
  match frames with
  | [] => Ok []
  | [] :: _ => Err null_message
  | frame :: frames =>
      parsed ← parse_frame frame;
      messages ← parse_frames parse_frame frames;
      Ok (match parsed with Some message => message :: messages | None => messages end)
  end.

(** The frames of binary input. *)
Definition parse_binary (parse_frame : list u8 -> result ProtocolError (option HubMessage))
    (bytes : list u8) : result ProtocolError (list HubMessage) :=
  frames ← map_err PFraming (Binary.parse bytes);
  match frames with
  | [] => Err null_message
  | _ => parse_frames parse_frame frames
  end.

(** The body of the loop of [MessagePackProtocol::parse_messages]. *)
Definition mp_parse_frame (frame : list u8) : result ProtocolError (option HubMessage) :=
  '(items, raw_arguments) ← decode_message frame 4;
  parse_message items raw_arguments.

(** [MessagePackProtocol::parse_messages] *)
Definition mp_parse_messages (input : HubProtocolInput) : result ProtocolError (list HubMessage) :=
  match input with
  | IText _ => Err (PInvalidInput "invalid input for MessagePack hub protocol; expected binary")
  | IBinary bytes => parse_binary mp_parse_frame bytes
  end.

(** [impl HubProtocol for MessagePackProtocol] *)
Definition MessagePackProtocol : HubProtocol := {|
  name := "messagepack";
  version := 2;
  transfer_format := FBinary;
  parse_messages := mp_parse_messages;
  write_message := mp_write_message
|}.

End write.

(** ** Frames *)

(** A protocol over frames whose single messages survive lets sequences of messages survive. *)
Lemma frames_roundtrip (write : HubMessage -> result ProtocolError (list u8))
    (parse_frame : list u8 -> result ProtocolError (option HubMessage))
    (arrives : HubMessage -> list HubMessage -> Prop) (supported : HubMessage -> Prop) :
  (forall m, supported m -> exists packed parsed, write m = Ok (Binary.write packed) /\
    packed <> [] /\ len packed < 2 ^ 31 /\ parse_frame packed = Ok parsed /\
    arrives m (option_list parsed)) ->
  forall ms, ms <> [] -> Forall supported ms -> exists frames arrived,
    Forall2 (fun m bytes => write m = Ok bytes) ms frames /\ Forall2 arrives ms arrived /\
    parse_binary parse_frame (concat frames) = Ok (concat arrived).
Proof.
  intros Hone ms Hne Hms.
  assert (H : exists packed arrived, Forall2 (fun m p => write m = Ok (Binary.write p)) ms packed /\
    Forall (fun p => len p < 2 ^ 31) packed /\ Forall2 arrives ms arrived /\
    parse_frames parse_frame packed = Ok (concat arrived)).
  { clear Hne. induction Hms as [|m ms Hm _ (packed & arrived & IH1 & IH2 & IH3 & IH4)];
      [by exists [], []|].
    destruct (Hone m Hm) as (p & parsed & Hw & Hp & Hlen & Hpm & Har).
    exists (p :: packed), (option_list parsed :: arrived). split_and!; [by constructor..|].
    destruct p as [|b p]; [done|]. cbn [parse_frames]. rewrite Hpm. cbn.
    rewrite IH4. by destruct parsed. }
  destruct H as (packed & arrived & Hw & Hlen & Har & Hparse).
  exists (map Binary.write packed), arrived. split_and!; [|done|].
  - clear -Hw. induction Hw; by constructor.
  - unfold parse_binary. pose proof (Binary.framed_write_all packed Hlen) as Hf.
    apply Binary.parse_framed in Hf. rewrite Hf. cbn.
    destruct packed; [|done]. by inversion Hw; subst.
Qed.

(** ** What arrives *)

Section spec.
Context `{MP : MsgPack}.

(** The array of a message. *)
Definition message_payload (m : HubMessage) : result ProtocolError (list mp_value) :=
  match m with
  | HInvocation m =>
      arguments ← messagepack_value (inv_arguments m);
      Ok ([type_value TInvocation; headers_value (inv_headers m);
           optional_string_value (inv_invocation_id m); MString (inv_target m);
           arguments] ++ stream_ids_values (inv_stream_ids m))
  | HStreamInvocation m =>
      Ok ([type_value TStreamInvocation; headers_value (sinv_headers m);
           MString (sinv_invocation_id m); MString (sinv_target m);
           json_array_value (sinv_arguments m)] ++ stream_ids_values (sinv_stream_ids m))
  | HStreamItem m =>
      Ok [type_value TStreamItem; headers_value (item_headers m);
          optional_string_value (item_invocation_id m); json_to_value (item_item m)]
  | HCompletion m =>
      Ok ([type_value TCompletion; headers_value (comp_headers m);
           MString (comp_invocation_id m); MInteger (result_kind m)] ++ result_values m)
  | HPing => Ok [type_value TPing]
  | HCancelInvocation m =>
      Ok [type_value TCancelInvocation; headers_value (cancel_headers m);
          MString (cancel_invocation_id m)]
  | HClose _ => Ok [type_value TClose; MNil]
  | HAck m => Ok [type_value TAck; MInteger (ack_sequence_id m)]
  | HSequence m => Ok [type_value TSequence; MInteger (seq_sequence_id m)]
  end.

(** The arguments are JSON values, or encoded as an array. *)
Definition arguments_ok (a : Arguments) : bool :=
  match a with
  | AJson l => forallb (json_wf finite_f64) l
  | AMessagePack _ => is_ok (json_values a)
  end.

(** The JSON values a message carries are values of [serde_json]. *)
Definition json_parts_ok (m : HubMessage) : bool :=
  match m with
  | HInvocation m => arguments_ok (inv_arguments m)
  | HStreamItem m => json_wf finite_f64 (item_item m)
  | HCompletion m => forallb (json_wf finite_f64) (option_list (comp_result m))
  | _ => true
  end.

(** The messages that survive: the array is expressible in MessagePack, nested at most
    [MAX_DEPTH] deep, shorter than 2 GiB when encoded, and its JSON values are well formed. *)
Definition mp_supported (m : HubMessage) : Prop :=
  exists l, message_payload m = Ok l /\ mp_wf (MArray l) = true /\
    Forall (fun v => mp_depth v <= MAX_DEPTH) l /\
    (forall packed, mp_write_value (MArray l) = Ok packed -> len packed < 2 ^ 31) /\
    json_parts_ok m = true /\ ids_in_range m = true.

(** What the receiver gets: stream invocations and cancellations are ignored, a close message
    loses its fields, the error of a completion takes precedence over its result, arguments are
    equal as JSON values. *)
Definition mp_arrives (m : HubMessage) (ms : list HubMessage) : Prop :=
  match m with
  | HInvocation m => exists a, args_eq (inv_arguments m) a /\
      ms = [HInvocation {| inv_headers := inv_headers m; inv_invocation_id := inv_invocation_id m;
                           inv_target := inv_target m; inv_arguments := a;
                           inv_stream_ids := Some [] |}]
  | HStreamInvocation _ | HCancelInvocation _ => ms = []
  | HCompletion m =>
      ms = [HCompletion {| comp_headers := comp_headers m;
                           comp_invocation_id := comp_invocation_id m;
                           comp_error := comp_error m;
                           comp_result := match comp_error m with
                                          | Some _ => None
                                          | None => comp_result m
                                          end |}]
  | HClose _ => ms = [HClose {| close_error := None; close_allow_reconnect := None |}]
  | m => ms = [m]
  end.

End spec.

(** ** Reading the parts of a payload *)

Lemma headers_value_read t h rest :
  create_message_headers (t :: headers_value h :: rest) = Ok h.
Proof.
  unfold create_message_headers.
  replace (_ <? 2) with false by (rewrite !len_cons; pose proof (len_nonneg rest); lia).
  cbn [item_at lookup list_lookup default]. unfold item_at. cbn. unfold headers_value.
  case_decide as Hh; [by subst|]. rewrite map_map. cbn [fst snd].
  rewrite (collect_map_Ok _ id) by (by intros [k v] _). cbn. rewrite map_id.
  rewrite hash_collect_list_to_map by apply NoDup_fst_map_to_list.
  by rewrite list_to_map_to_list.
Qed.

Lemma mp_optional_string_read s : optional_string (optional_string_value s) = Ok s.
Proof. by destruct s. Qed.

Lemma value_to_i64_read z : z <= i64_max -> value_to_i64 (MInteger z) = Ok z.
Proof. intros Hz. unfold value_to_i64. cbn. by replace (z <=? i64_max) with true by lia. Qed.

Lemma type_value_read t : value_to_i64 (type_value t) = Ok (message_type_number t).
Proof. by destruct t. Qed.

Lemma not_invocation t l :
  t <> TInvocation -> ~ is_invocation_array (type_value t :: l).
Proof. intros Ht. unfold is_invocation_array. by destruct t. Qed.

#[export] Hint Rewrite headers_value_read mp_optional_string_read type_value_read type_read : msgpack.

Section laws.
Context `{MP : MsgPack, ML : !MsgPackLaws MP}.

Lemma pack_written l :
  mp_wf (MArray l) = true -> exists packed,
    mp_write_value (MArray l) = Ok packed /\ pack_payload l = Ok (Binary.write packed) /\
    packed <> [].
Proof.
  intros Hwf. destruct (write_layout _ Hwf) as (packed & _ & _ & _ & _ & _ & Hw & _).
  exists packed. split_and!; [done| |].
  - unfold pack_payload, encode_array. by rewrite Hw.
  - intros ->. by apply written_not_empty in Hw; [cbn in Hw; lia|].
Qed.

Lemma write_message_payload m :
  mp_write_message m = message_payload m ≫= pack_payload.
Proof.
  destruct m; cbn -[pack_payload]; try done.
  unfold write_invocation. by destruct (messagepack_value _).
Qed.

(** The parser on a payload that is not an invocation. *)
Lemma parse_payload_other m l :
  message_payload m = Ok l -> json_parts_ok m = true -> ids_in_range m = true ->
  message_type m <> TInvocation ->
  exists parsed, parse_message l None = Ok parsed /\ mp_arrives m (option_list parsed).
Proof.
  intros Hl Hj Hids Ht. destruct m as [m|m|m|m|m| |m|m|m]; cbn in Hl, Ht; try done;
    injection Hl as <-; cbn [parse_message app]; autorewrite with msgpack; cbn -[create_completion_message];
    try (by eexists).
  - unfold create_stream_item_message. autorewrite with msgpack. unfold item_at. cbn.
    rewrite mp_optional_string_read. cbn. eexists. split; [done|]. cbn.
    rewrite value_to_json_of_json by done. by destruct m.
  - unfold create_completion_message. autorewrite with msgpack. unfold item_at. cbn.
    destruct m as [h i [e|] [r|]]; cbn in *; try (eexists; split; [done|done]).
    eexists. split; [done|]. cbn. rewrite value_to_json_of_json; [done|]. by bool_to_prop.
  - cbn in Hids. bool_to_prop. unfold create_ack_message, item_at. cbn.
    rewrite value_to_i64_read by done. eexists. split; [done|]. by destruct m.
  - cbn in Hids. bool_to_prop. unfold create_sequence_message, item_at. cbn.
    rewrite value_to_i64_read by done. eexists. split; [done|]. by destruct m.
Qed.


(** The arguments of an invocation after the way over the wire. *)
Lemma arguments_arrive a v bytes :
  arguments_ok a = true -> messagepack_value a = Ok v -> mp_wf v = true ->
  mp_depth v <= MAX_DEPTH -> mp_write_value v = Ok bytes ->
  from_messagepack bytes = Ok (AMessagePack bytes) /\ args_eq a (AMessagePack bytes).
Proof.
  intros Ha Hv Hwf Hd Hw.
  assert (Hr : mp_read_value bytes = Ok (v, [])).
  { rewrite <- (app_nil_r bytes). apply read_written; [done| |done]. unfold MAX_DEPTH, READ_DEPTH in *. lia. }
  assert (Hj : exists l k, v = MArray l /\ json_values a = Ok k /\ map value_to_json l = k).
  { destruct a as [l|b]; cbn in *.
    - injection Hv as <-. eexists _, _. split_and!; [done|done|]. by apply values_to_json_of_json.
    - destruct (mp_read_value b) as [[v' r]|]; cbn in *; [|done]. injection Hv as ->.
      destruct v; cbn in *; try done. by eexists _, _. }
  destruct Hj as (l & k & -> & Hk & Hl). split.
  - unfold from_messagepack. destruct (read_written_array l bytes [] Hwf Hw) as (bs & _ & Hlen).
    rewrite app_nil_r in Hlen. by rewrite Hlen.
  - exists k. split; [done|]. cbn. rewrite Hr. cbn. by rewrite Hl.
Qed.

Lemma payload_readable l :
  mp_wf (MArray l) = true -> Forall (fun v => mp_depth v <= MAX_DEPTH) l -> Forall readable l.
Proof.
  cbn. intros [_ Hwf]%andb_true_iff Hd. rewrite forallb_forall in Hwf. apply Forall_forall.
  intros v Hv. rewrite Forall_forall in Hd. split; [apply Hwf; by apply list_elem_of_In|].
  specialize (Hd v Hv). unfold MAX_DEPTH, READ_DEPTH in *. lia.
Qed.

(** A supported message: its frame decodes and parses to what should arrive. *)
Lemma mp_written m : mp_supported m -> exists packed parsed,
  mp_write_message m = Ok (Binary.write packed) /\ packed <> [] /\ len packed < 2 ^ 31 /\
  mp_parse_frame packed = Ok parsed /\ mp_arrives m (option_list parsed).
Proof.
  intros (l & Hl & Hwf & Hd & Hsize & Hj & Hids). destruct (pack_written l Hwf) as (packed & Hw & Hp & Hne).
  pose proof (payload_readable l Hwf Hd) as Hr. exists packed.
  assert (Hwm : mp_write_message m = Ok (Binary.write packed)).
  { by rewrite write_message_payload, Hl. }
  destruct (decide (message_type m = TInvocation)) as [Ht|Ht].
  - destruct m as [m| | | | | | | |]; try done. cbn in Hl.
    destruct (messagepack_value (inv_arguments m)) as [args|e] eqn:Hargs; cbn in Hl; [|done].
    injection Hl as Hl. set (before := [type_value TInvocation; headers_value (inv_headers m);
      optional_string_value (inv_invocation_id m); MString (inv_target m)]).
    set (after := stream_ids_values (inv_stream_ids m)) in *.
    change (before ++ args :: after = l) in Hl. subst l.
    apply Forall_app in Hr as [Hrb [[Hwa _] Hra]%Forall_cons].
    apply Forall_app in Hd as [_ [Hda _]%Forall_cons].
    destruct (write_layout args Hwa) as (ab & _ & _ & _ & _ & _ & Hwargs & _).
    destruct (arguments_arrive _ _ _ Hj Hargs Hwa Hda Hwargs) as [Hfrom Heq].
    pose proof (decode_written_invocation before args after packed ab Hwf Hrb Hra Hda Hw Hwargs
      ltac:(done) ltac:(done)) as Hdec. change (len before) with 4 in Hdec.
    eexists (Some _). unfold mp_parse_frame. rewrite Hdec.
    split_and!; [done|done|by apply Hsize| |].
    + unfold before. cbn [app parse_message mbind result_bind]. autorewrite with msgpack. cbn -[create_invocation_message].
      unfold create_invocation_message. replace (5 <=? _) with true
        by (rewrite !len_cons; pose proof (len_nonneg after); lia).
      autorewrite with msgpack. unfold item_at. cbn. rewrite mp_optional_string_read. cbn.
      rewrite Hfrom. done.
    + cbn. eexists. split; [exact Heq|done].
  - destruct (parse_payload_other m l Hl Hj Hids Ht) as (parsed & Hpm & Har).
    exists parsed. split_and!; [done|done|by apply Hsize| |done].
    unfold mp_parse_frame. rewrite (decode_written_plain l); [done|done|done|done|done|]. intros _.
    destruct m as [m|m|m|m|m| |m|m|m]; cbn in Hl, Ht; try done; injection Hl as <-; by apply not_invocation.
Qed.

(** C3: MessagePack protocol round trip: the frames of any supported messages, sent one after
    the other, parse to what should arrive for each of them, in order: invocations with equal
    arguments, stream items, completions, pings, acks and sequences unchanged, and nothing for
    the messages only a server reads. *)
Theorem msgpack_protocol_roundtrip (ms : list HubMessage) :
  ms <> [] -> Forall mp_supported ms ->
  exists frames arrived, Forall2 (fun m bytes => mp_write_message m = Ok bytes) ms frames /\
    Forall2 mp_arrives ms arrived /\
    mp_parse_messages (IBinary (concat frames)) = Ok (concat arrived).
Proof. intros Hne Hms. apply (frames_roundtrip _ _ _ mp_supported mp_written ms Hne Hms). Qed.

Lemma msgpack_protocol_laws : protocol_ok MessagePackProtocol mp_supported mp_arrives.
Proof.
  split; [done|]. intros m Hm.
  destruct (frames_roundtrip _ _ _ mp_supported mp_written [m] ltac:(done) ltac:(by constructor))
    as (frames & arrived & Hw & Ha & Hp).
  apply Forall2_cons_inv_l in Hw as (b & fs & Hb & Hnil & ->). inversion Hnil; subst.
  apply Forall2_cons_inv_l in Ha as (a & as' & Ha & Hnil' & ->). inversion Hnil'; subst.
  exists b, a. cbn [concat] in Hp. rewrite !app_nil_r in Hp. done.
Qed.

End laws.
