(* ===== verification/Brotli.v ===== *)
(** * The MessagePack protocol with Brotli-compressed fields ([src/hub/messagepack/brotli/])

    A message carries a flag that says whether its arguments, item or result are compressed.  The
    writer never compresses; the parser accepts both.  The decoder is the trait object
    [BrotliDecoder], an interface the protocol is generic in. *)

From Stdlib Require Import ZArith Lia String.
From stdpp Require Import base list strings gmap.
From S2P Require Import Prelude Framing Utf8 Errors Values Arguments Message JsonProtocol.
From S2P Require Import MsgPackFormat MsgPackParse MsgPackProtocol.

Local Open Scope Z_scope.

(** [trait BrotliDecoder] *)
Class BrotliDecoder := { decode : list u8 -> result ProtocolError (list u8) }.

(** [DefaultBrotliDecoder::decode], given the decompressor of the [brotli] crate. *)
Definition default_decode (decompress : list u8 -> result string (list u8)) (data : list u8)
    : result ProtocolError (list u8) :=
  map_err (fun e => PInvalidPayload ("brotli decompression failed: " +:+ e)) (decompress data).

(** [value_to_bytes] *)
Definition value_to_bytes (v : mp_value) : option (list u8) :=
  match v with
  | MBinary bytes => Some bytes
  | MArray items => mapM (fun item => Z_to_u8 <$> m_as_u64 item) items
  | _ => None
  end.

Section brotli.
Context `{MP : MsgPack, BD : BrotliDecoder}.

(** [unpack_data] *)
Definition unpack_data (data : option mp_value) (is_compressed : bool)
    : result ProtocolError (option mp_value) :=
  match data with
  | None => Ok None
  | Some data =>
      if negb is_compressed then Ok (Some data)
      else
        match value_to_bytes data with
        | None => Ok None
        | Some bytes =>
            decoded ← decode bytes;
            match mp_read_value decoded with
            | Ok (v, _) => Ok (Some v)
            | Err e => Err (PMessagePack ("failed to decode brotli payload: " +:+ e))
            end
        end
  end.

(** [data.get(i).and_then(|value| value.as_i64()) == Some(1)] *)
Definition flag_at (data : list mp_value) (i : nat) : bool :=
  bool_decide ((data !! i ≫= m_as_i64) = Some 1).

(** [create_completion_message] *)
Definition br_completion_message (data : list mp_value) : result ProtocolError CompletionMessage :=
  let invalid := PInvalidPayload "invalid payload for Completion message" in
  if len data <? 4 then Err invalid
  else
    headers ← create_message_headers data;
    result_kind ← value_to_i64 (item_at data 3);
    if negb (result_kind =? VOID_RESULT) && (len data <? 5) then Err invalid
    else
      invocation_id ← value_to_string (item_at data 2);
      if (result_kind =? ERROR_RESULT) || (result_kind =? NON_VOID_RESULT) then
        unpacked ← unpack_data (data !! 5%nat) (flag_at data 4);
        if result_kind =? ERROR_RESULT then
          Ok {| comp_headers := headers; comp_invocation_id := invocation_id;
                comp_error := unpacked ≫= m_as_str; comp_result := None |}
        else
          Ok {| comp_headers := headers; comp_invocation_id := invocation_id;
                comp_error := None; comp_result := value_to_json <$> unpacked |}
      else
        Ok {| comp_headers := headers; comp_invocation_id := invocation_id;
              comp_error := None; comp_result := None |}.

(** [create_stream_item_message] *)
Definition br_stream_item_message (data : list mp_value) : result ProtocolError StreamItemMessage :=
  if len data <? 5 then Err (PInvalidPayload "invalid payload for StreamItem message")
  else
    unpacked ← unpack_data (data !! 4%nat) (flag_at data 3);
    let item := default JNull (value_to_json <$> unpacked) in
    headers ← create_message_headers data;
    invocation_id ← optional_string (item_at data 2);
    Ok {| item_headers := headers; item_invocation_id := invocation_id; item_item := item |}.

(** [create_invocation_message] *)
Definition br_invocation_message (data : list mp_value) (raw_arguments : option (list u8))
    : result ProtocolError InvocationMessage :=
  if len data <? 5 then Err (PInvalidPayload "invalid payload for Invocation message")
  else
    arguments ←
      match raw_arguments with
      | None => Ok arguments_default
      | Some raw =>
          if flag_at data 4 then
            match mp_read_value raw with
            | Err e => Err (PMessagePack ("failed to decode arguments: " +:+ e))
            | Ok (packed, _) =>
                bytes ← ok_or (value_to_bytes packed)
                          (PInvalidPayload "compressed arguments are not binary");
                decoded ← decode bytes;
                from_messagepack decoded
            end
          else from_messagepack raw
      end;
    headers ← create_message_headers data;
    invocation_id ← optional_string (item_at data 2);
    target ← value_to_string (item_at data 3);
    Ok {| inv_headers := headers; inv_invocation_id := invocation_id; inv_target := target;
          inv_arguments := arguments; inv_stream_ids := Some [] |}.

(** [create_stream_invocation_message] *)
Definition br_stream_invocation_message (data : list mp_value)
    : result ProtocolError StreamInvocationMessage :=
  if len data <? 6 then Err (PInvalidPayload "invalid payload for StreamInvocation message")
  else
    unpacked ← unpack_data (data !! 5%nat) (flag_at data 4);
    arguments ← match unpacked with
                | Some v => value_to_json_array v
                | None => Ok []
                end;
    headers ← create_message_headers data;
    invocation_id ← value_to_string (item_at data 2);
    target ← value_to_string (item_at data 3);
    Ok {| sinv_headers := headers; sinv_invocation_id := invocation_id; sinv_target := target;
          sinv_arguments := arguments; sinv_stream_ids := Some [] |}.

(** [parse_message] *)
Definition br_parse_message (data : list mp_value) (raw_arguments : option (list u8))
    : result ProtocolError (option HubMessage) :=
  match data with
  | [] => Err (PInvalidPayload "invalid payload")
  | first :: _ =>
      message_type ← value_to_i64 first;
      match from_i32 (as_i32 message_type) with
      | None => Ok None
      | Some TInvocation => Some ∘ HInvocation <$> br_invocation_message data raw_arguments
      | Some TStreamInvocation => Some ∘ HStreamInvocation <$> br_stream_invocation_message data
      | Some TStreamItem => Some ∘ HStreamItem <$> br_stream_item_message data
      | Some TCompletion => Some ∘ HCompletion <$> br_completion_message data
      | Some TPing => (fun _ => Some HPing) <$> create_ping_message data
      | Some TClose => Some ∘ HClose <$> create_close_message data
      | Some TAck => Some ∘ HAck <$> create_ack_message data
      | Some TSequence => Some ∘ HSequence <$> create_sequence_message data
      | Some TCancelInvocation => Ok None
      end
  end.

(** The body of the loop of [MessagePackBrotliProtocol::parse_messages]. *)
Definition br_parse_frame (frame : list u8) : result ProtocolError (option HubMessage) :=
  '(items, raw_arguments) ← decode_message frame 5;
  match items with
  | [] => Err null_message
  | _ => br_parse_message items raw_arguments
  end.

(** [MessagePackBrotliProtocol::parse_messages] *)
Definition br_parse_messages (input : HubProtocolInput) : result ProtocolError (list HubMessage) :=
  match input with
  | IText _ =>
      Err (PInvalidInput "invalid input for MessagePack+Brotli hub protocol; expected binary")
  | IBinary bytes => parse_binary br_parse_frame bytes
  end.

(** ** Writing *)

(** [write_invocation_brotli] *)
Definition write_invocation_brotli (m : InvocationMessage) : result ProtocolError (list u8) :=
  arguments ← messagepack_value (inv_arguments m);
  pack_payload ([type_value TInvocation; headers_value (inv_headers m);
                 optional_string_value (inv_invocation_id m); MString (inv_target m); MInteger 0;
                 arguments] ++ stream_ids_values (inv_stream_ids m)).

(** [write_stream_invocation_brotli] *)
Definition write_stream_invocation_brotli (m : StreamInvocationMessage)
    : result ProtocolError (list u8) :=
  pack_payload ([type_value TStreamInvocation; headers_value (sinv_headers m);
                 MString (sinv_invocation_id m); MString (sinv_target m); MInteger 0;
                 json_array_value (sinv_arguments m)] ++ stream_ids_values (sinv_stream_ids m)).

(** [write_stream_item_brotli] *)
Definition write_stream_item_brotli (m : StreamItemMessage) : result ProtocolError (list u8) :=
  pack_payload [type_value TStreamItem; headers_value (item_headers m);
                optional_string_value (item_invocation_id m); MInteger 0;
                json_to_value (item_item m)].

(** The values after the kind of result of a completion. *)
Definition br_result_values (m : CompletionMessage) : list mp_value :=
  let kind := result_kind m in
  if kind =? ERROR_RESULT then [MInteger 0; json_to_value_opt (JString <$> comp_error m)]
  else if kind =? NON_VOID_RESULT then [MInteger 0; json_to_value_opt (comp_result m)]
  else [].

(** [write_completion_brotli] *)
Definition write_completion_brotli (m : CompletionMessage) : result ProtocolError (list u8) :=
  pack_payload ([type_value TCompletion; headers_value (comp_headers m);
                 MString (comp_invocation_id m); MInteger (result_kind m)] ++ br_result_values m).

(** [write_message] *)
Definition br_write_message (m : HubMessage) : result ProtocolError (list u8) :=
  match m with
  | HInvocation m => write_invocation_brotli m
  | HStreamInvocation m => write_stream_invocation_brotli m
  | HStreamItem m => write_stream_item_brotli m
  | HCompletion m => write_completion_brotli m
  | HPing => write_ping
  | HCancelInvocation m => write_cancel_invocation m
  | HClose _ => write_close
  | HAck m => write_ack m
  | HSequence m => write_sequence m
  end.

(** [impl HubProtocol for MessagePackBrotliProtocol] *)
Definition MessagePackBrotliProtocol : HubProtocol := {|
  name := "messagepack+brotli";
  version := 2;
  transfer_format := FBinary;
  parse_messages := br_parse_messages;
  write_message := br_write_message
|}.

(** ** What arrives *)

(** The array of a message. *)
Definition br_payload (m : HubMessage) : result ProtocolError (list mp_value) :=
  match m with
  | HInvocation m =>
      arguments ← messagepack_value (inv_arguments m);
      Ok ([type_value TInvocation; headers_value (inv_headers m);
           optional_string_value (inv_invocation_id m); MString (inv_target m); MInteger 0;
           arguments] ++ stream_ids_values (inv_stream_ids m))
  | HStreamInvocation m =>
      Ok ([type_value TStreamInvocation; headers_value (sinv_headers m);
           MString (sinv_invocation_id m); MString (sinv_target m); MInteger 0;
           json_array_value (sinv_arguments m)] ++ stream_ids_values (sinv_stream_ids m))
  | HStreamItem m =>
      Ok [type_value TStreamItem; headers_value (item_headers m);
          optional_string_value (item_invocation_id m); MInteger 0; json_to_value (item_item m)]
  | HCompletion m =>
      Ok ([type_value TCompletion; headers_value (comp_headers m);
           MString (comp_invocation_id m); MInteger (result_kind m)] ++ br_result_values m)
  | m => message_payload m
  end.

Definition br_json_parts_ok (m : HubMessage) : bool :=
  match m with
  | HStreamInvocation m => forallb (json_wf finite_f64) (sinv_arguments m)
  | m => json_parts_ok m
  end.

(** As [mp_supported], for the arrays of this protocol. *)
Definition br_supported (m : HubMessage) : Prop :=
  exists l, br_payload m = Ok l /\ mp_wf (MArray l) = true /\
    Forall (fun v => mp_depth v <= MAX_DEPTH) l /\
    (forall packed, mp_write_value (MArray l) = Ok packed -> len packed < 2 ^ 31) /\
    br_json_parts_ok m = true /\ ids_in_range m = true.

(** As [mp_arrives]; stream invocations arrive too, without their stream ids. *)
Definition br_arrives (m : HubMessage) (ms : list HubMessage) : Prop :=
  match m with
  | HStreamInvocation m =>
      ms = [HStreamInvocation {| sinv_headers := sinv_headers m;
                                 sinv_invocation_id := sinv_invocation_id m;
                                 sinv_target := sinv_target m;
                                 sinv_arguments := sinv_arguments m;
                                 sinv_stream_ids := Some [] |}]
  | m => mp_arrives m ms
  end.

End brotli.

Section laws.
Context `{MP : MsgPack, BD : BrotliDecoder, ML : !MsgPackLaws MP}.

Lemma br_write_payload m : br_write_message m = br_payload m ≫= pack_payload.
Proof.
  destruct m; cbn -[pack_payload]; try done.
  unfold write_invocation_brotli. by destruct (messagepack_value _).
Qed.

(** An item that is not compressed is taken as it is. *)
Lemma unpack_plain v : unpack_data (Some v) false = Ok (Some v).
Proof. done. Qed.

Lemma br_parse_payload_other m l :
  br_payload m = Ok l -> br_json_parts_ok m = true -> ids_in_range m = true ->
  message_type m <> TInvocation ->
  exists parsed, br_parse_message l None = Ok parsed /\ br_arrives m (option_list parsed).
Proof.
  intros Hl Hj Hids Ht. destruct m as [m|m|m|m|m| |m|m|m]; cbn in Hl, Ht; try done;
    injection Hl as <-; cbn [br_parse_message app]; autorewrite with msgpack;
    cbn -[br_completion_message br_stream_invocation_message br_stream_item_message];
    try (by eexists).
  - unfold br_stream_invocation_message. replace (_ <? 6) with false
      by (rewrite !len_cons; pose proof (len_nonneg (stream_ids_values (sinv_stream_ids m))); lia).
    unfold item_at. cbn. autorewrite with msgpack. cbn.
    eexists. split; [done|]. cbn. by rewrite values_to_json_of_json.
  - unfold br_stream_item_message, item_at. cbn. autorewrite with msgpack. cbn.
    eexists. split; [done|]. cbn. rewrite value_to_json_of_json by done. by destruct m.
  - unfold br_completion_message. autorewrite with msgpack. unfold item_at. cbn.
    destruct m as [h i [e|] [r|]]; cbn in *; try (eexists; split; [done|done]).
    eexists. split; [done|]. cbn. rewrite value_to_json_of_json; [done|]. by bool_to_prop.
  - cbn in Hids. bool_to_prop. unfold create_ack_message, item_at. cbn.
    rewrite value_to_i64_read by done. eexists. split; [done|]. by destruct m.
  - cbn in Hids. bool_to_prop. unfold create_sequence_message, item_at. cbn.
    rewrite value_to_i64_read by done. eexists. split; [done|]. by destruct m.
Qed.

Lemma br_written m : br_supported m -> exists packed parsed,
  br_write_message m = Ok (Binary.write packed) /\ packed <> [] /\ len packed < 2 ^ 31 /\
  br_parse_frame packed = Ok parsed /\ br_arrives m (option_list parsed).
Proof.
  intros (l & Hl & Hwf & Hd & Hsize & Hj & Hids).
  destruct (pack_written l Hwf) as (packed & Hw & Hp & Hne).
  pose proof (payload_readable l Hwf Hd) as Hr. exists packed.
  assert (Hwm : br_write_message m = Ok (Binary.write packed)) by (by rewrite br_write_payload, Hl).
  destruct (decide (message_type m = TInvocation)) as [Ht|Ht].
  - destruct m as [m| | | | | | | |]; try done. cbn in Hl.
    destruct (messagepack_value (inv_arguments m)) as [args|e] eqn:Hargs; cbn in Hl; [|done].
    injection Hl as Hl. set (before := [type_value TInvocation; headers_value (inv_headers m);
      optional_string_value (inv_invocation_id m); MString (inv_target m); MInteger 0]).
    set (after := stream_ids_values (inv_stream_ids m)) in *.
    change (before ++ args :: after = l) in Hl. subst l.
    apply Forall_app in Hr as [Hrb [[Hwa _] Hra]%Forall_cons].
    apply Forall_app in Hd as [_ [Hda _]%Forall_cons].
    destruct (write_layout args Hwa) as (ab & _ & _ & _ & _ & _ & Hwargs & _).
    destruct (arguments_arrive _ _ _ Hj Hargs Hwa Hda Hwargs) as [Hfrom Heq].
    pose proof (decode_written_invocation before args after packed ab Hwf Hrb Hra Hda Hw Hwargs
      ltac:(done) ltac:(done)) as Hdec. change (len before) with 5 in Hdec.
    eexists (Some _). unfold br_parse_frame. rewrite Hdec.
    split_and!; [done|done|by apply Hsize| |].
    + unfold before. cbn [app br_parse_message mbind result_bind]. autorewrite with msgpack.
      cbn -[br_invocation_message]. unfold br_invocation_message. replace (_ <? 5) with false
        by (rewrite !len_cons; pose proof (len_nonneg after); lia).
      cbn -[from_messagepack]. rewrite Hfrom. cbn. autorewrite with msgpack. unfold item_at. cbn.
      by rewrite ?mp_optional_string_read.
    + cbn. eexists. split; [exact Heq|done].
  - destruct (br_parse_payload_other m l Hl Hj Hids Ht) as (parsed & Hpm & Har).
    exists parsed. split_and!; [done|done|by apply Hsize| |done].
    unfold br_parse_frame. rewrite (decode_written_plain l); [|done|done|done|done|].
    + destruct m as [m|m|m|m|m| |m|m|m]; cbn in Hl, Ht; try done; by injection Hl as <-.
    + intros _. destruct m as [m|m|m|m|m| |m|m|m]; cbn in Hl, Ht; try done;
        injection Hl as <-; by apply not_invocation.
Qed.

(** Messages of which the format keeps everything: no ids of upload streams to announce, not both an
    error and a result, no fields in a close. *)
Definition br_lossless (m : HubMessage) : bool :=
  match m with
  | HInvocation m => bool_decide (inv_stream_ids m = Some [])
  | HStreamInvocation m => bool_decide (sinv_stream_ids m = Some [])
  | HCompletion m => bool_decide (comp_error m = None) || bool_decide (comp_result m = None)
  | HClose m => bool_decide (close_error m = None) && bool_decide (close_allow_reconnect m = None)
  | HCancelInvocation _ => false
  | _ => true
  end.

(** The same message; arguments are equal as JSON values. *)
Definition same_message (m m' : HubMessage) : Prop :=
  match m, m' with
  | HInvocation i, HInvocation i' =>
      inv_headers i' = inv_headers i /\ inv_invocation_id i' = inv_invocation_id i /\
      inv_target i' = inv_target i /\ args_eq (inv_arguments i) (inv_arguments i') /\
      inv_stream_ids i' = inv_stream_ids i
  | _, _ => m' = m
  end.

Lemma lossless_arrives m ms : br_lossless m = true -> br_arrives m ms ->
  exists m', ms = [m'] /\ same_message m m'.
Proof.
  destruct m as [[]|[]|m|[? ? error value]|m| |[]|m|m]; cbn; try done;
    try (intros _ ->; by eexists).
  - intros H (a & Ha & ->). apply bool_decide_eq_true_1 in H as ->. by eexists.
  - intros H ->. apply bool_decide_eq_true_1 in H as ->. by eexists.
  - intros H ->. apply orb_true_iff in H as [H|H]; apply bool_decide_eq_true_1 in H as ->;
      [by eexists|destruct error; by eexists].
  - intros H ->. apply andb_true_iff in H as [H1 H2]. apply bool_decide_eq_true_1 in H1 as ->.
    apply bool_decide_eq_true_1 in H2 as ->. by eexists.
Qed.

(** C37: Brotli protocol round trip: with any decoder, the frames of supported messages (finite floats,
    not nested too deeply, below 2 GiB), joined, parse to what arrives of each, in order: a cancel
    invocation not at all, a close without its fields, an invocation or a stream invocation with
    an empty list of stream ids, a completion with an error without its result, everything else
    as it was; so messages with nothing of that to lose parse back to themselves. *)
Theorem brotli_protocol_roundtrip (ms : list HubMessage) :
  ms <> [] -> Forall br_supported ms ->
  exists frames arrived, Forall2 (fun m bytes => br_write_message m = Ok bytes) ms frames /\
    Forall2 br_arrives ms arrived /\
    br_parse_messages (IBinary (concat frames)) = Ok (concat arrived) /\
    (Forall (fun m => br_lossless m = true) ms -> Forall2 same_message ms (concat arrived)).
Proof.
  intros Hne Hms. destruct (frames_roundtrip _ _ _ br_supported br_written ms Hne Hms)
    as (frames & arrived & Hf & Ha & Hp).
  exists frames, arrived. split_and!; [done..|]. clear -Ha. intros Hl.
  induction Ha as [|m l ms arrived Hm _ IH]; [by constructor|].
  apply Forall_cons in Hl as [Hlm Hl]. destruct (lossless_arrives m l Hlm Hm) as (m' & -> & Hsame).
  cbn. constructor; [done|by apply IH].
Qed.

(** The fields the two forms of a message share. *)
Lemma same_fields (before after : list mp_value) (c v : mp_value) :
  let packed := before ++ MInteger 1 :: c :: after in
  let plain := before ++ MInteger 0 :: v :: after in
  flag_at packed (length before) = true /\ flag_at plain (length before) = false /\
  packed !! S (length before) = Some c /\ plain !! S (length before) = Some v /\
  len packed = len plain /\
  (forall j, (j < length before)%nat -> item_at packed j = item_at plain j) /\
  ((1 < length before)%nat -> create_message_headers packed = create_message_headers plain).
Proof.
  cbv zeta.
  assert (Hitem : forall j, (j < length before)%nat ->
    item_at (before ++ MInteger 1 :: c :: after) j = item_at (before ++ MInteger 0 :: v :: after) j).
  { intros j Hj. unfold item_at. by rewrite !lookup_app_l. }
  assert (Hlen : len (before ++ MInteger 1 :: c :: after) = len (before ++ MInteger 0 :: v :: after)).
  { by rewrite !len_app, !len_cons. }
  unfold flag_at. rewrite !list_lookup_middle by done.
  rewrite !(lookup_app_r before) by lia. replace (S (length before) - length before)%nat with 1%nat by lia.
  split_and!; try done. intros Hb. unfold create_message_headers. by rewrite Hlen, (Hitem 1%nat) by done.
Qed.

(** Compression is transparent: replacing the flag 0 and a value by the flag 1 and binary
    data that decompresses to an encoding of the value changes neither the stream item, nor the
    completion, nor the stream invocation the parser builds; and compressed arguments of an
    invocation give the arguments of the decompressed bytes. *)
Theorem brotli_compression_transparent (compressed bytes : list u8) (v : mp_value)
    (before after : list mp_value) (raw rest : list u8) :
  decode compressed = Ok bytes -> mp_read_value bytes = Ok (v, []) ->
  mp_read_value raw = Ok (MBinary compressed, rest) ->
  let packed := before ++ MInteger 1 :: MBinary compressed :: after in
  let plain := before ++ MInteger 0 :: v :: after in
  (length before = 3%nat -> br_stream_item_message packed = br_stream_item_message plain) /\
  (length before = 4%nat -> br_completion_message packed = br_completion_message plain) /\
  (length before = 4%nat ->
    br_stream_invocation_message packed = br_stream_invocation_message plain) /\
  (length before = 4%nat ->
    br_invocation_message packed (Some raw) = br_invocation_message plain (Some bytes)).
Proof.
  intros Hdec Hread Hraw packed plain.
  assert (Hu : unpack_data (Some (MBinary compressed)) true = unpack_data (Some v) false).
  { cbn. rewrite Hdec. cbn. by rewrite Hread. }
  destruct (same_fields before after (MBinary compressed) v) as (Hp1 & Hp2 & Hv1 & Hv2 & Hlen & Hitem & Hh).
  fold packed in Hp1, Hv1, Hlen, Hitem, Hh. fold plain in Hp2, Hv2, Hlen, Hitem, Hh.
  split_and!; intros Hb; rewrite Hb in *; specialize (Hh ltac:(lia)).
  - unfold br_stream_item_message. by rewrite Hlen, Hp1, Hp2, Hv1, Hv2, Hu, Hh, (Hitem 2%nat) by lia.
  - unfold br_completion_message.
    by rewrite Hlen, Hp1, Hp2, Hv1, Hv2, Hu, Hh, (Hitem 2%nat), (Hitem 3%nat) by lia.
  - unfold br_stream_invocation_message.
    by rewrite Hlen, Hp1, Hp2, Hv1, Hv2, Hu, Hh, (Hitem 2%nat), (Hitem 3%nat) by lia.
  - unfold br_invocation_message.
    rewrite Hlen, Hp1, Hp2, Hraw, Hh, (Hitem 2%nat), (Hitem 3%nat) by lia. cbn. by rewrite Hdec.
Qed.

End laws.
