(* ===== verification/MsgPackReference.v ===== *)
(** * A concrete MessagePack codec

    An instance of the interface [MsgPack] that satisfies [MsgPackLaws], so that the theorems
    over the interface apply to concrete messages.  Small values are written in their short
    forms, everything else in the forms with the widest length fields. *)

From Stdlib Require Import ZArith Lia String.
From stdpp Require Import base list strings pretty.
From S2P Require Import Prelude Framing Utf8 Errors Values Arguments MsgPackFormat.

Local Open Scope Z_scope.

(** ** Big-endian numbers *)

Fixpoint be (size : nat) (z : Z) : list u8 :=
  match size with
  | O => []
  | S size => be size (z / 256) ++ [Z_to_u8 z]
  end.

Lemma be_length size z : length (be size z) = size.
Proof. revert z. induction size; intros z; cbn; [done|]. rewrite length_app, IHsize. cbn. lia. Qed.

Lemma be_value_snoc l b : be_value (l ++ [b]) = be_value l * 256 + u8_to_Z b.
Proof. unfold be_value. by rewrite fold_left_app. Qed.

Lemma be_value_be size z : 0 <= z < 256 ^ Z.of_nat size -> be_value (be size z) = z.
Proof.
  revert z. induction size as [|size IH]; intros z Hz; [cbn in *; lia|]. cbn [be].
  rewrite be_value_snoc, Z_to_u8_to_Z, IH.
  - pose proof (Z.div_mod z 256). lia.
  - rewrite Nat2Z.inj_succ, Z.pow_succ_r in Hz by lia.
    split; [apply Z.div_pos; lia|]. apply Z.div_lt_upper_bound; lia.
Qed.

Lemma be_sized size z : 0 <= z < 256 ^ Z.of_nat size -> sized size z (be size z).
Proof. intros Hz. split; [apply be_length|by apply be_value_be]. Qed.

(** ** Markers *)

Definition marker_of (z : Z) : Marker :=
  if z <? 128 then FixPos z
  else if z <? 144 then FixMap (z - 128)
  else if z <? 160 then FixArray (z - 144)
  else if z <? 192 then FixStr (z - 160)
  else if 224 <=? z then FixNeg (z - 256)
  else
    match z with
    | 0xc0 => Null | 0xc2 => False_ | 0xc3 => True_
    | 0xc4 => Bin8 | 0xc5 => Bin16 | 0xc6 => Bin32
    | 0xc7 => Ext8 | 0xc8 => Ext16 | 0xc9 => Ext32
    | 0xca => F32 | 0xcb => F64
    | 0xcc => U8 | 0xcd => U16 | 0xce => U32 | 0xcf => U64
    | 0xd0 => I8 | 0xd1 => I16 | 0xd2 => I32 | 0xd3 => I64
    | 0xd4 => FixExt1 | 0xd5 => FixExt2 | 0xd6 => FixExt4 | 0xd7 => FixExt8 | 0xd8 => FixExt16
    | 0xd9 => Str8 | 0xda => Str16 | 0xdb => Str32
    | 0xdc => Array16 | 0xdd => Array32 | 0xde => Map16 | 0xdf => Map32
    | _ => Reserved
    end.

Definition ref_read_marker (bytes : list u8) : option (Marker * list u8) :=
  match bytes with
  | [] => None
  | b :: rest => Some (marker_of (u8_to_Z b), rest)
  end.

(** [size] bytes and what follows. *)
Definition ref_take (size : Z) (bytes : list u8) : option (list u8 * list u8) :=
  if len bytes <? size then None
  else Some (take (Z.to_nat size) bytes, drop (Z.to_nat size) bytes).

Definition ref_number (size : Z) (bytes : list u8) : option (Z * list u8) :=
  '(h, rest) ← ref_take size bytes; Some (be_value h, rest).

Definition ref_read_array_len (bytes : list u8) : option (Z * list u8) :=
  '(m, rest) ← ref_read_marker bytes;
  match m with
  | FixArray n => Some (n, rest)
  | Array16 => ref_number 2 rest
  | Array32 => ref_number 4 rest
  | _ => None
  end.

(** ** Writing *)

Definition ref_str (bytes : list u8) : list u8 :=
  (if len bytes <? 32 then [Z_to_u8 (0xa0 + len bytes)] else Byte.xdb :: be 4 (len bytes)) ++ bytes.

Definition ref_head (fix_base fix_limit : Z) (wide : u8) (n : Z) : list u8 :=
  if n <? fix_limit then [Z_to_u8 (fix_base + n)] else wide :: be 4 n.

Fixpoint ref_write (v : mp_value) : list u8 :=
  match v with
  | MNil => [Byte.xc0]
  | MBoolean b => [if b then Byte.xc3 else Byte.xc2]
  | MInteger n =>
      if (- 32 <=? n) && (n <? 128) then [Z_to_u8 n]
      else if 0 <=? n then Byte.xcf :: be 8 n
      else Byte.xd3 :: be 8 (n + 2 ^ 64)
  | MF32 bits => Byte.xca :: be 4 bits
  | MF64 bits => Byte.xcb :: be 8 bits
  | MString s => ref_str (bytes_of_string s)
  | MInvalidString bytes => ref_str bytes
  | MBinary bytes => Byte.xc6 :: be 4 (len bytes) ++ bytes
  | MArray l => ref_head 0x90 16 Byte.xdd (len l) ++ concat (map ref_write l)
  | MMap m =>
      ref_head 0x80 16 Byte.xdf (len m) ++
        concat (map (fun kv => ref_write kv.1 ++ ref_write kv.2) m)
  | MExt tag bytes => Byte.xc9 :: be 4 (len bytes) ++ Z_to_u8 tag :: bytes
  end.

(** ** Reading *)

Definition ref_string (bytes : list u8) : mp_value :=
  if utf8_valid bytes then MString (string_of_bytes bytes) else MInvalidString bytes.

Section read_many.
Context {A : Type} (read : list u8 -> option (A * list u8)).

Fixpoint read_many (n : nat) (bytes : list u8) : option (list A * list u8) :=
  match n with
  | O => Some ([], bytes)
  | S n => '(x, bytes) ← read bytes; '(l, bytes) ← read_many n bytes; Some (x :: l, bytes)
  end.
End read_many.

Definition read_pair (read : list u8 -> option (mp_value * list u8)) (bytes : list u8)
    : option ((mp_value * mp_value) * list u8) :=
  '(k, bytes) ← read bytes; '(v, bytes) ← read bytes; Some ((k, v), bytes).

(** The forms [ref_write] uses; [fuel] bounds the nesting. *)
Fixpoint ref_read (fuel : nat) (bytes : list u8) : option (mp_value * list u8) :=
  match fuel with
  | O => None
  | S fuel =>
      '(m, rest) ← ref_read_marker bytes;
      match m with
      | Null => Some (MNil, rest)
      | True_ => Some (MBoolean true, rest)
      | False_ => Some (MBoolean false, rest)
      | FixPos n | FixNeg n => Some (MInteger n, rest)
      | U64 => '(n, rest) ← ref_number 8 rest; Some (MInteger n, rest)
      | I64 => '(n, rest) ← ref_number 8 rest;
               Some (MInteger (if n <? 2 ^ 63 then n else n - 2 ^ 64), rest)
      | F32 => '(n, rest) ← ref_number 4 rest; Some (MF32 n, rest)
      | F64 => '(n, rest) ← ref_number 8 rest; Some (MF64 n, rest)
      | FixStr n => '(s, rest) ← ref_take n rest; Some (ref_string s, rest)
      | Str32 =>
          '(n, rest) ← ref_number 4 rest; '(s, rest) ← ref_take n rest; Some (ref_string s, rest)
      | Bin32 =>
          '(n, rest) ← ref_number 4 rest; '(s, rest) ← ref_take n rest; Some (MBinary s, rest)
      | FixArray n => '(l, rest) ← read_many (ref_read fuel) (Z.to_nat n) rest; Some (MArray l, rest)
      | Array32 =>
          '(n, rest) ← ref_number 4 rest;
          '(l, rest) ← read_many (ref_read fuel) (Z.to_nat n) rest; Some (MArray l, rest)
      | FixMap n =>
          '(l, rest) ← read_many (read_pair (ref_read fuel)) (Z.to_nat n) rest; Some (MMap l, rest)
      | Map32 =>
          '(n, rest) ← ref_number 4 rest;
          '(l, rest) ← read_many (read_pair (ref_read fuel)) (Z.to_nat n) rest; Some (MMap l, rest)
      | Ext32 =>
          '(n, rest) ← ref_number 4 rest; '(t, rest) ← ref_number 1 rest;
          '(s, rest) ← ref_take n rest; Some (MExt (if t <? 128 then t else t - 256) s, rest)
      | _ => None
      end
  end.

(** ** As JSON values *)

Definition key_text (v : mp_value) : result string string :=
  match v with
  | MString s => Ok s
  | MInteger n => Ok (pretty n)
  | MBoolean b => Ok (if b then "true" else "false")%string
  | _ => Err "key must be a string"%string
  end.

Fixpoint ref_to_json (v : mp_value) : result string json :=
  match v with
  | MNil => Ok JNull
  | MBoolean b => Ok (JBool b)
  | MInteger n => Ok (JNumber (if n <? 0 then NegInt n else PosInt n))
  | MF64 bits => Ok (if finite_f64 bits then JNumber (Float bits) else JNull)
  | MString s => Ok (JString s)
  | MArray l => JArray <$> collect (map ref_to_json l)
  | MMap m =>
      (fun l => JObject (obj_collect l)) <$>
        collect (map (fun kv => k ← key_text kv.1; (fun j => (k, j)) <$> ref_to_json kv.2) m)
  | MBinary bytes => Ok (JArray (map (fun b => JNumber (PosInt (u8_to_Z b))) bytes))
  | _ => Err "unsupported value"%string
  end.

#[global] Instance ReferenceMsgPack : MsgPack := {|
  mp_write_value v := Ok (ref_write v);
  mp_read_value bytes := ok_or (ref_read 601 bytes) "failed to read"%string;
  mp_read_array_len := ref_read_array_len;
  mp_read_marker := ref_read_marker;
  mp_to_json := ref_to_json
|}.

(** ** The laws *)

Lemma ref_take_app (h rest : list u8) n : len h = n -> ref_take n (h ++ rest) = Some (h, rest).
Proof.
  intros <-. unfold ref_take. rewrite len_app.
  replace (_ <? _) with false by (pose proof (len_nonneg rest); lia).
  by rewrite to_nat_len, take_app_length, drop_app_length.
Qed.

Lemma ref_number_be (size : nat) n z rest :
  n = Z.of_nat size -> 0 <= z < 256 ^ n -> ref_number n (be size z ++ rest) = Some (z, rest).
Proof.
  intros -> Hz. unfold ref_number. rewrite ref_take_app by (unfold len; by rewrite be_length).
  cbn. by rewrite be_value_be.
Qed.

Lemma marker_byte z rest :
  0 <= z < 256 -> ref_read_marker (Z_to_u8 z :: rest) = Some (marker_of z, rest).
Proof. intros Hz. cbn. by rewrite Z_to_u8_to_Z, Z.mod_small. Qed.

Lemma marker_int n rest : - 32 <= n < 128 ->
  ref_read_marker (Z_to_u8 n :: rest) = Some (if n <? 0 then FixNeg n else FixPos n, rest).
Proof.
  intros Hn. cbn. rewrite Z_to_u8_to_Z. destruct (n <? 0) eqn:E; bool_to_prop.
  - replace (n `mod` 256) with (n + 256) by (rewrite <- (Z.mod_add n 1 256) by lia; rewrite Z.mod_small; lia).
    unfold marker_of. repeat (replace (_ <? _) with false by lia). replace (_ <=? _) with true by lia.
    do 3 f_equal. lia.
  - rewrite Z.mod_small by lia. unfold marker_of. by replace (_ <? _) with true by lia.
Qed.

(** The three kinds of heads with a length. *)
Definition head_marker (fix_ : Z -> Marker) (limit : Z) (wide : Marker) (n : Z) : Marker :=
  if n <? limit then fix_ n else wide.

Lemma marker_str bytes rest : ref_read_marker (ref_str bytes ++ rest) =
  Some (head_marker FixStr 32 Str32 (len bytes),
        (if len bytes <? 32 then [] else be 4 (len bytes)) ++ bytes ++ rest).
Proof.
  unfold ref_str, head_marker. rewrite <- app_assoc. destruct (len bytes <? 32) eqn:E; [|done].
  bool_to_prop. pose proof (len_nonneg bytes). cbn [app]. rewrite marker_byte by lia. unfold marker_of.
  do 3 (replace (_ <? _) with false by lia). replace (_ <? _) with true by lia. do 3 f_equal. lia.
Qed.

Lemma marker_array n rest : 0 <= n -> ref_read_marker (ref_head 0x90 16 Byte.xdd n ++ rest) =
  Some (head_marker FixArray 16 Array32 n, (if n <? 16 then [] else be 4 n) ++ rest).
Proof.
  intros Hn. unfold ref_head, head_marker. destruct (n <? 16) eqn:E; [|done].
  bool_to_prop. cbn [app]. rewrite marker_byte by lia. unfold marker_of.
  do 2 (replace (_ <? _) with false by lia). replace (_ <? _) with true by lia. do 3 f_equal. lia.
Qed.

Lemma marker_map n rest : 0 <= n -> ref_read_marker (ref_head 0x80 16 Byte.xdf n ++ rest) =
  Some (head_marker FixMap 16 Map32 n, (if n <? 16 then [] else be 4 n) ++ rest).
Proof.
  intros Hn. unfold ref_head, head_marker. destruct (n <? 16) eqn:E; [|done].
  bool_to_prop. cbn [app]. rewrite marker_byte by lia. unfold marker_of.
  replace (_ <? _) with false by lia. replace (_ <? _) with true by lia. do 3 f_equal. lia.
Qed.

Lemma ref_string_read v own :
  mp_wf v = true -> str_bytes v = Some own -> ref_string own = v /\ len own < 2 ^ 32.
Proof.
  destruct v; cbn; try done; intros Hwf [= <-]; bool_to_prop; (split; [|done]); unfold ref_string.
  - unfold is_str in *. rewrite H. by rewrite string_of_bytes_of_string.
  - by rewrite H.
Qed.

Lemma read_many_written {A} (read : list u8 -> option (A * list u8)) (w : A -> list u8) l rest :
  (forall x rest, x ∈ l -> read (w x ++ rest) = Some (x, rest)) ->
  read_many read (length l) (concat (map w l) ++ rest) = Some (l, rest).
Proof.
  induction l as [|x l IH]; intros Hr; [done|]. cbn. rewrite <- app_assoc, Hr by left. cbn.
  rewrite IH; [done|]. intros y r Hy. apply Hr. by right.
Qed.

Lemma depth_array l v : v ∈ l -> mp_depth v < mp_depth (MArray l).
Proof. cbn. induction 1; cbn; lia. Qed.

Lemma depth_map m k v : (k, v) ∈ m -> mp_depth k < mp_depth (MMap m) /\ mp_depth v < mp_depth (MMap m).
Proof.
  cbn. intros H. remember (k, v) as kv eqn:E. revert E. induction H as [|? [k' v'] l' _ IH]; intros ->; cbn.
  - lia.
  - specialize (IH eq_refl). lia.
Qed.

(** *** Reading back, one kind of value at a time *)

Lemma ref_read_str fuel v own rest :
  mp_wf v = true -> str_bytes v = Some own -> ref_write v = ref_str own ->
  ref_read (S fuel) (ref_write v ++ rest) = Some (v, rest).
Proof.
  intros Hwf Hown ->. destruct (ref_string_read v own Hwf Hown) as [Hs Hl]. cbn [ref_read].
  rewrite marker_str. unfold head_marker. destruct (len own <? 32); cbn [app mbind option_bind].
  - rewrite ref_take_app by done. cbn [mbind option_bind]. by rewrite Hs.
  - rewrite (ref_number_be 4) by (done || (pose proof (len_nonneg own); cbn; lia)).
    cbn [app mbind option_bind].
    rewrite ref_take_app by done. cbn [mbind option_bind]. by rewrite Hs.
Qed.

Lemma ref_read_array fuel l rest :
  len l < 2 ^ 32 -> (forall v rest, v ∈ l -> ref_read fuel (ref_write v ++ rest) = Some (v, rest)) ->
  ref_read (S fuel) (ref_write (MArray l) ++ rest) = Some (MArray l, rest).
Proof.
  intros Hl Hr. pose proof (len_nonneg l). cbn [ref_read ref_write].
  rewrite <- app_assoc, marker_array by done. unfold head_marker.
  destruct (len l <? 16); cbn [app mbind option_bind].
  - rewrite to_nat_len. by rewrite read_many_written.
  - rewrite (ref_number_be 4) by (done || cbn; lia). cbn [app mbind option_bind].
    rewrite to_nat_len. by rewrite read_many_written.
Qed.

Lemma ref_read_map fuel m rest :
  len m < 2 ^ 32 ->
  (forall kv rest, kv ∈ m -> ref_read fuel (ref_write kv.1 ++ rest) = Some (kv.1, rest) /\
                             ref_read fuel (ref_write kv.2 ++ rest) = Some (kv.2, rest)) ->
  ref_read (S fuel) (ref_write (MMap m) ++ rest) = Some (MMap m, rest).
Proof.
  intros Hl Hr. pose proof (len_nonneg m). cbn [ref_read ref_write].
  assert (Hp : forall rest, read_many (read_pair (ref_read fuel)) (length m)
    (concat (map (fun kv => ref_write kv.1 ++ ref_write kv.2) m) ++ rest) = Some (m, rest)).
  { intros r. apply read_many_written. intros [k v] r' Hin. unfold read_pair. cbn [fst snd].
    rewrite <- app_assoc. destruct (Hr _ (ref_write v ++ r') Hin) as [Hk _].
    destruct (Hr _ r' Hin) as [_ Hv]. cbn in Hk, Hv. rewrite Hk. cbn. by rewrite Hv. }
  rewrite <- app_assoc, marker_map by done. unfold head_marker.
  destruct (len m <? 16); cbn [app mbind option_bind].
  - rewrite to_nat_len. by rewrite Hp.
  - rewrite (ref_number_be 4) by (done || cbn; lia). cbn [app mbind option_bind].
    rewrite to_nat_len. by rewrite Hp.
Qed.

Lemma ref_read_int fuel n rest :
  mp_wf (MInteger n) = true ->
  ref_read (S fuel) (ref_write (MInteger n) ++ rest) = Some (MInteger n, rest).
Proof.
  cbn [mp_wf]. intros Hn. bool_to_prop. unfold u64_max, i64_min in *. cbn [ref_read ref_write].
  destruct ((- 32 <=? n) && (n <? 128)) eqn:E; [|apply andb_false_iff in E; destruct (0 <=? n) eqn:En];
    bool_to_prop.
  - cbn [app]. rewrite marker_int by lia. by destruct (n <? 0).
  - cbn [app ref_read_marker mbind option_bind]. change (marker_of _) with U64. cbn -[be ref_number].
    rewrite (ref_number_be 8); [done|done|]. cbn. lia.
  - cbn [app ref_read_marker mbind option_bind]. change (marker_of _) with I64. cbn -[be ref_number].
    rewrite (ref_number_be 8); [|done|cbn; lia]. cbn. replace (_ <? _) with false by lia.
    do 2 f_equal. f_equal. lia.
Qed.

Lemma ref_read_ext fuel tag bytes rest :
  mp_wf (MExt tag bytes) = true ->
  ref_read (S fuel) (ref_write (MExt tag bytes) ++ rest) = Some (MExt tag bytes, rest).
Proof.
  cbn [mp_wf]. intros Hn. bool_to_prop. cbn [ref_read ref_write app].
  cbn [app ref_read_marker mbind option_bind]. change (marker_of _) with Ext32. cbn -[be ref_number].
  rewrite <- app_assoc, (ref_number_be 4) by (done || (pose proof (len_nonneg bytes); cbn; lia)).
  cbn [mbind option_bind app]. unfold ref_number.
  pose proof (ref_take_app [Z_to_u8 tag] (bytes ++ rest) 1 eq_refl) as Ht. cbn [app] in Ht.
  rewrite Ht. cbn [mbind option_bind].
  rewrite ref_take_app by done. cbn. unfold be_value. cbn. rewrite Z_to_u8_to_Z.
  do 2 f_equal. f_equal. destruct (decide (0 <= tag)).
  - rewrite Z.mod_small by lia. by replace (_ <? _) with true by lia.
  - replace (tag `mod` 256) with (tag + 256)
      by (rewrite <- (Z.mod_add tag 1 256) by lia; rewrite Z.mod_small; lia).
    replace (_ <? _) with false by lia. lia.
Qed.

Lemma ref_read_written fuel v rest :
  mp_wf v = true -> mp_depth v < Z.of_nat fuel -> ref_read fuel (ref_write v ++ rest) = Some (v, rest).
Proof.
  revert v rest. induction fuel as [|fuel IH]; intros v rest Hwf Hd.
  { pose proof (mp_depth_nonneg v). lia. }
  destruct v as [|b|n|bits|bits|s|bytes|bytes|l|m|tag bytes].
  - done.
  - by destruct b.
  - by apply ref_read_int.
  - cbn in Hwf. bool_to_prop. cbn -[be ref_number]. change (marker_of _) with F32. cbn -[be ref_number].
    by rewrite (ref_number_be 4).
  - cbn in Hwf. bool_to_prop. cbn -[be ref_number]. change (marker_of _) with F64. cbn -[be ref_number].
    by rewrite (ref_number_be 8).
  - by apply (ref_read_str _ _ (bytes_of_string s)).
  - by apply (ref_read_str _ _ bytes).
  - cbn in Hwf. bool_to_prop. cbn -[be ref_number]. change (marker_of _) with Bin32. cbn -[be ref_number].
    rewrite <- app_assoc, (ref_number_be 4) by (done || (pose proof (len_nonneg bytes); cbn; lia)).
    cbn. by rewrite ref_take_app.
  - pose proof (fun v => depth_array l v) as Hl. cbn [mp_wf] in Hwf. apply andb_true_iff in Hwf as [Hn Hwf].
    rewrite forallb_forall in Hwf. apply ref_read_array; [lia|]. intros v r Hv.
    specialize (Hl v Hv). apply IH; [|lia]. apply Hwf. by apply list_elem_of_In.
  - pose proof (depth_map m) as Hl. cbn [mp_wf] in Hwf. apply andb_true_iff in Hwf as [Hn Hwf].
    rewrite forallb_forall in Hwf. apply ref_read_map; [lia|]. intros [k v] r Hkv.
    specialize (Hl _ _ Hkv). apply list_elem_of_In, Hwf in Hkv. cbn in *. bool_to_prop.
    split; apply IH; (done || lia).
  - by apply ref_read_ext.
Qed.

(** *** Reading consumes *)

Lemma ref_take_less n bytes h rest :
  ref_take n bytes = Some (h, rest) -> (length rest <= length bytes)%nat.
Proof. unfold ref_take. destruct (_ <? _); [done|]. intros [= _ <-]. rewrite length_drop. lia. Qed.

Lemma ref_number_less n bytes z rest :
  ref_number n bytes = Some (z, rest) -> (length rest <= length bytes)%nat.
Proof.
  unfold ref_number. destruct (ref_take n bytes) as [[h r]|] eqn:E; [|done]. cbn.
  intros [= _ <-]. by eapply ref_take_less.
Qed.

Lemma read_many_less {A} (read : list u8 -> option (A * list u8)) n bytes l rest :
  (forall b x r, read b = Some (x, r) -> (length r <= length b)%nat) ->
  read_many read n bytes = Some (l, rest) -> (length rest <= length bytes)%nat.
Proof.
  intros Hr. revert bytes l. induction n as [|n IH]; intros bytes l; cbn; [by intros [= _ <-]|].
  destruct (read bytes) as [[x r]|] eqn:Hx; [|done]. cbn.
  destruct (read_many read n r) as [[l' r']|] eqn:Hl; [|done]. cbn. intros [= _ <-].
  apply Hr in Hx. apply IH in Hl. lia.
Qed.

Lemma read_pair_less read b kv r :
  (forall b x r, read b = Some (x, r) -> (length r <= length b)%nat) ->
  read_pair read b = Some (kv, r) -> (length r <= length b)%nat.
Proof.
  intros Hr. unfold read_pair. destruct (read b) as [[k r1]|] eqn:H1; [|done]. cbn.
  destruct (read r1) as [[v r2]|] eqn:H2; [|done]. cbn. intros [= _ <-].
  apply Hr in H1. apply Hr in H2. lia.
Qed.

Lemma ref_read_less fuel bytes v rest :
  ref_read fuel bytes = Some (v, rest) -> (length rest < length bytes)%nat.
Proof.
  revert bytes v rest. induction fuel as [|fuel IH]; intros bytes v rest; [done|].
  assert (Hle : forall b x r, ref_read fuel b = Some (x, r) -> (length r <= length b)%nat)
    by (intros b x r H%IH; lia).
  destruct bytes as [|b bytes]; [done|]. cbn -[ref_number ref_take].
  destruct (marker_of (u8_to_Z b)); intros H; try done;
    repeat match type of H with
    | context [ref_number ?n ?l] =>
        destruct (ref_number n l) as [[? ?]|] eqn:?; cbn [mbind option_bind] in H; [|done]
    | context [ref_take ?n ?l] =>
        destruct (ref_take n l) as [[? ?]|] eqn:?; cbn [mbind option_bind] in H; [|done]
    | context [read_many ?f ?n ?l] =>
        destruct (read_many f n l) as [[? ?]|] eqn:?; cbn [mbind option_bind] in H; [|done]
    end; injection H as _ <-;
    repeat match goal with
    | E : ref_number _ _ = _ |- _ => apply ref_number_less in E
    | E : ref_take _ _ = _ |- _ => apply ref_take_less in E
    | E : read_many (ref_read _) _ _ = _ |- _ => apply read_many_less in E; [|done]
    | E : read_many (read_pair _) _ _ = _ |- _ =>
        apply read_many_less in E; [|intros ? ? ?; by apply read_pair_less]
    end; cbn [length]; lia.
Qed.

(** *** The layout of written values *)

Lemma flatten_written m :
  concat (map (fun kv => ref_write kv.1 ++ ref_write kv.2) m) = concat (map ref_write (flatten m)).
Proof.
  induction m as [|[k v] m IH]; [done|]. cbn. rewrite IH. by rewrite <- app_assoc.
Qed.

Lemma written_all (l : list mp_value) :
  Forall2 (fun k b => Ok (E:=string) (ref_write k) = Ok b) l (map ref_write l).
Proof. induction l; by constructor. Qed.

Lemma ref_layout v : mp_wf v = true -> exists m field own kids,
  layout v m field own kids /\ forall rest, ref_read_marker (ref_write v ++ rest) =
    Some (m, field ++ own ++ concat (map ref_write kids) ++ rest).
Proof.
  intros Hwf.
  assert (Hstr : forall own, str_bytes v = Some own -> ref_write v = ref_str own ->
    exists m field own kids, layout v m field own kids /\
      forall rest, ref_read_marker (ref_write v ++ rest) =
        Some (m, field ++ own ++ concat (map ref_write kids) ++ rest)).
  { intros own Hown Hw. destruct (ref_string_read v own Hwf Hown) as [_ Hl].
    exists (head_marker FixStr 32 Str32 (len own)), (if len own <? 32 then [] else be 4 (len own)), own, [].
    split; [|intros rest; rewrite Hw; apply marker_str].
    unfold head_marker. destruct (len own <? 32) eqn:E; bool_to_prop; constructor; try done.
    apply be_sized. pose proof (len_nonneg own). cbn. lia. }
  destruct v as [|b|n|bits|bits|s|bytes|bytes|l|m|tag bytes]; cbn [mp_wf] in Hwf.
  - eexists _, _, _, _. split; [constructor|done].
  - eexists _, _, _, _. split; [constructor|]. by destruct b.
  - cbn [ref_write]. destruct ((- 32 <=? n) && (n <? 128)) eqn:E; [|destruct (0 <=? n) eqn:En];
      bool_to_prop.
    + exists (if n <? 0 then FixNeg n else FixPos n), [], [], []. split.
      * destruct (n <? 0) eqn:En; bool_to_prop; by constructor.
      * intros rest. apply marker_int. lia.
    + exists U64, [], (be 8 n), []. split; [|done]. by apply lay_int64; [left|apply be_length].
    + exists I64, [], (be 8 (n + 2 ^ 64)), []. split; [|done]. by apply lay_int64; [right|apply be_length].
  - exists F32, [], (be 4 bits), []. split; [|done]. constructor. apply be_length.
  - exists F64, [], (be 8 bits), []. split; [|done]. constructor. apply be_length.
  - by eapply Hstr.
  - by eapply Hstr.
  - bool_to_prop. exists Bin32, (be 4 (len bytes)), bytes, []. split.
    + constructor. apply be_sized. pose proof (len_nonneg bytes). cbn. lia.
    + intros rest. cbn -[be]. by rewrite <- app_assoc.
  - apply andb_true_iff in Hwf as [Hl _]. bool_to_prop. pose proof (len_nonneg l).
    exists (head_marker FixArray 16 Array32 (len l)), (if len l <? 16 then [] else be 4 (len l)), [], l.
    split; [|intros rest; cbn [ref_write]; rewrite <- app_assoc; by apply marker_array].
    unfold head_marker. destruct (len l <? 16) eqn:E; bool_to_prop; constructor; try done.
    apply be_sized. cbn. lia.
  - apply andb_true_iff in Hwf as [Hl _]. bool_to_prop. pose proof (len_nonneg m).
    exists (head_marker FixMap 16 Map32 (len m)), (if len m <? 16 then [] else be 4 (len m)), [], (flatten m).
    split; [|intros rest; cbn [ref_write]; rewrite <- app_assoc, flatten_written; by apply marker_map].
    unfold head_marker. destruct (len m <? 16) eqn:E; bool_to_prop; constructor; try done.
    apply be_sized. cbn. lia.
  - bool_to_prop. exists Ext32, (be 4 (len bytes)), (Z_to_u8 tag :: bytes), []. split.
    + constructor. apply be_sized. pose proof (len_nonneg bytes). cbn. lia.
    + intros rest. cbn -[be]. by rewrite <- app_assoc.
Qed.

#[global] Instance ReferenceMsgPack_laws : MsgPackLaws ReferenceMsgPack.
Proof.
  split; cbn -[ref_read].
  - intros [|b bytes] m rest; [done|]. cbn. intros [= _ <-]. by exists b.
  - intros bytes v rest. destruct (ref_read _ _) as [[v' r]|] eqn:E; [|done]. intros [= <- <-].
    by eapply ref_read_less.
  - intros v Hwf. destruct (ref_layout v Hwf) as (m & f & o & k & Hl & Hm).
    eexists _, m, f, o, k, (map ref_write k). split_and!; [done|done|apply written_all|done].
  - intros v bytes rest Hwf Hd [= <-]. rewrite ref_read_written; [done|done|].
    unfold READ_DEPTH in Hd. lia.
  - intros l bytes rest Hwf [= <-]. exists (map ref_write l). split; [apply written_all|].
    apply andb_true_iff in Hwf as [Hl _]. apply Z.ltb_lt in Hl. pose proof (len_nonneg l).
    unfold ref_read_array_len. rewrite <- app_assoc, marker_array by done. unfold head_marker.
    destruct (len l <? 16); [done|]. cbn [mbind option_bind].
    rewrite (ref_number_be 4); [done|done|cbn; lia].
  - intros v bytes rest Hwf [= <-] Ha. destruct (ref_layout v Hwf) as (m & f & o & k & Hl & Hm).
    unfold ref_read_array_len. rewrite Hm. cbn [mbind option_bind].
    destruct Hl; try done; cbn in *; try done; repeat case_match; try done;
      repeat match goal with
      | H : _ \/ _ |- _ => destruct H as [?|?]; try done
      | H : (_, _) ∈ _ :: _ |- _ => apply elem_of_cons in H as [[= ? ?]|H]; try done
      | H : _ ∈ [] |- _ => by apply elem_of_nil in H
      end.
  - done.
  - done.
  - intros n [Hn _]. by replace (n <? 0) with false by lia.
  - intros n [_ Hn]. by replace (n <? 0) with true by lia.
  - intros b Hb. by rewrite Hb.
  - done.
  - done.
  - intros m. rewrite map_map. done.
Qed.
