(* ===== verification/MessageBuffer.v ===== *)
(** * The stateful reconnect buffer ([src/hub_connection/message_buffer.rs])

    The sending half numbers invocation messages, keeps them until they are acknowledged and
    resends them over a new transport; the receiving half numbers what arrives, drops what was
    processed before a reconnect and acknowledges after a delay.  Every operation of the source
    is one definition over the explicit state; [send] is split at the point where the source
    releases the lock, so that its two parts can interleave with other operations. *)

From Stdlib Require Import ZArith Lia String.
From stdpp Require Import base list strings.
From S2P Require Import Prelude Framing Utf8 Errors Values Arguments Message JsonProtocol.

Local Open Scope Z_scope.

(** ** Transports *)

(** A [WebSocketTransport] is a handle to a socket; sending through it changes the world [T]. *)
Abbreviation transport := nat.

Class Transport (T : Type) := {
  send_text : transport -> string -> T -> result Error unit * T;
  send_binary : transport -> list u8 -> T -> result Error unit * T;
  transport_close : transport -> T -> result Error unit * T
}.

(** [String::from_utf8(payload).map_err(..)] and the send of one payload. *)
Definition send_payload `{Transport T} (tr : transport) (format : TransferFormat)
    (payload : list u8) (w : T) : result Error unit * T :=
  match format with
  | FText =>
      match from_utf8 payload with
      | Ok text => send_text tr text w
      | Err e => (Err (EProtocol ("invalid text payload: " +:+ e)), w)
      end
  | FBinary => send_binary tr payload w
  end.

(** [send_hub_message] *)
Definition send_hub_message `{Transport T} (protocol : HubProtocol) (tr : transport)
    (format : TransferFormat) (message : HubMessage) (w : T) : result Error unit * T :=
  match write_message protocol message with
  | Err e => (Err (EProtocol (protocol_error_text e)), w)
  | Ok payload => send_payload tr format payload w
  end.

(** ** State *)

Definition DEFAULT_STATEFUL_RECONNECT_BUFFER_SIZE : Z := 100000.

(** [BufferedItem]; a backpressure channel is named by the id of the item it was made for. *)
Record BufferedItem := {
  bi_message : list u8;
  bi_id : Z;
  bi_backpressure : option Z
}.

(** The task of the acknowledgement timer: asleep, with the transport it captured, or done. *)
Inductive AckTask : Type :=
| Sleeping (tr : transport) (format : TransferFormat)
| Finished.

(** [MessageBuffer]; the protocol and the buffer size do not change and are parameters. *)
Record MessageBuffer := {
  messages : list BufferedItem;
  total_message_count : Z;
  wait_for_sequence_message : bool;
  next_receiving_sequence_id : Z;
  latest_received_sequence_id : Z;
  buffered_byte_count : Z;
  reconnect_in_progress : bool;
  ack_timer : option AckTask;
  ack_scheduled : bool
}.

(** [MessageBuffer::new] *)
Definition buffer_new : MessageBuffer := {|
  messages := [];
  total_message_count := 0;
  wait_for_sequence_message := false;
  next_receiving_sequence_id := 1;
  latest_received_sequence_id := 0;
  buffered_byte_count := 0;
  reconnect_in_progress := false;
  ack_timer := None;
  ack_scheduled := false
|}.

(** The assignments of the operations. *)
Definition set_messages (l : list BufferedItem) (count : Z) (b : MessageBuffer) : MessageBuffer := {|
  messages := l;
  total_message_count := total_message_count b;
  wait_for_sequence_message := wait_for_sequence_message b;
  next_receiving_sequence_id := next_receiving_sequence_id b;
  latest_received_sequence_id := latest_received_sequence_id b;
  buffered_byte_count := count;
  reconnect_in_progress := reconnect_in_progress b;
  ack_timer := ack_timer b;
  ack_scheduled := ack_scheduled b
|}.

Definition set_total (total : Z) (b : MessageBuffer) : MessageBuffer := {|
  messages := messages b;
  total_message_count := total;
  wait_for_sequence_message := wait_for_sequence_message b;
  next_receiving_sequence_id := next_receiving_sequence_id b;
  latest_received_sequence_id := latest_received_sequence_id b;
  buffered_byte_count := buffered_byte_count b;
  reconnect_in_progress := reconnect_in_progress b;
  ack_timer := ack_timer b;
  ack_scheduled := ack_scheduled b
|}.

Definition set_receiving (next latest : Z) (wait : bool) (b : MessageBuffer) : MessageBuffer := {|
  messages := messages b;
  total_message_count := total_message_count b;
  wait_for_sequence_message := wait;
  next_receiving_sequence_id := next;
  latest_received_sequence_id := latest;
  buffered_byte_count := buffered_byte_count b;
  reconnect_in_progress := reconnect_in_progress b;
  ack_timer := ack_timer b;
  ack_scheduled := ack_scheduled b
|}.

Definition set_reconnect (reconnect wait : bool) (b : MessageBuffer) : MessageBuffer := {|
  messages := messages b;
  total_message_count := total_message_count b;
  wait_for_sequence_message := wait;
  next_receiving_sequence_id := next_receiving_sequence_id b;
  latest_received_sequence_id := latest_received_sequence_id b;
  buffered_byte_count := buffered_byte_count b;
  reconnect_in_progress := reconnect;
  ack_timer := ack_timer b;
  ack_scheduled := ack_scheduled b
|}.

Definition set_ack (timer : option AckTask) (scheduled : bool) (b : MessageBuffer)
    : MessageBuffer := {|
  messages := messages b;
  total_message_count := total_message_count b;
  wait_for_sequence_message := wait_for_sequence_message b;
  next_receiving_sequence_id := next_receiving_sequence_id b;
  latest_received_sequence_id := latest_received_sequence_id b;
  buffered_byte_count := buffered_byte_count b;
  reconnect_in_progress := reconnect_in_progress b;
  ack_timer := timer;
  ack_scheduled := scheduled
|}.

(** [is_invocation_message] *)
Definition is_invocation_message (m : HubMessage) : bool :=
  match message_type m with
  | TInvocation | TStreamInvocation | TStreamItem | TCompletion | TCancelInvocation => true
  | _ => false
  end.

(** ** Operations *)

(** [disconnected] *)
Definition disconnected (b : MessageBuffer) : MessageBuffer := set_reconnect true true b.

(** The loop of [ack]: the items afterwards, the newest acknowledged id, the byte count and the
    backpressure channels that were resolved. *)
Fixpoint ack_loop (buffer_size sequence_id : Z) (items : list BufferedItem)
    (newest : option Z) (count : Z) (resolved : list Z)
    : list BufferedItem * option Z * Z * list Z :=
  match items with
  | [] => ([], newest, count, resolved)
  | item :: items =>
      let taken := {| bi_message := bi_message item; bi_id := bi_id item;
                      bi_backpressure := None |} in
      let resolved' := resolved ++ option_list (bi_backpressure item) in
      if bi_id item <=? sequence_id then
        let '(rest, newest, count, resolved) :=
          ack_loop buffer_size sequence_id items (Some (bi_id item))
            (saturating_sub count (len (bi_message item))) resolved' in
        (taken :: rest, newest, count, resolved)
      else if count <? buffer_size then
        let '(rest, newest, count, resolved) :=
          ack_loop buffer_size sequence_id items newest count resolved' in
        (taken :: rest, newest, count, resolved)
      else (item :: items, newest, count, resolved)
  end.

(** [ack]; the second component lists the channels it resolves. *)
Definition ack (buffer_size : Z) (m : AckMessage) (b : MessageBuffer) : MessageBuffer * list Z :=
  let '(items, newest, count, resolved) :=
    ack_loop buffer_size (ack_sequence_id m) (messages b) None (buffered_byte_count b) [] in
  let items := match newest with
               | Some acked_id => filter (fun item => acked_id < bi_id item) items
               | None => items
               end in
  (set_messages items count b, resolved).

(** [reset_sequence] *)
Definition reset_sequence (m : SequenceMessage) (b : MessageBuffer)
    : result Error unit * MessageBuffer :=
  if next_receiving_sequence_id b <? seq_sequence_id m then
    (Err (EProtocol "sequence ID greater than amount of messages we've received"), b)
  else (Ok tt, set_receiving (seq_sequence_id m) (latest_received_sequence_id b) false b).

(** [schedule_ack_timer] *)
Definition schedule_ack_timer (tr : transport) (format : TransferFormat) (b : MessageBuffer)
    : MessageBuffer :=
  if ack_scheduled b then b
  else set_ack (Some (Sleeping tr format)) true b.

(** [should_process_message] *)
Definition should_process_message (m : HubMessage) (tr : transport) (format : TransferFormat)
    (b : MessageBuffer) : bool * MessageBuffer :=
  if wait_for_sequence_message b then
    (match m with HSequence _ => true | _ => false end, b)
  else if negb (is_invocation_message m) then (true, b)
  else
    let current_id := next_receiving_sequence_id b in
    let latest := latest_received_sequence_id b in
    let b := set_receiving (current_id + 1) latest false b in
    if current_id <=? latest then
      (false, if current_id =? latest then schedule_ack_timer tr format b else b)
    else (true, schedule_ack_timer tr format (set_receiving (current_id + 1) current_id false b)).

(** [dispose]: the timer's task is aborted. *)
Definition dispose (b : MessageBuffer) : MessageBuffer :=
  match ack_timer b with
  | Some _ => set_ack None (ack_scheduled b) b
  | None => b
  end.

Section operations.
Context `{TR : Transport T} (protocol : HubProtocol) (buffer_size : Z).

(** [send] under the buffer lock: the message is numbered and buffered, and it is decided
    whether to send it now.  Returns the payload, the decision and the channel to wait for. *)
Definition send_locked (m : HubMessage) (b : MessageBuffer)
    : result Error (list u8 * bool * option Z) * MessageBuffer :=
  match write_message protocol m with
  | Err e => (Err (EProtocol (protocol_error_text e)), b)
  | Ok serialized =>
      if is_invocation_message m then
        let id := total_message_count b + 1 in
        let count := buffered_byte_count b + len serialized in
        let backpressure := if buffer_size <=? count then Some id else None in
        let item := {| bi_message := serialized; bi_id := id; bi_backpressure := backpressure |} in
        let b := set_total id (set_messages (messages b ++ [item]) count b) in
        (Ok (serialized, negb (reconnect_in_progress b), backpressure), b)
      else (Ok (serialized, negb (reconnect_in_progress b), None), b)
  end.

(** [send] after the lock is released. *)
Definition send_unlocked (serialized : list u8) (send_now : bool) (backpressure : option Z)
    (tr : transport) (format : TransferFormat) (b : MessageBuffer) (w : T)
    : result Error (option Z) * MessageBuffer * T :=
  if send_now then
    match send_payload tr format serialized w with
    | (Ok _, w) => (Ok backpressure, b, w)
    | (Err e, w) => (Err e, disconnected b, w)
    end
  else (Ok backpressure, b, w).

(** [send] *)
Definition send (m : HubMessage) (tr : transport) (format : TransferFormat)
    (b : MessageBuffer) (w : T) : result Error (option Z) * MessageBuffer * T :=
  match send_locked m b with
  | (Err e, b) => (Err e, b, w)
  | (Ok (serialized, send_now, backpressure), b) =>
      send_unlocked serialized send_now backpressure tr format b w
  end.

(** The loop of [resend] over the buffered items. *)
Fixpoint resend_items (items : list BufferedItem) (tr : transport) (format : TransferFormat)
    (w : T) : result Error unit * T :=
  match items with
  | [] => (Ok tt, w)
  | item :: items =>
      match send_payload tr format (bi_message item) w with
      | (Ok _, w) => resend_items items tr format w
      | (Err e, w) => (Err e, w)
      end
  end.

(** [resend] *)
Definition resend (tr : transport) (format : TransferFormat) (b : MessageBuffer) (w : T)
    : result Error unit * MessageBuffer * T :=
  let sequence_id := match messages b with
                     | item :: _ => bi_id item
                     | [] => total_message_count b + 1
                     end in
  match send_hub_message protocol tr format (HSequence {| seq_sequence_id := sequence_id |}) w with
  | (Err e, w) => (Err e, b, w)
  | (Ok _, w) =>
      match resend_items (messages b) tr format w with
      | (Err e, w) => (Err e, b, w)
      | (Ok _, w) => (Ok tt, set_reconnect false (wait_for_sequence_message b) b, w)
      end
  end.

(** The body of the timer's task after its sleep. *)
Definition ack_timer_fires (b : MessageBuffer) (w : T) : MessageBuffer * T :=
  match ack_timer b with
  | Some (Sleeping tr format) =>
      let w :=
        if reconnect_in_progress b then w
        else (send_hub_message protocol tr format
                (HAck {| ack_sequence_id := latest_received_sequence_id b |}) w).2 in
      (set_ack (Some Finished) false b, w)
  | _ => (b, w)
  end.

End operations.

(** ** The invariant *)

Fixpoint item_bytes (l : list BufferedItem) : Z :=
  match l with
  | [] => 0
  | item :: l => len (bi_message item) + item_bytes l
  end.

(** Ids [first, first + 1, ...]. *)
Fixpoint consecutive (first : Z) (l : list BufferedItem) : Prop :=
  match l with
  | [] => True
  | item :: l => bi_id item = first /\ consecutive (first + 1) l
  end.

(** Some caller of [send] still waits for room. *)
Definition waiting (l : list BufferedItem) : Prop :=
  Exists (fun item => is_Some (bi_backpressure item)) l.

Record buffer_ok (buffer_size : Z) (b : MessageBuffer) : Prop := {
  (** The buffered messages are the newest ones sent, in order. *)
  ok_ids : consecutive (total_message_count b - len (messages b) + 1) (messages b);
  ok_total : len (messages b) <= total_message_count b;
  (** The byte count is exact. *)
  ok_bytes : buffered_byte_count b = item_bytes (messages b);
  (** Nobody waits while there is room, and a channel belongs to its item. *)
  ok_waiting : waiting (messages b) -> buffer_size <= buffered_byte_count b;
  ok_channels : Forall (fun item => bi_backpressure item = None \/
                          bi_backpressure item = Some (bi_id item)) (messages b);
  (** What arrives next is new or was processed before. *)
  ok_receiving : next_receiving_sequence_id b <= latest_received_sequence_id b + 1;
  ok_latest : 0 <= latest_received_sequence_id b;
  (** At most one acknowledgement is scheduled. *)
  ok_ack : match ack_timer b with Some (Sleeping _ _) => ack_scheduled b = true | _ => True end
}.

Lemma item_bytes_app l k : item_bytes (l ++ k) = item_bytes l + item_bytes k.
Proof. induction l as [|i l IH]; cbn; [done|]. lia. Qed.

Lemma item_bytes_nonneg l : 0 <= item_bytes l.
Proof. induction l as [|i l IH]; cbn; [lia|]. pose proof (len_nonneg (bi_message i)). lia. Qed.

Lemma consecutive_eq first first' l : consecutive first l -> first = first' -> consecutive first' l.
Proof. by intros H <-. Qed.

Lemma consecutive_app first l k :
  consecutive first (l ++ k) <-> consecutive first l /\ consecutive (first + len l) k.
Proof.
  revert first. induction l as [|i l IH]; intros first; cbn.
  - rewrite Z.add_0_r. tauto.
  - rewrite IH, len_cons. replace (first + 1 + len l) with (first + (1 + len l)) by lia. tauto.
Qed.

Lemma consecutive_ids first l : consecutive first l -> Forall (fun i => first <= bi_id i) l.
Proof.
  revert first. induction l as [|i l IH]; intros first; [by constructor|]. intros [<- Hl].
  constructor; [lia|]. eapply Forall_impl; [by apply IH|]. cbn. lia.
Qed.

Lemma consecutive_above first l : consecutive first l -> Forall (fun i => bi_id i < first + len l) l.
Proof.
  revert first. induction l as [|i l IH]; intros first; [by constructor|]. intros [<- Hl].
  rewrite len_cons. pose proof (len_nonneg l). constructor; [lia|].
  eapply Forall_impl; [by apply IH|]. cbn. lia.
Qed.

(** The loop of [ack] with its flags: what it leaves of the items. *)
Definition released (item : BufferedItem) : BufferedItem :=
  {| bi_message := bi_message item; bi_id := bi_id item; bi_backpressure := None |}.

Lemma channels_cons (resolved : list Z) i l :
  (resolved ++ option_list (bi_backpressure i)) ++ omap bi_backpressure l =
    resolved ++ omap bi_backpressure (i :: l).
Proof. rewrite <- app_assoc. f_equal. cbn. by destruct (bi_backpressure i). Qed.

(** With consecutive ids [ack] splits the items into the acknowledged ones, the ones whose
    waiters are released because there is room, and the rest. *)
Lemma ack_loop_split size seq l first newest count resolved :
  consecutive first l -> item_bytes l <= count ->
  exists acked freed rest, l = acked ++ freed ++ rest /\
    Forall (fun i => bi_id i <= seq) acked /\ Forall (fun i => seq < bi_id i) (freed ++ rest) /\
    let count' := count - item_bytes acked in
    (rest <> [] -> size <= count') /\ (freed <> [] -> count' < size) /\
    ack_loop size seq l newest count resolved =
      (map released (acked ++ freed) ++ rest,
       match last acked with Some i => Some (bi_id i) | None => newest end, count',
       resolved ++ omap bi_backpressure (acked ++ freed)).
Proof.
  revert first newest count resolved. induction l as [|i l IH]; intros first newest count resolved.
  { intros _ Hc. exists [], [], []. cbn in *. rewrite app_nil_r, Z.sub_0_r. done. }
  intros [Hi Hl] Hc. cbn [ack_loop]. cbn in Hc. pose proof (item_bytes_nonneg l).
  pose proof (len_nonneg (bi_message i)).
  destruct (bi_id i <=? seq) eqn:Hs; bool_to_prop; [|destruct (count <? size) eqn:Hr; bool_to_prop].
  - assert (Hsat : saturating_sub count (len (bi_message i)) = count - len (bi_message i))
      by (unfold saturating_sub; lia). rewrite Hsat.
    destruct (IH (first + 1) (Some (bi_id i)) (count - len (bi_message i))
      (resolved ++ option_list (bi_backpressure i)) Hl) as (a & f & r & -> & Ha & Hfr & Hrest & Hfreed & ->);
      [lia|].
    exists (i :: a), f, r. cbn [item_bytes].
    replace (count - (len (bi_message i) + item_bytes a))
      with (count - len (bi_message i) - item_bytes a) by lia.
    split_and!; [done|by constructor|done|done|done|]. rewrite last_cons. cbn [map app].
    rewrite channels_cons. by destruct (last a).
  - assert (Hnew : Forall (fun j => seq < bi_id j) l).
    { eapply Forall_impl; [exact (consecutive_ids _ _ Hl)|]. cbn. lia. }
    destruct (IH (first + 1) newest count (resolved ++ option_list (bi_backpressure i)) Hl)
      as (a & f & r & -> & Ha & Hfr & Hrest & Hfreed & ->); [lia|].
    assert (a = []) as -> by (destruct a as [|j a]; [done|];
      apply Forall_cons in Ha as [? _]; apply Forall_cons in Hnew as [? _]; lia).
    exists [], (i :: f), r. cbn [item_bytes app] in *. rewrite Z.sub_0_r in *.
    split_and!; [done|by constructor|by constructor|done|done|].
    cbn [map app last]. by rewrite channels_cons.
  - exists [], [], (i :: l). cbn. rewrite app_nil_r, Z.sub_0_r. split_and!; try done.
    constructor; [lia|]. eapply Forall_impl; [exact (consecutive_ids _ _ Hl)|]. cbn. lia.
Qed.

Lemma filter_released (n : Z) l k :
  Forall (fun i => bi_id i <= n) l -> Forall (fun i => n < bi_id i) k ->
  filter (fun i => n < bi_id i) (map released l ++ k) = k.
Proof.
  intros Hl Hk. rewrite filter_app, filter_none, filter_all; [done|done|].
  apply Forall_fmap. eapply Forall_impl; [exact Hl|]. cbn. lia.
Qed.

Lemma ack_split size m b : buffer_ok size b ->
  exists acked freed rest, messages b = acked ++ freed ++ rest /\
    Forall (fun i => bi_id i <= ack_sequence_id m) acked /\
    Forall (fun i => ack_sequence_id m < bi_id i) (freed ++ rest) /\
    (rest <> [] -> size <= item_bytes (freed ++ rest)) /\
    (freed <> [] -> item_bytes (freed ++ rest) < size) /\
    ack size m b = (set_messages (map released freed ++ rest) (item_bytes (freed ++ rest)) b,
                    omap bi_backpressure (acked ++ freed)).
Proof.
  intros [Hids _ Hbytes _ _ _ _ _]. unfold ack.
  destruct (ack_loop_split size (ack_sequence_id m) _ _ None (buffered_byte_count b) [] Hids)
    as (a & f & r & Hl & Ha & Hfr & Hrest & Hfreed & ->); [lia|].
  rewrite Hbytes, Hl, !item_bytes_app in *.
  replace (item_bytes a + (item_bytes f + item_bytes r) - item_bytes a)
    with (item_bytes f + item_bytes r) in * by lia.
  exists a, f, r. rewrite !item_bytes_app. split_and!; try done. f_equal. f_equal.
  rewrite map_app, <- app_assoc. destruct (last a) as [i|] eqn:Hlast.
  - destruct (exists_last (l := a) ltac:(by destruct a)) as (a' & i' & ->).
    rewrite last_snoc in Hlast. injection Hlast as ->.
    apply consecutive_app in Hids as [Hida Hidfr].
    apply filter_released.
    + apply consecutive_above in Hida as Habove. apply consecutive_app in Hida as [_ [Hi _]].
      pose proof (len_app a' [i]) as Hlen. rewrite len_cons in Hlen. change (len []) with 0 in Hlen.
      eapply Forall_impl; [exact Habove|]. cbn. intros x Hx. lia.
    + assert (Hi : bi_id i <= ack_sequence_id m) by (apply Forall_app in Ha as [_ [? _]%Forall_cons]; lia).
      apply Forall_app in Hfr as [Hf Hr]. apply Forall_app. split.
      * apply Forall_fmap. eapply Forall_impl; [exact Hf|]. cbn. lia.
      * eapply Forall_impl; [exact Hr|]. cbn. lia.
  - destruct a as [|i a]; [done|]. rewrite last_cons in Hlast. by destruct (last a).
Qed.

(** *** Every operation preserves the invariant *)

Lemma consecutive_released first l k :
  consecutive first (l ++ k) -> consecutive first (map released l ++ k).
Proof.
  revert first. induction l as [|i l IH]; intros first; [done|]. intros [Hi Hl]. split; [done|]. auto.
Qed.

Lemma released_bytes l : item_bytes (map released l) = item_bytes l.
Proof. induction l as [|i l IH]; [done|]. cbn. by rewrite IH. Qed.

Lemma released_waiting l k : waiting (map released l ++ k) -> waiting k.
Proof.
  unfold waiting. rewrite Exists_app. intros [H|H]; [|done].
  apply Exists_exists in H as (x & (y & -> & _)%list_elem_of_fmap & [? Hx]). done.
Qed.

Lemma ack_ok size m b : buffer_ok size b -> buffer_ok size (ack size m b).1.
Proof.
  intros Hok. destruct (ack_split size m b Hok) as (a & f & r & Hl & Ha & Hfr & Hrest & Hfreed & ->).
  destruct Hok as [Hids Htot Hbytes Hwait Hchan Hrecv Hlat Hack]. rewrite Hl in *.
  rewrite !len_app in Htot, Hids. pose proof (len_nonneg a). pose proof (len_nonneg f).
  apply consecutive_app in Hids as [_ Hids]. unfold len in *.
  split; cbn; unfold len; rewrite ?length_app, ?length_map in *; try done; try lia.
  - apply consecutive_released. eapply consecutive_eq; [exact Hids|lia].
  - by rewrite !item_bytes_app, released_bytes.
  - intros Hw. apply Hrest. apply released_waiting in Hw. destruct r; [|done]. by inversion Hw.
  - apply Forall_app in Hchan as [_ [Hf Hr]%Forall_app]. apply Forall_app. split; [|done].
    apply Forall_fmap. eapply Forall_impl; [exact Hf|]. by left.
Qed.

Lemma schedule_ok size tr format b :
  buffer_ok size b -> buffer_ok size (schedule_ack_timer tr format b).
Proof.
  intros Hok. unfold schedule_ack_timer. destruct (ack_scheduled b) eqn:E; [done|].
  by destruct Hok; split.
Qed.

Lemma receiving_ok size next latest wait b :
  buffer_ok size b -> next <= latest + 1 -> 0 <= latest ->
  buffer_ok size (set_receiving next latest wait b).
Proof. intros Hok Hn Hl. by destruct Hok; split. Qed.

Lemma should_process_ok size m tr format b :
  buffer_ok size b -> buffer_ok size (should_process_message m tr format b).2.
Proof.
  intros Hok. pose proof (ok_receiving _ _ Hok). pose proof (ok_latest _ _ Hok).
  unfold should_process_message. destruct (wait_for_sequence_message b); [done|].
  destruct (negb _); [done|]. destruct (_ <=? _) eqn:E; bool_to_prop; cbn.
  - destruct (_ =? _); [apply schedule_ok|]; (apply receiving_ok; [done|lia|lia]).
  - apply schedule_ok, (receiving_ok size _ _ _ b); [done|lia|lia].
Qed.

Lemma reset_sequence_ok size m b : buffer_ok size b -> buffer_ok size (reset_sequence m b).2.
Proof.
  intros Hok. pose proof (ok_receiving _ _ Hok). unfold reset_sequence.
  destruct (_ <? _) eqn:E; [done|]. bool_to_prop. apply receiving_ok; [done|lia|by destruct Hok].
Qed.

Lemma disconnected_ok size b : buffer_ok size b -> buffer_ok size (disconnected b).
Proof. intros Hok. by destruct Hok; split. Qed.

Lemma dispose_ok size b : buffer_ok size b -> buffer_ok size (dispose b).
Proof. intros Hok. unfold dispose. destruct (ack_timer b); [|done]. by destruct Hok; split. Qed.

Section preservation.
Context `{TR : Transport T} (protocol : HubProtocol) (size : Z).

Lemma send_locked_ok m b : buffer_ok size b -> buffer_ok size (send_locked protocol size m b).2.
Proof.
  intros [Hids Htot Hbytes Hwait Hchan Hrecv Hlat Hack]. unfold send_locked.
  destruct (write_message protocol m) as [s|e]; [|by split]. destruct (is_invocation_message m); [|by split].
  set (item := {| bi_message := s; bi_id := total_message_count b + 1;
    bi_backpressure := if size <=? buffered_byte_count b + len s then Some (total_message_count b + 1) else None |}).
  cbn [snd]. split; cbn -[len item]; rewrite ?len_app, ?len_cons; change (len []) with 0; try done; try lia.
  - apply consecutive_app. split; [eapply consecutive_eq; [exact Hids|lia]|]. split; [cbn; lia|done].
  - rewrite item_bytes_app, Hbytes. cbn. lia.
  - pose proof (len_nonneg s). unfold waiting. rewrite Exists_app. intros [Hw|Hw]; [apply Hwait in Hw; lia|].
    apply Exists_cons in Hw as [[c Hc]|Hw]; [|by inversion Hw]. cbn in Hc.
    destruct (_ <=? _) eqn:E; [lia|done].
  - apply Forall_app. split; [done|]. constructor; [|done]. cbn. destruct (_ <=? _); auto.
Qed.

Lemma send_ok m tr format b (w : T) : buffer_ok size b ->
  buffer_ok size (send protocol size m tr format b w).1.2.
Proof.
  intros Hok. pose proof (send_locked_ok m b Hok) as Hok'. unfold send.
  destruct (send_locked protocol size m b) as [[[[s now] bp]|e] b']; [|done]. cbn in *.
  unfold send_unlocked. destruct now; [|done]. destruct (send_payload tr format s w) as [[?|?] w'];
    [done|]. by apply disconnected_ok.
Qed.

Lemma resend_ok tr format b (w : T) : buffer_ok size b ->
  buffer_ok size (resend protocol tr format b w).1.2.
Proof.
  intros Hok. unfold resend. destruct (send_hub_message _ _ _ _ _) as [[?|?] w']; [|done].
  destruct (resend_items _ _ _ _) as [[?|?] w'']; [|done]. by destruct Hok; split.
Qed.

Lemma timer_ok b (w : T) : buffer_ok size b -> buffer_ok size (ack_timer_fires protocol b w).1.
Proof.
  intros Hok. unfold ack_timer_fires. destruct (ack_timer b) as [[tr f|]|]; [|done|done].
  by destruct Hok; split.
Qed.

(** The states of a buffer under any sequence of its operations. *)
Inductive buffer_reachable : MessageBuffer -> Prop :=
| reach_new : buffer_reachable buffer_new
| reach_send_locked m b : buffer_reachable b -> buffer_reachable (send_locked protocol size m b).2
| reach_send_unlocked s now bp tr format b w :
    buffer_reachable b -> buffer_reachable (send_unlocked s now bp tr format b w).1.2
| reach_ack m b : buffer_reachable b -> buffer_reachable (ack size m b).1
| reach_should_process m tr format b :
    buffer_reachable b -> buffer_reachable (should_process_message m tr format b).2
| reach_reset m b : buffer_reachable b -> buffer_reachable (reset_sequence m b).2
| reach_disconnected b : buffer_reachable b -> buffer_reachable (disconnected b)
| reach_resend tr format b w :
    buffer_reachable b -> buffer_reachable (resend protocol tr format b w).1.2
| reach_timer b w : buffer_reachable b -> buffer_reachable (ack_timer_fires protocol b w).1
| reach_dispose b : buffer_reachable b -> buffer_reachable (dispose b).

Lemma buffer_reachable_ok (b : MessageBuffer) : buffer_reachable b -> buffer_ok size b.
Proof.
  induction 1; auto using send_locked_ok, ack_ok, should_process_ok, reset_sequence_ok,
    disconnected_ok, resend_ok, timer_ok, dispose_ok.
  - split; cbn; try done. intros Hw. by inversion Hw.
  - unfold send_unlocked. destruct now; [|done].
    destruct (send_payload tr format s w) as [[?|?] w']; [done|]. by apply disconnected_ok.
Qed.

(** C5: the buffer's invariant: under any interleaving of its operations, whatever the peer
    sends and whatever the transport does, the buffered messages are the newest ones in
    consecutive order, the byte count is exact, no caller waits for room while there is some,
    and the next expected number is at most one above the latest received one. *)
Theorem buffer_invariant (b : MessageBuffer) : buffer_reachable b -> buffer_ok size b.
Proof. apply buffer_reachable_ok. Qed.

End preservation.

(** What an acknowledgement does: exactly the messages up to the acknowledged number leave
    the buffer, the others keep their order, payloads and numbers; every caller whose message
    left stops waiting, and once the remaining bytes are below the limit nobody waits. *)
Theorem ack_removes_acknowledged (size : Z) (m : AckMessage) (b : MessageBuffer) :
  buffer_ok size b ->
  let '(b', resolved) := ack size m b in
  let key := fun i => (bi_id i, bi_message i) in
  map key (messages b') =
    map key (filter (fun i => ack_sequence_id m < bi_id i) (messages b)) /\
  buffered_byte_count b' = item_bytes (messages b') /\
  (forall i c, i ∈ messages b -> bi_id i <= ack_sequence_id m -> bi_backpressure i = Some c ->
    c ∈ resolved) /\
  (buffered_byte_count b' < size -> ~ waiting (messages b')).
Proof.
  intros Hok. pose proof (ack_ok size m b Hok) as Hok'.
  destruct (ack_split size m b Hok) as (a & f & r & Hl & Ha & Hfr & Hrest & Hfreed & Hack).
  rewrite Hack in *. cbn in Hok'. cbv zeta. split_and!.
  - rewrite Hl. cbn [messages set_messages].
    rewrite filter_app, (filter_none _ a), (filter_all _ (f ++ r)); [|done|].
    + cbn. by rewrite !map_app, map_map.
    + eapply Forall_impl; [exact Ha|]. cbn. lia.
  - apply (ok_bytes _ _ Hok').
  - intros i c Hi Hid Hc. rewrite Hl in Hi. rewrite omap_app. apply elem_of_app. left.
    apply elem_of_app in Hi as [Hi|Hi].
    + apply list_elem_of_omap. eauto.
    + rewrite Forall_forall in Hfr. apply Hfr in Hi. lia.
  - intros Hroom Hw. apply (ok_waiting _ _ Hok') in Hw. cbn in *. lia.
Qed.
