(* ===== verification/Link.v ===== *)
(** * Two endpoints over a link that drops

    Each endpoint runs the operations of [MessageBuffer]; the payloads it writes travel in order
    to the other endpoint, until the link drops and everything in flight is lost.  A resumed link
    is a new transport over which both endpoints resend.  The messages each endpoint accepted for
    sending and the messages it processed are recorded, and the theorems relate the two: delivery
    is in order, without loss and without duplicates, across any number of drops. *)

From Stdlib Require Import ZArith Lia String.
From stdpp Require Import base list strings relations.
From S2P Require Import Prelude Framing Utf8 Errors Values Arguments Message JsonProtocol.
From S2P Require Import MessageBuffer.

Local Open Scope Z_scope.

(** ** The transport of an endpoint *)

(** Which transport is current, whether it is open, and the payloads in flight. *)
Record wire := {
  w_epoch : transport;
  w_up : bool;
  w_out : list (list u8)
}.

Definition wire_send (tr : transport) (payload : list u8) (w : wire) : result Error unit * wire :=
  if w_up w && bool_decide (tr = w_epoch w)
  then (Ok tt, {| w_epoch := w_epoch w; w_up := true; w_out := w_out w ++ [payload] |})
  else (Err (EWebSocket "closed"), w).

#[global] Instance wire_transport : Transport wire := {|
  send_text tr text w := wire_send tr (bytes_of_string text) w;
  send_binary tr payload w := wire_send tr payload w;
  transport_close tr w :=
    (Ok tt, {| w_epoch := w_epoch w; w_up := w_up w && negb (bool_decide (tr = w_epoch w));
               w_out := w_out w |})
|}.

(** ** Endpoints *)

(** [ep_sent] and [ep_processed] record the invocation messages the endpoint accepted for
    sending and those it handed to its dispatcher. *)
Record endpoint := {
  ep_buffer : MessageBuffer;
  ep_wire : wire;
  ep_sent : list HubMessage;
  ep_processed : list HubMessage
}.

(** Two endpoints. *)
Record link := { left : endpoint; right : endpoint }.

Definition swap (s : link) : link := {| left := right s; right := left s |}.

Definition endpoint_new : endpoint := {|
  ep_buffer := buffer_new;
  ep_wire := {| w_epoch := 0; w_up := true; w_out := [] |};
  ep_sent := [];
  ep_processed := []
|}.

Definition link_new : link := {| left := endpoint_new; right := endpoint_new |}.

Section link.
Context (p : HubProtocol) (size : Z).

(** An endpoint sends a message: [send] with its current transport, from the lock to the write, as for
    a caller that sends while no other call of [send] is under way.  Everything that is sent goes
    through the buffer, as calls and the items and completions of uploads do; the completions of
    dispatch, which do not, are left out.  [Races] has sends that overlap and such completions. *)
Definition ep_send (m : HubMessage) (e : endpoint) : endpoint :=
  let '(_, b, w) := send p size m (w_epoch (ep_wire e)) (transfer_format p) (ep_buffer e) (ep_wire e) in
  {| ep_buffer := b; ep_wire := w;
     ep_sent := if is_invocation_message m && is_ok (write_message p m)
                then ep_sent e ++ [m] else ep_sent e;
     ep_processed := ep_processed e |}.

(** One parsed message: the use [DispatchContext::dispatch] makes of the buffer. *)
Definition ep_dispatch (e : endpoint) (m : HubMessage) : endpoint :=
  let '(process, b) :=
    should_process_message m (w_epoch (ep_wire e)) (transfer_format p) (ep_buffer e) in
  let b' := if process then
              match m with
              | HAck m => (ack size m b).1
              | HSequence m => (reset_sequence m b).2
              | _ => b
              end
            else b in
  {| ep_buffer := b'; ep_wire := ep_wire e; ep_sent := ep_sent e;
     ep_processed := if process && is_invocation_message m
                     then ep_processed e ++ [m] else ep_processed e |}.

(** A payload arrives. *)
Definition ep_receive (payload : list u8) (e : endpoint) : endpoint :=
  match parse_messages p (as_input (transfer_format p) payload) with
  | Ok ms => fold_left ep_dispatch ms e
  | Err _ => e
  end.

Definition ep_timer (e : endpoint) : endpoint :=
  let '(b, w) := ack_timer_fires p (ep_buffer e) (ep_wire e) in
  {| ep_buffer := b; ep_wire := w; ep_sent := ep_sent e; ep_processed := ep_processed e |}.

Definition ep_resend (e : endpoint) : endpoint :=
  let '(_, b, w) := resend p (w_epoch (ep_wire e)) (transfer_format p) (ep_buffer e) (ep_wire e) in
  {| ep_buffer := b; ep_wire := w; ep_sent := ep_sent e; ep_processed := ep_processed e |}.

(** The transport is gone; what was in flight is lost. *)
Definition ep_drop (e : endpoint) : endpoint :=
  {| ep_buffer := ep_buffer e;
     ep_wire := {| w_epoch := w_epoch (ep_wire e); w_up := false; w_out := [] |};
     ep_sent := ep_sent e; ep_processed := ep_processed e |}.

(** [resume_transport]: the buffer is told, and a new transport is in place. *)
Definition ep_resume (epoch : transport) (e : endpoint) : endpoint :=
  {| ep_buffer := disconnected (ep_buffer e);
     ep_wire := {| w_epoch := epoch; w_up := true; w_out := [] |};
     ep_sent := ep_sent e; ep_processed := ep_processed e |}.

(** The oldest payload in flight is taken off the wire. *)
Definition ep_taken (rest : list (list u8)) (e : endpoint) : endpoint :=
  {| ep_buffer := ep_buffer e;
     ep_wire := {| w_epoch := w_epoch (ep_wire e); w_up := w_up (ep_wire e); w_out := rest |};
     ep_sent := ep_sent e; ep_processed := ep_processed e |}.

Definition sendable (supported : HubMessage -> Prop) (e : endpoint) (m : HubMessage) : Prop :=
  supported m /\ (match m with HAck _ | HSequence _ => False | _ => True end) /\
  total_message_count (ep_buffer e) + 1 < i64_max.

(** The steps of the link; [step_swap] lets the right endpoint act. *)
Inductive link_step (supported : HubMessage -> Prop) : link -> link -> Prop :=
| step_send s m : sendable supported (left s) m ->
    link_step supported s {| left := ep_send m (left s); right := right s |}
| step_receive s payload rest : w_out (ep_wire (left s)) = payload :: rest ->
    link_step supported s {| left := ep_taken rest (left s);
                             right := ep_receive payload (right s) |}
| step_timer s : link_step supported s {| left := ep_timer (left s); right := right s |}
| step_drop s : link_step supported s {| left := ep_drop (left s); right := ep_drop (right s) |}
| step_resume s epoch : (w_epoch (ep_wire (left s)) < epoch)%nat ->
    (w_epoch (ep_wire (right s)) < epoch)%nat ->
    w_up (ep_wire (left s)) = false ->
    link_step supported s {| left := ep_resume epoch (left s); right := ep_resume epoch (right s) |}
| step_resend s : reconnect_in_progress (ep_buffer (left s)) = true ->
    w_up (ep_wire (left s)) = true ->
    link_step supported s {| left := ep_resend (left s); right := right s |}
| step_swap s s' : link_step supported s s' -> link_step supported (swap s) (swap s').

End link.

(** ** The invariant *)

(** A message that arrives keeps its type, and numbers keep their values. *)
Definition faithful (m m' : HubMessage) : Prop :=
  message_type m' = message_type m /\
  match m with HAck _ | HSequence _ => m' = m | _ => True end.

(** [stream sent pos cm last]: reading the messages [cm] from position [pos] of the log [sent],
    the next invocation is always the one the position names, and the position is [last] at the
    end.  [None] is the position of a receiver that waits for a sequence message; one is coming. *)
Fixpoint stream (sent : list HubMessage) (pos : option Z) (cm : list HubMessage) (last : Z) : Prop :=
  match cm with
  | [] => match pos with Some n => n = last | None => False end
  | m :: cm =>
      match pos with
      | Some n =>
          if is_invocation_message m
          then 1 <= n /\ sent !! Z.to_nat (n - 1) = Some m /\ stream sent (Some (n + 1)) cm last
          else (match m with HSequence _ => False | _ => True end) /\ stream sent (Some n) cm last
      | None =>
          match m with
          | HSequence m => 1 <= seq_sequence_id m /\ stream sent (Some (seq_sequence_id m)) cm last
          | _ => stream sent None cm last
          end
      end
  end.

(** Where a receiver is in the log of its peer. *)
Definition position (b : MessageBuffer) : option Z :=
  if wait_for_sequence_message b then None else Some (next_receiving_sequence_id b).

Section invariant.
Context (p : HubProtocol) (size : Z) (supported : HubMessage -> Prop)
  (arrives : HubMessage -> list HubMessage -> Prop).

Definition written (m : HubMessage) (payload : list u8) : Prop :=
  supported m /\ write_message p m = Ok payload.

(** The sending half of an endpoint: it buffers the newest messages of its log. *)
Record sender_ok (e : endpoint) : Prop := {
  snd_buffer : buffer_ok size (ep_buffer e);
  snd_total : total_message_count (ep_buffer e) = len (ep_sent e);
  snd_bound : total_message_count (ep_buffer e) < i64_max;
  snd_log : Forall (fun m => is_invocation_message m = true) (ep_sent e);
  snd_items : Forall2 (fun m item => written m (bi_message item))
    (drop (length (ep_sent e) - length (messages (ep_buffer e))) (ep_sent e))
    (messages (ep_buffer e))
}.

(** The receiving half: it processed the first [latest] messages of the peer's log. *)
Record receiver_ok (sent : list HubMessage) (e : endpoint) : Prop := {
  rcv_latest : latest_received_sequence_id (ep_buffer e) = len (ep_processed e);
  rcv_prefix : Forall2 (fun m m' => arrives m [m'])
    (take (length (ep_processed e)) sent) (ep_processed e)
}.

(** What is in flight from [s] to [r]. *)
Definition channel_ok (s r : endpoint) : Prop :=
  exists cm, Forall2 written cm (w_out (ep_wire s)) /\
    (if w_up (ep_wire s) then
       if reconnect_in_progress (ep_buffer s)
       then cm = [] /\ wait_for_sequence_message (ep_buffer r) = true
       else stream (ep_sent s) (position (ep_buffer r)) cm (len (ep_sent s) + 1)
     else cm = []).

Record half (s r : endpoint) : Prop := {
  half_sender : sender_ok s;
  half_receiver : receiver_ok (ep_sent s) r;
  half_channel : channel_ok s r
}.

Record link_ok (s : link) : Prop := {
  link_lr : half (left s) (right s);
  link_rl : half (right s) (left s);
  link_up : w_up (ep_wire (left s)) = w_up (ep_wire (right s));
  link_epoch : w_epoch (ep_wire (left s)) = w_epoch (ep_wire (right s))
}.

(** *** Streams *)

Lemma stream_snoc_other sent pos cm last m :
  is_invocation_message m = false -> (match m with HSequence _ => False | _ => True end) ->
  stream sent pos cm last -> stream sent pos (cm ++ [m]) last.
Proof.
  intros Hm Hs. revert pos. induction cm as [|m' cm IH]; intros pos; cbn [stream app].
  - destruct pos; [|done]. rewrite Hm. done.
  - destruct pos as [n|].
    + destruct (is_invocation_message m'); naive_solver.
    + destruct m'; naive_solver.
Qed.

Lemma stream_send sent pos cm m :
  is_invocation_message m = true ->
  stream sent pos cm (len sent + 1) -> stream (sent ++ [m]) pos (cm ++ [m]) (len (sent ++ [m]) + 1).
Proof.
  intros Hm. revert pos. induction cm as [|m' cm IH]; intros pos; cbn [stream app].
  - destruct pos as [n|]; [|done]. intros ->. rewrite Hm, len_app.
    replace (Z.to_nat (len sent + 1 - 1)) with (length sent) by (unfold len; lia).
    rewrite list_lookup_middle by done. pose proof (len_nonneg sent). split_and!; [lia|done|done].
  - destruct pos as [n|].
    + destruct (is_invocation_message m'); [|naive_solver]. intros (? & Hl & H). split_and!; auto.
      rewrite lookup_app_l; [done|]. by eapply lookup_lt_Some.
    + destruct m'; naive_solver.
Qed.

Lemma stream_drop sent n :
  Forall (fun m => is_invocation_message m = true) sent -> (n <= length sent)%nat ->
  stream sent (Some (Z.of_nat n + 1)) (drop n sent) (len sent + 1).
Proof.
  intros Hinv. remember (length sent - n)%nat as k eqn:Hk. revert n Hk.
  induction k as [|k IH]; intros n Hk Hn.
  - rewrite drop_ge by lia. cbn. unfold len. lia.
  - destruct (lookup_lt_is_Some_2 sent n ltac:(lia)) as [m Hm].
    rewrite (drop_S sent m n) by done. cbn [stream].
    rewrite Forall_lookup in Hinv. rewrite (Hinv n m Hm).
    replace (Z.to_nat (Z.of_nat n + 1 - 1)) with n by lia. split_and!; [lia|done|].
    replace (Z.of_nat n + 1 + 1) with (Z.of_nat (S n) + 1) by lia. apply IH; lia.
Qed.

(** *** Payloads *)

Context (proto : protocol_ok p supported arrives).
Context (one : forall m ms, supported m -> arrives m ms -> exists m', ms = [m'] /\ faithful m m').
Context (control : forall n, 0 <= n <= i64_max ->
  supported (HSequence {| seq_sequence_id := n |}) /\ supported (HAck {| ack_sequence_id := n |})).

Lemma send_payload_wire m payload tr w :
  written m payload -> send_payload tr (transfer_format p) payload w = wire_send tr payload w.
Proof.
  intros [Hm Hw]. unfold send_payload. destruct (transfer_format p) eqn:Ht; [|done].
  rewrite from_utf8_valid by (by eapply (written_text _ _ _ proto)). cbn.
  by rewrite bytes_of_string_of_bytes.
Qed.

Lemma supported_written m : supported m -> exists payload, written m payload.
Proof. intros Hm. destruct (written_parses _ _ _ proto m Hm) as (b & ms & Hb & _). by exists b. Qed.

Lemma receive_written m payload e :
  written m payload -> exists m', faithful m m' /\ arrives m [m'] /\
    ep_receive p size payload e = ep_dispatch p size e m'.
Proof.
  intros [Hm Hw]. destruct (written_parses _ _ _ proto m Hm) as (b & ms & Hb & Hp & Ha).
  assert (b = payload) as -> by congruence. destruct (one m ms Hm Ha) as (m' & -> & Hf).
  exists m'. split_and!; [done|done|]. unfold ep_receive. by rewrite Hp.
Qed.

(** *** The two halves depend on different fields *)

Lemma sender_frame e b : sender_ok e ->
  buffer_ok size b -> messages b = messages (ep_buffer e) ->
  total_message_count b = total_message_count (ep_buffer e) ->
  forall w l, sender_ok {| ep_buffer := b; ep_wire := w; ep_sent := ep_sent e; ep_processed := l |}.
Proof. intros [] Hb Hm Ht w l. split; cbn; rewrite ?Hm, ?Ht; done. Qed.

Lemma receiver_frame sent e b w l : receiver_ok sent e ->
  latest_received_sequence_id b = latest_received_sequence_id (ep_buffer e) ->
  receiver_ok sent {| ep_buffer := b; ep_wire := w; ep_sent := l; ep_processed := ep_processed e |}.
Proof. intros [] Hb. split; cbn; rewrite ?Hb; done. Qed.

Lemma channel_frame s s' r r' : channel_ok s r ->
  w_out (ep_wire s') = w_out (ep_wire s) -> w_up (ep_wire s') = w_up (ep_wire s) ->
  reconnect_in_progress (ep_buffer s') = reconnect_in_progress (ep_buffer s) ->
  ep_sent s' = ep_sent s -> position (ep_buffer r') = position (ep_buffer r) ->
  channel_ok s' r'.
Proof.
  intros (cm & Hcm & H) Ho Hu Hr Hs Hp. exists cm. rewrite Ho, Hu, Hr, Hs, Hp. split; [done|].
  destruct (w_up _); [|done]. destruct (reconnect_in_progress _); [|done]. destruct H as [-> Hw].
  split; [done|]. unfold position in Hp. rewrite Hw in Hp.
  by destruct (wait_for_sequence_message (ep_buffer r')).
Qed.

(** *** Link events *)

Lemma drop_ok s : link_ok s -> link_ok {| left := ep_drop (left s); right := ep_drop (right s) |}.
Proof.
  intros [[Hs1 Hr1 Hc1] [Hs2 Hr2 Hc2] Hup Hep]. split; cbn; [..|done|done].
  - split; [by apply sender_frame; destruct Hs1|by apply receiver_frame|exists []; by split].
  - split; [by apply sender_frame; destruct Hs2|by apply receiver_frame|exists []; by split].
Qed.

Lemma resume_ok s epoch : link_ok s ->
  link_ok {| left := ep_resume epoch (left s); right := ep_resume epoch (right s) |}.
Proof.
  intros [[Hs1 Hr1 Hc1] [Hs2 Hr2 Hc2] Hup Hep]. split; cbn; [..|done|done].
  - split; [apply sender_frame; try done; apply disconnected_ok; by destruct Hs1
           |by apply receiver_frame|exists []; by split].
  - split; [apply sender_frame; try done; apply disconnected_ok; by destruct Hs2
           |by apply receiver_frame|exists []; by split].
Qed.

(** *** The timer *)

Lemma channel_snoc s r m payload w :
  channel_ok s r -> written m payload -> is_invocation_message m = false ->
  (match m with HSequence _ => False | _ => True end) ->
  w_up (ep_wire s) = true -> reconnect_in_progress (ep_buffer s) = false ->
  w_up w = true -> w_out w = w_out (ep_wire s) ++ [payload] ->
  forall b l, reconnect_in_progress b = false ->
  channel_ok {| ep_buffer := b; ep_wire := w; ep_sent := ep_sent s; ep_processed := l |} r.
Proof.
  intros (cm & Hcm & H) Hw Hm Hseq Hup Hrec Hup' Hout b l Hb. exists (cm ++ [m]). cbn.
  rewrite Hout, Hup', Hb. rewrite Hup, Hrec in H. split.
  - apply Forall2_app; [done|]. by constructor.
  - by apply stream_snoc_other.
Qed.

Lemma latest_bound s r : sender_ok s -> receiver_ok (ep_sent s) r ->
  0 <= latest_received_sequence_id (ep_buffer r) <= i64_max.
Proof.
  intros Hs Hr. rewrite (rcv_latest _ _ Hr). pose proof (Forall2_length _ _ _ (rcv_prefix _ _ Hr)) as Hl.
  rewrite length_take in Hl. pose proof (snd_bound _ Hs) as Hb. rewrite (snd_total _ Hs) in Hb.
  unfold len in *. lia.
Qed.

(** Sending a control message leaves the wire alone or appends the message. *)
Lemma send_control tr f m w : supported m ->
  (send_hub_message p tr f m w).2 = w \/
  exists payload, written m payload /\ w_up w = true /\ tr = w_epoch w /\
    (send_hub_message p tr f m w).2 =
      {| w_epoch := w_epoch w; w_up := true; w_out := w_out w ++ [payload] |}.
Proof.
  intros Hm. destruct (supported_written m Hm) as [payload Hw]. unfold send_hub_message.
  rewrite (proj2 Hw). unfold send_payload.
  assert (Hwire : (wire_send tr payload w).2 = w \/ (w_up w = true /\ tr = w_epoch w) /\ (wire_send tr payload w).2 =
    {| w_epoch := w_epoch w; w_up := true; w_out := w_out w ++ [payload] |}).
  { unfold wire_send. destruct (w_up w); [|by left]. cbn [andb].
    case_bool_decide; [by right|by left]. }
  destruct f.
  - destruct (from_utf8 payload) as [t|e] eqn:Ht; [|by left]. cbn.
    assert (bytes_of_string t = payload) as ->.
    { unfold from_utf8 in Ht. destruct (utf8_check payload 0); [done|]. injection Ht as <-.
      apply bytes_of_string_of_bytes. }
    destruct Hwire as [->|[[? ?] ->]]; eauto 10.
  - cbn. destruct Hwire as [->|[[? ?] ->]]; eauto 10.
Qed.

Lemma timer_step_ok s : link_ok s -> link_ok {| left := ep_timer p (left s); right := right s |}.
Proof.
  intros [[Hs1 Hr1 Hc1] [Hs2 Hr2 Hc2] Hup Hep]. unfold ep_timer.
  pose proof (timer_ok p size (ep_buffer (left s)) (ep_wire (left s)) (snd_buffer _ Hs1)) as Hok.
  unfold ack_timer_fires in *.
  destruct (ack_timer (ep_buffer (left s))) as [[tr f|]|]; [|by destruct s as [[] ?]; split..].
  destruct (control _ (latest_bound _ _ Hs2 Hr2)) as [_ Hack].
  destruct (send_control tr f _ (ep_wire (left s)) Hack) as [Hw|(payload & Hpay & Hwup & _ & Hw)].
  all: destruct (reconnect_in_progress (ep_buffer (left s))) eqn:Hrec; rewrite ?Hw; cbn in *.
  1-3: split; cbn; [|split; [done|by apply receiver_frame|by apply (channel_frame _ _ _ _ Hc2)]|done|done];
    split; [by apply sender_frame|done|by apply (channel_frame _ _ _ _ Hc1)].
  split; cbn; [| |by rewrite <- Hup|done].
  - split; [by apply sender_frame|done|].
    by apply (channel_snoc _ _ _ _ _ Hc1 Hpay).
  - split; [done|by apply receiver_frame|by apply (channel_frame _ _ _ _ Hc2)].
Qed.

(** *** Sending *)

Definition sent_after (m : HubMessage) (e : endpoint) : list HubMessage :=
  if is_invocation_message m then ep_sent e ++ [m] else ep_sent e.

(** The locked part of [send] on a supported message. *)
Lemma send_locked_fields m payload e : sender_ok e -> written m payload ->
  total_message_count (ep_buffer e) + 1 < i64_max ->
  exists bp b, send_locked p size m (ep_buffer e) =
    (Ok (payload, negb (reconnect_in_progress (ep_buffer e)), bp), b) /\
    reconnect_in_progress b = reconnect_in_progress (ep_buffer e) /\
    position b = position (ep_buffer e) /\
    latest_received_sequence_id b = latest_received_sequence_id (ep_buffer e) /\
    forall b' w l, buffer_ok size b' -> messages b' = messages b ->
      total_message_count b' = total_message_count b ->
      sender_ok {| ep_buffer := b'; ep_wire := w; ep_sent := sent_after m e; ep_processed := l |}.
Proof.
  intros Hs Hw Hbound. unfold send_locked, sent_after. rewrite (proj2 Hw).
  destruct (is_invocation_message m) eqn:Hm.
  2: { eexists _, (ep_buffer e). split_and!; try done. intros b' w l Hb Hmsg Htot. by apply sender_frame. }
  eexists _, _. split_and!; [done|done|done|done|]. intros b' w l Hb Hmsg Htot. cbn in Hmsg, Htot.
  destruct Hs as [Hbuf Htotal Hbd Hlog Hitems]. split; cbn; rewrite ?Hmsg, ?Htot; try done.
  - rewrite len_app, Htotal. done.
  - apply Forall_app. by split; [|constructor].
  - pose proof (ok_total _ _ Hbuf) as Hle. rewrite Htotal in Hle. unfold len in Hle.
    rewrite !length_app. cbn [length].
    replace (length (ep_sent e) + 1 - (length (messages (ep_buffer e)) + 1))%nat
      with (length (ep_sent e) - length (messages (ep_buffer e)))%nat by lia.
    rewrite drop_app_le by lia. apply Forall2_app; [done|]. by constructor.
Qed.

Lemma receiver_prefix_snoc sent e m : receiver_ok sent e -> receiver_ok (sent ++ [m]) e.
Proof.
  intros [Hl Hp]. split; [done|]. pose proof (Forall2_length _ _ _ Hp) as Hlen.
  rewrite length_take in Hlen. by rewrite take_app_le by lia.
Qed.

Lemma channel_send s r m payload : channel_ok s r -> written m payload ->
  (match m with HAck _ | HSequence _ => False | _ => True end) ->
  w_up (ep_wire s) = true -> reconnect_in_progress (ep_buffer s) = false ->
  forall b l epoch, reconnect_in_progress b = false ->
  channel_ok {| ep_buffer := b;
                ep_wire := {| w_epoch := epoch; w_up := true;
                              w_out := w_out (ep_wire s) ++ [payload] |};
                ep_sent := sent_after m s; ep_processed := l |} r.
Proof.
  intros Hc Hw Hm Hup Hrec b l epoch Hb. unfold sent_after. destruct (is_invocation_message m) eqn:Hi.
  - destruct Hc as (cm & Hcm & H). rewrite Hup, Hrec in H. exists (cm ++ [m]). cbn. rewrite Hb. split.
    + apply Forall2_app; [done|]. by constructor.
    + by apply stream_send.
  - apply (channel_snoc _ _ m payload _ Hc); try done. by destruct m.
Qed.

Lemma send_step_ok s m : link_ok s -> sendable supported (left s) m ->
  link_ok {| left := ep_send p size m (left s); right := right s |}.
Proof.
  intros [[Hs1 Hr1 Hc1] [Hs2 Hr2 Hc2] Hup Hep] (Hm & Hctl & Hbound).
  destruct (supported_written m Hm) as [payload Hw].
  destruct (send_locked_fields m payload (left s) Hs1 Hw Hbound)
    as (bp & b & Hlock & Hrec & Hpos & Hlat & Hsend).
  pose proof (send_locked_ok p size m _ (snd_buffer _ Hs1)) as Hok. rewrite Hlock in Hok. cbn in Hok.
  assert (Hr1' : receiver_ok (sent_after m (left s)) (right s)).
  { unfold sent_after. destruct (is_invocation_message m); [by apply receiver_prefix_snoc|done]. }
  unfold ep_send, send. rewrite Hlock, (proj2 Hw), andb_true_r. fold (sent_after m (left s)).
  unfold send_unlocked. rewrite (send_payload_wire m) by done. unfold wire_send.
  rewrite bool_decide_eq_true_2, andb_true_r by done.
  destruct (reconnect_in_progress (ep_buffer (left s))) eqn:Hrc; cbn [negb];
    [|destruct (w_up (ep_wire (left s))) eqn:Hwu].
  - split; cbn; [|split; [done|by apply receiver_frame|by apply (channel_frame _ _ _ _ Hc2)]|done|done].
    split; [by apply Hsend|done|]. destruct Hc1 as (cm & Hcm & H). exists cm. cbn. rewrite Hrec.
    split; [done|]. rewrite Hrc in H. done.
  - split; cbn; [|split; [done|by apply receiver_frame|by apply (channel_frame _ _ _ _ Hc2)]|done|done].
    split; [by apply Hsend|done|]. by apply channel_send.
  - split; cbn; [| |by rewrite Hwu|done].
    + split; [by apply Hsend; [apply disconnected_ok|..]|done|]. destruct Hc1 as (cm & Hcm & H).
      exists cm. cbn. by rewrite Hwu in *.
    + split; [done|by apply receiver_frame|]. destruct Hc2 as (cm & Hcm & H). exists cm.
      rewrite <- Hup in *. done.
Qed.

(** *** Resending *)

Lemma resend_items_wire cm items epoch out :
  Forall2 (fun m item => written m (bi_message item)) cm items ->
  resend_items items epoch (transfer_format p) {| w_epoch := epoch; w_up := true; w_out := out |} =
    (Ok tt, {| w_epoch := epoch; w_up := true; w_out := out ++ map bi_message items |}).
Proof.
  intros H. revert out. induction H as [|m i cm items Hw _ IH]; intros out; cbn; [by rewrite app_nil_r|].
  rewrite (send_payload_wire m) by done. unfold wire_send. cbn. rewrite bool_decide_eq_true_2 by done.
  rewrite IH. by rewrite <- app_assoc.
Qed.

Lemma first_id e : sender_ok e ->
  match messages (ep_buffer e) with
  | item :: _ => bi_id item
  | [] => total_message_count (ep_buffer e) + 1
  end = Z.of_nat (length (ep_sent e) - length (messages (ep_buffer e))) + 1.
Proof.
  intros [Hbuf Htot _ _ _]. pose proof (ok_ids _ _ Hbuf) as Hids. pose proof (ok_total _ _ Hbuf) as Hle.
  rewrite Htot in *. unfold len in *. destruct (messages (ep_buffer e)) as [|i l]; cbn in *; [lia|].
  destruct Hids as [-> _]. lia.
Qed.

Lemma resend_step_ok s : link_ok s -> reconnect_in_progress (ep_buffer (left s)) = true ->
  w_up (ep_wire (left s)) = true -> link_ok {| left := ep_resend p (left s); right := right s |}.
Proof.
  intros [[Hs1 Hr1 Hc1] [Hs2 Hr2 Hc2] Hup Hep] Hrec Hwu.
  destruct Hc1 as (cm & Hcm & H). rewrite Hwu, Hrec in H. destruct H as [-> Hwait].
  assert (Hout : w_out (ep_wire (left s)) = []) by (by inversion Hcm). clear Hcm.
  pose proof (first_id _ Hs1) as Hid.
  pose proof (ok_total _ _ (snd_buffer _ Hs1)) as Hle. rewrite (snd_total _ Hs1) in Hle.
  pose proof (snd_bound _ Hs1) as Hb. rewrite (snd_total _ Hs1) in Hb. unfold len in Hle, Hb.
  unfold ep_resend, resend. rewrite Hid.
  set (n := (length (ep_sent (left s)) - length (messages (ep_buffer (left s))))%nat) in *.
  destruct (control (Z.of_nat n + 1) ltac:(lia)) as [Hseq _].
  destruct (supported_written _ Hseq) as [payload Hw]. unfold send_hub_message. rewrite (proj2 Hw).
  rewrite (send_payload_wire _ _ _ _ Hw). unfold wire_send. rewrite Hwu, bool_decide_eq_true_2 by done.
  cbn [andb]. rewrite (resend_items_wire _ _ _ _ (snd_items _ Hs1)).
  split; cbn; [| |by rewrite <- Hup|done].
  - split; [apply sender_frame; try done; by destruct (snd_buffer _ Hs1); split|done|].
    exists (HSequence {| seq_sequence_id := Z.of_nat n + 1 |} :: drop n (ep_sent (left s))).
    cbn [ep_wire ep_buffer ep_sent w_out w_up reconnect_in_progress set_reconnect]. rewrite Hout. split.
    + cbn. constructor; [done|]. pose proof (snd_items _ Hs1) as Hi. fold n in Hi.
      clear -Hi. induction Hi; by constructor.
    + unfold position. rewrite Hwait. cbn. split; [lia|].
      apply stream_drop; [apply (snd_log _ Hs1)|lia].
  - split; [done|by apply receiver_frame|by apply (channel_frame _ _ _ _ Hc2)].
Qed.

(** *** Receiving *)

Lemma ack_frame a b : exists l n, (ack size a b).1 = set_messages l n b.
Proof. unfold ack. destruct (ack_loop _ _ _ _ _ _) as [[[? ?] ?] ?]. by eexists _, _. Qed.

Lemma faithful_invocation m m' : faithful m m' -> is_invocation_message m' = is_invocation_message m.
Proof. intros [Ht _]. unfold is_invocation_message. by rewrite Ht. Qed.

Lemma schedule_latest tr f b :
  latest_received_sequence_id (schedule_ack_timer tr f b) = latest_received_sequence_id b.
Proof. unfold schedule_ack_timer. by destruct (ack_scheduled b). Qed.

Lemma schedule_position tr f b : position (schedule_ack_timer tr f b) = position b.
Proof. unfold schedule_ack_timer. by destruct (ack_scheduled b). Qed.

(** A new message: the log has it at the next position. *)
Lemma receiver_process sent e m m' b :
  receiver_ok sent e -> arrives m [m'] -> sent !! length (ep_processed e) = Some m ->
  latest_received_sequence_id b = len (ep_processed e) + 1 ->
  receiver_ok sent {| ep_buffer := b; ep_wire := ep_wire e; ep_sent := ep_sent e;
                      ep_processed := ep_processed e ++ [m'] |}.
Proof.
  intros [Hl Hp] Ha Hm Hb. split; cbn; [by rewrite Hb, len_app|].
  rewrite length_app. cbn. rewrite Nat.add_1_r, (take_S_r _ _ m) by done.
  apply Forall2_app; [done|]. by constructor.
Qed.

Lemma dispatch_receiver sent e m m' cm last :
  receiver_ok sent e -> buffer_ok size (ep_buffer e) ->
  stream sent (position (ep_buffer e)) (m :: cm) last -> faithful m m' -> arrives m [m'] ->
  (forall q, m = HSequence q -> wait_for_sequence_message (ep_buffer e) = true ->
    seq_sequence_id q <= next_receiving_sequence_id (ep_buffer e)) ->
  receiver_ok sent (ep_dispatch p size e m') /\
  stream sent (position (ep_buffer (ep_dispatch p size e m'))) cm last.
Proof.
  intros Hr Hok Hst Hf Ha Hseq. pose proof (faithful_invocation _ _ Hf) as Hi. destruct Hf as [Ht Hctl].
  unfold ep_dispatch, should_process_message. unfold position in Hst.
  destruct (wait_for_sequence_message (ep_buffer e)) eqn:Hw.
  - destruct m; cbn in Ht; destruct m'; try done; try subst;
      try (split; [by apply receiver_frame|cbn; unfold position; by rewrite Hw]).
    simplify_eq. cbn in Hst. destruct Hst as [Hs1 Hst]. cbn. unfold reset_sequence.
    specialize (Hseq _ eq_refl eq_refl). replace (_ <? _) with false by lia.
    by split; [apply receiver_frame|].
  - cbn [stream] in Hst. destruct (is_invocation_message m) eqn:Hm; rewrite Hi; cbn [negb].
    + destruct Hst as (Hn & Hlook & Hst). pose proof (ok_receiving _ _ Hok) as Hle.
      assert (Hinv : forall b, (match m' with HAck a => (ack size a b).1
        | HSequence a => (reset_sequence a b).2 | _ => b end) = b) by (by destruct m').
      destruct (_ <=? _) eqn:E; bool_to_prop.
      * cbn [ep_buffer andb]. destruct (_ =? _).
        -- split; [apply receiver_frame; [done|by rewrite schedule_latest]|by rewrite schedule_position].
        -- by split; [apply receiver_frame|].
      * rewrite Hinv. cbn [andb ep_buffer]. rewrite schedule_position. split; [|done].
        rewrite (rcv_latest _ _ Hr) in *. apply (receiver_process _ _ m); [done|done| |].
        -- rewrite <- Hlook. f_equal. unfold len in *. lia.
        -- rewrite schedule_latest. cbn. lia.
    + destruct Hst as [Hns Hst]. destruct m; cbn in Ht; destruct m'; try done;
        try (split; [by apply receiver_frame|cbn; unfold position; by rewrite Hw]).
      cbn. destruct (ack_frame m0 (ep_buffer e)) as (l & n & ->).
      split; [by apply receiver_frame|]. unfold position. cbn. by rewrite Hw.
Qed.

(** The sending half of the receiver. *)
Lemma sender_ack e a w l : sender_ok e ->
  sender_ok {| ep_buffer := (ack size a (ep_buffer e)).1; ep_wire := w; ep_sent := ep_sent e;
               ep_processed := l |}.
Proof.
  intros Hs. pose proof (ack_ok size a _ (snd_buffer _ Hs)) as Hok.
  destruct (ack_split size a _ (snd_buffer _ Hs)) as (ad & f & r & Hl & _ & _ & _ & _ & Hack).
  rewrite Hack in *. destruct Hs as [Hbuf Htot Hb Hlog Hitems]. rewrite Hl in Hitems.
  pose proof (ok_total _ _ Hbuf) as Hle. rewrite Htot, Hl in Hle. unfold len in Hle.
  split; cbn; try done. rewrite !length_app, length_map in *.
  apply Forall2_app_inv_r in Hitems as (c1 & c2 & Hc1 & Hc2 & Hc).
  pose proof (Forall2_length _ _ _ Hc1) as Hlen.
  replace (drop _ (ep_sent e)) with c2.
  - apply Forall2_app_inv_r in Hc2 as (c3 & c4 & Hc3 & Hc4 & ->). apply Forall2_app; [|done].
    clear -Hc3. induction Hc3; by constructor.
  - rewrite <- (drop_app_length' c1 c2 (length ad)) by done. rewrite <- Hc, drop_drop. f_equal. lia.
Qed.

Lemma dispatch_sender e m : sender_ok e -> sender_ok (ep_dispatch p size e m) /\
  reconnect_in_progress (ep_buffer (ep_dispatch p size e m)) = reconnect_in_progress (ep_buffer e) /\
  ep_sent (ep_dispatch p size e m) = ep_sent e /\ ep_wire (ep_dispatch p size e m) = ep_wire e.
Proof.
  intros Hs. unfold ep_dispatch.
  destruct (should_process_message _ _ _ _) as [process b] eqn:Hsp.
  pose proof (should_process_ok size m (w_epoch (ep_wire e)) (transfer_format p) _ (snd_buffer _ Hs)) as Hok.
  rewrite Hsp in Hok. cbn in Hok.
  assert (Hb : messages b = messages (ep_buffer e) /\
    total_message_count b = total_message_count (ep_buffer e) /\
    reconnect_in_progress b = reconnect_in_progress (ep_buffer e)).
  { unfold should_process_message, schedule_ack_timer in Hsp. clear -Hsp.
    repeat case_match; simplify_eq/=; done. }
  destruct Hb as (Hb1 & Hb2 & Hb3). cbn [ep_buffer ep_sent ep_wire]. split_and!; [|..|done|done].
  - destruct process; [|by apply sender_frame].
    destruct m as [m|m|m|m|m| |m|m|m]; try by apply sender_frame.
    + apply (sender_ack {| ep_buffer := b; ep_wire := ep_wire e; ep_sent := ep_sent e;
        ep_processed := ep_processed e |}). by apply sender_frame.
    + pose proof (reset_sequence_ok size m b Hok) as Hok'.
      unfold reset_sequence in *. destruct (_ <? _); by apply sender_frame.
  - destruct process; [|done]. destruct m as [m|m|m|m|m| |m|m|m]; try done.
    + destruct (ack_frame m b) as (l & n & ->). done.
    + unfold reset_sequence. by destruct (_ <? _).
Qed.

Lemma receive_step_ok s payload rest : link_ok s -> w_out (ep_wire (left s)) = payload :: rest ->
  (forall q, written (HSequence q) payload ->
    wait_for_sequence_message (ep_buffer (right s)) = true ->
    seq_sequence_id q <= next_receiving_sequence_id (ep_buffer (right s))) ->
  link_ok {| left := ep_taken rest (left s); right := ep_receive p size payload (right s) |}.
Proof.
  intros [[Hs1 Hr1 Hc1] [Hs2 Hr2 Hc2] Hup Hep] Hout Hq.
  destruct Hc1 as (cm & Hcm & H). rewrite Hout in Hcm.
  apply Forall2_cons_inv_r in Hcm as (m & cm' & Hw & Hcm & ->).
  destruct (w_up (ep_wire (left s))) eqn:Hwu; [|done].
  destruct (reconnect_in_progress (ep_buffer (left s))) eqn:Hrec; [by destruct H|].
  destruct (receive_written m payload (right s) Hw) as (m' & Hf & Ha & ->).
  destruct (dispatch_receiver _ _ m m' cm' _ Hr1 (snd_buffer _ Hs2) H Hf Ha) as [Hr1' Hst];
    [by intros q ->; apply Hq|].
  destruct (dispatch_sender (right s) m' Hs2) as (Hs2' & Hrec2 & Hsent2 & Hwire2).
  split; cbn [left right]; [| |cbn; by rewrite Hwire2, Hwu|cbn; by rewrite Hwire2].
  - split; [by apply sender_frame; destruct Hs1|done|]. exists cm'. cbn. by rewrite Hwu, Hrec.
  - split; [done|rewrite Hsent2; by apply receiver_frame|].
    apply (channel_frame _ _ _ _ Hc2); rewrite ?Hwire2; done.
Qed.

Lemma swap_ok s : link_ok s -> link_ok (swap s).
Proof. intros []. by split. Qed.

Lemma link_new_ok : link_ok link_new.
Proof.
  assert (half endpoint_new endpoint_new).
  { split; [|by split; [|constructor]|by exists []].
    split; cbn; try done. split; cbn; try done. intros Hw. by inversion Hw. }
  by split.
Qed.

End invariant.
