(* ===== verification/Resume.v ===== *)
(** * Stateful reconnect recovers

    The numbers of the two endpoints stay in step: a receiver that is behind its own latest
    message, because it is being replayed messages it knows, cannot acknowledge, so its peer never
    forgets a message it still has to replay and the sequence message of a resumed transport is
    always accepted.  With the invariant of [Link] this gives the theorems on delivery. *)

From Stdlib Require Import ZArith Lia String.
From stdpp Require Import base list strings relations.
From S2P Require Import Prelude Framing Utf8 Errors Values Arguments Message JsonProtocol.
From S2P Require Import MessageBuffer Link.

Local Open Scope Z_scope.

(** How many messages the peer of [e] has acknowledged. *)
Definition acked (b : MessageBuffer) : Z := total_message_count b - len (messages b).

Lemma exists_last_or_nil {A} (l : list A) : l = [] \/ exists l' x, l = l' ++ [x].
Proof. destruct l as [|y l] using rev_ind; [by left|right; eauto]. Qed.

Section resume.
Context (p : HubProtocol) (size : Z) (supported : HubMessage -> Prop)
  (arrives : HubMessage -> list HubMessage -> Prop).
Context (proto : protocol_ok p supported arrives).
Context (one : forall m ms, supported m -> arrives m ms -> exists m', ms = [m'] /\ faithful m m').
Context (control : forall n, 0 <= n <= i64_max ->
  supported (HSequence {| seq_sequence_id := n |}) /\ supported (HAck {| ack_sequence_id := n |})).

Abbreviation written := (Link.written p supported).
Abbreviation link_ok := (Link.link_ok p size supported arrives).

(** No acknowledgement is in flight and none can be sent over the current transport. *)
Definition quiet (r : endpoint) : Prop :=
  Forall (fun payload => forall a, ~ written (HAck a) payload) (w_out (ep_wire r)) /\
  (w_up (ep_wire r) = true -> forall tr f,
    ack_timer (ep_buffer r) = Some (Sleeping tr f) -> tr <> w_epoch (ep_wire r)).

(** The numbers of the sender [s] and the receiver [r] are in step. *)
Record sync (s r : endpoint) : Prop := {
  sy_acked : acked (ep_buffer s) <= latest_received_sequence_id (ep_buffer r);
  sy_acks : Forall (fun payload => forall a, written (HAck a) payload ->
    ack_sequence_id a <= latest_received_sequence_id (ep_buffer r)) (w_out (ep_wire r));
  sy_timer : forall tr f, ack_timer (ep_buffer r) = Some (Sleeping tr f) ->
    (tr <= w_epoch (ep_wire r))%nat;
  sy_state :
    (wait_for_sequence_message (ep_buffer r) = false /\
     next_receiving_sequence_id (ep_buffer r) = latest_received_sequence_id (ep_buffer r) + 1) \/
    (quiet r /\ acked (ep_buffer s) + 1 <= next_receiving_sequence_id (ep_buffer r));
  sy_sequence : wait_for_sequence_message (ep_buffer r) = true ->
    Forall (fun payload => forall q, written (HSequence q) payload ->
      seq_sequence_id q = acked (ep_buffer s) + 1) (w_out (ep_wire s))
}.

(** In both cases the sender's first buffered message is not beyond the receiver's position. *)
Lemma sync_position s r : sync s r ->
  acked (ep_buffer s) + 1 <= next_receiving_sequence_id (ep_buffer r).
Proof. intros [Ha _ _ [[_ ->]|[_ H]] _]; lia. Qed.

(** The payload of a number determines the message. *)
Lemma written_control m m' payload :
  written m payload -> written m' payload ->
  (match m with HAck _ | HSequence _ => True | _ => False end) -> m' = m.
Proof.
  intros [Hm Hw] [Hm' Hw'] Hctl.
  destruct (written_parses _ _ _ proto m Hm) as (b & ms & Hb & Hp & Ha).
  destruct (written_parses _ _ _ proto m' Hm') as (b' & ms' & Hb' & Hp' & Ha').
  destruct (one m ms Hm Ha) as (m1 & -> & Ht1 & H1). destruct (one m' ms' Hm' Ha') as (m2 & -> & Ht2 & H2).
  assert (b = payload) as -> by congruence. assert (b' = payload) as -> by congruence.
  rewrite Hp in Hp'. injection Hp' as ->. destruct m; try done; subst; destruct m'; naive_solver.
Qed.

Lemma not_ack m payload a : written m payload -> message_type m <> TAck -> ~ written (HAck a) payload.
Proof. intros Hm Ht Ha. apply (written_control _ _ _ Ha) in Hm; [by subst|done]. Qed.

Lemma not_sequence m payload q :
  written m payload -> message_type m <> TSequence -> ~ written (HSequence q) payload.
Proof. intros Hm Ht Ha. apply (written_control _ _ _ Ha) in Hm; [by subst|done]. Qed.

(** *** The receiver's wire and the sender's wire grow by other messages *)

Lemma sync_sender s s' r : sync s r -> acked (ep_buffer s') = acked (ep_buffer s) ->
  (wait_for_sequence_message (ep_buffer r) = true ->
    Forall (fun payload => forall q, written (HSequence q) payload ->
      seq_sequence_id q = acked (ep_buffer s) + 1) (w_out (ep_wire s'))) ->
  sync s' r.
Proof. intros [] He Hq. split; rewrite ?He; auto. Qed.

Lemma sync_receiver s r r' : sync s r ->
  latest_received_sequence_id (ep_buffer r') = latest_received_sequence_id (ep_buffer r) ->
  next_receiving_sequence_id (ep_buffer r') = next_receiving_sequence_id (ep_buffer r) ->
  wait_for_sequence_message (ep_buffer r') = wait_for_sequence_message (ep_buffer r) ->
  w_epoch (ep_wire r') = w_epoch (ep_wire r) ->
  Forall (fun payload => forall a, written (HAck a) payload ->
    ack_sequence_id a <= latest_received_sequence_id (ep_buffer r)) (w_out (ep_wire r')) ->
  (forall tr f, ack_timer (ep_buffer r') = Some (Sleeping tr f) ->
    ack_timer (ep_buffer r) = Some (Sleeping tr f)) ->
  (quiet r -> quiet r') -> sync s r'.
Proof.
  intros [Ha Hacks Ht Hst Hq] Hl Hn Hw He Hout Htm Hquiet. split; rewrite ?Hl, ?Hn, ?Hw; try done.
  - intros tr f H. rewrite He. eauto.
  - destruct Hst as [?|[? ?]]; auto.
Qed.

Definition sync_ok (s : link) : Prop := sync (left s) (right s) /\ sync (right s) (left s).

Lemma sync_drop s : sync_ok s -> sync_ok {| left := ep_drop (left s); right := ep_drop (right s) |}.
Proof.
  assert (H : forall s r, sync s r -> sync (ep_drop s) (ep_drop r)).
  { intros s0 r [Ha Hacks Ht Hst Hq]. split; try done.
    destruct Hst as [?|[? ?]]; [by left|right]. by split. }
  intros [H1 H2]. split; by apply H.
Qed.

Lemma sync_resume s epoch : link_ok s -> sync_ok s -> (w_epoch (ep_wire (left s)) < epoch)%nat ->
  sync_ok {| left := ep_resume epoch (left s); right := ep_resume epoch (right s) |}.
Proof.
  assert (H : forall s r, sync s r -> (w_epoch (ep_wire r) < epoch)%nat ->
    sync (ep_resume epoch s) (ep_resume epoch r)).
  { intros s0 r Hs He. pose proof (sync_position _ _ Hs) as Hpos. destruct Hs as [Ha Hacks Ht Hst Hq].
    split; try done.
    - intros tr f Htr. apply Ht in Htr. cbn. lia.
    - right. split; [|done]. split; [done|]. intros _ tr f Htr. apply Ht in Htr. cbn. lia. }
  intros Hok [H1 H2] He. split; apply H; try done. by rewrite <- (link_epoch _ _ _ _ _ Hok).
Qed.

(** *** The timer *)

Lemma sync_timer s : link_ok s -> sync_ok s ->
  sync_ok {| left := ep_timer p (left s); right := right s |}.
Proof.
  intros [[Hs1 Hr1 _] [Hs2 Hr2 _] Hup Hep] [H1 H2]. unfold ep_timer, ack_timer_fires.
  destruct (ack_timer (ep_buffer (left s))) as [[tr f|]|] eqn:Htm; [|by destruct s as [[] ?]; split..].
  destruct (control _ (latest_bound _ _ _ _ _ _ Hs2 Hr2)) as [_ Hack].
  destruct (reconnect_in_progress (ep_buffer (left s))).
  { split; cbn; [by apply (sync_sender _ _ _ H1); [|apply H1]|].
    apply (sync_receiver _ _ _ H2); try done; [by apply H2|]. intros [? ?]. by split. }
  destruct (send_control p supported arrives proto tr f _ (ep_wire (left s)) Hack)
    as [->|(payload & Hpay & Hwup & Htr & ->)].
  { split; cbn; [by apply (sync_sender _ _ _ H1); [|apply H1]|].
    apply (sync_receiver _ _ _ H2); try done; [by apply H2|]. intros [? ?]. by split. }
  split; cbn.
  - apply (sync_sender _ _ _ H1); [done|]. intros Hw. apply Forall_app. split; [by apply H1|].
    constructor; [|done]. intros q Hq. by destruct (not_sequence _ _ q Hpay ltac:(done) Hq).
  - apply (sync_receiver _ _ _ H2); try done; cbn.
    + apply Forall_app. split; [apply H2|]. constructor; [|done]. intros a Ha.
      apply (written_control _ _ _ Hpay) in Ha; [|done]. by injection Ha as ->.
    + intros [_ Hq]. exfalso. by eapply (Hq Hwup tr f).
Qed.

(** *** Sending *)

Lemma send_acked m b : acked (send_locked p size m b).2 = acked b.
Proof.
  unfold send_locked, acked. destruct (write_message p m); [|done].
  destruct (is_invocation_message m); [|done]. cbn. rewrite len_app. unfold len. cbn. lia.
Qed.

Lemma send_locked_receiving m b :
  next_receiving_sequence_id (send_locked p size m b).2 = next_receiving_sequence_id b /\
  latest_received_sequence_id (send_locked p size m b).2 = latest_received_sequence_id b /\
  wait_for_sequence_message (send_locked p size m b).2 = wait_for_sequence_message b /\
  ack_timer (send_locked p size m b).2 = ack_timer b.
Proof.
  unfold send_locked. destruct (write_message p m); [|done]. by destruct (is_invocation_message m).
Qed.

Lemma wire_down s r : channel_ok p supported s r -> w_up (ep_wire s) = false -> w_out (ep_wire s) = [].
Proof. intros (cm & Hcm & H) Hup. rewrite Hup in H. subst. by inversion Hcm. Qed.

(** The receiver's wire takes a message that is not an acknowledgement. *)
Lemma quiet_snoc r r' m payload : quiet r -> written m payload -> message_type m <> TAck ->
  w_up (ep_wire r') = w_up (ep_wire r) -> w_epoch (ep_wire r') = w_epoch (ep_wire r) ->
  w_out (ep_wire r') = w_out (ep_wire r) ++ [payload] ->
  ack_timer (ep_buffer r') = ack_timer (ep_buffer r) -> quiet r'.
Proof.
  intros [Hq Ht] Hm Hty Hu He Ho Htm. split.
  - rewrite Ho. apply Forall_app. split; [done|]. constructor; [|done].
    intros a. by apply (not_ack m).
  - by rewrite Hu, He, Htm.
Qed.

Lemma acks_snoc s r m payload : sync s r -> written m payload -> message_type m <> TAck ->
  Forall (fun payload => forall a, written (HAck a) payload ->
    ack_sequence_id a <= latest_received_sequence_id (ep_buffer r)) (w_out (ep_wire r) ++ [payload]).
Proof.
  intros Hs Hm Hty. apply Forall_app. split; [apply Hs|]. constructor; [|done].
  intros a Ha. by destruct (not_ack m payload a Hm Hty Ha).
Qed.

Lemma sync_send s m : link_ok s -> sync_ok s -> sendable supported (left s) m ->
  sync_ok {| left := ep_send p size m (left s); right := right s |}.
Proof.
  intros [[Hs1 Hr1 Hc1] [Hs2 Hr2 Hc2] Hup Hep] [H1 H2] (Hm & Hctl & Hbound).
  destruct (supported_written _ _ _ proto m Hm) as [payload Hw].
  destruct (send_locked_fields _ _ _ m payload (left s) Hs1 Hw Hbound)
    as (bp & b & Hlock & Hrec & _). unfold ep_send, send. rewrite Hlock.
  pose proof (send_acked m (ep_buffer (left s))) as Hack.
  pose proof (send_locked_receiving m (ep_buffer (left s))) as (Hn & Hl & Hwt & Htm).
  rewrite Hlock in Hack, Hn, Hl, Hwt, Htm. cbn in Hack, Hn, Hl, Hwt, Htm.
  assert (Hta : message_type m <> TAck) by (by destruct m).
  assert (Hts : message_type m <> TSequence) by (by destruct m).
  unfold send_unlocked. rewrite (send_payload_wire _ _ _ proto m) by done. unfold wire_send.
  rewrite bool_decide_eq_true_2, andb_true_r by done.
  destruct (reconnect_in_progress (ep_buffer (left s))); cbn [negb];
    [|destruct (w_up (ep_wire (left s))) eqn:Hwu]; split; cbn.
  - by apply (sync_sender _ _ _ H1); [|apply H1].
  - apply (sync_receiver _ _ _ H2); cbn; try done; [by apply H2|by rewrite Htm|].
    intros [? ?]. split; cbn; [done|by rewrite Htm].
  - apply (sync_sender _ _ _ H1); [done|]. intros Hwait. apply Forall_app. split; [by apply H1|].
    constructor; [|done]. intros q Hq. by destruct (not_sequence _ _ q Hw Hts Hq).
  - apply (sync_receiver _ _ _ H2); cbn; try done; [by eapply acks_snoc|by rewrite Htm|].
    intros Hq. by apply (quiet_snoc _ _ m payload Hq).
  - by apply (sync_sender _ _ _ H1); [|apply H1].
  - pose proof (wire_down _ _ Hc1 Hwu) as Ho1. 
    pose proof (wire_down _ _ Hc2 (eq_sym Hup)) as Ho2.
    pose proof (sync_position _ _ H2) as Hpos. destruct H2 as [Ha Hacks Ht Hst Hq].
    split; cbn; rewrite ?Hl, ?Hn, ?Htm; try done.
    + right. split; [|done]. split; cbn; [by rewrite Ho1|by rewrite Hwu].
    + by rewrite Ho2.
Qed.

(** *** Resending *)

Lemma sync_resend s : link_ok s -> sync_ok s -> reconnect_in_progress (ep_buffer (left s)) = true ->
  w_up (ep_wire (left s)) = true -> sync_ok {| left := ep_resend p (left s); right := right s |}.
Proof.
  intros [[Hs1 Hr1 Hc1] [Hs2 Hr2 Hc2] Hup Hep] [H1 H2] Hrec Hwu.
  destruct Hc1 as (cm & Hcm & H). rewrite Hwu, Hrec in H. destruct H as [-> Hwait].
  assert (Hout : w_out (ep_wire (left s)) = []) by (by inversion Hcm). clear Hcm.
  pose proof (first_id _ _ _ _ Hs1) as Hid.
  pose proof (ok_total _ _ (snd_buffer _ _ _ _ Hs1)) as Hle. rewrite (snd_total _ _ _ _ Hs1) in Hle.
  pose proof (snd_bound _ _ _ _ Hs1) as Hb. rewrite (snd_total _ _ _ _ Hs1) in Hb. unfold len in Hle, Hb.
  assert (Hacked : acked (ep_buffer (left s)) =
    Z.of_nat (length (ep_sent (left s)) - length (messages (ep_buffer (left s))))).
  { unfold acked. rewrite (snd_total _ _ _ _ Hs1). unfold len. lia. }
  unfold ep_resend, resend. rewrite Hid, <- Hacked.
  destruct (control (acked (ep_buffer (left s)) + 1) ltac:(lia)) as [Hseq _].
  destruct (supported_written _ _ _ proto _ Hseq) as [payload Hw].
  unfold send_hub_message. rewrite (proj2 Hw).
  rewrite (send_payload_wire _ _ _ proto _ _ _ _ Hw). unfold wire_send.
  rewrite Hwu, bool_decide_eq_true_2 by done. cbn [andb].
  rewrite (resend_items_wire _ _ _ proto _ _ _ _ (snd_items _ _ _ _ Hs1)).
  rewrite Hout. cbn [app].
  assert (Hitems : Forall (fun b => exists m, written m b /\ is_invocation_message m = true)
    (map bi_message (messages (ep_buffer (left s))))).
  { pose proof (snd_items _ _ _ _ Hs1) as Hi. pose proof (snd_log _ _ _ _ Hs1) as Hlog.
    apply (Forall_drop _ (length (ep_sent (left s)) - length (messages (ep_buffer (left s))))) in Hlog.
    revert Hi Hlog. generalize (drop (length (ep_sent (left s)) -
      length (messages (ep_buffer (left s)))) (ep_sent (left s))) as l1.
    generalize (messages (ep_buffer (left s))) as l2. clear. intros l2 l1 Hi.
    induction Hi; intros Hlog; [by constructor|]. apply Forall_cons in Hlog as [? ?].
    constructor; eauto. }
  split; cbn.
  - apply (sync_sender _ _ _ H1); [done|]. intros _. constructor.
    + intros q Hq. apply (written_control _ _ _ Hw) in Hq; [|done]. by injection Hq as ->.
    + eapply Forall_impl; [exact Hitems|]. cbn. intros b (m & Hm & Hi) q Hq.
      destruct (not_sequence _ _ q Hm ltac:(by destruct m) Hq).
  - assert (Hna : Forall (fun payload => forall a, ~ written (HAck a) payload)
      (payload :: map bi_message (messages (ep_buffer (left s))))).
    { constructor; [intros a; by apply (not_ack _ _ a Hw)|].
      eapply Forall_impl; [exact Hitems|]. cbn. intros b (m & Hm & Hi) a.
      apply (not_ack _ _ a Hm). by destruct m. }
    apply (sync_receiver _ _ _ H2); try done; cbn.
    + eapply Forall_impl; [exact Hna|]. cbn. intros b Hb' a Ha. by destruct (Hb' a).
    + intros [_ Hq]. by split; cbn; [|rewrite Hwu in Hq].
Qed.

(** *** Receiving *)

Lemma acked_ack a b : buffer_ok size b ->
  acked (ack size a b).1 <= Z.max (acked b) (ack_sequence_id a).
Proof.
  intros Hok. destruct (ack_split size a b Hok) as (ad & f & r & Hl & Ha & _ & _ & _ & ->).
  pose proof (ok_ids _ _ Hok) as Hids. unfold acked. cbn. rewrite Hl in *. rewrite !len_app in *.
  assert (Hf : len (map released f) = len f) by (unfold len; by rewrite length_map). rewrite Hf.
  apply consecutive_app in Hids as [Hids _].
  destruct (exists_last_or_nil ad) as [->|(ad' & i & ->)]; [rewrite len_nil in *; lia|].
  apply consecutive_app in Hids as [_ [Hi _]]. apply Forall_app in Ha as [_ [Hid _]%Forall_cons].
  rewrite len_app, len_cons, len_nil in *. lia.
Qed.

(** A dispatched message changes the number of acknowledged messages only if it is an [Ack]. *)
Lemma dispatch_acked e m : (forall a, m <> HAck a) ->
  acked (ep_buffer (ep_dispatch p size e m)) = acked (ep_buffer e).
Proof.
  intros Hm. unfold ep_dispatch, should_process_message, schedule_ack_timer, reset_sequence.
  destruct m; try (by destruct (Hm m)); repeat case_match; simplify_eq/=; done.
Qed.

Lemma dispatch_ack e a : buffer_ok size (ep_buffer e) ->
  acked (ep_buffer (ep_dispatch p size e (HAck a))) <=
    Z.max (acked (ep_buffer e)) (ack_sequence_id a).
Proof.
  intros Hok. unfold ep_dispatch, should_process_message.
  destruct (wait_for_sequence_message (ep_buffer e)); cbn; [lia|]. by apply acked_ack.
Qed.

Lemma schedule_timer tr f b tr' f' : ack_timer (schedule_ack_timer tr f b) = Some (Sleeping tr' f') ->
  tr' = tr \/ ack_timer b = Some (Sleeping tr' f').
Proof. unfold schedule_ack_timer. destruct (ack_scheduled b); cbn; [by right|]. intros [= -> _]. by left. Qed.

(** A receiver that has caught up may schedule an acknowledgement. *)
Lemma sync_caught_up s r b f w sent l l' :
  sync s {| ep_buffer := b; ep_wire := w; ep_sent := sent; ep_processed := l' |} ->
  wait_for_sequence_message b = false ->
  next_receiving_sequence_id b = latest_received_sequence_id b + 1 ->
  sync s {| ep_buffer := schedule_ack_timer (w_epoch w) f b; ep_wire := w; ep_sent := r;
            ep_processed := l |}.
Proof.
  intros [Ha Hacks Ht Hst Hq] Hwait Hn. cbn in *.
  assert (Hw : wait_for_sequence_message (schedule_ack_timer (w_epoch w) f b) = false /\
    next_receiving_sequence_id (schedule_ack_timer (w_epoch w) f b) = next_receiving_sequence_id b)
    by (unfold schedule_ack_timer; by destruct (ack_scheduled b)).
  destruct Hw as [Hw1 Hw2]. split; cbn; rewrite ?schedule_latest, ?Hw1, ?Hw2; try done.
  - intros tr' f' [->|H]%schedule_timer; [done|by eapply Ht].
  - by left.
Qed.

(** The sender half of the receiving endpoint, against the peer that sent the payload. *)
Lemma sync_receive_sender r e m m' payload rest :
  sync r e -> buffer_ok size (ep_buffer r) -> written m payload -> faithful m m' ->
  w_out (ep_wire e) = payload :: rest ->
  ep_wire (ep_dispatch p size r m') = ep_wire r ->
  sync (ep_dispatch p size r m') (ep_taken rest e).
Proof.
  intros Hs Hok Hw [Ht Hf] Hout Hwire.
  assert (Htaken : sync r (ep_taken rest e)).
  { pose proof (sy_acks _ _ Hs) as Ha. rewrite Hout in Ha. apply Forall_cons in Ha as [_ Ha].
    apply (sync_receiver _ _ _ Hs); try done. intros [Hq Hq']. rewrite Hout in Hq.
    apply Forall_cons in Hq as [_ Hq]. by split. }
  destruct (decide (message_type m' = TAck)) as [Hack|Hack].
  - destruct m' as [| | | | | | |a|]; try done. destruct m; cbn in Ht; try done. injection Hf as <-.
    pose proof (sy_acks _ _ Hs) as Ha. rewrite Hout in Ha. apply Forall_cons in Ha as [Ha _].
    specialize (Ha a Hw). pose proof (dispatch_ack r a Hok) as Hmax.
    assert (Hnq : ~ quiet e). { intros [Hq _]. rewrite Hout in Hq. apply Forall_cons in Hq as [Hq _]. by apply (Hq a). }
    destruct (sy_state _ _ Hs) as [[Hwait Hn]|[Hq _]]; [|done].
    destruct Htaken as [Ha' Hacks' Ht' Hst' Hq']. cbn in *. split; cbn; try done.
    + cbn in Ha'. lia.
    + left. done.
    + by rewrite Hwait.
  - apply (sync_sender _ _ _ Htaken).
    + apply dispatch_acked. intros a ->. done.
    + intros Hwait. rewrite Hwire. by apply (sy_sequence _ _ Htaken).
Qed.

(** The receiver half. *)
Lemma sync_receive_receiver e r m m' payload rest sent cm last :
  sync e r -> buffer_ok size (ep_buffer r) -> written m payload -> faithful m m' ->
  stream sent (position (ep_buffer r)) (m :: cm) last -> w_out (ep_wire e) = payload :: rest ->
  sync (ep_taken rest e) (ep_dispatch p size r m').
Proof.
  intros Hs Hok Hw Hf Hst Hout. pose proof (faithful_invocation _ _ Hf) as Hi. destruct Hf as [Ht Hctl].
  pose proof (sync_position _ _ Hs) as Hpos. pose proof (ok_receiving _ _ Hok) as Hle.
  assert (Hs' : sync (ep_taken rest e) r).
  { apply (sync_sender _ _ _ Hs); [done|]. intros Hwait. pose proof (sy_sequence _ _ Hs Hwait) as Hq.
    rewrite Hout in Hq. by apply Forall_cons in Hq as [_ Hq]. }
  unfold ep_dispatch, should_process_message. unfold position in Hst.
  destruct (wait_for_sequence_message (ep_buffer r)) eqn:Hwait.
  - pose proof (sy_sequence _ _ Hs Hwait) as Hq. rewrite Hout in Hq. apply Forall_cons in Hq as [Hq _].
    destruct (sy_state _ _ Hs') as [[? _]|[Hquiet _]]; [congruence|].
    destruct m'; cbn; try (apply (sync_receiver _ _ _ Hs'); cbn; by try apply Hs').
    destruct m; cbn in Ht; try done. injection Hctl as <-. specialize (Hq m0 Hw).
    unfold reset_sequence. replace (_ <? _) with false by lia.
    destruct Hs' as [Ha Hacks Htm Hst' Hq']. split; cbn; try done.
    right. split; [by destruct Hquiet|]. cbn in Hq. lia.
  - cbn [stream] in Hst. rewrite Hi. destruct (is_invocation_message m) eqn:Hm; cbn [negb].
    + assert (Hinv : forall b, (match m' with HAck a => (ack size a b).1
        | HSequence a => (reset_sequence a b).2 | _ => b end) = b) by (by destruct m').
      destruct (_ <=? _) eqn:E; bool_to_prop.
      * destruct (sy_state _ _ Hs') as [[_ ?]|[Hquiet _]]; [lia|]. cbn [andb].
        destruct (_ =? _) eqn:Eq; bool_to_prop.
        -- destruct Hs' as [Ha Hacks Htm _ Hq]. eapply (sync_caught_up _ _ _ _ _ [] _ []); cbn; [|done|lia].
           split; cbn; try done. left. split; [done|lia].
        -- destruct Hs' as [Ha Hacks Htm _ Hq]. split; cbn; try done. right. split; [done|]. cbn in *. lia.
      * rewrite Hinv. cbn [andb]. destruct Hs' as [Ha Hacks Htm _ Hq]. cbn in Ha.
        eapply (sync_caught_up _ _ _ _ _ [] _ []); cbn; [|done|lia].
        split; cbn; try done; [lia| |by left].
        eapply Forall_impl; [exact Hacks|]. cbn. intros b Hb a Hab. specialize (Hb a Hab). lia.
    + destruct Hst as [Hns _].
      destruct m; cbn in Ht; destruct m'; try done; cbn;
        try (by apply (sync_receiver _ _ _ Hs'); cbn; try apply Hs').
      destruct (ack_frame size m0 (ep_buffer r)) as (l & n & ->).
      by apply (sync_receiver _ _ _ Hs'); cbn; try apply Hs'.
Qed.

Lemma sync_receive s payload rest : link_ok s -> sync_ok s ->
  w_out (ep_wire (left s)) = payload :: rest ->
  sync_ok {| left := ep_taken rest (left s); right := ep_receive p size payload (right s) |}.
Proof.
  intros [[Hs1 Hr1 Hc1] [Hs2 Hr2 Hc2] Hup Hep] [H1 H2] Hout.
  destruct Hc1 as (cm & Hcm & H). rewrite Hout in Hcm.
  apply Forall2_cons_inv_r in Hcm as (m & cm' & Hw & Hcm & ->).
  destruct (w_up (ep_wire (left s))); [|done].
  destruct (reconnect_in_progress (ep_buffer (left s))); [by destruct H|].
  destruct (receive_written _ size _ _ proto one m payload (right s) Hw) as (m' & Hf & Ha & ->).
  destruct (dispatch_sender _ _ supported (right s) m' Hs2) as (_ & _ & _ & Hwire).
  split; cbn [left right].
  - by eapply sync_receive_receiver; [|apply Hs2|..].
  - eapply sync_receive_sender; [done|apply Hs2|done..].
Qed.

(** ** All steps *)

Lemma link_step_ok s s' : link_step p size supported s s' ->
  link_ok s /\ sync_ok s -> link_ok s' /\ sync_ok s'.
Proof.
  induction 1 as [s m Hm|s payload rest Hout|s|s|s epoch He _ _|s Hrec Hup|s s' _ IH]; intros [Hok Hsy].
  - split; [by apply send_step_ok|by apply sync_send].
  - split; [|by apply sync_receive]. apply receive_step_ok; try done. intros q Hq Hwait.
    destruct Hsy as [H1 _]. pose proof (sy_sequence _ _ H1 Hwait) as Hs. rewrite Hout in Hs.
    apply Forall_cons in Hs as [Hs _]. rewrite (Hs q Hq). by apply sync_position.
  - split; [by apply timer_step_ok|by apply sync_timer].
  - split; [by apply drop_ok|by apply sync_drop].
  - split; [by apply resume_ok|by apply sync_resume].
  - split; [by apply resend_step_ok|by apply sync_resend].
  - assert (Hsw : link_ok s /\ sync_ok s).
    { destruct s as [l r]. apply swap_ok in Hok. destruct Hsy. by split; [|split]. }
    destruct (IH Hsw) as [Hok' [H1 H2]]. split; [by apply swap_ok|by split].
Qed.

Lemma link_reachable_ok s : rtc (link_step p size supported) link_new s -> link_ok s /\ sync_ok s.
Proof.
  intros Hs. assert (forall s0, rtc (link_step p size supported) s0 s ->
    link_ok s0 /\ sync_ok s0 -> link_ok s /\ sync_ok s) as H.
  { clear Hs. induction 1; [done|]. intros Hok. eauto using link_step_ok. }
  apply (H _ Hs). split; [apply link_new_ok|].
  assert (sync endpoint_new endpoint_new); [|by split]. split; cbn; try done. by left.
Qed.

(** C1: at most once, in order, when each endpoint sends one message at a time and everything through
    its buffer (overlapping sends and the completions of dispatch can break it, see [Races]): after
    any sequence of such sends, deliveries, drops, resumes and acknowledgements, what an endpoint
    has processed is a prefix of what its peer sent, each message once and in the order it was
    sent; in both directions at once. *)
Theorem resume_exactly_once (s : link) :
  rtc (link_step p size supported) link_new s ->
  Forall2 (fun m m' => arrives m [m'])
    (take (length (ep_processed (right s))) (ep_sent (left s))) (ep_processed (right s)) /\
  Forall2 (fun m m' => arrives m [m'])
    (take (length (ep_processed (left s))) (ep_sent (right s))) (ep_processed (left s)).
Proof.
  intros Hs. destruct (link_reachable_ok s Hs) as [[[_ Hr1 _] [_ Hr2 _] _ _] _].
  split; by eapply rcv_prefix.
Qed.

(** C2: nothing is lost, under the same conditions: when messages are sent one at a time and through
    the buffer, then whenever the link is up, the sender has resent what was not acknowledged and
    nothing is in flight, every message sent so far, over however many transports, has been
    processed. *)
Theorem resume_delivers_all (s : link) :
  rtc (link_step p size supported) link_new s ->
  w_up (ep_wire (left s)) = true -> w_out (ep_wire (left s)) = [] ->
  reconnect_in_progress (ep_buffer (left s)) = false ->
  Forall2 (fun m m' => arrives m [m']) (ep_sent (left s)) (ep_processed (right s)).
Proof.
  intros Hs Hup Hout Hrec.
  destruct (link_reachable_ok s Hs) as [[[Hs1 Hr1 Hc1] [Hs2 _ _] _ _] _].
  destruct Hc1 as (cm & Hcm & H). rewrite Hout in Hcm. inversion Hcm; subst.
  rewrite Hup, Hrec in H. unfold position in H. cbn in H.
  destruct (wait_for_sequence_message (ep_buffer (right s))); [done|].
  pose proof (ok_receiving _ _ (snd_buffer _ _ _ _ Hs2)) as Hle. rewrite (rcv_latest _ _ _ Hr1) in Hle.
  pose proof (rcv_prefix _ _ _ Hr1) as Hp. rewrite take_ge in Hp; [done|]. unfold len in *. lia.
Qed.

(** The sequence message of a resumed transport is never refused: whenever one arrives at
    an endpoint that waits for it, [reset_sequence] accepts it. *)
Theorem resume_sequence_accepted (s : link) (q : SequenceMessage) (payload : list u8)
    (rest : list (list u8)) :
  rtc (link_step p size supported) link_new s ->
  w_out (ep_wire (left s)) = payload :: rest -> written (HSequence q) payload ->
  wait_for_sequence_message (ep_buffer (right s)) = true ->
  (reset_sequence q (ep_buffer (right s))).1 = Ok tt.
Proof.
  intros Hs Hout Hq Hwait. destruct (link_reachable_ok s Hs) as [_ [H1 _]].
  pose proof (sy_sequence _ _ H1 Hwait) as Hseq. rewrite Hout in Hseq.
  apply Forall_cons in Hseq as [Hseq _]. specialize (Hseq q Hq).
  pose proof (sync_position _ _ H1). unfold reset_sequence. by replace (_ <? _) with false by lia.
Qed.

End resume.
