(* ===== verification/Races.v ===== *)
(** * Executions outside the assumptions of [Resume]

    [Resume] lets every invocation message go through [send], one call at a time.  Three things the
    client does fall outside: calls of [send] overlap, because the buffer lock is released before
    the payload is written; the dispatcher answers invocations without the buffer; and the
    acknowledgement timer keeps the transport it was scheduled with.  Each is run here, for every
    protocol that [Resume] is about and any messages it carries. *)

From Stdlib Require Import ZArith String.
From stdpp Require Import base list strings gmap.
From S2P Require Import Prelude Framing Utf8 Errors Values Arguments Message JsonProtocol.
From S2P Require Import MessageBuffer Link.

Local Open Scope Z_scope.

Definition call (target : string) : HubMessage :=
  HInvocation {| inv_headers := ∅; inv_invocation_id := None; inv_target := target;
                 inv_arguments := AJson []; inv_stream_ids := None |}.

Definition answer (id : string) : HubMessage :=
  HCompletion {| comp_headers := ∅; comp_invocation_id := id; comp_error := None;
                 comp_result := None |}.

Section runs.
Context (p : HubProtocol) (size : Z).

Definition with_buffer (b : MessageBuffer) (w : wire) (sent : list HubMessage) (e : endpoint)
    : endpoint :=
  {| ep_buffer := b; ep_wire := w; ep_sent := sent; ep_processed := ep_processed e |}.

(** Two overlapping calls of [send]: both pass the lock, then the second one writes first. *)
Definition overlapping_sends (m1 m2 : HubMessage) (e : endpoint) : endpoint :=
  match send_locked p size m1 (ep_buffer e) with
  | (Ok (s1, now1, bp1), b1) =>
      match send_locked p size m2 b1 with
      | (Ok (s2, now2, bp2), b2) =>
          let '(_, b3, w1) :=
            send_unlocked s2 now2 bp2 (w_epoch (ep_wire e)) (transfer_format p) b2 (ep_wire e) in
          let '(_, b4, w2) := send_unlocked s1 now1 bp1 (w_epoch (ep_wire e)) (transfer_format p) b3 w1 in
          with_buffer b4 w2 (ep_sent e ++ [m1; m2]) e
      | _ => e
      end
  | _ => e
  end.

(** [DispatchContext::send_completion]: the completion goes to the transport directly. *)
Definition answer_unbuffered (id : string) (e : endpoint) : endpoint :=
  let '(_, w) := send_hub_message p (w_epoch (ep_wire e)) (transfer_format p) (answer id) (ep_wire e) in
  with_buffer (ep_buffer e) w (ep_sent e) e.

(** The oldest payload from one endpoint to the other. *)
Definition deliver (s : link) : link :=
  match w_out (ep_wire (left s)) with
  | payload :: rest => {| left := ep_taken rest (left s);
                          right := ep_receive p size payload (right s) |}
  | [] => s
  end.

Definition deliver_back (s : link) : link := swap (deliver (swap s)).
Definition on_left (f : endpoint -> endpoint) (s : link) : link :=
  {| left := f (left s); right := right s |}.
Definition on_right (f : endpoint -> endpoint) (s : link) : link :=
  {| left := left s; right := f (right s) |}.
Definition drop_and_resume (epoch : transport) (s : link) : link :=
  {| left := ep_resend p (ep_resume epoch (ep_drop (left s)));
     right := ep_resend p (ep_resume epoch (ep_drop (right s))) |}.

(** The link has nothing left to do. *)
Definition drained (s : link) : bool :=
  bool_decide (w_out (ep_wire (left s)) = []) && bool_decide (w_out (ep_wire (right s)) = []) &&
  negb (reconnect_in_progress (ep_buffer (left s))) &&
  negb (wait_for_sequence_message (ep_buffer (right s))).

(** Two messages are sent by overlapping calls, the second one arrives and is acknowledged as the
    first, and the transport drops before the other arrives. *)
Definition overlap_run (m1 m2 : HubMessage) : link :=
  deliver (deliver (deliver_back (drop_and_resume 1 (deliver_back (on_right (ep_timer p)
    (deliver (on_left (overlapping_sends m1 m2) link_new))))))).

(** The left endpoint answers an invocation outside the buffer, then sends a message, is
    acknowledged, and sends another one just before the transport drops. *)
Definition unbuffered_run (id : string) (m1 m2 : HubMessage) : link :=
  deliver (deliver (deliver_back (drop_and_resume 1 (on_left (ep_send p size m2)
    (deliver_back (on_right (ep_timer p) (deliver (deliver
      (on_left (ep_send p size m1) (on_left (answer_unbuffered id) link_new)))))))))).

(** A message is received, the transport drops before the acknowledgement is due, and the link
    resumes; the timer then writes to the old transport. *)
Definition stale_ack_run (m : HubMessage) : link :=
  on_right (ep_timer p) (deliver (deliver (deliver_back (drop_and_resume 1
    (deliver (on_left (ep_send p size m) link_new)))))).

(** ** Symbolic runs: the messages are any that the protocol carries *)

Context (supported : HubMessage -> Prop) (arrives : HubMessage -> list HubMessage -> Prop).
Context (proto : protocol_ok p supported arrives).
Context (one : forall m ms, supported m -> arrives m ms -> exists m', ms = [m'] /\ faithful m m').
Context (control : forall n, 0 <= n <= i64_max ->
  supported (HSequence {| seq_sequence_id := n |}) /\ supported (HAck {| ack_sequence_id := n |})).

(** A message on the wire: its bytes, and what the other side reads. *)
Record carried (m : HubMessage) (b : list u8) (m' : HubMessage) : Prop := {
  ca_written : write_message p m = Ok b;
  ca_read : forall e, ep_receive p size b e = ep_dispatch p size e m';
  ca_sent : forall tr out, send_payload tr (transfer_format p) b {| w_epoch := tr; w_up := true; w_out := out |} =
    (Ok tt, {| w_epoch := tr; w_up := true; w_out := out ++ [b] |});
  ca_lost : forall tr epoch out, tr <> epoch ->
    (send_payload tr (transfer_format p) b {| w_epoch := epoch; w_up := true; w_out := out |}).2 =
      {| w_epoch := epoch; w_up := true; w_out := out |};
  ca_arrives : arrives m [m'];
  ca_faithful : faithful m m'
}.

Lemma carried_supported m : supported m -> exists b m', carried m b m'.
Proof.
  intros Hm. destruct (written_parses _ _ _ proto m Hm) as (b & ms & Hb & Hp & Ha).
  destruct (one m ms Hm Ha) as (m' & -> & Hf). exists b, m'. split; [done| | | |done|done].
  - intros e. unfold ep_receive. by rewrite Hp.
  - intros tr out. rewrite (send_payload_wire p supported arrives proto m b) by done.
    unfold wire_send. cbn. by rewrite bool_decide_eq_true_2.
  - intros tr epoch out Hne. rewrite (send_payload_wire p supported arrives proto m b) by done.
    unfold wire_send. cbn. by rewrite bool_decide_eq_false_2.
Qed.

Lemma carried_control n : 0 <= n <= i64_max ->
  (exists b, carried (HSequence {| seq_sequence_id := n |}) b (HSequence {| seq_sequence_id := n |})) /\
  (exists b, carried (HAck {| ack_sequence_id := n |}) b (HAck {| ack_sequence_id := n |})).
Proof.
  intros Hn. destruct (control n Hn) as [Hs Ha].
  destruct (carried_supported _ Hs) as (b & m & Hb), (carried_supported _ Ha) as (b' & m' & Hb').
  split; [exists b|exists b'].
  - destruct (ca_faithful _ _ _ Hb) as [_ ->]. done.
  - destruct (ca_faithful _ _ _ Hb') as [_ ->]. done.
Qed.

(** An invocation message is handed on when the buffer says so. *)
Lemma dispatch_call e m : is_invocation_message m = true ->
  ep_dispatch p size e m =
    let '(process, b) := should_process_message m (w_epoch (ep_wire e)) (transfer_format p) (ep_buffer e) in
    {| ep_buffer := b; ep_wire := ep_wire e; ep_sent := ep_sent e;
       ep_processed := if process then ep_processed e ++ [m] else ep_processed e |}.
Proof.
  intros Hm. unfold ep_dispatch. destruct (should_process_message _ _ _ _) as [[] b]; cbn [andb].
  - rewrite Hm. by destruct m.
  - done.
Qed.

(** The acknowledgement of the first of two items. *)
Lemma ack_first b1 b2 x y n total wait next latest rec timer scheduled : exists y' n',
  (ack size {| ack_sequence_id := 1 |}
    {| messages := [{| bi_message := b1; bi_id := 1; bi_backpressure := x |};
                    {| bi_message := b2; bi_id := 2; bi_backpressure := y |}];
       total_message_count := total; wait_for_sequence_message := wait; next_receiving_sequence_id := next;
       latest_received_sequence_id := latest; buffered_byte_count := n; reconnect_in_progress := rec;
       ack_timer := timer; ack_scheduled := scheduled |}).1 =
    {| messages := [{| bi_message := b2; bi_id := 2; bi_backpressure := y' |}];
       total_message_count := total; wait_for_sequence_message := wait; next_receiving_sequence_id := next;
       latest_received_sequence_id := latest; buffered_byte_count := n'; reconnect_in_progress := rec;
       ack_timer := timer; ack_scheduled := scheduled |}.
Proof.
  unfold ack. cbn -[len Z.leb saturating_sub Z.ltb filter]. change (1 <=? 1) with true. change (2 <=? 1) with false.
  cbn iota. destruct (_ <? size); eexists _, _; reflexivity.
Qed.

(** The acknowledgement of an only item. *)
Lemma ack_only b x n total wait next latest rec timer scheduled : exists n',
  (ack size {| ack_sequence_id := 2 |}
    {| messages := [{| bi_message := b; bi_id := 1; bi_backpressure := x |}];
       total_message_count := total; wait_for_sequence_message := wait; next_receiving_sequence_id := next;
       latest_received_sequence_id := latest; buffered_byte_count := n; reconnect_in_progress := rec;
       ack_timer := timer; ack_scheduled := scheduled |}).1 =
    {| messages := [];
       total_message_count := total; wait_for_sequence_message := wait; next_receiving_sequence_id := next;
       latest_received_sequence_id := latest; buffered_byte_count := n'; reconnect_in_progress := rec;
       ack_timer := timer; ack_scheduled := scheduled |}.
Proof. eexists. reflexivity. Qed.

(** Runs are computed step by step: the messages are written, sent and read as [carried] says, and
    closed numbers are computed. *)
Ltac literal z := match z with Z0 => idtac | Zpos _ => idtac | Zneg _ => idtac | true => idtac | false => idtac end.
Ltac compute_closed t := let v := eval vm_compute in t in literal v; change t with v.
Ltac carry :=
  repeat match goal with
  | H : carried _ ?b _ |- context [ep_receive p size ?b _] => rewrite (ca_read _ _ _ H)
  | H : carried ?m _ _ |- context [write_message p ?m] => rewrite (ca_written _ _ _ H)
  | H : carried _ ?b _ |- context [send_payload _ _ ?b _] => rewrite (ca_sent _ _ _ H)
  | H : carried _ ?b _ |- context [send_payload _ _ ?b _] => rewrite (ca_lost _ _ _ H) by discriminate
  | H : is_invocation_message ?m = true |- context [ep_dispatch p size _ ?m] => rewrite (dispatch_call _ _ H)
  | H : is_invocation_message ?m = true |- context [is_invocation_message ?m] => rewrite H
  | H : (ack size ?a ?b).1 = _ |- context [ack size ?a ?b] => rewrite H
  | |- context [is_invocation_message ?m] => compute_closed (is_invocation_message m)
  | |- context [?a + ?b] => compute_closed (a + b)
  | |- context [?a <=? ?b] => compute_closed (a <=? b)
  | |- context [?a <? ?b] => compute_closed (a <? b)
  | |- context [?a =? ?b] => compute_closed (a =? b)
  | _ => progress cbn -[len Z.add Z.leb Z.ltb Z.eqb ep_receive send_payload write_message
           is_invocation_message ack transfer_format]
  | _ => progress unfold ep_dispatch, send_hub_message, should_process_message, ep_timer, ep_resend, resend,
           ack_timer_fires, send_locked, send_unlocked, MessageBuffer.send, overlapping_sends, answer_unbuffered, with_buffer, drop_and_resume,
           deliver_back, deliver, swap, on_left, on_right, schedule_ack_timer, set_messages, set_total, set_receiving,
           set_reconnect, set_ack, reset_sequence, disconnected, ep_taken, ep_drop, ep_resume, ep_send
  end.

(** The next step of a run, on an explicit link. *)
Ltac stage :=
  match goal with
  | |- context [?f (Build_link ?l ?r)] =>
      match type of f with
      | link -> link => let E := fresh in
          eassert (E : f (Build_link l r) = _) by (carry; reflexivity); rewrite E; clear E
      end
  end.

Lemma carried_invocation m b m' : carried m b m' -> is_invocation_message m = true -> is_invocation_message m' = true.
Proof. intros H Hm. rewrite (faithful_invocation m m'); [done|exact (ca_faithful _ _ _ H)]. Qed.

(** C39: overlapping calls of [send] can lose a message and deliver another one twice: of any two
    messages that are sent by two overlapping calls over a link with one reconnect, the second is
    processed twice and the first never, although the link has nothing left to do. *)
Theorem overlapping_sends_lose_and_duplicate (m1 m2 : HubMessage) :
  supported m1 -> supported m2 -> is_invocation_message m1 = true -> is_invocation_message m2 = true ->
  let s := overlap_run m1 m2 in
  drained s = true /\ ep_sent (left s) = [m1; m2] /\
  exists m2', arrives m2 [m2'] /\ ep_processed (right s) = [m2'; m2'].
Proof.
  intros Hs1 Hs2 Hi1 Hi2 s.
  destruct (carried_supported m1 Hs1) as (b1 & m1' & H1), (carried_supported m2 Hs2) as (b2 & m2' & H2).
  destruct (carried_control 1) as [[q1 Hq1] [a1 Ha1]]; [unfold i64_max; lia|].
  destruct (carried_control 2) as [[q2 Hq2] _]; [unfold i64_max; lia|].
  pose proof (carried_invocation _ _ _ H2 Hi2) as Hi2'.
  subst s. unfold overlap_run, link_new, endpoint_new, buffer_new.
  do 3 stage.
  match goal with
  | |- context [Build_MessageBuffer [Build_BufferedItem _ _ ?x; Build_BufferedItem _ _ ?y] _ _ _ _ ?n] =>
      destruct (ack_first b1 b2 x y n 2 false 1 0 false None false) as (y' & n' & Hack)
  end.
  do 5 stage.
  split_and!; [done|done|]. exists m2'. split; [apply (ca_arrives _ _ _ H2)|done].
Qed.

(** C40: A completion sent outside the buffer shifts the peer's numbers: after the client answered an
    invocation and sent two messages, with one reconnect, the link drains and the second message
    is never processed, because the peer takes it for one that it knows. *)
Theorem unbuffered_completion_loses_message (id : string) (m1 m2 : HubMessage) :
  supported (answer id) -> supported m1 -> supported m2 ->
  is_invocation_message m1 = true -> is_invocation_message m2 = true ->
  let s := unbuffered_run id m1 m2 in
  drained s = true /\ ep_sent (left s) = [m1; m2] /\
  exists c m1', arrives (answer id) [c] /\ arrives m1 [m1'] /\ ep_processed (right s) = [c; m1'].
Proof.
  intros Hs Hs1 Hs2 Hi1 Hi2 s. destruct (carried_supported _ Hs) as (b & c & H),
    (carried_supported m1 Hs1) as (b1 & m1' & H1), (carried_supported m2 Hs2) as (b2 & m2' & H2).
  destruct (carried_control 1) as [[q1 Hq1] _]; [unfold i64_max; lia|].
  destruct (carried_control 2) as [[q2 Hq2] [a2 Ha2]]; [unfold i64_max; lia|].
  pose proof (carried_invocation _ _ _ H eq_refl) as Hc. pose proof (carried_invocation _ _ _ H1 Hi1) as Hi1'.
  pose proof (carried_invocation _ _ _ H2 Hi2) as Hi2'.
  subst s. unfold unbuffered_run, link_new, endpoint_new, buffer_new.
  do 5 stage.
  match goal with
  | |- context [Build_MessageBuffer [Build_BufferedItem _ _ ?x] _ _ _ _ ?n] =>
      destruct (ack_only b1 x n 1 false 1 0 false None false) as (n' & Hack)
  end.
  do 6 stage.
  split_and!; [done|done|]. exists c, m1'. split_and!; [apply (ca_arrives _ _ _ H)|apply (ca_arrives _ _ _ H1)|done].
Qed.

(** An acknowledgement scheduled before a reconnect is lost: the timer writes to the old
    transport and nothing reschedules it, so the link drains with the message processed and still
    buffered by its sender. *)
Theorem stale_acknowledgement_lost (m : HubMessage) : supported m -> is_invocation_message m = true ->
  let s := stale_ack_run m in
  drained s = true /\ map bi_id (messages (ep_buffer (left s))) = [1] /\
  ack_timer (ep_buffer (right s)) = Some Finished /\
  exists m', arrives m [m'] /\ ep_processed (right s) = [m'].
Proof.
  intros Hs Hi s. destruct (carried_supported _ Hs) as (b & m' & H).
  destruct (carried_control 1) as [[q1 Hq1] [a1 Ha1]]; [unfold i64_max; lia|].
  pose proof (carried_invocation _ _ _ H Hi) as Hi'.
  subst s. unfold stale_ack_run, link_new, endpoint_new, buffer_new.
  do 7 stage. split_and!; [done..|]. exists m'. split; [apply (ca_arrives _ _ _ H)|done].
Qed.

End runs.
