(* ===== verification/Bus.v ===== *)
(** * The message bus ([src/bus.rs])

    The bus keeps the handlers of client methods, by lower-cased name and in registration order,
    and the invocations that wait for the server.  The channel behind a pending invocation is
    part of the state: what was sent through it and whether its sender is gone, so that a channel
    can be followed after its invocation left the bus. *)

From Stdlib Require Import ZArith Lia String.
From stdpp Require Import base list strings gmap.
From S2P Require Import Prelude Framing Utf8 Errors Values Arguments.

Local Open Scope Z_scope.

(** [INVOCATION_CANCELED_MESSAGE] *)
Definition INVOCATION_CANCELED_MESSAGE : string :=
  "Invocation canceled due to the underlying connection being closed.".

(** The output of a client method, when it is awaited. *)
Abbreviation output := (result string (option json)).

(** [ClientMethodHandler] *)
Abbreviation handler := (Arguments -> output).

(** [RegisteredClientHandler] *)
Record RegisteredClientHandler := { rh_id : Z; rh_handler : handler }.

(** What a pending invocation receives: a value or an error text. *)
Abbreviation outcome := (result string json).

(** A channel: the items sent, oldest first, and whether its sender was dropped. *)
Record channel := { ch_items : list outcome; ch_closed : bool }.

(** [PendingInvocation]; the senders are names of channels. *)
Inductive PendingInvocation : Type :=
| Single (ch : nat)
| Stream (ch : nat).

Definition channel_of (p : PendingInvocation) : nat := match p with Single ch | Stream ch => ch end.

(** [MessageBus], with [NEXT_HANDLER_ID] and the channels created so far. *)
Record MessageBus := {
  handlers : gmap string (list RegisteredClientHandler);
  pending : gmap string PendingInvocation;
  next_handler_id : Z;
  channels : list channel
}.

Definition set_pending (m : gmap string PendingInvocation) (cs : list channel) (b : MessageBus)
    : MessageBus :=
  {| handlers := handlers b; pending := m; next_handler_id := next_handler_id b; channels := cs |}.

Definition set_handlers (m : gmap string (list RegisteredClientHandler)) (id : Z) (b : MessageBus)
    : MessageBus :=
  {| handlers := m; pending := pending b; next_handler_id := id; channels := channels b |}.

(** [MessageBus::new] *)
Definition bus_new : MessageBus :=
  {| handlers := ∅; pending := ∅; next_handler_id := 1; channels := [] |}.

(** ** Channels *)

(** A send; the receiver may be gone, which the bus ignores. *)
Definition ch_send (ch : nat) (item : outcome) (cs : list channel) : list channel :=
  alter (fun c => {| ch_items := ch_items c ++ [item]; ch_closed := ch_closed c |}) ch cs.

(** The sender is dropped. *)
Definition ch_drop (ch : nat) (cs : list channel) : list channel :=
  alter (fun c => {| ch_items := ch_items c; ch_closed := true |}) ch cs.

(** ** Handlers *)

(** [register_handler] *)
Definition register_handler (target : string) (h : handler) (b : MessageBus) : Z * MessageBus :=
  let id := next_handler_id b in
  let key := to_ascii_lowercase target in
  (id, set_handlers (<[key := default [] (handlers b !! key) ++ [{| rh_id := id; rh_handler := h |}]]>
                       (handlers b)) (id + 1) b).

(** [remove_handler] *)
Definition remove_handler (target : string) (handler_id : option Z) (b : MessageBus) : MessageBus :=
  let key := to_ascii_lowercase target in
  match handlers b !! key with
  | None => b
  | Some method_handlers =>
      match handler_id with
      | Some id =>
          let kept := filter (fun h => rh_id h <> id) method_handlers in
          set_handlers (match kept with
                        | [] => delete key (handlers b)
                        | _ => <[key := kept]> (handlers b)
                        end) (next_handler_id b) b
      | None => set_handlers (delete key (handlers b)) (next_handler_id b) b
      end
  end.

(** [handlers_for] *)
Definition handlers_for (target : string) (b : MessageBus) : list handler :=
  map rh_handler (default [] (handlers b !! to_ascii_lowercase target)).

(** ** Pending invocations *)

(** [insert] into the map drops the sender it replaces. *)
Definition insert_pending (id : string) (p : PendingInvocation) (b : MessageBus) : MessageBus :=
  let cs := match pending b !! id with
            | Some old => ch_drop (channel_of old) (channels b)
            | None => channels b
            end in
  set_pending (<[id := p]> (pending b)) (cs ++ [{| ch_items := []; ch_closed := false |}]) b.

(** [register_pending]; returns the receiver. *)
Definition register_pending (id : string) (b : MessageBus) : nat * MessageBus :=
  let ch := length (channels b) in (ch, insert_pending id (Single ch) b).

(** [register_stream] *)
Definition register_stream (id : string) (b : MessageBus) : nat * MessageBus :=
  let ch := length (channels b) in (ch, insert_pending id (Stream ch) b).

(** [complete_invocation]; the sender is dropped with the entry. *)
Definition complete_invocation (id : string) (r : outcome) (b : MessageBus) : MessageBus :=
  match pending b !! id with
  | None => b
  | Some p =>
      let cs := match p with
                | Single ch => ch_send ch r (channels b)
                | Stream ch => if is_ok r then channels b else ch_send ch r (channels b)
                end in
      set_pending (delete id (pending b)) (ch_drop (channel_of p) cs) b
  end.

(** [send_stream_item] *)
Definition send_stream_item (id : string) (item : outcome) (b : MessageBus) : MessageBus :=
  match pending b !! id with
  | Some (Stream ch) => set_pending (pending b) (ch_send ch item (channels b)) b
  | _ => b
  end.

(** [remove_pending] *)
Definition remove_pending (id : string) (b : MessageBus) : bool * MessageBus :=
  match pending b !! id with
  | None => (false, b)
  | Some p => (true, set_pending (delete id (pending b)) (ch_drop (channel_of p) (channels b)) b)
  end.

(** One iteration of the loop of [cancel_all_pending]. *)
Definition cancel_one (error : string) (cs : list channel) (p : PendingInvocation) : list channel :=
  ch_drop (channel_of p) (ch_send (channel_of p) (Err error) cs).

(** [cancel_all_pending] *)
Definition cancel_all_pending (error : string) (b : MessageBus) : MessageBus :=
  set_pending ∅ (fold_left (cancel_one error) (map_to_list (pending b)).*2 (channels b)) b.

(** ** Handlers: what lookups see *)

(** Handlers are found by name without regard to ASCII case, in the order of registration:
    a new handler is the last one of its method and leaves the other methods alone; removing by
    id leaves exactly the handlers with other ids, removing a method leaves none. *)
Lemma handlers_lookup (b : MessageBus) (target other : string) (h : handler) (id : Z) :
  handlers_for other (register_handler target h b).2 =
    handlers_for other b ++
      (if String.eqb (to_ascii_lowercase other) (to_ascii_lowercase target) then [h] else []) /\
  default [] (handlers (remove_handler target (Some id) b) !! to_ascii_lowercase target) =
    filter (fun e => rh_id e <> id) (default [] (handlers b !! to_ascii_lowercase target)) /\
  handlers_for target (remove_handler target None b) = [] /\
  (to_ascii_lowercase other <> to_ascii_lowercase target -> forall o,
    handlers_for other (remove_handler target o b) = handlers_for other b).
Proof.
  unfold handlers_for, register_handler, remove_handler. cbn. split_and!.
  - destruct (String.eqb_spec (to_ascii_lowercase other) (to_ascii_lowercase target)) as [->|Hne].
    + rewrite lookup_insert_eq. cbn. by rewrite map_app.
    + rewrite lookup_insert_ne by done. by rewrite app_nil_r.
  - destruct (handlers b !! to_ascii_lowercase target) as [l|] eqn:Hl; [|by rewrite Hl]. cbn.
    destruct (filter _ l) eqn:Hf; [by rewrite lookup_delete_eq|by rewrite lookup_insert_eq].
  - destruct (handlers b !! to_ascii_lowercase target) as [l|] eqn:Hl; [|by rewrite Hl]. cbn.
    by rewrite lookup_delete_eq.
  - intros Hne o. destruct (handlers b !! to_ascii_lowercase target) as [l|]; [|done].
    destruct o as [i|]; cbn; [destruct (filter _ l)|]; rewrite ?lookup_delete_ne, ?lookup_insert_ne; done.
Qed.

(** ** The invariant *)

(** Every pending invocation has an open channel of its own, on which a single invocation has
    received nothing; every open channel belongs to a pending invocation. *)
Record bus_ok (b : MessageBus) : Prop := {
  ok_open : forall id p, pending b !! id = Some p -> exists c,
    channels b !! channel_of p = Some c /\ ch_closed c = false /\
    (p = Single (channel_of p) -> ch_items c = []);
  ok_inj : forall id id' p p', pending b !! id = Some p -> pending b !! id' = Some p' ->
    channel_of p = channel_of p' -> id = id';
  ok_pending : forall ch c, channels b !! ch = Some c -> ch_closed c = false ->
    exists id p, pending b !! id = Some p /\ channel_of p = ch;
  ok_handlers : forall key l, handlers b !! key = Some l ->
    Forall (fun h => rh_id h < next_handler_id b) l
}.

(** An entry leaves and its channel is closed; the other channels stay. *)
Lemma bus_ok_remove b id p cs : bus_ok b -> pending b !! id = Some p ->
  (forall ch, ch <> channel_of p -> cs !! ch = channels b !! ch) ->
  (forall c, cs !! channel_of p = Some c -> ch_closed c = true) ->
  bus_ok (set_pending (delete id (pending b)) cs b).
Proof.
  intros [Ho Hi Hp Hh] Hid Hother Hclosed. split; cbn; [..|done].
  - intros id' p' [Hne Hid']%lookup_delete_Some. destruct (Ho _ _ Hid') as (c & Hc & Hcl & Hs).
    exists c. rewrite Hother; [done|]. intros Heq. by apply Hne, (Hi _ _ p p').
  - intros id1 id2 p1 p2 [_ H1]%lookup_delete_Some [_ H2]%lookup_delete_Some. by eapply Hi.
  - intros ch c Hc Hcl. destruct (decide (ch = channel_of p)) as [->|Hch].
    + apply Hclosed in Hc. congruence.
    + rewrite Hother in Hc by done. destruct (Hp _ _ Hc Hcl) as (id' & p' & Hid' & Hch').
      exists id', p'. split; [|done]. rewrite lookup_delete_ne; [done|]. intros ->. congruence.
Qed.

Lemma ch_drop_spec ch cs ch' c : ch_drop ch cs !! ch' = Some c ->
  exists c', cs !! ch' = Some c' /\ ch_items c = ch_items c' /\
    ch_closed c = if decide (ch = ch') then true else ch_closed c'.
Proof.
  unfold ch_drop. rewrite list_lookup_alter. case_decide as H; [|eauto].
  subst. intros (c' & Hc' & ->)%fmap_Some. eauto.
Qed.

Lemma complete_ok b id r : bus_ok b -> bus_ok (complete_invocation id r b).
Proof.
  intros Hok. unfold complete_invocation. destruct (pending b !! id) as [p|] eqn:Hid; [|done].
  eapply bus_ok_remove; [done|done|..].
  - intros ch Hch. unfold ch_drop. rewrite list_lookup_alter_ne by done.
    destruct p; cbn in *; [|destruct (is_ok r); [done|]]; unfold ch_send; by rewrite list_lookup_alter_ne.
  - intros c (c' & _ & _ & ->)%ch_drop_spec. by rewrite decide_True.
Qed.

Lemma remove_pending_ok b id : bus_ok b -> bus_ok (remove_pending id b).2.
Proof.
  intros Hok. unfold remove_pending. destruct (pending b !! id) as [p|] eqn:Hid; [|done].
  eapply bus_ok_remove; [done|done|..].
  - intros ch Hch. unfold ch_drop. by rewrite list_lookup_alter_ne.
  - intros c (c' & _ & _ & ->)%ch_drop_spec. by rewrite decide_True.
Qed.

(** A fresh channel is pending under [id]. *)
Lemma insert_fresh_ok b id p : bus_ok b -> pending b !! id = None ->
  channel_of p = length (channels b) ->
  bus_ok (set_pending (<[id := p]> (pending b))
    (channels b ++ [{| ch_items := []; ch_closed := false |}]) b).
Proof.
  intros [Ho Hi Hp Hh] Hid Hch.
  assert (Hlt : forall id' p', pending b !! id' = Some p' -> (channel_of p' < length (channels b))%nat).
  { intros id' p' H. destruct (Ho _ _ H) as (c & Hc & _). by eapply lookup_lt_Some. }
  split; cbn; [..|done].
  - intros id' p' [[<- <-]|[Hne H]]%lookup_insert_Some.
    + rewrite Hch, list_lookup_middle by done. by eexists.
    + destruct (Ho _ _ H) as (c & Hc & ?). exists c. by rewrite lookup_app_l by (by eapply lookup_lt_Some).
  - intros id1 id2 p1 p2 [[<- <-]|[Hne1 H1]]%lookup_insert_Some [[<- <-]|[Hne2 H2]]%lookup_insert_Some Heq;
      [done|apply Hlt in H2; lia|apply Hlt in H1; lia|by eapply Hi].
  - intros ch c [Hc|[Hge Hc]]%lookup_app_Some Hcl.
    + destruct (Hp _ _ Hc Hcl) as (id' & p' & Hid' & Hch'). exists id', p'. split; [|done].
      rewrite lookup_insert_ne; [done|]. congruence.
    + apply list_lookup_singleton_Some in Hc as [Hz _]. exists id, p. rewrite lookup_insert_eq.
      split; [done|]. lia.
Qed.

Lemma insert_pending_ok b id p : bus_ok b -> channel_of p = length (channels b) ->
  bus_ok (insert_pending id p b).
Proof.
  intros Hok Hch. unfold insert_pending. destruct (pending b !! id) as [old|] eqn:Hid.
  - pose proof (remove_pending_ok b id Hok) as Hok'. unfold remove_pending in Hok'. rewrite Hid in Hok'.
    rewrite <- (insert_delete_eq (pending b)). eapply (insert_fresh_ok _ id p Hok').
    + cbn. by rewrite lookup_delete_eq.
    + cbn. unfold ch_drop. by rewrite length_alter.
  - by apply insert_fresh_ok.
Qed.

Lemma send_item_ok b id item : bus_ok b -> bus_ok (send_stream_item id item b).
Proof.
  intros Hok. unfold send_stream_item. destruct (pending b !! id) as [[ch|ch]|] eqn:Hid; [done| |done].
  destruct Hok as [Ho Hi Hp Hh]. split; cbn; [|done| |done].
  - intros id' p Hid'. destruct (Ho _ _ Hid') as (c & Hc & Hcl & Hs). unfold ch_send.
    rewrite list_lookup_alter. case_decide as Heq; [|eauto]. rewrite Heq, Hc. cbn. eexists.
    split_and!; [done|done|]. intros Hp'. rewrite Hp' in Hid'.
    assert (id' = id) as -> by (by eapply Hi). rewrite Hid in Hid'. done.
  - intros ch' c. unfold ch_send. rewrite list_lookup_alter. case_decide as Heq; [|apply Hp].
    intros (c' & Hc' & ->)%fmap_Some Hcl. subst. by eapply Hp.
Qed.

(** *** Cancelling everything *)

(** The channels after the loop: those of the entries got the error and are closed. *)
Lemma cancel_fold error ps cs ch :
  NoDup (channel_of <$> ps) ->
  fold_left (cancel_one error) ps cs !! ch =
    if decide (ch ∈ channel_of <$> ps)
    then (fun c => {| ch_items := ch_items c ++ [Err error]; ch_closed := true |}) <$> cs !! ch
    else cs !! ch.
Proof.
  revert cs. induction ps as [|p ps IH]; intros cs Hnd; [done|]. cbn [fold_left].
  apply NoDup_cons in Hnd as [Hp Hnd]. rewrite IH by done. unfold cancel_one, ch_drop, ch_send.
  destruct (decide (channel_of p = ch)) as [<-|Hne].
  - rewrite decide_False by done. rewrite !list_lookup_alter_eq, decide_True by (cbn; left).
    by destruct (cs !! channel_of p).
  - rewrite !list_lookup_alter_ne by done. apply decide_ext. cbn. rewrite elem_of_cons. naive_solver.
Qed.

Lemma pending_channels b : bus_ok b -> NoDup (channel_of <$> (map_to_list (pending b)).*2) /\
  forall ch, ch ∈ channel_of <$> (map_to_list (pending b)).*2 <->
    exists c, channels b !! ch = Some c /\ ch_closed c = false.
Proof.
  intros [Ho Hi Hp Hh]. split.
  - rewrite <- list_fmap_compose. apply NoDup_fmap_2_strong; [|apply NoDup_map_to_list].
    intros [i p] [i' p'] H1%elem_of_map_to_list H2%elem_of_map_to_list Heq. cbn in Heq.
    assert (i = i') as <- by (by eapply Hi). congruence.
  - intros ch. rewrite <- list_fmap_compose, list_elem_of_fmap. split.
    + intros ([i p] & -> & H%elem_of_map_to_list). destruct (Ho _ _ H) as (c & Hc & Hcl & _). eauto.
    + intros (c & Hc & Hcl). destruct (Hp _ _ Hc Hcl) as (i & p & Hip & <-).
      exists (i, p). split; [done|]. by apply elem_of_map_to_list.
Qed.

(** Losing the connection reaches every waiter: [cancel_all_pending] empties the bus,
    appends the error to exactly the channels that were still open and closes them, and leaves
    the channels that were finished before as they are. *)
Theorem cancel_reaches_everyone (error : string) (b : MessageBus) (ch : nat) (c : channel) :
  bus_ok b -> channels b !! ch = Some c ->
  pending (cancel_all_pending error b) = ∅ /\
  channels (cancel_all_pending error b) !! ch =
    Some (if ch_closed c then c
          else {| ch_items := ch_items c ++ [Err error]; ch_closed := true |}).
Proof.
  intros Hok Hc. split; [done|]. destruct (pending_channels b Hok) as [Hnd Hin]. cbn.
  rewrite cancel_fold by done. case_decide as Hch.
  - apply Hin in Hch as (c' & Hc' & Hcl). rewrite Hc in *. injection Hc' as <-. by rewrite Hcl.
  - rewrite Hc. destruct (ch_closed c) eqn:Hcl; [done|]. exfalso. apply Hch, Hin. eauto.
Qed.

Lemma cancel_all_ok error b : bus_ok b -> bus_ok (cancel_all_pending error b).
Proof.
  intros Hok. destruct (pending_channels b Hok) as [Hnd Hin]. destruct Hok as [Ho Hi Hp Hh].
  split; cbn; [done|done| |done]. intros ch c. rewrite cancel_fold by done. case_decide as Hch.
  - by intros (c' & _ & ->)%fmap_Some.
  - intros Hc Hcl. exfalso. apply Hch, Hin. eauto.
Qed.

(** ** Any use of the bus *)

Inductive bus_reachable : MessageBus -> Prop :=
| bus_reach_new : bus_reachable bus_new
| bus_reach_handler t h b : bus_reachable b -> bus_reachable (register_handler t h b).2
| bus_reach_remove_handler t o b : bus_reachable b -> bus_reachable (remove_handler t o b)
| bus_reach_pending id b : bus_reachable b -> bus_reachable (register_pending id b).2
| bus_reach_stream id b : bus_reachable b -> bus_reachable (register_stream id b).2
| bus_reach_complete id r b : bus_reachable b -> bus_reachable (complete_invocation id r b)
| bus_reach_item id i b : bus_reachable b -> bus_reachable (send_stream_item id i b)
| bus_reach_remove id b : bus_reachable b -> bus_reachable (remove_pending id b).2
| bus_reach_cancel e b : bus_reachable b -> bus_reachable (cancel_all_pending e b).

Lemma register_handler_ok t h b : bus_ok b -> bus_ok (register_handler t h b).2.
Proof.
  intros [Ho Hi Hp Hh]. split; cbn; [done|done|done|].
  assert (Hup : forall l, Forall (fun h => rh_id h < next_handler_id b) l ->
    Forall (fun h => rh_id h < next_handler_id b + 1) l).
  { intros l Hl. eapply Forall_impl; [exact Hl|]. cbn. lia. }
  intros key l [[<- <-]|[_ H]]%lookup_insert_Some; [|apply Hup; by eapply Hh].
  apply Forall_app. split; [|constructor; [cbn; lia|done]]. apply Hup.
  destruct (handlers b !! to_ascii_lowercase t) eqn:E; [by eapply Hh|constructor].
Qed.

Lemma remove_handler_ok t o b : bus_ok b -> bus_ok (remove_handler t o b).
Proof.
  intros [Ho Hi Hp Hh]. unfold remove_handler.
  destruct (handlers b !! to_ascii_lowercase t) as [l|] eqn:Hl; [|by split].
  destruct o as [i|]; split; cbn; try done.
  - intros key l'. destruct (filter (fun h => rh_id h <> i) l) as [|h l0] eqn:Hf.
    + intros [_ H]%lookup_delete_Some. by eapply Hh.
    + intros [[<- <-]|[_ H]]%lookup_insert_Some; [|by eapply Hh]. rewrite <- Hf.
      apply Forall_forall. intros x [_ Hx]%list_elem_of_filter. specialize (Hh _ _ Hl).
      rewrite Forall_forall in Hh. auto.
  - intros key l' [_ H]%lookup_delete_Some. by eapply Hh.
Qed.

Lemma bus_reachable_ok (b : MessageBus) : bus_reachable b -> bus_ok b.
Proof.
  induction 1; auto using complete_ok, remove_pending_ok, send_item_ok, cancel_all_ok,
    register_handler_ok, remove_handler_ok.
  - by split.
  - by apply insert_pending_ok.
  - by apply insert_pending_ok.
Qed.

(** The bus's invariant: whatever sequence of operations is run, every pending invocation
    has an open channel of its own, a single invocation has received nothing while it is pending,
    and every receiver whose channel is still open is pending, so that a completion or a
    cancellation can reach it. *)
Theorem bus_invariant (b : MessageBus) : bus_reachable b -> bus_ok b.
Proof. apply bus_reachable_ok. Qed.

(** C18: a completion is delivered once, to its invocation: the waiting call gets exactly the
    result, a stream gets an error as its last item or ends, the entry leaves the bus, a second
    completion of the same id does nothing, and no other channel changes. *)
Theorem completion_delivered_once (b : MessageBus) (id : string) (r r' : outcome)
    (p : PendingInvocation) :
  bus_ok b -> pending b !! id = Some p ->
  let b' := complete_invocation id r b in
  (exists c, channels b !! channel_of p = Some c /\
    channels b' !! channel_of p = Some {|
      ch_items := match p with
                  | Single _ => [r]
                  | Stream _ => ch_items c ++ (if is_ok r then [] else [r])
                  end;
      ch_closed := true |}) /\
  (forall ch, ch <> channel_of p -> channels b' !! ch = channels b !! ch) /\
  pending b' = delete id (pending b) /\ complete_invocation id r' b' = b'.
Proof.
  intros Hok Hid. destruct (ok_open _ Hok _ _ Hid) as (c & Hc & Hcl & Hs). cbv zeta.
  unfold complete_invocation at 1 2 3 5. rewrite Hid. cbn [channels pending set_pending]. split_and!.
  - exists c. split; [done|]. unfold ch_drop. rewrite list_lookup_alter_eq.
    destruct p as [ch|ch]; cbn in *; unfold ch_send.
    + rewrite list_lookup_alter_eq, Hc. cbn. by rewrite Hs.
    + destruct (is_ok r); rewrite ?list_lookup_alter_eq, Hc; cbn; by rewrite ?app_nil_r.
  - intros ch Hch. unfold ch_drop. rewrite list_lookup_alter_ne by done.
    destruct p; cbn in *; [|destruct (is_ok r); [done|]]; unfold ch_send; by rewrite list_lookup_alter_ne.
  - done.
  - unfold complete_invocation. cbn. by rewrite lookup_delete_eq, Hid.
Qed.
