(* ===== verification/Dispatch.v ===== *)
(** * Dispatching inbound messages ([src/hub_connection/dispatch.rs])

    [dispatch] routes one parsed message: to the handlers of a client method, to a pending
    invocation of the bus, to the reconnect buffer, or to the supervisor as a close event.  The
    handlers are applications' code and appear as the functions registered in the bus. *)

From Stdlib Require Import ZArith Lia String.
From stdpp Require Import base list strings gmap.
From S2P Require Import Prelude Framing Utf8 Errors Values Arguments Message JsonProtocol.
From S2P Require Import MessageBuffer Link Bus.

Local Open Scope Z_scope.

(** [TransportCloseInfo], the content of [TransportEvent::Closed]. *)
Record TransportCloseInfo := {
  ci_error : option string;
  ci_allow_reconnect : option bool;
  ci_transport_dropped : bool
}.

(** The state behind a [DispatchContext]: the bus, the buffer, the events sent to the
    supervisor and the flag that one was sent, and the world of the transport. *)
Record DispatchState (T : Type) := {
  ds_bus : MessageBus;
  ds_buffer : option MessageBuffer;
  ds_events : list TransportCloseInfo;
  ds_close_signaled : bool;
  ds_world : T
}.
Arguments ds_bus {T}.
Arguments ds_buffer {T}.
Arguments ds_events {T}.
Arguments ds_close_signaled {T}.
Arguments ds_world {T}.

Definition with_bus {T} (b : MessageBus) (s : DispatchState T) : DispatchState T :=
  {| ds_bus := b; ds_buffer := ds_buffer s; ds_events := ds_events s;
     ds_close_signaled := ds_close_signaled s; ds_world := ds_world s |}.

Definition with_buffer {T} (b : option MessageBuffer) (s : DispatchState T) : DispatchState T :=
  {| ds_bus := ds_bus s; ds_buffer := b; ds_events := ds_events s;
     ds_close_signaled := ds_close_signaled s; ds_world := ds_world s |}.

Definition with_world {T} (w : T) (s : DispatchState T) : DispatchState T :=
  {| ds_bus := ds_bus s; ds_buffer := ds_buffer s; ds_events := ds_events s;
     ds_close_signaled := ds_close_signaled s; ds_world := w |}.

(** ** The outcome of the handlers *)

(** The variables of the loop over the handlers. *)
Record HandlerState := {
  hs_result : option json;
  hs_error : option string;
  hs_multiple : bool
}.

(** One iteration of the loop. *)
Definition handler_step (expects_response : bool) (s : HandlerState) (o : output) : HandlerState :=
  match o with
  | Ok (Some value) =>
      if expects_response && bool_decide (is_Some (hs_result s)) then
        {| hs_result := hs_result s; hs_error := None; hs_multiple := true |}
      else {| hs_result := Some value; hs_error := hs_error s; hs_multiple := hs_multiple s |}
  | Ok None => s
  | Err error =>
      if hs_multiple s then s
      else {| hs_result := hs_result s; hs_error := Some error; hs_multiple := hs_multiple s |}
  end.

Definition run_handlers (expects_response : bool) (outputs : list output) : HandlerState :=
  fold_left (handler_step expects_response) outputs
    {| hs_result := None; hs_error := None; hs_multiple := false |}.

Definition no_result : string := "Client didn't provide a result.".
Definition multiple_results : string := "Client provided multiple results.".

(** The completion built from the variables of the loop. *)
Definition completion_for (invocation_id : string) (s : HandlerState) : CompletionMessage :=
  let completion := fun error result =>
    {| comp_headers := ∅; comp_invocation_id := invocation_id; comp_error := error;
       comp_result := result |} in
  if hs_multiple s then completion (Some multiple_results) None
  else
    match hs_error s with
    | Some error => completion (Some error) None
    | None =>
        match hs_result s with
        | Some value => completion None (Some value)
        | None => completion (Some no_result) None
        end
    end.

Section dispatch.
Context `{TR : Transport T} (protocol : HubProtocol) (size : Z) (tr : transport)
  (format : TransferFormat).

(** [send_completion] *)
Definition send_completion (m : CompletionMessage) (s : DispatchState T)
    : result Error unit * DispatchState T :=
  let '(r, w) := send_hub_message protocol tr format (HCompletion m) (ds_world s) in
  (r, with_world w s).

(** [handle_invocation] *)
Definition handle_invocation (m : InvocationMessage) (s : DispatchState T)
    : result Error unit * DispatchState T :=
  match handlers_for (to_ascii_lowercase (inv_target m)) (ds_bus s) with
  | [] =>
      match inv_invocation_id m with
      | Some invocation_id =>
          send_completion {| comp_headers := ∅; comp_invocation_id := invocation_id;
                             comp_error := Some no_result; comp_result := None |} s
      | None => (Ok tt, s)
      end
  | hs =>
      let outputs := map (fun h => h (inv_arguments m)) hs in
      let state := run_handlers (bool_decide (is_Some (inv_invocation_id m))) outputs in
      match inv_invocation_id m with
      | Some invocation_id => send_completion (completion_for invocation_id state) s
      | None => (Ok tt, s)
      end
  end.

(** [handle_stream_item] *)
Definition handle_stream_item (m : StreamItemMessage) (s : DispatchState T) : DispatchState T :=
  match item_invocation_id m with
  | None => s
  | Some invocation_id => with_bus (send_stream_item invocation_id (Ok (item_item m)) (ds_bus s)) s
  end.

(** [handle_completion] *)
Definition handle_completion (m : CompletionMessage) (s : DispatchState T) : DispatchState T :=
  let r := match comp_error m with
           | Some error => Err error
           | None => Ok (default JNull (comp_result m))
           end in
  with_bus (complete_invocation (comp_invocation_id m) r (ds_bus s)) s.

(** [handle_close] *)
Definition handle_close (m : CloseMessage) (s : DispatchState T)
    : result Error unit * DispatchState T :=
  let error := close_error m in
  let cancellation := default INVOCATION_CANCELED_MESSAGE error in
  let '(r, w) := transport_close tr (ds_world s) in
  (r, {| ds_bus := cancel_all_pending cancellation (ds_bus s);
         ds_buffer := ds_buffer s;
         ds_events := if ds_close_signaled s then ds_events s
                      else ds_events s ++ [{| ci_error := error;
                                              ci_allow_reconnect := close_allow_reconnect m;
                                              ci_transport_dropped := false |}];
         ds_close_signaled := true;
         ds_world := w |}).

(** The guard of [dispatch]: whether to go on, and the buffer afterwards. *)
Definition guard (m : HubMessage) (s : DispatchState T) : bool * DispatchState T :=
  match ds_buffer s with
  | Some buffer =>
      let '(process, buffer) := should_process_message m tr format buffer in
      (process, with_buffer (Some buffer) s)
  | None => (true, s)
  end.

(** The [match message] of [dispatch]. *)
Definition route (m : HubMessage) (s : DispatchState T) : result Error unit * DispatchState T :=
  match m with
  | HInvocation m => handle_invocation m s
  | HStreamItem m => (Ok tt, handle_stream_item m s)
  | HCompletion m => (Ok tt, handle_completion m s)
  | HPing => (Ok tt, s)
  | HClose m => handle_close m s
  | HAck m =>
      (Ok tt, with_buffer ((fun buffer => (ack size m buffer).1) <$> ds_buffer s) s)
  | HSequence m =>
      match ds_buffer s with
      | Some buffer =>
          let '(r, buffer) := reset_sequence m buffer in (r, with_buffer (Some buffer) s)
      | None => (Ok tt, s)
      end
  | HStreamInvocation _ | HCancelInvocation _ => (Ok tt, s)
  end.

(** [dispatch] *)
Definition dispatch (m : HubMessage) (s : DispatchState T) : result Error unit * DispatchState T :=
  let '(process, s) := guard m s in
  if process then route m s else (Ok tt, s).

End dispatch.

(** ** What the caller of a client method gets *)

(** The results and the errors among the outputs. *)
Definition results_of (outputs : list output) : list json :=
  omap (fun o => match o with Ok (Some v) => Some v | _ => None end) outputs.
Definition errors_of (outputs : list output) : list string :=
  omap (fun o => match o with Err e => Some e | _ => None end) outputs.

(** The answer a server should get, from the outputs of all handlers. *)
Definition expected_answer (outputs : list output) : result string json :=
  match results_of outputs with
  | _ :: _ :: _ => Err multiple_results
  | results =>
      match last (errors_of outputs), results with
      | Some e, _ => Err e
      | None, [v] => Ok v
      | None, _ => Err no_result
      end
  end.

(** The loop's variables after any outputs. *)
Lemma run_handlers_spec outputs :
  run_handlers true outputs =
    {| hs_result := head (results_of outputs);
       hs_error := match results_of outputs with _ :: _ :: _ => None | _ => last (errors_of outputs) end;
       hs_multiple := match results_of outputs with _ :: _ :: _ => true | _ => false end |}.
Proof.
  unfold run_handlers. induction outputs as [|o outputs IH] using rev_ind; [done|].
  rewrite fold_left_app, IH. cbn [fold_left]. unfold results_of, errors_of in *. rewrite !omap_app.
  destruct o as [[v|]|e]; cbn.
  - rewrite app_nil_r. destruct (omap _ outputs) as [|v1 [|v2 l]]; done.
  - by rewrite !app_nil_r.
  - rewrite app_nil_r, last_snoc. destruct (omap _ outputs) as [|v1 [|v2 l]]; done.
Qed.

(** The completion built from the loop's variables is the answer the outputs call for. *)
Lemma completion_for_spec id outputs :
  completion_for id (run_handlers true outputs) =
    let answer := expected_answer outputs in
    {| comp_headers := ∅; comp_invocation_id := id;
       comp_error := match answer with Err e => Some e | Ok _ => None end;
       comp_result := match answer with Ok v => Some v | Err _ => None end |}.
Proof.
  rewrite run_handlers_spec. unfold completion_for, expected_answer. cbn [hs_result hs_error hs_multiple].
  destruct (results_of outputs) as [|v1 [|v2 l]]; cbn [head]; [|by destruct (last (errors_of outputs))|done].
  by destruct (last (errors_of outputs)).
Qed.

(** A server invocation that expects a result is answered with exactly one completion: more than
    one result is an error, otherwise the last error of a handler wins over a result, and no result
    at all is an error.  An invocation without an id is never answered. *)
Lemma invocation_answer `{TR : Transport T} (protocol : HubProtocol) (tr : transport)
    (format : TransferFormat) (m : InvocationMessage) (s : DispatchState T) :
  let outputs := map (fun h => h (inv_arguments m)) (handlers_for (inv_target m) (ds_bus s)) in
  handle_invocation protocol tr format m s =
    match inv_invocation_id m with
    | None => (Ok tt, s)
    | Some id =>
        let answer := expected_answer outputs in
        send_completion protocol tr format
          {| comp_headers := ∅; comp_invocation_id := id;
             comp_error := match answer with Err e => Some e | Ok _ => None end;
             comp_result := match answer with Ok v => Some v | Err _ => None end |} s
    end.
Proof.
  cbv zeta. unfold handle_invocation, handlers_for. rewrite to_ascii_lowercase_idemp.
  destruct (map rh_handler _) as [|h hs]; [by destruct (inv_invocation_id m)|].
  destruct (inv_invocation_id m) as [id|]; [|done].
  by rewrite bool_decide_eq_true_2, completion_for_spec by done.
Qed.

(** ** The invariants *)

Definition dispatch_ok {T} (size : Z) (s : DispatchState T) : Prop :=
  bus_ok (ds_bus s) /\ (forall b, ds_buffer s = Some b -> buffer_ok size b) /\
  length (ds_events s) = if ds_close_signaled s then 1%nat else 0%nat.

Section preserved.
Context `{TR : Transport T} (protocol : HubProtocol) (size : Z) (tr : transport)
  (format : TransferFormat).

Lemma guard_ok m (s : DispatchState T) :
  dispatch_ok size s -> dispatch_ok size (guard tr format m s).2.
Proof.
  intros Hok. pose proof Hok as (Hbus & Hbuf & Hev). unfold guard.
  destruct (ds_buffer s) as [b|] eqn:Hb; [|done].
  pose proof (should_process_ok size m tr format b (Hbuf b eq_refl)) as Hok'.
  destruct (should_process_message m tr format b) as [pr b']. cbn in *.
  split_and!; [done| |done]. cbn. by intros b0 [= <-].
Qed.

Lemma send_completion_ok m (s : DispatchState T) :
  dispatch_ok size s -> dispatch_ok size (send_completion protocol tr format m s).2.
Proof.
  intros Hok. unfold send_completion. destruct (send_hub_message _ _ _ _ _). exact Hok.
Qed.

Lemma route_ok m (s : DispatchState T) :
  dispatch_ok size s -> dispatch_ok size (route protocol size tr format m s).2.
Proof.
  intros Hok. pose proof Hok as (Hbus & Hbuf & Hev). destruct m as [m|m|m|m|m| |m|m|m]; cbn; try done.
  - unfold handle_invocation. destruct (handlers_for _ _); destruct (inv_invocation_id m);
      by try apply send_completion_ok.
  - unfold handle_stream_item. destruct (item_invocation_id m); [|done].
    split_and!; [by apply send_item_ok|done|done].
  - split_and!; [by apply complete_ok|done|done].
  - unfold handle_close. destruct (transport_close tr (ds_world s)) as [r w]. cbn.
    split_and!; [by apply cancel_all_ok|done|]. cbn.
    destruct (ds_close_signaled s); [done|]. by rewrite length_app, Hev.
  - destruct (ds_buffer s) as [b|]; split_and!; try done. cbn. intros b0 [= <-].
    by apply ack_ok, Hbuf.
  - destruct (ds_buffer s) as [b|] eqn:Hb; [|done].
    pose proof (reset_sequence_ok size m b (Hbuf b eq_refl)) as Hr.
    destruct (reset_sequence m b) as [r b']. split_and!; try done. cbn. by intros b0 [= <-].
Qed.

(** Dispatching any message keeps the invariants of the bus and of the reconnect buffer, and the
    supervisor is told about a close at most once. *)
Lemma dispatch_preserves (m : HubMessage) (s : DispatchState T) :
  dispatch_ok size s -> dispatch_ok size (dispatch protocol size tr format m s).2.
Proof.
  intros Hok. unfold dispatch. pose proof (guard_ok m s Hok) as Hg.
  destruct (guard tr format m s) as [[] s']; [by apply route_ok|done].
Qed.

(** The endpoints of [Link] run what [dispatch] runs: with a buffer in place, dispatching a
    message leaves the buffer [ep_dispatch] computes, and a message the buffer rejects as known
    reaches neither handlers nor pending invocations nor the supervisor. *)
Theorem dispatch_refines_endpoint (m : HubMessage) (s : DispatchState T) (b : MessageBuffer)
    (e : endpoint) :
  ds_buffer s = Some b -> ep_buffer e = b -> w_epoch (ep_wire e) = tr ->
  transfer_format protocol = format ->
  let s' := (dispatch protocol size tr format m s).2 in
  ds_buffer s' = Some (ep_buffer (ep_dispatch protocol size e m)) /\
  ((should_process_message m tr format b).1 = false ->
    ds_bus s' = ds_bus s /\ ds_events s' = ds_events s /\ ds_world s' = ds_world s).
Proof.
  intros Hb He Hep Hf. unfold dispatch, guard, ep_dispatch. rewrite Hb, He, Hep, Hf.
  destruct (should_process_message m tr format b) as [[] b'] eqn:Hsp; cbn [fst]; [|by split].
  split; [|done]. destruct m as [m|m|m|m|m| |m|m|m]; cbn; try done.
  - unfold handle_invocation, send_completion. repeat case_match; done.
  - unfold handle_stream_item. by case_match.
  - unfold handle_close. by case_match.
  - by destruct (reset_sequence m b').
Qed.

End preserved.
