(* ===== verification/SendQueue.v ===== *)
(** * The transport's send queue ([src/transport/send_queue.rs])

    Callers put payloads into a channel; one worker takes them out, joins what is ready into one
    frame and writes it, and answers the callers.  The state holds the channel, the variables of
    the worker's loop, the answers given, the world of the transport and, to state the invariant,
    the commands taken out and the batches written.  What the theorems say of order is said of the
    frames that change the world. *)

From Stdlib Require Import ZArith Lia String.
From stdpp Require Import base list strings relations.
From S2P Require Import Prelude Framing Utf8 Errors Values Arguments Message JsonProtocol.
From S2P Require Import MessageBuffer.

Local Open Scope Z_scope.

(** [OutboundPayload] *)
Inductive OutboundPayload : Type :=
| OText (s : string)
| OBinary (b : list u8).

(** [QueueCommand]; a response channel is its number. *)
Inductive QueueCommand : Type :=
| Send (payload : OutboundPayload) (response : nat)
| Shutdown.

Definition same_type (p q : OutboundPayload) : bool :=
  match p, q with OText _, OText _ | OBinary _, OBinary _ => true | _, _ => false end.

(** [push_payload] *)
Definition push_payload (buffer : list OutboundPayload) (payload : OutboundPayload)
    : result Error (list OutboundPayload) :=
  match buffer with
  | first :: _ =>
      if same_type first payload then Ok (buffer ++ [payload])
      else Err (EProtocol "transport send queue received mixed text and binary payloads")
  | [] => Ok (buffer ++ [payload])
  end.

Abbreviation answer := (nat * result Error unit)%type.

(** [fail_pending] *)
Definition fail_pending (pending : list nat) (error : Error) : list answer :=
  map (fun response => (response, Err (EProtocol (error_text error)))) pending.

(** [complete_pending] *)
Definition complete_pending (pending : list nat) (r : result Error unit) : list answer :=
  map (fun response => (response, match r with
                                  | Ok _ => Ok tt
                                  | Err error => Err (EProtocol (error_text error))
                                  end)) pending.

(** The local variables of [drain_ready_commands]: the channel, the buffer, the pending
    responses, the answers given. *)
Record Drained := {
  dr_commands : list QueueCommand;
  dr_buffer : list OutboundPayload;
  dr_pending : list nat;
  dr_answers : list answer;
  dr_taken : list QueueCommand
}.

(** [drain_ready_commands]: takes commands until the channel is empty or one is [Shutdown]. *)
Fixpoint drain_ready_commands (commands : list QueueCommand) (buffer : list OutboundPayload)
    (pending : list nat) : Drained :=
  match commands with
  | [] => {| dr_commands := []; dr_buffer := buffer; dr_pending := pending; dr_answers := [];
             dr_taken := [] |}
  | Send payload response :: commands =>
      match push_payload buffer payload with
      | Err error =>
          let d := drain_ready_commands commands buffer pending in
          {| dr_commands := dr_commands d; dr_buffer := dr_buffer d; dr_pending := dr_pending d;
             dr_answers := (response, Err error) :: dr_answers d;
             dr_taken := Send payload response :: dr_taken d |}
      | Ok buffer =>
          let d := drain_ready_commands commands buffer (pending ++ [response]) in
          {| dr_commands := dr_commands d; dr_buffer := dr_buffer d; dr_pending := dr_pending d;
             dr_answers := dr_answers d; dr_taken := Send payload response :: dr_taken d |}
      end
  | Shutdown :: commands =>
      {| dr_commands := commands; dr_buffer := buffer; dr_pending := [];
         dr_answers := fail_pending pending (EProtocol "connection stopped");
         dr_taken := [Shutdown] |}
  end.

(** The texts of a buffer of texts; [None] is the [unreachable!()] of the source. *)
Fixpoint texts (buffer : list OutboundPayload) : option string :=
  match buffer with
  | [] => Some EmptyString
  | OText s :: buffer => (fun t => s +:+ t) <$> texts buffer
  | OBinary _ :: _ => None
  end.

Fixpoint binaries (buffer : list OutboundPayload) : option (list u8) :=
  match buffer with
  | [] => Some []
  | OBinary b :: buffer => (fun t => b ++ t) <$> binaries buffer
  | OText _ :: _ => None
  end.

Section queue.
Context `{TR : Transport T} (tr : transport).

(** [flush_buffer]; the buffer is drained whatever the result. *)
Definition flush_buffer (buffer : list OutboundPayload) (w : T) : option (result Error unit * T) :=
  match buffer with
  | [] => Some (Ok tt, w)
  | OText _ :: _ => (fun payload => send_text tr payload w) <$> texts buffer
  | OBinary _ :: _ => (fun payload => send_binary tr payload w) <$> binaries buffer
  end.

(** The queue and its worker; [q_answers], [q_taken] and [q_flushed] keep what happened, and no
    operation reads them. *)
Record Queue := {
  q_commands : list QueueCommand;
  q_senders : bool;
  q_buffer : list OutboundPayload;
  q_pending : list nat;
  q_wait : bool;
  q_running : bool;
  q_answers : list answer;
  q_taken : list QueueCommand;
  q_flushed : list (list OutboundPayload);
  q_world : T
}.

(** [TransportSendQueue::new] *)
Definition queue_new (w : T) : Queue := {|
  q_commands := []; q_senders := true; q_buffer := []; q_pending := []; q_wait := true;
  q_running := true; q_answers := []; q_taken := []; q_flushed := []; q_world := w |}.

(** One iteration of [send_loop].  [None]: the worker is gone, or waits for a command, or
    panicked. *)
Definition loop_iteration (q : Queue) : option Queue :=
  if negb (q_running q) then None
  else if q_wait q then
    match q_commands q with
    | Send payload response :: commands =>
        match push_payload (q_buffer q) payload with
        | Err error =>
            Some {| q_commands := commands; q_senders := q_senders q; q_buffer := q_buffer q;
                    q_pending := q_pending q; q_wait := true; q_running := true;
                    q_answers := q_answers q ++ [(response, Err error)];
                    q_taken := q_taken q ++ [Send payload response];
                    q_flushed := q_flushed q; q_world := q_world q |}
        | Ok buffer =>
            let d := drain_ready_commands commands buffer (q_pending q ++ [response]) in
            Some {| q_commands := dr_commands d; q_senders := q_senders q; q_buffer := dr_buffer d;
                    q_pending := dr_pending d; q_wait := false; q_running := true;
                    q_answers := q_answers q ++ dr_answers d;
                    q_taken := q_taken q ++ Send payload response :: dr_taken d;
                    q_flushed := q_flushed q; q_world := q_world q |}
        end
    | Shutdown :: commands =>
        Some {| q_commands := commands; q_senders := q_senders q; q_buffer := q_buffer q;
                q_pending := []; q_wait := true; q_running := false;
                q_answers := q_answers q ++ fail_pending (q_pending q) (EProtocol "connection stopped");
                q_taken := q_taken q ++ [Shutdown];
                q_flushed := q_flushed q; q_world := q_world q |}
    | [] =>
        if q_senders q then None
        else Some {| q_commands := []; q_senders := false; q_buffer := q_buffer q;
                     q_pending := []; q_wait := true; q_running := false;
                     q_answers :=
                       q_answers q ++ fail_pending (q_pending q) (EProtocol "connection stopped");
                     q_taken := q_taken q; q_flushed := q_flushed q; q_world := q_world q |}
    end
  else
    match flush_buffer (q_buffer q) (q_world q) with
    | None => None
    | Some (r, w) =>
        Some {| q_commands := q_commands q; q_senders := q_senders q; q_buffer := [];
                q_pending := []; q_wait := true; q_running := true;
                q_answers := q_answers q ++ complete_pending (q_pending q) r;
                q_taken := q_taken q;
                q_flushed := q_flushed q ++ (match q_buffer q with [] => [] | b => [b] end);
                q_world := w |}
    end.

(** A caller puts a command into the channel: the first half of [send], and [stop].  The channel
    is closed once the worker is gone. *)
Definition enqueue (c : QueueCommand) (q : Queue) : Queue :=
  if negb (q_running q) then q else
  {| q_commands := q_commands q ++ [c]; q_senders := q_senders q; q_buffer := q_buffer q;
     q_pending := q_pending q; q_wait := q_wait q; q_running := q_running q;
     q_answers := q_answers q; q_taken := q_taken q; q_flushed := q_flushed q;
     q_world := q_world q |}.

(** [TransportSendQueue::send_text], [TransportSendQueue::send_binary]: their first half, with the
    response channel they wait on. *)
Definition queue_send_text (payload : string) (response : nat) (q : Queue) : Queue :=
  enqueue (Send (OText payload) response) q.
Definition queue_send_binary (payload : list u8) (response : nat) (q : Queue) : Queue :=
  enqueue (Send (OBinary payload) response) q.

(** The queue is dropped. *)
Definition drop_senders (q : Queue) : Queue :=
  {| q_commands := q_commands q; q_senders := false; q_buffer := q_buffer q;
     q_pending := q_pending q; q_wait := q_wait q; q_running := q_running q;
     q_answers := q_answers q; q_taken := q_taken q; q_flushed := q_flushed q;
     q_world := q_world q |}.

(** What can happen: commands arrive at any time, the worker goes on when it can. *)
Inductive queue_step : Queue -> Queue -> Prop :=
| step_enqueue c q : queue_step q (enqueue c q)
| step_worker q q' : loop_iteration q = Some q' -> queue_step q q'
| step_dropped q : queue_step q (drop_senders q).

(** A run, with the commands that callers put into the channel. *)
Inductive queue_run (q0 : Queue) : list QueueCommand -> Queue -> Prop :=
| queue_started : queue_run q0 [] q0
| queue_given given c q : queue_run q0 given q -> q_running q = true ->
    queue_run q0 (given ++ [c]) (enqueue c q)
| queue_worked given q q' : queue_run q0 given q -> loop_iteration q = Some q' -> queue_run q0 given q'
| queue_dropped given q : queue_run q0 given q -> queue_run q0 given (drop_senders q).

(** Frames handed to the transport, one after the other, whatever it answers. *)
Definition transmit (w : T) (frame : OutboundPayload) : T :=
  match frame with
  | OText s => (send_text tr s w).2
  | OBinary b => (send_binary tr b w).2
  end.

End queue.
Arguments Queue : clear implicits.

(** ** The invariant *)

Definition is_text (p : OutboundPayload) : bool := match p with OText _ => true | OBinary _ => false end.

(** All payloads of one type. *)
Definition uniform (buffer : list OutboundPayload) : Prop :=
  exists t, Forall (fun p => is_text p = t) buffer.

(** The content of a payload, and that a frame is a batch joined: not empty, of its type, and its
    content one after the other. *)
Definition content (p : OutboundPayload) : list u8 :=
  match p with OText s => bytes_of_string s | OBinary b => b end.
Definition joins (batch : list OutboundPayload) (frame : OutboundPayload) : Prop :=
  batch <> [] /\ Forall (fun p => is_text p = is_text frame) batch /\
  content frame = concat (map content batch).

(** The payloads and the response channels of the commands taken out. *)
Definition sends (cs : list QueueCommand) : list OutboundPayload :=
  omap (fun c => match c with Send p _ => Some p | Shutdown => None end) cs.
Definition callers (cs : list QueueCommand) : list nat :=
  omap (fun c => match c with Send _ r => Some r | Shutdown => None end) cs.

Lemma sends_app cs cs' : sends (cs ++ cs') = sends cs ++ sends cs'.
Proof. apply omap_app. Qed.
Lemma callers_app cs cs' : callers (cs ++ cs') = callers cs ++ callers cs'.
Proof. apply omap_app. Qed.

Lemma answered_map {A} (f : nat -> A) l : map fst (map (fun r => (r, f r)) l) = l.
Proof. rewrite map_map. apply map_id. Qed.

Lemma same_type_spec p q : same_type p q = eqb (is_text p) (is_text q).
Proof. by destruct p, q. Qed.

(** Pushing keeps the buffer uniform, and refuses only a payload of the other type. *)
Lemma push_spec buffer p : uniform buffer ->
  (exists b, push_payload buffer p = Ok b /\ b = buffer ++ [p] /\ uniform b) \/
  (exists e t, push_payload buffer p = Err e /\ is_text p <> t /\ buffer <> [] /\
    Forall (fun p => is_text p = t) buffer).
Proof.
  intros [t Ht]. destruct buffer as [|first buffer]; cbn.
  - left. eexists. split_and!; [done|done|]. exists (is_text p). by constructor.
  - rewrite same_type_spec. pose proof (Forall_inv Ht) as Hf. cbn in Hf.
    destruct (eqb (is_text first) (is_text p)) eqn:E.
    + left. eexists. split_and!; [done|done|]. apply eqb_prop in E. exists t.
      change (Forall (fun p => is_text p = t) ((first :: buffer) ++ [p])).
      apply Forall_app. split; [done|]. constructor; [congruence|done].
    + right. exists (EProtocol "transport send queue received mixed text and binary payloads"), t.
      split_and!; [done| |done|done]. intros Hp. rewrite Hf, Hp, eqb_reflx in E. done.
Qed.

Lemma flush_total `{TR : Transport T} (tr : transport) buffer (w : T) :
  uniform buffer -> flush_buffer tr buffer w <> None.
Proof.
  intros [t Ht]. destruct buffer as [|first buffer]; [done|].
  pose proof (Forall_inv Ht) as Hf. cbn in Hf.
  assert (Htx : forall l, Forall (fun p => is_text p = true) l -> texts l <> None).
  { induction 1 as [|p l Hp _ IH]; [done|]. destruct p; [|done]. cbn. by destruct (texts l). }
  assert (Hbn : forall l, Forall (fun p => is_text p = false) l -> binaries l <> None).
  { induction 1 as [|p l Hp _ IH]; [done|]. destruct p; [done|]. cbn. by destruct (binaries l). }
  destruct first; cbn in Hf; subst t.
  - specialize (Htx _ Ht). unfold flush_buffer. by destruct (texts _).
  - specialize (Hbn _ Ht). unfold flush_buffer. by destruct (binaries _).
Qed.

(** What the drain does to buffer, responses and record. *)
Lemma drain_spec commands buffer pending : uniform buffer ->
  let d := drain_ready_commands commands buffer pending in
  uniform (dr_buffer d) /\
  map fst (dr_answers d) ++ dr_pending d ≡ₚ pending ++ callers (dr_taken d) /\
  commands = dr_taken d ++ dr_commands d /\
  (forall t, Forall (fun p => is_text p = t) (buffer ++ sends (dr_taken d)) ->
    dr_buffer d = buffer ++ sends (dr_taken d)).
Proof.
  revert buffer pending. induction commands as [|[p r|] commands IH]; intros buffer pending Hu; cbv zeta.
  - cbn. by rewrite !app_nil_r.
  - cbn [drain_ready_commands].
    destruct (push_spec buffer p Hu) as [(b & -> & -> & Hb)|(e & t & -> & Hp & Hne & Ht)].
    + destruct (IH (buffer ++ [p]) (pending ++ [r]) Hb) as (H1 & H2 & H3 & H4). cbn.
      split_and!; [done| |by rewrite H3 at 1|].
      * rewrite H2. by rewrite <- app_assoc.
      * intros t Ht. rewrite (H4 t); rewrite <- ?app_assoc; done.
    + destruct (IH buffer pending Hu) as (H1 & H2 & H3 & H4). cbn.
      split_and!; [done| |by rewrite H3 at 1|].
      * rewrite H2. by rewrite Permutation_middle.
      * intros t' Ht'. exfalso. apply Forall_app in Ht' as [Hb [Hp' _]%Forall_cons]. destruct buffer; [done|].
        apply Forall_inv in Ht. apply Forall_inv in Hb. congruence.
  - cbn. unfold fail_pending. rewrite answered_map, !app_nil_r. split_and!; try done.
Qed.

Section invariant.
Context `{TR : Transport T} (tr : transport).

Record queue_ok (q : Queue T) : Prop := {
  qo_uniform : uniform (q_buffer q);
  (** Every command taken out is answered once or still pending. *)
  qo_answers : map fst (q_answers q) ++ q_pending q ≡ₚ callers (q_taken q);
  (** Between batches nothing is left behind. *)
  qo_idle : q_wait q = true -> q_buffer q = [] /\ q_pending q = [];
  qo_batches : Forall (fun b => b <> [] /\ uniform b) (q_flushed q);
  (** Payloads of one type are written in the order they were taken out. *)
  qo_order : forall t, Forall (fun p => is_text p = t) (sends (q_taken q)) ->
    concat (q_flushed q) ++ q_buffer q = sends (q_taken q)
}.

Lemma uniform_nil : uniform [].
Proof. by exists true. Qed.

Lemma iteration_ok q q' : queue_ok q -> loop_iteration tr q = Some q' -> queue_ok q'.
Proof.
  intros [Hu Ha Hi Hb Ho]. unfold loop_iteration.
  destruct (q_running q); [|done]. cbn [negb]. destruct (q_wait q) eqn:Hw.
  - destruct (Hi eq_refl) as [Hbuf Hpend]. rewrite Hbuf, Hpend in *. clear Hi Hu.
    destruct (q_commands q) as [|[p r|] commands].
    + destruct (q_senders q); [done|]. intros [= <-].
      split; cbn; rewrite ?app_nil_r in *; auto using uniform_nil.
    + cbn. intros [= <-]. destruct (drain_spec commands [p] [r]) as (H1 & H2 & H3 & H4).
      { exists (is_text p). by constructor. }
      split; cbn; [done| |done|done|].
      * rewrite map_app, <- app_assoc, H2, callers_app, app_nil_r in *. cbn. by rewrite Ha.
      * intros t. rewrite sends_app. cbn. intros [Ht1 Ht2]%Forall_app. rewrite (H4 t) by done.
        rewrite app_nil_r in Ho. cbn. by rewrite (Ho t).
    + intros [= <-]. rewrite app_nil_r in *. split; cbn; rewrite ?app_nil_r; auto using uniform_nil.
      * by rewrite callers_app, app_nil_r.
      * intros t. rewrite sends_app, app_nil_r. by apply Ho.
  - destruct (flush_buffer tr (q_buffer q) (q_world q)) as [[r w]|]; [|done]. intros [= <-].
    split; cbn; auto using uniform_nil.
    + unfold complete_pending. by rewrite map_app, answered_map, app_nil_r.
    + apply Forall_app. split; [done|]. destruct (q_buffer q) eqn:E; [done|]. by constructor.
    + intros t Ht. etrans; [|apply (Ho t Ht)]. rewrite app_nil_r, concat_app. f_equal.
      destruct (q_buffer q); [done|]. cbn. by rewrite app_nil_r.
Qed.

Lemma queue_reachable_ok w q : rtc (queue_step tr) (queue_new w) q -> queue_ok q.
Proof.
  intros H. assert (Hnew : queue_ok (queue_new w)) by (split; cbn; auto using uniform_nil).
  revert Hnew. induction H as [q0|q0 q1 q2 Hs _ IH]; [done|]. intros Hok. apply IH.
  destruct Hs as [c q'|q' q'' Hit|q'];
    [unfold enqueue; destruct (q_running q'); by destruct Hok; split|by eapply iteration_ok|].
  by destruct Hok; split.
Qed.

Lemma queue_run_steps q0 given q : queue_run tr q0 given q -> rtc (queue_step tr) q0 q.
Proof.
  induction 1 as [|given c q _ IH _|given q q' _ IH Hit|given q _ IH]; [done|..];
    (eapply rtc_r; [exact IH|]); [apply step_enqueue|by apply step_worker|apply step_dropped].
Qed.

(** Commands are taken out of the channel in the order they were put in. *)
Lemma queue_run_taken w given q : queue_run tr (queue_new w) given q -> given = q_taken q ++ q_commands q.
Proof.
  induction 1 as [|given c q _ IH Hrun|given q q' Hq IH Hit|given q _ IH]; [done| | |done].
  - unfold enqueue. rewrite Hrun. cbn. by rewrite IH, app_assoc.
  - subst given. apply queue_run_steps, queue_reachable_ok in Hq. revert Hit. unfold loop_iteration.
    destruct (q_running q); [|done]. cbn [negb].
    destruct (q_wait q); [|destruct (flush_buffer _ _ _) as [[]|]; by try intros [= <-]].
    destruct (q_commands q) as [|[p r|] commands]; [destruct (q_senders q); by try intros [= <-]| |];
      [|intros [= <-]; cbn; by rewrite <- app_assoc].
    destruct (push_spec (q_buffer q) p (qo_uniform _ Hq)) as [(b & -> & _ & Hb)|(e & t & -> & _)];
      intros [= <-]; cbn; rewrite <- app_assoc; [|done].
    destruct (drain_spec commands b (q_pending q ++ [r]) Hb) as (_ & _ & Hc & _). cbn. by rewrite Hc at 1.
Qed.

Lemma texts_joins batch s : texts batch = Some s ->
  Forall (fun p => is_text p = true) batch /\ bytes_of_string s = concat (map content batch).
Proof.
  revert s. induction batch as [|[s'|] batch IH]; intros s; cbn; [by intros [= <-]| |done].
  destruct (texts batch) as [t|]; [|done]. intros [= <-]. destruct (IH t eq_refl) as [Hb Ht].
  split; [by constructor|]. by rewrite <- Ht, bytes_app.
Qed.

Lemma binaries_joins batch b : binaries batch = Some b ->
  Forall (fun p => is_text p = false) batch /\ b = concat (map content batch).
Proof.
  revert b. induction batch as [|[|b'] batch IH]; intros b; cbn; [by intros [= <-]|done|].
  destruct (binaries batch) as [t|]; [|done]. intros [= <-]. destruct (IH t eq_refl) as [Hb Ht].
  split; [by constructor|]. by rewrite <- Ht.
Qed.

(** A flush hands the joined batch to the transport, in one frame. *)
Lemma flush_transmits batch w r w' : flush_buffer tr batch w = Some (r, w') ->
  (batch = [] /\ w' = w) \/ exists frame, joins batch frame /\ w' = transmit tr w frame.
Proof.
  destruct batch as [|[s|b] batch]; [intros [= _ <-]; by left|..]; intros Hf; right.
  - unfold flush_buffer in Hf. destruct (texts _) as [text|] eqn:Ht; [|done]. injection Hf as Hf.
    destruct (texts_joins _ _ Ht) as [Hb Hc]. exists (OText text). split; [by split|]. cbn. by rewrite Hf.
  - unfold flush_buffer in Hf. destruct (binaries _) as [bytes|] eqn:Ht; [|done]. injection Hf as Hf.
    destruct (binaries_joins _ _ Ht) as [Hb Hc]. exists (OBinary bytes). split; [by split|]. cbn. by rewrite Hf.
Qed.

(** The world is that of the frames of the batches. *)
Lemma queue_run_world w q : rtc (queue_step tr) (queue_new w) q -> exists frames,
  Forall2 joins (q_flushed q) frames /\ q_world q = fold_left (transmit tr) frames w.
Proof.
  intros H. assert (Hnew : exists frames, Forall2 joins (q_flushed (queue_new w)) frames /\
    q_world (queue_new w) = fold_left (transmit tr) frames w) by by exists [].
  revert Hnew. induction H as [q0|q0 q1 q2 Hs _ IH]; [done|]. intros (frames & Hj & Hw). apply IH.
  destruct Hs as [c q'|q' q'' Hit|q'];
    [unfold enqueue; destruct (q_running q'); by exists frames| |by exists frames].
  unfold loop_iteration in Hit. destruct (q_running q'); [|done]. cbn [negb] in Hit.
  destruct (q_wait q').
  - exists frames. repeat case_match; simplify_eq/=; done.
  - destruct (flush_buffer tr (q_buffer q') (q_world q')) as [[r w1]|] eqn:Hf; [|done].
    injection Hit as <-. cbn. apply flush_transmits in Hf as [[-> ->]|(frame & Hjoin & ->)].
    + exists frames. by rewrite app_nil_r.
    + exists (frames ++ [frame]). rewrite fold_left_app. cbn. rewrite Hw. split; [|done].
      apply Forall2_app; [done|]. destruct (q_buffer q') eqn:E; [by destruct Hjoin|]. by constructor.
Qed.

(** C19: the send queue keeps the order and loses nothing: whatever is put into it when, the commands
    taken out are the first of those put in, and every caller among them is answered exactly once
    or still pending; and when all payloads are of one type, what was done to the transport is to
    hand it frames, one after the other, each the contents of some consecutive payloads joined,
    and these with what is still buffered are exactly the payloads taken out, in order. *)
Theorem send_queue_in_order (w : T) (given : list QueueCommand) (q : Queue T) (t : bool) :
  queue_run tr (queue_new w) given q -> exists taken,
  given = taken ++ q_commands q /\
  map fst (q_answers q) ++ q_pending q ≡ₚ callers taken /\
  (Forall (fun p => is_text p = t) (sends taken) -> exists batches frames,
    q_world q = fold_left (transmit tr) frames w /\ Forall2 joins batches frames /\
    concat batches ++ q_buffer q = sends taken).
Proof.
  intros Hrun. pose proof (queue_run_steps _ _ _ Hrun) as Hs. exists (q_taken q).
  pose proof (queue_reachable_ok _ _ Hs) as [Hu Ha Hi Hb Ho].
  destruct (queue_run_world _ _ Hs) as (frames & Hj & Hw).
  split_and!; [by eapply queue_run_taken|done|]. intros Ht. exists (q_flushed q), frames.
  split_and!; [done|done|by apply (Ho t)].
Qed.

(** The worker makes progress: it never meets the [unreachable!()] of a mixed buffer, and
    it stops only at the channel: a running worker cannot go on exactly when it waits on an empty
    channel that callers still hold. *)
Theorem send_queue_progress (w : T) (q : Queue T) :
  rtc (queue_step tr) (queue_new w) q -> q_running q = true ->
  loop_iteration tr q = None <->
    (q_wait q = true /\ q_commands q = [] /\ q_senders q = true).
Proof.
  intros [Hu Ha Hi Hb Ho]%queue_reachable_ok Hrun. unfold loop_iteration. rewrite Hrun. cbn [negb].
  destruct (q_wait q); [|].
  - destruct (Hi eq_refl) as [-> _]. destruct (q_commands q) as [|[p r|] cs]; cbn; [|naive_solver..].
    destruct (q_senders q); naive_solver.
  - pose proof (flush_total tr (q_buffer q) (q_world q) Hu).
    destruct (flush_buffer tr (q_buffer q) (q_world q)) as [[r w']|]; naive_solver.
Qed.

(** A shutdown can be lost: when [stop] is called while a send is still in the channel, the
    worker takes the shutdown out together with the send, tells the caller that the connection
    stopped, writes the payload all the same, and then waits for another command on a channel
    that nobody closes, so the call of [stop], which waits for the worker, does not return. *)
Theorem shutdown_lost_while_draining (w : T) (s : string) : exists q,
  rtc (queue_step tr) (queue_new w) q /\ q_taken q = [Send (OText s) 0; Shutdown] /\
  q_running q = true /\ loop_iteration tr q = None /\ q_commands q = [] /\
  q_answers q = [(0%nat, Err (EProtocol "protocol error: connection stopped"))] /\
  q_flushed q = [[OText s]].
Proof.
  destruct (send_text tr (s +:+ EmptyString) w) as [r w'] eqn:Hs.
  eexists. split.
  - eapply rtc_l; [apply (step_enqueue _ (Send (OText s) 0))|].
    eapply rtc_l; [apply (step_enqueue _ Shutdown)|].
    eapply rtc_l; [eapply step_worker; reflexivity|].
    eapply rtc_l; [eapply step_worker|apply rtc_refl].
    unfold loop_iteration. cbn -[String.append]. rewrite Hs. reflexivity.
  - done.
Qed.

End invariant.
