(* ===== verification/Handshake.v ===== *)
(** * The handshake ([src/handshake.rs])

    The request is one JSON record; the response is the first record of what arrives, as text or
    as bytes, and what follows it belongs to the hub protocol.  How [serde] writes the request
    and reads the response is the parameter [HandshakeText]. *)

From Stdlib Require Import ZArith Lia String.
From stdpp Require Import base list strings.
From S2P Require Import Prelude Framing Utf8 Errors.

Local Open Scope Z_scope.

(** [LEGACY_HANDSHAKE_VERSION] *)
Definition LEGACY_HANDSHAKE_VERSION : Z := 1.

(** [HandshakeRequest] *)
Record HandshakeRequest := { hr_protocol : string; hr_version : Z }.

(** [resolve_handshake_version] *)
Definition resolve_handshake_version (use_stateful_reconnect : bool) (hub_protocol_version : Z)
    (override_version : option Z) : Z :=
  default (if use_stateful_reconnect then hub_protocol_version else LEGACY_HANDSHAKE_VERSION)
    override_version.

(** [HandshakeResponse] *)
Record HandshakeResponse := { hs_error : option string; hs_minor_version : option Z }.

(** [RemainingData] *)
Inductive RemainingData : Type :=
| RText (s : string)
| RBytes (b : list u8).

(** [HandshakeResult] *)
Record HandshakeResult := { response : HandshakeResponse; remaining : option RemainingData }.

(** [HandshakeInput] *)
Inductive HandshakeInput : Type :=
| HText (text : string)
| HBinary (bytes : list u8).

(** The derived [Serialize] of the request and [Deserialize] of the response. *)
Class HandshakeText := {
  request_to_string : HandshakeRequest -> result string string;
  response_from_str : string -> result string HandshakeResponse
}.

(** The index of the first separator. *)
Definition separator_index (bytes : list u8) : option nat :=
  fst <$> list_find (fun b => b = Byte.x1e) bytes.

(** [split_text_handshake] *)
Definition split_text_handshake (text : string) : result Error (string * option RemainingData) :=
  let bytes := bytes_of_string text in
  match separator_index bytes with
  | None => Err (EFraming IncompleteMessage)
  | Some i =>
      let response_length := (i + 1)%nat in
      let message_data := string_of_bytes (take response_length bytes) in
      let remaining := if (response_length <? length bytes)%nat
                       then Some (RText (string_of_bytes (drop response_length bytes))) else None in
      Ok (message_data, remaining)
  end.

(** [split_binary_handshake] *)
Definition split_binary_handshake (bytes : list u8) : result Error (string * option RemainingData) :=
  match separator_index bytes with
  | None => Err (EFraming IncompleteMessage)
  | Some i =>
      let response_length := (i + 1)%nat in
      message_data ← map_err EHandshake (from_utf8 (take response_length bytes));
      let remaining := if (response_length <? length bytes)%nat
                       then Some (RBytes (drop response_length bytes)) else None in
      Ok (message_data, remaining)
  end.

Section handshake.
Context `{HT : HandshakeText}.

(** [HandshakeProtocol::write_request] *)
Definition write_request (request : HandshakeRequest) : result Error string :=
  json ← map_err EJson (request_to_string request);
  Ok (Text.write json).

(** [HandshakeProtocol::parse_response] *)
Definition parse_response (data : HandshakeInput) : result Error HandshakeResult :=
  '(message_data, remaining) ←
    match data with
    | HText text => split_text_handshake text
    | HBinary bytes => split_binary_handshake bytes
    end;
  messages ← map_err EFraming (Text.parse message_data);
  response_json ← ok_or (head messages) (EHandshake "empty handshake response");
  response ← map_err EJson (response_from_str response_json);
  Ok {| response := response; remaining := remaining |}.

(** The data that follows the record, if any. *)
Definition rest_text (s : string) : option RemainingData :=
  match s with EmptyString => None | _ => Some (RText s) end.
Definition rest_bytes (b : list u8) : option RemainingData :=
  match b with [] => None | _ => Some (RBytes b) end.

Lemma separator_found (record rest : list u8) :
  Forall (fun b => b <> Byte.x1e) record ->
  separator_index (record ++ Byte.x1e :: rest) = Some (length record).
Proof.
  intros Hr. unfold separator_index.
  assert (Hf : list_find (fun b => b = Byte.x1e) (record ++ Byte.x1e :: rest) =
    Some (length record, Byte.x1e)).
  { apply list_find_Some. rewrite list_lookup_middle by done. split_and!; [done|done|].
    intros j b Hj Hlt. rewrite lookup_app_l in Hj by done. rewrite Forall_lookup in Hr. by eapply Hr. }
  by rewrite Hf.
Qed.

Lemma separator_missing (bytes : list u8) :
  Forall (fun b => b <> Byte.x1e) bytes -> separator_index bytes = None.
Proof.
  intros H. unfold separator_index. assert (Hf : list_find (fun b => b = Byte.x1e) bytes = None).
  { by apply list_find_None. }
  by rewrite Hf.
Qed.

Lemma record_bytes s : Text.contains Text.RECORD_SEPARATOR s = false ->
  Forall (fun b => b <> Byte.x1e) (bytes_of_string s).
Proof.
  unfold bytes_of_string. induction s as [|c s IH]; cbn; [by constructor|].
  intros [Hc Hs]%orb_false_iff. constructor; [|by apply IH].
  intros Hb. apply (f_equal Ascii.ascii_of_byte) in Hb. rewrite Ascii.ascii_of_byte_of_ascii in Hb.
  subst c. done.
Qed.

Lemma write_bytes s : bytes_of_string (Text.write s) = bytes_of_string s ++ [Byte.x1e].
Proof. apply bytes_app. Qed.

Lemma string_of_app l k : string_of_bytes (l ++ k) = (string_of_bytes l +:+ string_of_bytes k)%string.
Proof.
  rewrite <- (string_of_bytes_of_string (_ +:+ _)), bytes_app, !bytes_of_string_of_bytes. done.
Qed.

(** The first record of [record ++ separator ++ rest]: what comes first and what is left. *)
Lemma split_first (json : string) (l : list u8) :
  let record := bytes_of_string json in
  take (length record + 1) (record ++ Byte.x1e :: l) = bytes_of_string (Text.write json) /\
  drop (length record + 1) (record ++ Byte.x1e :: l) = l /\
  (length record + 1 <? length (record ++ Byte.x1e :: l))%nat = negb (bool_decide (l = [])).
Proof.
  cbv zeta. rewrite write_bytes. split_and!.
  - change (Byte.x1e :: l) with ([Byte.x1e] ++ l). rewrite app_assoc.
    apply take_app_length'. rewrite length_app. done.
  - change (Byte.x1e :: l) with ([Byte.x1e] ++ l). rewrite app_assoc.
    apply drop_app_length'. rewrite length_app. done.
  - rewrite length_app. destruct l; cbn; [apply Nat.ltb_ge|apply Nat.ltb_lt]; lia.
Qed.

Lemma parse_one_record json : Text.is_record json = true -> Text.parse (Text.write json) = Ok [json].
Proof.
  intros Hrec. pose proof (Text.parse_write_all [json]) as Ht. cbn [Text.write_all foldr] in Ht.
  rewrite Text.string_app_nil_r in Ht. apply Ht; [done|by constructor].
Qed.

Lemma record_no_separator json : Text.is_record json = true ->
  Forall (fun b => b <> Byte.x1e) (bytes_of_string json).
Proof.
  unfold Text.is_record. intros [_ Hsep]%andb_true_iff. by apply record_bytes, negb_true_iff.
Qed.

(** A response record and what follows it, in a text frame. *)
Lemma parse_response_text (json rest : string) (r : HandshakeResponse) :
  Text.is_record json = true -> response_from_str json = Ok r ->
  parse_response (HText (Text.write json +:+ rest)) = Ok {| response := r; remaining := rest_text rest |}.
Proof.
  intros Hrec Hr. unfold parse_response, split_text_handshake.
  rewrite bytes_app, write_bytes, <- app_assoc. cbn [app].
  rewrite separator_found by by apply record_no_separator. cbv zeta.
  destruct (split_first json (bytes_of_string rest)) as (-> & -> & ->). rewrite !string_of_bytes_of_string.
  cbn -[Text.parse Text.write]. rewrite parse_one_record by done. cbn. rewrite Hr. by destruct rest.
Qed.

(** The same in a binary frame. *)
Lemma parse_response_binary (json : string) (bytes : list u8) (r : HandshakeResponse) :
  Text.is_record json = true -> is_str json = true -> response_from_str json = Ok r ->
  parse_response (HBinary (bytes_of_string (Text.write json) ++ bytes)) =
    Ok {| response := r; remaining := rest_bytes bytes |}.
Proof.
  intros Hrec Hstr Hr.
  assert (Hutf : from_utf8 (bytes_of_string (Text.write json)) = Ok (Text.write json)).
  { apply from_utf8_str. unfold is_str. rewrite write_bytes. by apply utf8_valid_app. }
  unfold parse_response, split_binary_handshake. rewrite write_bytes, <- app_assoc. cbn [app].
  rewrite separator_found by by apply record_no_separator. cbv zeta.
  destruct (split_first json bytes) as (-> & -> & ->). rewrite Hutf.
  cbn -[Text.parse Text.write]. rewrite parse_one_record by done. cbn. rewrite Hr. by destruct bytes.
Qed.

(** The handshake takes exactly the first record: a response record followed by anything,
    in a text or in a binary transport, gives the response [serde] reads from it and hands what
    follows to the hub protocol, in the form of the transport; without a separator the response
    is incomplete. *)
Theorem handshake_splits_first_record (json : string) (rest : string) (bytes : list u8)
    (r : HandshakeResponse) :
  Text.is_record json = true -> is_str json = true -> response_from_str json = Ok r ->
  parse_response (HText (Text.write json +:+ rest)) =
    Ok {| response := r; remaining := rest_text rest |} /\
  parse_response (HBinary (bytes_of_string (Text.write json) ++ bytes)) =
    Ok {| response := r; remaining := rest_bytes bytes |} /\
  parse_response (HText json) = Err (EFraming IncompleteMessage) /\
  parse_response (HBinary (bytes_of_string json)) = Err (EFraming IncompleteMessage).
Proof.
  intros Hrec Hstr Hr. pose proof (record_no_separator _ Hrec) as Hbytes. split_and!.
  - by apply parse_response_text.
  - by apply parse_response_binary.
  - unfold parse_response, split_text_handshake. by rewrite separator_missing.
  - unfold parse_response, split_binary_handshake. by rewrite separator_missing.
Qed.

End handshake.
