(* ===== verification/Negotiate.v ===== *)
(** * Negotiation ([src/negotiate.rs], [src/access_token.rs], [src/transport/mod.rs])

    The client posts to the hub's [/negotiate], follows redirects, and asks the token factory
    for a fresh token after a [401].  The HTTP client and the URL parser are the parameters
    [HttpClient] and [UrlLib]; a token factory is an action on the same world as the client.
    [NegState] also records what was asked, of whom and with which token. *)

From Stdlib Require Import ZArith Lia Ascii String.
From stdpp Require Import base list strings pretty.
From S2P Require Import Prelude Framing Errors.

Local Open Scope Z_scope.

(** ** Parameters *)

(** The [url] crate. *)
Class UrlLib := {
  Url : Type;
  url_parse : string -> result string Url;
  url_path : Url -> string;
  url_set_path : string -> Url -> Url;
  url_clear_fragment : Url -> Url;
  query_pairs : Url -> list (string * string);
  url_clear_query : Url -> Url;
  append_pair : string -> string -> Url -> Url;
  url_to_string : Url -> string
}.

(** [NegotiateResponse] *)
Record NegotiateResponse := {
  nr_url : option string;
  nr_access_token : option string;
  nr_error : option string;
  nr_connection_id : option string;
  nr_connection_token : option string;
  nr_negotiate_version : option Z;
  nr_use_stateful_reconnect : option bool
}.

(** The HTTP client: a post of a URL with headers gives a status and a body. *)
Class HttpClient (W : Type) := {
  Body : Type;
  http_post : string -> list (string * string) -> W -> result string (Z * Body) * W;
  status_text : Z -> string;
  body_json : Body -> result string NegotiateResponse
}.

(** [AccessTokenFactory] *)
Definition AccessTokenFactory (W : Type) : Type := W -> result Error string * W.

(** ** URLs *)

(** [DEFAULT_NEGOTIATE_VERSION] *)
Definition DEFAULT_NEGOTIATE_VERSION : Z := 1.
(** [MAX_NEGOTIATE_REDIRECTS] *)
Definition MAX_NEGOTIATE_REDIRECTS : Z := 100.

(** [NegotiateOptions] *)
Record NegotiateOptions := {
  no_negotiate_version : Z;
  no_use_stateful_reconnect : bool;
  no_headers : list (string * string);
  no_timeout : Z
}.

(** [NegotiateOptions::default], the timeout in seconds. *)
Definition negotiate_options_default : NegotiateOptions := {|
  no_negotiate_version := DEFAULT_NEGOTIATE_VERSION;
  no_use_stateful_reconnect := false;
  no_headers := [];
  no_timeout := 100
|}.

(** [path.ends_with('/')], and the path without its last character. *)
Fixpoint ends_with_slash (s : string) : bool :=
  match s with
  | EmptyString => false
  | String c EmptyString => Ascii.eqb c "/"%char
  | String _ s => ends_with_slash s
  end.

Fixpoint pop (s : string) : string :=
  match s with
  | EmptyString | String _ EmptyString => EmptyString
  | String c s => String c (pop s)
  end.

(** [s.strip_prefix(p)] *)
Fixpoint strip_prefix (p s : string) : option string :=
  match p, s with
  | EmptyString, _ => Some s
  | String c p, String d s => if Ascii.eqb c d then strip_prefix p s else None
  | String _ _, EmptyString => None
  end.

(** [s.replacen(from, to, 1)]: the first occurrence. *)
Fixpoint replace_first (from to s : string) : string :=
  match strip_prefix from s with
  | Some rest => (to +:+ rest)%string
  | None => match s with EmptyString => EmptyString | String c s => String c (replace_first from to s) end
  end.

Definition non_empty (token : option string) : option string :=
  match token with Some EmptyString => None | t => t end.

Section urls.
Context `{UL : UrlLib}.

(** The query pairs appended one after the other. *)
Definition append_pairs (pairs : list (string * string)) (u : Url) : Url :=
  foldl (fun u '(k, v) => append_pair k v u) u pairs.

(** [append_access_token] *)
Definition append_access_token (url : string) (access_token : option string) : result Error string :=
  match non_empty access_token with
  | None => Ok url
  | Some token =>
      parsed ← map_err EUrlParse (url_parse url);
      Ok (url_to_string (append_pair "access_token" token parsed))
  end.

(** [redact_access_token] *)
Definition redact_access_token (url : string) : string :=
  match url_parse url with
  | Err _ => "<unparsable url>"
  | Ok parsed =>
      if existsb (fun p => String.eqb (fst p) "access_token") (query_pairs parsed) then
        url_to_string (append_pairs
          (map (fun '(k, v) => (k, if String.eqb k "access_token" then "***"%string else v))
            (query_pairs parsed))
          (url_clear_query parsed))
      else url
  end.

(** [resolve_negotiate_url] *)
Definition resolve_negotiate_url (hub_url : string) (options : NegotiateOptions)
    : result Error string :=
  negotiate_url ← map_err EUrlParse (url_parse hub_url);
  let path := url_path negotiate_url in
  let path := if ends_with_slash path && (1 <? String.length path)%nat then pop path else path in
  let negotiate_url := url_clear_fragment (url_set_path (path +:+ "/negotiate") negotiate_url) in
  let pairs := filter (fun p => fst p <> "negotiateVersion" /\ fst p <> "useStatefulReconnect")%string
    (query_pairs negotiate_url) in
  let pairs := pairs ++ [("negotiateVersion"%string, pretty (no_negotiate_version options))] in
  let pairs := if no_use_stateful_reconnect options
    then pairs ++ [("useStatefulReconnect", "true")]%string else pairs in
  Ok (url_to_string (append_pairs pairs (url_clear_query negotiate_url))).

(** [build_websocket_url] *)
Definition build_websocket_url (base_url connection_token : string) (access_token : option string)
    : result Error string :=
  parsed ← map_err EUrlParse (url_parse base_url);
  let parsed := url_clear_fragment parsed in
  let pairs := filter (fun p => fst p <> "negotiateVersion")%string (query_pairs parsed) in
  let pairs := pairs ++ [("id"%string, connection_token)] in
  let url := url_to_string (append_pairs pairs (url_clear_query parsed)) in
  let url := replace_first "https://" "wss://" url in
  let url := replace_first "http://" "ws://" url in
  append_access_token url access_token.

End urls.

(** ** Responses *)

(** [NegotiateResponse::websocket_token] *)
Definition websocket_token (r : NegotiateResponse) : result Error string :=
  match nr_error r with
  | Some error => Err (ENegotiate error)
  | None =>
      match nr_connection_token r, nr_connection_id r with
      | Some token, _ => Ok token
      | None, Some id => Ok id
      | None, None => Err (ENegotiate "missing connectionToken and connectionId")
      end
  end.

(** [NegotiateResponse::normalize] *)
Definition normalize (r : NegotiateResponse) : NegotiateResponse :=
  if default 0 (nr_negotiate_version r) <? 1 then
    {| nr_url := nr_url r; nr_access_token := nr_access_token r; nr_error := nr_error r;
       nr_connection_id := nr_connection_id r;
       nr_connection_token :=
         match nr_connection_token r with Some t => Some t | None => nr_connection_id r end;
       nr_negotiate_version := nr_negotiate_version r;
       nr_use_stateful_reconnect := nr_use_stateful_reconnect r |}
  else r.

(** [NegotiateResult] *)
Record NegotiateResult := {
  ng_response : NegotiateResponse;
  ng_access_token : option string;
  ng_url : string;
  ng_token_from_server : bool
}.

(** ** The requests *)

(** The world, and the record of the requests made (the hub URL, the token, the answer) and of
    the calls of the token factory. *)
Record NegState (W : Type) := {
  ns_world : W;
  ns_requests : list (string * option string * result Error NegotiateResponse);
  ns_factory_calls : nat
}.
Arguments ns_world {W} s : rename.
Arguments ns_requests {W} s : rename.
Arguments ns_factory_calls {W} s : rename.

(** [TokenSource] *)
Inductive TokenSource (W : Type) : Type :=
| Fixed (t : option string)
| Factory (factory : AccessTokenFactory W) (t : option string).
Arguments Fixed {W} t.
Arguments Factory {W} factory t.

(** [TokenSource::token], [TokenSource::into_token] *)
Definition token {W} (s : TokenSource W) : option string :=
  match s with Fixed t | Factory _ t => t end.

Section negotiate.
Context `{UL : UrlLib} `{HC : HttpClient W}.

(** [access_token::resolve] *)
Definition resolve (factory : option (AccessTokenFactory W)) (s : NegState W)
    : result Error (option string) * NegState W :=
  match factory with
  | None => (Ok None, s)
  | Some factory =>
      let '(r, w) := factory (ns_world s) in
      (non_empty ∘ Some <$> r,
       {| ns_world := w; ns_requests := ns_requests s; ns_factory_calls := S (ns_factory_calls s) |})
  end.

(** [TokenSource::refresh] *)
Definition refresh (src : TokenSource W) (s : NegState W)
    : result Error bool * TokenSource W * NegState W :=
  match src with
  | Fixed _ => (Ok false, src, s)
  | Factory factory _ =>
      match resolve (Some factory) s with
      | (Ok t, s) => (Ok true, Factory factory t, s)
      | (Err e, s) => (Err e, src, s)
      end
  end.

(** The headers of the request. *)
Definition request_headers (options : NegotiateOptions) (access_token : option string)
    : list (string * string) :=
  [("Accept", "application/json")]%string ++ no_headers options ++
  match non_empty access_token with
  | Some t => [("Authorization"%string, ("Bearer " +:+ t)%string)]
  | None => []
  end.

(** [negotiate_once] *)
Definition negotiate_once (hub_url : string) (options : NegotiateOptions)
    (access_token : option string) (s : NegState W) : result Error NegotiateResponse * NegState W :=
  match resolve_negotiate_url hub_url options with
  | Err e => (Err e, s)
  | Ok negotiate_url =>
      let '(r, w) := http_post negotiate_url (request_headers options access_token) (ns_world s) in
      let answer :=
        '(status, body) ← map_err EHttp r;
        if status =? 200 then normalize <$> map_err EHttp (body_json body)
        else if status =? 401 then Err (EUnauthorized "negotiate returned 401 Unauthorized")
        else Err (ENegotiate
               ("unexpected status code returned from negotiate: " +:+ status_text status)) in
      (answer, {| ns_world := w; ns_requests := ns_requests s ++ [(hub_url, access_token, answer)];
                  ns_factory_calls := ns_factory_calls s |})
  end.

(** The [match] on the first request of an iteration: on a [401] one more request with a fresh
    token, when there is one. *)
Definition request_with_refresh (url : string) (options : NegotiateOptions) (src : TokenSource W)
    (s : NegState W) : result Error NegotiateResponse * TokenSource W * NegState W :=
  match negotiate_once url options (token src) s with
  | (Err (EUnauthorized text), s) =>
      match refresh src s with
      | (Err e, src, s) => (Err e, src, s)
      | (Ok true, src, s) => let '(r, s) := negotiate_once url options (token src) s in (r, src, s)
      | (Ok false, src, s) => (Err (EUnauthorized text), src, s)
      end
  | (r, s) => (r, src, s)
  end.

(** The loop of [negotiate_with_source]; [None] when the fuel is used up. *)
Fixpoint negotiate_loop (fuel : nat) (options : NegotiateOptions) (current_url : string)
    (redirects : Z) (src : TokenSource W) (token_from_server : bool) (s : NegState W)
    : option (result Error NegotiateResult * NegState W) :=
  match fuel with
  | O => None
  | S fuel =>
      match request_with_refresh current_url options src s with
      | (Err e, _, s) => Some (Err e, s)
      | (Ok response, src, s) =>
          match nr_error response with
          | Some error => Some (Err (ENegotiate error), s)
          | None =>
              if default false (nr_use_stateful_reconnect response) &&
                 negb (no_use_stateful_reconnect options) then
                Some (Err (ENegotiate
                  "client did not negotiate stateful reconnect but the server did"), s)
              else
                let '(src, token_from_server) :=
                  match nr_access_token response with
                  | Some server_token => (Fixed (Some server_token), true)
                  | None => (src, token_from_server)
                  end in
                match nr_url response with
                | None =>
                    Some (Ok {| ng_response := response; ng_access_token := token src;
                                ng_url := current_url;
                                ng_token_from_server := token_from_server |}, s)
                | Some redirect_url =>
                    if MAX_NEGOTIATE_REDIRECTS <=? redirects then
                      Some (Err (ENegotiate "negotiate redirection limit exceeded"), s)
                    else
                      negotiate_loop fuel options redirect_url (redirects + 1) src
                        token_from_server s
                end
          end
      end
  end.

(** [negotiate_with_source]; the fuel is the number of iterations the redirect limit allows. *)
Definition negotiate_with_source (hub_url : string) (options : NegotiateOptions)
    (src : TokenSource W) (s : NegState W) : option (result Error NegotiateResult * NegState W) :=
  negotiate_loop (S (Z.to_nat MAX_NEGOTIATE_REDIRECTS)) options hub_url 0 src false s.

(** [negotiate_with_client] *)
Definition negotiate_with_client (hub_url : string) (options : NegotiateOptions)
    (access_token : option string) (s : NegState W)
    : option (result Error NegotiateResult * NegState W) :=
  negotiate_with_source hub_url options (Fixed access_token) s.

(** [negotiate_with_token_factory] *)
Definition negotiate_with_token_factory (hub_url : string) (options : NegotiateOptions)
    (factory : option (AccessTokenFactory W)) (s : NegState W)
    : option (result Error NegotiateResult * NegState W) :=
  match factory with
  | Some factory =>
      match resolve (Some factory) s with
      | (Err e, s) => Some (Err e, s)
      | (Ok t, s) => negotiate_with_source hub_url options (Factory factory t) s
      end
  | None => negotiate_with_source hub_url options (Fixed None) s
  end.

(** ** What the requests look like *)

(** A sequence of requests as the protocol allows it, starting at [url], with the token the server
    issued last, if any: a redirect is followed, a server's token is used from then on, a [401]
    is answered by at most one more request and by none once the server issued a token, anything
    else ends the sequence. *)
Fixpoint conforms (url : string) (server : option string) (retried : bool)
    (trace : list (string * option string * result Error NegotiateResponse)) : Prop :=
  match trace with
  | [] => True
  | (u, t, answer) :: rest =>
      u = url /\ (server = None \/ t = server) /\
      match answer with
      | Ok response =>
          match nr_url response with
          | Some url => rest = [] \/
              conforms url (match nr_access_token response with None => server | t => t end) false rest
          | None => rest = []
          end
      | Err (EUnauthorized _) => rest = [] \/ (retried = false /\ server = None /\ conforms url server true rest)
      | Err _ => rest = []
      end
  end.

(** The token the server issued last. *)
Definition issued (trace : list (string * option string * result Error NegotiateResponse))
    : option string :=
  last (omap (fun '(_, _, answer) => match answer with Ok r => nr_access_token r | Err _ => None end)
    trace).

(** How many requests one iteration can make. *)
Definition per_round (src : TokenSource W) : nat := match src with Fixed _ => 1 | Factory _ _ => 2 end.

(** The token source agrees with what the server issued. *)
Definition agrees (server : option string) (src : TokenSource W) : Prop :=
  server = None \/ src = Fixed server.

Lemma once_spec url options t s :
  let '(r, s') := negotiate_once url options t s in
  ns_factory_calls s' = ns_factory_calls s /\
  ((exists e, r = Err (EUrlParse e) /\ s' = s) \/
   ns_requests s' = ns_requests s ++ [(url, t, r)]).
Proof.
  unfold negotiate_once. destruct (resolve_negotiate_url url options) as [u|e] eqn:Hu.
  - destruct (http_post _ _ _) as [r w]. cbn. split; [done|]. by right.
  - split; [done|]. left. unfold resolve_negotiate_url in Hu.
    destruct (url_parse url); cbn in Hu; [done|]. exists e0. by simplify_eq.
Qed.

(** What may follow the answer [r] of an iteration. *)
Definition may_follow (server : option string) (r : result Error NegotiateResponse)
    (rest : list (string * option string * result Error NegotiateResponse)) : Prop :=
  match r with
  | Ok response =>
      match nr_url response with
      | Some url => rest = [] \/
          conforms url (match nr_access_token response with None => server | t => t end) false rest
      | None => rest = []
      end
  | Err _ => rest = []
  end.

Definition token_of (r : result Error NegotiateResponse) : option string :=
  match r with Ok response => nr_access_token response | Err _ => None end.

(** What one iteration does. *)
Record round_ok (url : string) (server : option string) (src : TokenSource W) (s : NegState W)
    (r : result Error NegotiateResponse) (src' : TokenSource W) (s' : NegState W)
    (trace : list (string * option string * result Error NegotiateResponse)) : Prop := {
  ro_requests : ns_requests s' = ns_requests s ++ trace;
  ro_count : (length trace <= per_round src)%nat;
  ro_source : per_round src' = per_round src;
  ro_calls : (ns_factory_calls s' <= ns_factory_calls s + (per_round src - 1))%nat;
  ro_agrees : agrees server src';
  ro_issued : issued trace = token_of r;
  ro_conforms : forall rest, may_follow server r rest -> conforms url server false (trace ++ rest);
  ro_last : match r with
            | Ok response => last trace = Some (url, token src', Ok response)
            | Err _ => True
            end
}.

Lemma agrees_token server src : agrees server src -> server = None \/ token src = server.
Proof. intros [->| ->]; [by left|by right]. Qed.

(** A single request. *)
Lemma once_ok url options src s server : agrees server src ->
  let '(r, s') := negotiate_once url options (token src) s in
  exists trace, round_ok url server src s r src s' trace /\ (length trace <= 1)%nat /\
    ns_factory_calls s' = ns_factory_calls s /\
    (forall text rest, r = Err (EUnauthorized text) -> server = None ->
      conforms url server true rest -> conforms url server false (trace ++ rest)) /\
    (forall rest, may_follow server r rest -> conforms url server true (trace ++ rest)).
Proof.
  intros Hag. pose proof (once_spec url options (token src) s) as H.
  destruct (negotiate_once url options (token src) s) as [r s'].
  destruct H as [Hcalls [(e & -> & ->)|Hreq]].
  - exists []. split_and!; [|cbn; lia|done|done|by intros rest ->].
    split; cbn; try done; [by rewrite app_nil_r|lia|lia|by intros rest ->].
  - assert (Hc : forall retried rest, may_follow server r rest ->
      conforms url server retried ([(url, token src, r)] ++ rest)).
    { intros retried rest Hr. cbn. split_and!; [done|by apply agrees_token|].
      destruct r as [response|[]]; cbn in Hr; auto. }
    exists [(url, token src, r)]. split_and!; [|cbn; lia|done| |by auto].
    + split; cbn; try done; [by destruct src; cbn; lia|lia| |exact (Hc false)|by destruct r].
      unfold issued. cbn. destruct r as [response|]; cbn; [|done].
      by destruct (nr_access_token response).
    + intros text rest -> Hs Hr. cbn. split_and!; [done|by left|]. right. done.
Qed.

Lemma issued_app l k : issued (l ++ k) = match issued k with None => issued l | t => t end.
Proof. unfold issued. rewrite omap_app, last_app. by destruct (last (omap _ k)). Qed.

(** One iteration. *)
Lemma request_spec url options src s server : agrees server src ->
  let '(r, src', s') := request_with_refresh url options src s in
  exists trace, round_ok url server src s r src' s' trace.
Proof.
  intros Hag. unfold request_with_refresh.
  pose proof (once_ok url options src s server Hag) as H.
  destruct (negotiate_once url options (token src) s) as [r s1].
  destruct H as (trace & Hround & Hlen & Hcalls & Hretry & _).
  destruct r as [response|e]; [by exists trace|]. destruct e; try by exists trace.
  destruct src as [t|factory t]; [by exists trace|]. cbn [refresh].
  assert (server = None) as -> by (destruct Hag as [->|]; done).
  unfold resolve. destruct (factory (ns_world s1)) as [[t'|e] w]; cbn -[non_empty].
  - set (s2 := {| ns_world := w; ns_requests := ns_requests s1;
                  ns_factory_calls := S (ns_factory_calls s1) |}).
    set (src2 := Factory factory (non_empty (Some t'))).
    pose proof (once_ok url options src2 s2 None ltac:(by left)) as H.
    cbn [token src2] in H.
    destruct (negotiate_once url options (non_empty (Some t')) s2) as [r s3].
    destruct H as (trace2 & Hround2 & Hlen2 & Hcalls2 & _ & Hconf2).
    exists (trace ++ trace2). destruct Hround, Hround2.
    split; cbn in *; try done.
    + by rewrite ro_requests1, ro_requests0, app_assoc.
    + rewrite length_app. lia.
    + lia.
    + rewrite issued_app, ro_issued1, ro_issued0. by destruct (token_of r).
    + intros rest Hr. rewrite <- app_assoc. by eapply Hretry, Hconf2.
    + destruct r; [|done]. rewrite last_app, ro_last1. done.
  - exists trace. destruct Hround. split; cbn in *; try done; lia.
Qed.

(** A successful result, given the requests made. *)
Definition success (options : NegotiateOptions) (server : option string)
    (trace : list (string * option string * result Error NegotiateResponse))
    (res : NegotiateResult) : Prop :=
  let server := match issued trace with None => server | t => t end in
  nr_error (ng_response res) = None /\ nr_url (ng_response res) = None /\
  (nr_use_stateful_reconnect (ng_response res) = Some true ->
    no_use_stateful_reconnect options = true) /\
  ng_token_from_server res = bool_decide (is_Some server) /\
  exists t, last trace = Some (ng_url res, t, Ok (ng_response res)) /\
    ng_access_token res = match server with None => t | t' => t' end.

(** A run of the loop that may make [rounds] iterations. *)
Record negotiated (options : NegotiateOptions) (rounds : nat) (url : string)
    (server : option string) (src : TokenSource W) (s : NegState W)
    (r : result Error NegotiateResult) (s' : NegState W)
    (trace : list (string * option string * result Error NegotiateResponse)) : Prop := {
  ne_requests : ns_requests s' = ns_requests s ++ trace;
  ne_conforms : conforms url server false trace;
  ne_count : (length trace <= rounds * per_round src)%nat;
  ne_calls : (ns_factory_calls s' <= ns_factory_calls s + rounds * (per_round src - 1))%nat;
  ne_result : match r with Ok res => success options server trace res | Err _ => True end
}.

Lemma negotiated_stop options rounds url server src s r src' s' trace r' :
  round_ok url server src s r src' s' trace -> may_follow server r [] ->
  match r' with Ok res => success options server trace res | Err _ => True end ->
  negotiated options (S rounds) url server src s r' s' trace.
Proof.
  intros [] Hm Hr. split; [done| |nia|nia|done].
  specialize (ro_conforms0 [] Hm). by rewrite app_nil_r in ro_conforms0.
Qed.

Lemma negotiated_redirect options rounds url url' server src s response src1 src' s1 trace r' s2 trace2 :
  round_ok url server src s (Ok response) src1 s1 trace -> nr_url response = Some url' ->
  (per_round src' <= per_round src)%nat ->
  negotiated options rounds url' (match nr_access_token response with None => server | t => t end)
    src' s1 r' s2 trace2 ->
  negotiated options (S rounds) url server src s r' s2 (trace ++ trace2).
Proof.
  intros [] Hurl Hp []. split.
  - by rewrite ne_requests0, ro_requests0, app_assoc.
  - apply ro_conforms0. unfold may_follow. rewrite Hurl. by right.
  - rewrite length_app. nia.
  - nia.
  - destruct r' as [res|]; [|done]. unfold success in *.
    rewrite issued_app, ro_issued0. cbn [token_of].
    destruct ne_result0 as (? & ? & ? & Hfs & t & Ht & Hat).
    destruct (issued trace2); split_and!; try done; exists t; rewrite last_app, Ht; split; done.
Qed.

Lemma negotiate_loop_ok options : forall fuel url redirects src from_server s server,
  agrees server src -> from_server = bool_decide (is_Some server) ->
  0 <= redirects <= MAX_NEGOTIATE_REDIRECTS ->
  redirects + Z.of_nat fuel = MAX_NEGOTIATE_REDIRECTS + 1 ->
  exists r s' trace,
    negotiate_loop fuel options url redirects src from_server s = Some (r, s') /\
    negotiated options fuel url server src s r s' trace.
Proof.
  induction fuel as [|fuel IH]; intros url redirects src from_server s server Hag Hfs Hred Hfuel; [lia|].
  cbn [negotiate_loop]. pose proof (request_spec url options src s server Hag) as H.
  destruct (request_with_refresh url options src s) as [[r src1] s1]. destruct H as (trace & Hround).
  assert (Hstop : may_follow server r []) by (destruct r as [resp|]; [cbn; destruct (nr_url resp); auto|done]).
  destruct r as [response|e]; [|by eauto 6 using negotiated_stop].
  destruct (nr_error response) eqn:Herr; [by eauto 6 using negotiated_stop|].
  destruct (_ && _) eqn:Hstateful; [by eauto 6 using negotiated_stop|].
  set (server' := match nr_access_token response with None => server | t => t end).
  assert (Hnew : exists src' from', match nr_access_token response with
      | Some server_token => (Fixed (Some server_token), true)
      | None => (src1, from_server) end = (src', from') /\
      agrees server' src' /\ from' = bool_decide (is_Some server') /\
      (per_round src' <= per_round src)%nat /\
      token src' = match server' with None => token src1 | t => t end).
  { pose proof (ro_source _ _ _ _ _ _ _ _ Hround) as Hs. pose proof (ro_agrees _ _ _ _ _ _ _ _ Hround) as Ha.
    subst server'. destruct (nr_access_token response) as [t|]; eexists _, _; split; try done.
    - split_and!; [by right|done|destruct src; cbn; lia|done].
    - split_and!; [done|done|lia|]. destruct server; [|done]. by destruct Ha as [| ->]. }
  destruct Hnew as (src' & from' & -> & Hag' & Hfrom & Hper & Htok).
  destruct (nr_url response) as [url'|] eqn:Hurl.
  - destruct (MAX_NEGOTIATE_REDIRECTS <=? redirects) eqn:Hmax; [by eauto 6 using negotiated_stop|].
    bool_to_prop. destruct (IH url' (redirects + 1) src' from' s1 server' Hag' Hfrom) as (r & s' & trace2 & -> & Hn);
      [lia|lia|]. eauto 6 using negotiated_redirect.
  - eexists _, _, _. split; [done|]. eapply negotiated_stop; [done|done|].
    pose proof (ro_issued _ _ _ _ _ _ _ _ Hround) as Hi. pose proof (ro_last _ _ _ _ _ _ _ _ Hround) as Hl.
    unfold success. cbn in *. rewrite Hi. cbv zeta. fold server'. split_and!; try done.
    + intros Hu. rewrite Hu in Hstateful. by destruct (no_use_stateful_reconnect options).
    + eexists. split; [done|]. by rewrite Htok.
Qed.

(** C16: negotiation always ends: after at most a hundred redirects, with at most one request an
    iteration when the token is fixed and two, with one call of the factory, when it is not.  No
    server can keep the client going. *)
Theorem negotiate_terminates (url : string) (options : NegotiateOptions) (src : TokenSource W)
    (s : NegState W) : exists r s',
  negotiate_with_source url options src s = Some (r, s') /\
  (length (ns_requests s') <= length (ns_requests s) + 101 * per_round src)%nat /\
  (ns_factory_calls s' <= ns_factory_calls s + 101 * (per_round src - 1))%nat.
Proof.
  destruct (negotiate_loop_ok options (S (Z.to_nat MAX_NEGOTIATE_REDIRECTS)) url 0 src false s None)
    as (r & s' & trace & Hr & [Hreq _ Hcount Hcalls _]); [by left|done|done|done|].
  exists r, s'. split; [exact Hr|]. rewrite Hreq, length_app. change (S (Z.to_nat MAX_NEGOTIATE_REDIRECTS)) with 101%nat in *. split; lia.
Qed.


End negotiate.
