(* ===== verification/RustStr.v ===== *)
(** * More of Rust's strings

    The parts of the standard library's [str] that only the test support and the recording
    example use: lossy decoding, lines, trimming, parsing of an integer.  A string is its UTF-8
    bytes. *)

From Stdlib Require Import ZArith Lia Ascii String.
From stdpp Require Import base list strings pretty.
From S2P Require Import Prelude Framing Utf8 Errors Negotiate.

Local Open Scope Z_scope.

Definition CR : ascii := ascii_of_nat 13.
Definition LF : ascii := ascii_of_nat 10.
Definition CRLF : string := String CR (String LF EmptyString).

(** [String::from_utf8_lossy]: every invalid part becomes U+FFFD. *)
Fixpoint lossy_from (fuel : nat) (bytes : list u8) : list u8 :=
  match fuel, utf8_check bytes 0 with
  | _, None => bytes
  | O, _ => bytes
  | S fuel, Some (valid, error_len) =>
      take (Z.to_nat valid) bytes ++ [Byte.xef; Byte.xbf; Byte.xbd] ++
        match error_len with
        | None => []
        | Some n => lossy_from fuel (drop (Z.to_nat (valid + n)) bytes)
        end
  end.

Definition from_utf8_lossy (bytes : list u8) : string :=
  string_of_bytes (lossy_from (S (length bytes)) bytes).

(** [str::lines] *)
Definition strip_cr (line : string) : string := if Text.ends_with CR line then pop line else line.

Fixpoint lines_of (parts : list string) : list string :=
  match parts with
  | [] | [EmptyString] => []
  | [line] => [line]
  | line :: parts => strip_cr line :: lines_of parts
  end.

Definition lines (s : string) : list string := lines_of (Text.split LF s).

(** [str::split_once] on a character *)
Fixpoint split_once (c : ascii) (s : string) : option (string * string) :=
  match s with
  | EmptyString => None
  | String d s =>
      if Ascii.eqb d c then Some (EmptyString, s)
      else '(a, b) ← split_once c s; Some (String d a, b)
  end.

(** [str::contains] *)
Fixpoint has_substring (p s : string) : bool :=
  match strip_prefix p s with
  | Some _ => true
  | None => match s with EmptyString => false | String _ s => has_substring p s end
  end.

(** The characters with the property White_Space, in UTF-8. *)
Definition WHITE_SPACE : list (list nat) :=
  map (fun c => [c]) [9; 10; 11; 12; 13; 32]%nat ++ [[194; 133]; [194; 160]; [225; 154; 128]]%nat ++
  map (fun c => [226; 128; c])%nat [128; 129; 130; 131; 132; 133; 134; 135; 136; 137; 138; 168; 169; 175]%nat ++
  [[226; 129; 159]; [227; 128; 128]]%nat.

Definition white_space : list string :=
  map (fun c => string_of_list_ascii (map ascii_of_nat c)) WHITE_SPACE.

Definition reverse_string (s : string) : string := string_of_list_ascii (rev (list_ascii_of_string s)).

(** What is left after one of [ws] was taken off the front. *)
Fixpoint strip_one (ws : list string) (s : string) : option string :=
  match ws with
  | [] => None
  | w :: ws => match strip_prefix w s with Some s => Some s | None => strip_one ws s end
  end.

Fixpoint strip_all (fuel : nat) (ws : list string) (s : string) : string :=
  match fuel with
  | O => s
  | S fuel => match strip_one ws s with Some s => strip_all fuel ws s | None => s end
  end.

(** [str::trim] *)
Definition trim_start (s : string) : string := strip_all (String.length s) white_space s.
Definition trim_end (s : string) : string :=
  reverse_string (strip_all (String.length s) (map reverse_string white_space) (reverse_string s)).
Definition trim (s : string) : string := trim_end (trim_start s).

(** [str::parse] into [u64] or [usize]: decimal digits after an optional plus sign, in range;
    an error is its text. *)
Definition digit (c : ascii) : option Z :=
  let n := Z.of_N (N_of_ascii c) - 48 in if (0 <=? n) && (n <=? 9) then Some n else None.

Fixpoint parse_digits (acc : Z) (s : string) : result string Z :=
  match s with
  | EmptyString => Ok acc
  | String c s =>
      match digit c with
      | None => Err "invalid digit found in string"%string
      | Some d =>
          let acc := acc * 10 + d in
          if u64_max <? acc then Err "number too large to fit in target type"%string
          else parse_digits acc s
      end
  end.

Definition parse_u64 (s : string) : result string Z :=
  match s with
  | EmptyString => Err "cannot parse integer from empty string"%string
  | String "+" EmptyString => Err "invalid digit found in string"%string
  | String "+" s => parse_digits 0 s
  | s => parse_digits 0 s
  end.

Definition parse_usize (s : string) : option Z :=
  match parse_u64 s with Ok n => Some n | Err _ => None end.

(** [str::strip_suffix] on a character *)
Definition strip_suffix (c : ascii) (s : string) : option string :=
  if Text.ends_with c s then Some (pop s) else None.

(** ** Lemmas *)

Lemma string_app_cons c s t : String c s +:+ t = String c (s +:+ t).
Proof. done. Qed.
Lemma string_app_empty t : EmptyString +:+ t = t.
Proof. done. Qed.
Lemma string_app_assoc (s t u : string) : (s +:+ t) +:+ u = s +:+ t +:+ u.
Proof. induction s as [|c s IH]; [done|]. by rewrite !string_app_cons, IH. Qed.

Lemma from_utf8_lossy_valid s : is_str s = true -> from_utf8_lossy (bytes_of_string s) = s.
Proof.
  unfold is_str, from_utf8_lossy. rewrite utf8_valid_iff. intros H. cbn [lossy_from]. rewrite H.
  apply string_of_bytes_of_string.
Qed.

Lemma ends_with_snoc c s : Text.ends_with c (s +:+ String c EmptyString) = true.
Proof. rewrite Text.ends_with_app. cbn -[Ascii.eqb]. apply Ascii.eqb_refl. Qed.

Lemma pop_snoc s c : pop (s +:+ String c EmptyString) = s.
Proof.
  induction s as [|d s IH]; [done|]. rewrite string_app_cons. cbn [pop].
  destruct (s +:+ String c EmptyString) eqn:E; [by destruct s|]. by rewrite IH.
Qed.

Lemma strip_suffix_snoc c s : strip_suffix c (s +:+ String c EmptyString) = Some s.
Proof. unfold strip_suffix. by rewrite ends_with_snoc, pop_snoc. Qed.

Lemma contains_app c s t : Text.contains c (s +:+ t) = Text.contains c s || Text.contains c t.
Proof.
  induction s as [|d s IH]; [done|]. rewrite string_app_cons. cbn [Text.contains].
  by rewrite IH, orb_assoc.
Qed.

Lemma split_line c s rest : Text.contains c s = false ->
  Text.split c (s +:+ String c rest) = s :: Text.split c rest.
Proof.
  induction s as [|d s IH]; [rewrite string_app_empty|rewrite string_app_cons]; cbn [Text.split Text.contains].
  - by rewrite Ascii.eqb_refl.
  - intros [Hd Hs]%orb_false_iff. by rewrite Hd, IH.
Qed.

(** A line that ends in CRLF. *)
Lemma lines_cons s rest : Text.contains LF s = false ->
  lines (s +:+ CRLF +:+ rest) = s :: lines rest.
Proof.
  intros Hs. unfold lines. change (CRLF +:+ rest) with (String CR EmptyString +:+ String LF rest).
  rewrite <- string_app_assoc, split_line by (rewrite contains_app, Hs; done).
  destruct (Text.split LF rest) as [|p ps] eqn:E; [by destruct rest; cbn in E; repeat case_match|].
  cbn [lines_of]. destruct (s +:+ String CR EmptyString) eqn:Es; [by destruct s|]. rewrite <- Es.
  f_equal. unfold strip_cr. by rewrite ends_with_snoc, pop_snoc.
Qed.

Lemma split_once_at c s rest : Text.contains c s = false ->
  split_once c (s +:+ String c rest) = Some (s, rest).
Proof.
  induction s as [|d s IH]; [rewrite string_app_empty|rewrite string_app_cons]; cbn [split_once Text.contains].
  - by rewrite Ascii.eqb_refl.
  - intros [Hd Hs]%orb_false_iff. by rewrite Hd, IH.
Qed.

(** The characters of a printed number are digits and a minus sign. *)
Definition all_chars (P : ascii -> bool) (s : string) : bool := forallb P (list_ascii_of_string s).

Lemma pretty_Z_chars (P : ascii -> bool) (z : Z) :
  (forall n, P (pretty_N_char n) = true) -> P "-"%char = true -> all_chars P (pretty z) = true.
Proof.
  intros Hd Hm.
  assert (Hgo : forall x s, all_chars P s = true -> all_chars P (pretty_N_go x s) = true).
  { intros x. induction (N.lt_wf_0 x) as [x _ IH]; intros s Hs.
    destruct (decide (x = 0)%N) as [->|Hx]; [done|]. rewrite pretty_N_go_step by lia.
    apply IH; [apply N.div_lt; lia|]. unfold all_chars in *. cbn. by rewrite Hd. }
  assert (HN : forall n : N, all_chars P (pretty n) = true).
  { intros n. unfold pretty, pretty_N. case_decide; [|by apply Hgo].
    unfold all_chars. cbn. specialize (Hd 0%N). cbn in Hd. by rewrite Hd. }
  unfold pretty, pretty_Z. destruct z; [|apply HN|].
  - unfold all_chars. cbn. specialize (Hd 0%N). cbn in Hd. by rewrite Hd.
  - unfold all_chars in *. rewrite string_app_cons, string_app_empty. cbn. rewrite Hm. cbn. apply HN.
Qed.

Lemma all_chars_contains c P s : all_chars P s = true -> P c = false -> Text.contains c s = false.
Proof.
  unfold all_chars. induction s as [|d s IH]; [done|]. cbn. intros [Hd Hs]%andb_true_iff Hc.
  apply orb_false_iff. split; [|by apply IH]. apply Ascii.eqb_neq. intros ->. congruence.
Qed.

Lemma all_ascii_str s : all_chars (fun c => (N_of_ascii c <? 128)%N) s = true -> is_str s = true.
Proof.
  intros H. apply utf8_valid_ascii. unfold all_chars, bytes_of_string in *.
  induction s as [|c s IH]; [constructor|]. cbn in *. apply andb_true_iff in H as [Hc Hs].
  constructor; [|by apply IH]. unfold u8_to_Z.
  enough (Byte.to_N (Ascii.byte_of_ascii c) = N_of_ascii c) as -> by (apply N.ltb_lt in Hc; lia).
  unfold N_of_ascii. by destruct c as [[] [] [] [] [] [] [] []].
Qed.

Lemma is_str_app s t : is_str s = true -> is_str t = true -> is_str (s +:+ t) = true.
Proof.
  unfold is_str. intros Hs Ht.
  enough (bytes_of_string (s +:+ t) = bytes_of_string s ++ bytes_of_string t) as ->
    by by apply utf8_valid_app.
  unfold bytes_of_string. clear. induction s as [|c s IH]; [done|].
  exact (f_equal (cons (Ascii.byte_of_ascii c)) IH).
Qed.

Lemma pretty_Z_str (z : Z) : is_str (pretty z) = true.
Proof.
  apply all_ascii_str, pretty_Z_chars; [|done]. intros n. unfold pretty_N_char. by repeat case_match.
Qed.

Lemma pretty_Z_contains (z : Z) c : (forall n, pretty_N_char n <> c) -> c <> "-"%char ->
  Text.contains c (pretty z) = false.
Proof.
  intros Hd Hm. apply (all_chars_contains c (fun d => negb (Ascii.eqb d c))); [|by rewrite Ascii.eqb_refl].
  apply pretty_Z_chars; [intros n; specialize (Hd n)|]; apply negb_true_iff, Ascii.eqb_neq; congruence.
Qed.

(** Parsing reads a printed number back. *)
Lemma parse_printed (x : N) s : Z.of_N x <= u64_max ->
  parse_digits 0 (pretty_N_go x s) = parse_digits (Z.of_N x) s.
Proof.
  revert s. induction (N.lt_wf_0 x) as [x _ IH]; intros s Hx.
  destruct (decide (x = 0)%N) as [->|Hne]; [done|].
  pose proof (N.div_lt x 10 ltac:(lia) ltac:(lia)). pose proof (N.div_mod x 10 ltac:(lia)) as Hdm.
  pose proof (N.mod_lt x 10 ltac:(lia)) as Hm.
  rewrite pretty_N_go_step by lia. rewrite IH by lia. cbn [parse_digits].
  assert (Hd : digit (pretty_N_char (x mod 10)) = Some (Z.of_N (x mod 10))).
  { revert Hm. generalize (x mod 10)%N as d. intros d Hd.
    assert (Hc : (d = 0 \/ d = 1 \/ d = 2 \/ d = 3 \/ d = 4 \/ d = 5 \/ d = 6 \/ d = 7 \/ d = 8 \/
      d = 9)%N) by lia. by repeat destruct Hc as [->|Hc]; subst. }
  rewrite Hd. replace (Z.of_N (x / 10) * 10 + Z.of_N (x mod 10)) with (Z.of_N x) by lia.
  by replace (u64_max <? Z.of_N x) with false by lia.
Qed.

Lemma parse_pretty (n : N) : Z.of_N n <= u64_max -> parse_digits 0 (pretty (Z.of_N n)) = Ok (Z.of_N n).
Proof.
  intros Hn. destruct n as [|n]; [done|]. cbn [Z.of_N]. unfold pretty, pretty_Z.
  change (parse_digits 0 (pretty_N_go (N.pos n) EmptyString) = Ok (Z.of_N (N.pos n))).
  by rewrite parse_printed.
Qed.
