(* ===== verification/JsonText.v ===== *)
(** * JSON text

    The text of JSON values as [serde_json] writes and reads it, by RFC 8259: compact output with
    the short escapes, input with white space, every escape, surrogate pairs, integers of 64 bits,
    objects whose last entry for a key wins, and 127 levels of nesting.  Numbers with a fraction
    or an exponent are not covered: [print_json] and [read_json] refuse them.  [SerdeJson] is the
    instance of [JsonText] in which the texts of the repository's tests can be evaluated, and it
    satisfies [JsonTextLaws]. *)

From Stdlib Require Import ZArith Lia String Ascii.
From stdpp Require Import base list strings pretty.
From S2P Require Import Prelude Framing Utf8 Errors Values MsgPackFormat Negotiate RustStr.

Local Open Scope Z_scope.

Abbreviation chars := (list ascii).
Abbreviation chars_of := list_ascii_of_string.

Definition code (c : ascii) : Z := Z.of_N (N_of_ascii c).
Definition char_of (n : Z) : ascii := ascii_of_N (Z.to_N n).

Definition QUOTE : ascii := char_of 34.
Definition BACKSLASH : ascii := char_of 92.

Definition is_char (c d : ascii) : bool := code c =? code d.

(** ** Writing *)

Definition hex_digit (n : Z) : ascii := char_of (if n <? 10 then 48 + n else 87 + n).

(** The letter after the backslash for a character that has a short escape. *)
Definition short_escape (c : ascii) : option ascii :=
  match code c with
  | 8 => Some "b"%char | 9 => Some "t"%char | 10 => Some "n"%char | 12 => Some "f"%char
  | 13 => Some "r"%char | 34 => Some QUOTE | 92 => Some BACKSLASH
  | _ => None
  end.

Definition escape (c : ascii) : chars :=
  match short_escape c with
  | Some e => [BACKSLASH; e]
  | None =>
      if code c <? 32
      then [BACKSLASH; "u"; "0"; "0"; hex_digit (code c / 16); hex_digit (code c mod 16)]%char
      else [c]
  end.

Definition print_string (s : string) : chars := QUOTE :: flat_map escape (chars_of s) ++ [QUOTE].

Definition print_number (n : number) : chars :=
  match n with PosInt n | NegInt n => chars_of (pretty n) | Float _ => [] end.

(** The texts of the elements with commas between them and the closing bracket. *)
Fixpoint seal (close : ascii) (parts : list chars) : chars :=
  match parts with
  | [] => [close]
  | [part] => part ++ [close]
  | part :: parts => part ++ ","%char :: seal close parts
  end.

Fixpoint print_value (v : json) : chars :=
  match v with
  | JNull => chars_of "null"
  | JBool b => chars_of (if b then "true" else "false")
  | JNumber n => print_number n
  | JString s => print_string s
  | JArray l => "["%char :: seal "]" (map print_value l)
  | JObject m =>
      "{"%char :: seal "}" (map (fun kv => print_string kv.1 ++ ":"%char :: print_value kv.2) m)
  end.

Definition print_json (v : json) : result string string :=
  if json_exact v then Ok (string_of_list_ascii (print_value v)) else Err "number with a fraction"%string.

(** ** Reading *)

Definition is_ws (c : ascii) : bool := match code c with 32 | 9 | 10 | 13 => true | _ => false end.

Fixpoint skip_ws (s : chars) : chars :=
  match s with c :: s' => if is_ws c then skip_ws s' else s | [] => [] end.

Definition hex_value (c : ascii) : option Z :=
  let n := code c in
  if (48 <=? n) && (n <=? 57) then Some (n - 48)
  else if (97 <=? n) && (n <=? 102) then Some (n - 87)
  else if (65 <=? n) && (n <=? 70) then Some (n - 55)
  else None.

Definition hex4 (a b c d : ascii) : option Z :=
  a ← hex_value a; b ← hex_value b; c ← hex_value c; d ← hex_value d;
  Some (4096 * a + 256 * b + 16 * c + d).

(** The UTF-8 bytes of a scalar value. *)
Definition utf8_encode (n : Z) : chars :=
  map char_of
    (if n <? 0x80 then [n]
     else if n <? 0x800 then [0xc0 + n / 64; 0x80 + n mod 64]
     else if n <? 0x10000 then [0xe0 + n / 4096; 0x80 + n / 64 mod 64; 0x80 + n mod 64]
     else [0xf0 + n / 262144; 0x80 + n / 4096 mod 64; 0x80 + n / 64 mod 64; 0x80 + n mod 64]).

Definition unescape (e : ascii) : option ascii :=
  if is_char e "b" then Some (char_of 8)
  else if is_char e "t" then Some (char_of 9)
  else if is_char e "n" then Some (char_of 10)
  else if is_char e "f" then Some (char_of 12)
  else if is_char e "r" then Some (char_of 13)
  else if is_char e QUOTE || is_char e BACKSLASH || is_char e "/" then Some e
  else None.

Definition push (p : chars) (r : result string (chars * chars)) : result string (chars * chars) :=
  '(s, rest) ← r; Ok (p ++ s, rest).

(** A string after its opening quote. *)
Fixpoint read_chars (s : chars) : result string (chars * chars) :=
  match s with
  | [] => Err "EOF while parsing a string"%string
  | c :: s =>
      if is_char c QUOTE then Ok ([], s)
      else if negb (is_char c BACKSLASH) then
        if code c <? 32 then Err "control character found while parsing a string"%string
        else push [c] (read_chars s)
      else
        match s with
        | [] => Err "EOF while parsing a string"%string
        | e :: s =>
            if negb (is_char e "u") then
              match unescape e with
              | Some c => push [c] (read_chars s)
              | None => Err "invalid escape"%string
              end
            else
              match s with
              | a :: b :: c :: d :: s =>
                  match hex4 a b c d with
                  | None => Err "invalid escape"%string
                  | Some n =>
                      if (0xdc00 <=? n) && (n <=? 0xdfff) then Err "lone leading surrogate in hex escape"%string
                      else if negb ((0xd800 <=? n) && (n <=? 0xdbff)) then push (utf8_encode n) (read_chars s)
                      else
                        match s with
                        | b1 :: u1 :: a :: b :: c :: d :: s =>
                            match hex4 a b c d with
                            | Some m =>
                                if is_char b1 BACKSLASH && is_char u1 "u" && (0xdc00 <=? m) && (m <=? 0xdfff)
                                then push (utf8_encode (0x10000 + (n - 0xd800) * 1024 + (m - 0xdc00))) (read_chars s)
                                else Err "lone leading surrogate in hex escape"%string
                            | None => Err "invalid escape"%string
                            end
                        | _ => Err "unexpected end of hex escape"%string
                        end
                  end
              | _ => Err "EOF while parsing a string"%string
              end
        end
  end.

Fixpoint read_digits (acc : Z) (s : chars) : Z * chars :=
  match s with
  | c :: s' => match digit c with Some d => read_digits (acc * 10 + d) s' | None => (acc, s) end
  | [] => (acc, [])
  end.

(** The number at the front of [s], after a minus sign when [neg]: no leading zeros, 64 bits. *)
Definition read_number (neg : bool) (s : chars) : result string (json * chars) :=
  let '(n, rest) := read_digits 0 s in
  if negb (length s =? length (chars_of (pretty n)) + length rest)%nat then Err "invalid number"%string
  else
    match rest with
    | c :: _ =>
        if is_char c "." || is_char c "e" || is_char c "E" then Err "number with a fraction"%string
        else Ok tt
    | [] => Ok tt
    end ≫= fun _ =>
    if neg then
      if (0 <? n) && (i64_min <=? - n) then Ok (JNumber (NegInt (- n)), rest)
      else Err "number out of range"%string
    else if n <=? u64_max then Ok (JNumber (PosInt n), rest)
    else Err "number out of range"%string.

Fixpoint strip_chars (p s : chars) : option chars :=
  match p, s with
  | [], _ => Some s
  | c :: p, d :: s => if is_char c d then strip_chars p s else None
  | _, [] => None
  end.

Definition read_literal (s : chars) : result string (json * chars) :=
  match strip_chars (chars_of "null") s, strip_chars (chars_of "true") s,
        strip_chars (chars_of "false") s with
  | Some rest, _, _ => Ok (JNull, rest)
  | _, Some rest, _ => Ok (JBool true, rest)
  | _, _, Some rest => Ok (JBool false, rest)
  | _, _, _ => Err "expected value"%string
  end.

(** The elements of an array or object, read by [item], up to the closing bracket. *)
Fixpoint read_items {A} (item : chars -> result string (A * chars)) (close : ascii) (fuel : nat)
    (s : chars) : result string (list A * chars) :=
  match fuel with
  | O => Err "EOF while parsing a list"%string
  | S fuel =>
      '(v, s) ← item s;
      match skip_ws s with
      | [] => Err "EOF while parsing a list"%string
      | c :: s =>
          if is_char c "," then '(l, s) ← read_items item close fuel s; Ok (v :: l, s)
          else if is_char c close then Ok ([v], s)
          else Err "expected comma or closing bracket"%string
      end
  end.

Definition read_list {A} (item : chars -> result string (A * chars)) (close : ascii) (s : chars) :
    result string (list A * chars) :=
  match skip_ws s with
  | c :: s' => if is_char c close then Ok ([], s') else read_items item close (length s) s
  | [] => Err "EOF while parsing a list"%string
  end.

Definition read_member (value : chars -> result string (json * chars)) (s : chars) :
    result string (string * json * chars) :=
  match skip_ws s with
  | c :: s =>
      if is_char c QUOTE then
        '(k, s) ← read_chars s;
        match skip_ws s with
        | c :: s =>
            if is_char c ":" then '(v, s) ← value s; Ok (string_of_list_ascii k, v, s)
            else Err "expected colon"%string
        | [] => Err "EOF while parsing an object"%string
        end
      else Err "key must be a string"%string
  | [] => Err "EOF while parsing an object"%string
  end.

(** [depth] is the number of brackets that may still be opened. *)
Fixpoint read_value (depth : nat) (s : chars) : result string (json * chars) :=
  match skip_ws s with
  | [] => Err "EOF while parsing a value"%string
  | c :: s =>
      if is_char c QUOTE then
        '(t, s) ← read_chars s; Ok (JString (string_of_list_ascii t), s)
      else if is_char c "[" || is_char c "{" then
        match depth with
        | O => Err "recursion limit exceeded"%string
        | S depth =>
            if is_char c "[" then
              '(l, s) ← read_list (read_value depth) "]" s; Ok (JArray l, s)
            else
              '(m, s) ← read_list (read_member (read_value depth)) "}" s; Ok (JObject (obj_collect m), s)
        end
      else if is_char c "-" then read_number true s
      else match digit c with Some _ => read_number false (c :: s) | None => read_literal (c :: s) end
  end.

Definition read_json (s : string) : result string json :=
  '(v, rest) ← read_value 127 (chars_of s);
  match skip_ws rest with [] => Ok v | _ => Err "trailing characters"%string end.

Definition SerdeJson : JsonText := {| json_to_string := print_json; json_from_str := read_json |}.

(** ** Reading back what was written *)

Lemma read_escape c s : read_chars (escape c ++ s) = push [c] (read_chars s).
Proof. destruct c as [[] [] [] [] [] [] [] []]; reflexivity. Qed.

Lemma read_escaped s rest : read_chars (flat_map escape s ++ QUOTE :: rest) = Ok (s, rest).
Proof. induction s as [|c s IH]; [done|]. cbn [flat_map]. by rewrite <- app_assoc, read_escape, IH. Qed.

(** A number ends before such a text. *)
Definition stops (s : chars) : bool :=
  match s with
  | [] => true
  | c :: _ => negb (bool_decide (is_Some (digit c))) &&
      negb (is_char c "." || is_char c "e" || is_char c "E")
  end.

Lemma digit_pretty (d : N) : (d < 10)%N -> digit (pretty_N_char d) = Some (Z.of_N d).
Proof.
  intros Hd. assert (Hc : (d = 0 \/ d = 1 \/ d = 2 \/ d = 3 \/ d = 4 \/ d = 5 \/ d = 6 \/ d = 7 \/
    d = 8 \/ d = 9)%N) by lia. by repeat destruct Hc as [->|Hc]; subst.
Qed.

Lemma read_digits_go (x : N) s rest :
  read_digits 0 (chars_of (pretty_N_go x s) ++ rest) = read_digits (Z.of_N x) (chars_of s ++ rest).
Proof.
  revert s. induction (N.lt_wf_0 x) as [x _ IH]; intros s.
  destruct (decide (x = 0)%N) as [->|Hne]; [done|].
  pose proof (N.div_lt x 10 ltac:(lia) ltac:(lia)). pose proof (N.div_mod x 10 ltac:(lia)) as Hdm.
  rewrite pretty_N_go_step by lia. rewrite IH by done. cbn [list_ascii_of_string app read_digits].
  rewrite digit_pretty by (apply N.mod_lt; lia). f_equal. lia.
Qed.

Lemma read_digits_stop n rest : stops rest = true -> read_digits n rest = (n, rest).
Proof.
  destruct rest as [|c rest]; [done|]. cbn. intros [Hc _]%andb_true_iff.
  apply negb_true_iff, bool_decide_eq_false in Hc. destruct (digit c); [by destruct Hc|done].
Qed.

Lemma read_digits_pretty (n : N) rest : stops rest = true ->
  read_digits 0 (chars_of (pretty (Z.of_N n)) ++ rest) = (Z.of_N n, rest).
Proof.
  intros Hr. destruct n as [|n]; [exact (read_digits_stop 0 rest Hr)|].
  change (pretty (Z.of_N (N.pos n))) with (pretty_N_go (N.pos n) EmptyString).
  rewrite read_digits_go. by apply read_digits_stop.
Qed.

Lemma read_number_pretty neg (n : N) rest : stops rest = true ->
  read_number neg (chars_of (pretty (Z.of_N n)) ++ rest) =
    if neg then
      if (0 <? Z.of_N n) && (i64_min <=? - Z.of_N n) then Ok (JNumber (NegInt (- Z.of_N n)), rest)
      else Err "number out of range"%string
    else if Z.of_N n <=? u64_max then Ok (JNumber (PosInt (Z.of_N n)), rest)
    else Err "number out of range"%string.
Proof.
  intros Hr. unfold read_number. rewrite read_digits_pretty by done.
  rewrite length_app, Nat.eqb_refl. cbn [negb]. destruct rest as [|c rest]; [done|].
  cbn [stops] in Hr. apply andb_true_iff in Hr as [_ Hr]. apply negb_true_iff in Hr. by rewrite Hr.
Qed.

(** The first character of a printed unsigned number. *)
Lemma pretty_N_digit (n : N) : exists c s, chars_of (pretty (Z.of_N n)) = c :: s /\
  is_Some (digit c).
Proof.
  pose proof (read_digits_pretty n [] eq_refl) as H. rewrite app_nil_r in H.
  destruct n as [|n]; [by exists "0"%char, []|].
  destruct (chars_of (pretty (Z.of_N (N.pos n)))) as [|c s]; [done|]. exists c, s. split; [done|].
  cbn [read_digits] in H. by destruct (digit c).
Qed.

Section items.
Context {A : Type} (item : chars -> result string (A * chars)) (close : ascii).
Context (Hclose : stops [close] = true) (Hws : is_ws close = false) (Hcomma : is_char close "," = false).

(** [item] reads the text [p] as [v]. *)
Definition reads (p : chars) (v : A) : Prop :=
  forall rest, stops rest = true -> item (p ++ rest) = Ok (v, rest).

Lemma read_items_seal parts vs fuel rest : Forall2 reads parts vs -> parts <> [] ->
  (length parts <= fuel)%nat -> read_items item close fuel (seal close parts ++ rest) = Ok (vs, rest).
Proof.
  intros H. revert fuel. induction H as [|p v parts vs Hp Hps IH]; intros fuel Hne Hf; [done|].
  destruct fuel as [|fuel]; [cbn in Hf; lia|]. destruct parts as [|p' parts].
  - inversion Hps; subst. cbn [seal read_items]. rewrite <- app_assoc.
    rewrite Hp by done. cbn -[is_char is_ws]. rewrite Hws, Hcomma.
    unfold is_char. by rewrite Z.eqb_refl.
  - specialize (IH fuel ltac:(done) ltac:(cbn in *; lia)).
    change (seal close (p :: p' :: parts)) with (p ++ ","%char :: seal close (p' :: parts)).
    revert IH. generalize (seal close (p' :: parts)) as tail. intros tail IH.
    cbn [read_items]. rewrite <- app_assoc, <- app_comm_cons. rewrite Hp by done.
    change (('(l, s) ← read_items item close fuel (tail ++ rest); Ok (v :: l, s)) = Ok (v :: vs, rest)).
    by rewrite IH.
Qed.

Lemma length_seal parts : (length parts <= length (seal close parts))%nat.
Proof.
  induction parts as [|p [|p' parts] IH]; cbn [seal]; rewrite ?length_app; cbn in *; lia.
Qed.

Lemma read_list_seal parts vs rest : Forall2 reads parts vs ->
  Forall (fun p => exists c s, p = c :: s /\ is_ws c = false /\ is_char c close = false) parts ->
  read_list item close (seal close parts ++ rest) = Ok (vs, rest).
Proof.
  intros H Hhead. unfold read_list. destruct parts as [|p parts].
  - inversion H; subst. cbn -[is_ws is_char]. rewrite Hws. unfold is_char. by rewrite Z.eqb_refl.
  - rewrite <- (read_items_seal (p :: parts) vs (length (seal close (p :: parts) ++ rest)) rest H)
      by (done || rewrite length_app; pose proof (length_seal (p :: parts)); lia).
    apply Forall_inv in Hhead as (c & s & -> & Hc & Hcl).
    destruct parts; cbn -[is_ws is_char read_items]; by rewrite Hc, Hcl.
Qed.
End items.

(** Every printed value starts with such a character. *)
Lemma print_value_head v : json_exact v = true -> exists c s, print_value v = c :: s /\
  is_ws c = false /\ is_char c "]" = false /\ is_char c "}" = false.
Proof.
  assert (Hd : forall c, is_Some (digit c) ->
    is_ws c = false /\ is_char c "]" = false /\ is_char c "}" = false).
  { intros c [d Hc]. revert Hc. clear. destruct c as [[] [] [] [] [] [] [] []]; cbn; by intros. }
  destruct v as [|[]|[n|n|b]|s|l|m]; cbn [print_value print_number]; intros Hv;
    try discriminate Hv; try by (eexists _, _; split_and!).
  - unfold json_exact in Hv. cbn in Hv. bool_to_prop. rewrite <- (Z2N.id n) by done.
    destruct (pretty_N_digit (Z.to_N n)) as (c & s & -> & Hc). exists c, s. by split; [|apply Hd].
  - unfold json_exact in Hv. cbn in Hv. bool_to_prop. destruct n; [lia..|].
    eexists _, _. by split_and!.
Qed.

Lemma read_string_printed s rest :
  read_chars (flat_map escape (chars_of s) ++ [QUOTE] ++ rest) = Ok (chars_of s, rest).
Proof. apply read_escaped. Qed.

Lemma read_member_printed value k v p : reads value p v ->
  reads (read_member value) (print_string k ++ ":"%char :: p) (k, v).
Proof.
  intros Hp rest Hr. unfold read_member, print_string.
  rewrite <- !app_comm_cons, <- !app_assoc. cbn [skip_ws].
  change (is_ws QUOTE) with false. cbn iota. change (is_char QUOTE QUOTE) with true. cbn iota.
  rewrite read_string_printed. cbn -[is_char is_ws].
  change (is_ws ":") with false. cbn iota. change (is_char ":" ":") with true. cbn iota.
  rewrite Hp by done. cbn. by rewrite string_of_list_ascii_of_string.
Qed.

(** The nesting of the parts of a value. *)
Lemma depth_bound {A} (f : A -> Z) l d : foldr (fun x d => Z.max (f x) d) 0 l <= d ->
  Forall (fun x => f x <= d) l.
Proof.
  induction l as [|x l IH]; [done|]. cbn. intros H. constructor; [lia|]. apply IH. lia.
Qed.

Lemma depth_pos {A} (f : A -> Z) l : 0 <= foldr (fun x d => Z.max (f x) d) 0 l.
Proof. induction l; cbn; lia. Qed.

Lemma read_pos_int d n rest : 0 <= n <= u64_max -> stops rest = true ->
  read_value d (print_value (JNumber (PosInt n)) ++ rest) = Ok (JNumber (PosInt n), rest).
Proof.
  intros Hn Hr. pose proof (read_number_pretty false (Z.to_N n) rest Hr) as Hnum.
  destruct (pretty_N_digit (Z.to_N n)) as (c & s & Hs & [x Hc]). rewrite !Z2N.id in * by lia.
  cbn [print_value print_number]. rewrite Hs in *. rewrite <- app_comm_cons in *.
  replace (n <=? u64_max) with true in Hnum by lia.
  assert (is_ws c = false /\ is_char c QUOTE = false /\ is_char c "[" || is_char c "{" = false /\
    is_char c "-" = false) as (H1 & H2 & H3 & H4).
  { revert Hc. clear. destruct c as [[] [] [] [] [] [] [] []]; cbn; by intros. }
  destruct d; cbn [read_value skip_ws]; by rewrite H1, H2, H3, H4, Hc.
Qed.

Lemma read_neg_int d n rest : i64_min <= n < 0 -> stops rest = true ->
  read_value d (print_value (JNumber (NegInt n)) ++ rest) = Ok (JNumber (NegInt n), rest).
Proof.
  intros Hn Hr. pose proof (read_number_pretty true (Z.to_N (- n)) rest Hr) as Hnum.
  rewrite Z2N.id in Hnum by lia. replace (0 <? - n) with true in Hnum by lia.
  rewrite Z.opp_involutive in Hnum. replace (i64_min <=? n) with true in Hnum by lia.
  destruct n as [|n|n]; [lia..|]. by destruct d.
Qed.

Lemma read_string_value d s rest :
  read_value d (print_value (JString s) ++ rest) = Ok (JString s, rest).
Proof.
  cbn [print_value]. unfold print_string. rewrite <- app_comm_cons, <- app_assoc.
  assert (read_value d (QUOTE :: flat_map escape (chars_of s) ++ [QUOTE] ++ rest) =
    ('(t, s) ← read_chars (flat_map escape (chars_of s) ++ [QUOTE] ++ rest);
     Ok (JString (string_of_list_ascii t), s))) as -> by by destruct d.
  rewrite read_string_printed. cbn. by rewrite string_of_list_ascii_of_string.
Qed.

Lemma read_array_value d l rest :
  Forall (fun v => json_exact v = true /\ reads (read_value d) (print_value v) v) l ->
  read_value (S d) (print_value (JArray l) ++ rest) = Ok (JArray l, rest).
Proof.
  intros Hl. cbn [print_value]. rewrite <- app_comm_cons.
  change (('(l, s) ← read_list (read_value d) "]" (seal "]" (map print_value l) ++ rest); Ok (JArray l, s)) =
    Ok (JArray l, rest)).
  rewrite (read_list_seal (read_value d) "]" eq_refl eq_refl eq_refl _ l); [done| |].
  - apply Forall2_fmap_l, Forall_Forall2_diag. eapply Forall_impl; [done|]. by intros v [].
  - apply Forall_map. eapply Forall_impl; [done|]. intros v [Hv _].
    destruct (print_value_head v Hv) as (c & s & -> & ? & ? & ?). by exists c, s.
Qed.

Lemma read_object_value d m rest : keys_sorted (map fst m) = true ->
  Forall (fun kv => reads (read_value d) (print_value kv.2) kv.2) m ->
  read_value (S d) (print_value (JObject m) ++ rest) = Ok (JObject m, rest).
Proof.
  intros Hks Hm. cbn [print_value]. rewrite <- app_comm_cons.
  change (('(l, s) ← read_list (read_member (read_value d)) "}"
    (seal "}" (map (fun kv => print_string kv.1 ++ ":"%char :: print_value kv.2) m) ++ rest);
    Ok (JObject (obj_collect l), s)) = Ok (JObject m, rest)).
  rewrite (read_list_seal (read_member (read_value d)) "}" eq_refl eq_refl eq_refl _ m); [cbn; by rewrite obj_collect_sorted| |].
  - apply Forall2_fmap_l, Forall_Forall2_diag. eapply Forall_impl; [done|].
    intros [k v] Hv. by apply read_member_printed.
  - apply Forall_map, Forall_forall. intros [k v] Hin. eexists _, _. by split_and!.
Qed.

(** What was printed is read back, whatever follows. *)
Lemma read_printed v : json_exact v = true -> forall d, json_depth v <= Z.of_nat d ->
  reads (read_value d) (print_value v) v.
Proof.
  unfold json_exact.
  induction v as [|b|[n|n|n]|s|l IH|m IH] using json_ind'; intros Hv d Hd rest Hr.
  - by destruct d.
  - by destruct d, b.
  - cbn in Hv. bool_to_prop. by apply read_pos_int.
  - cbn in Hv. bool_to_prop. by apply read_neg_int.
  - done.
  - apply read_string_value.
  - cbn [json_depth] in Hd. pose proof (depth_pos json_depth l). destruct d as [|d]; [lia|].
    cbn [json_wf] in Hv. pose proof (depth_bound json_depth l (Z.of_nat d) ltac:(lia)) as Hb.
    apply read_array_value. rewrite forallb_forall in Hv. rewrite !Forall_forall in *. intros v Hin.
    pose proof (Hv v ltac:(by apply list_elem_of_In)) as Hx. split; [done|]. by apply IH, Hb.
  - cbn [json_depth] in Hd. pose proof (depth_pos (fun kv : string * json => json_depth kv.2) m).
    destruct d as [|d]; [lia|]. cbn [json_wf] in Hv. apply andb_true_iff in Hv as [Hks Hv].
    pose proof (depth_bound (fun kv : string * json => json_depth kv.2) m (Z.of_nat d) ltac:(lia)) as Hb.
    apply read_object_value; [done|]. rewrite forallb_forall in Hv. rewrite !Forall_forall in *.
    intros kv Hin. specialize (Hv kv ltac:(by apply list_elem_of_In)). apply andb_true_iff in Hv as [_ Hv].
    by apply IH, Hb.
Qed.

(** ** The text is a record of UTF-8 *)

(** A text without the record separator, of whole characters. *)
Definition clean (s : chars) : Prop :=
  Text.contains Text.RECORD_SEPARATOR (string_of_list_ascii s) = false /\
  is_str (string_of_list_ascii s) = true.

Lemma string_of_list_app s t :
  string_of_list_ascii (s ++ t) = string_of_list_ascii s +:+ string_of_list_ascii t.
Proof. induction s as [|c s IH]; [done|]. cbn. by rewrite IH. Qed.

Lemma clean_app s t : clean s -> clean t -> clean (s ++ t).
Proof.
  intros [H1 H2] [H3 H4]. unfold clean. rewrite string_of_list_app, contains_app, H1, H3.
  split; [done|by apply is_str_app].
Qed.

Lemma clean_cons c s : clean [c] -> clean s -> clean (c :: s).
Proof. apply (clean_app [c] s). Qed.


Lemma clean_ascii s : forallb (fun c => (N_of_ascii c <? 128)%N && negb (Ascii.eqb c Text.RECORD_SEPARATOR)) s = true ->
  clean s.
Proof.
  intros Hs. split.
  - induction s as [|c s IH]; [done|]. cbn [forallb] in Hs. apply andb_true_iff in Hs as [Hc Hs].
    apply andb_true_iff in Hc as [_ Hc%negb_true_iff]. cbn -[Ascii.eqb Text.RECORD_SEPARATOR].
    rewrite Hc. by apply IH.
  - apply all_ascii_str. unfold all_chars. rewrite list_ascii_of_string_of_list_ascii.
    induction s as [|c s IH]; [done|]. cbn [forallb] in *. apply andb_true_iff in Hs as [Hc Hs].
    apply andb_true_iff in Hc as [Hc _]. by rewrite Hc, IH.
Qed.

(** A text of bytes above ASCII is printed as it is; an ASCII character becomes ASCII text. *)
Lemma escape_high c : 0x80 <= u8_to_Z (byte_of_ascii c) -> escape c = [c].
Proof. destruct c as [[] [] [] [] [] [] [] []]; intros H; try done; exfalso; revert H; cbn; lia. Qed.

Lemma escape_low c : u8_to_Z (byte_of_ascii c) < 0x80 -> clean (escape c).
Proof.
  destruct c as [[] [] [] [] [] [] [] []]; intros H; try (by apply clean_ascii); exfalso; revert H; cbn; lia.
Qed.

Lemma escaped_clean s : is_str s = true -> clean (flat_map escape (chars_of s)).
Proof.
  unfold is_str. rewrite <- (string_of_bytes_of_string s) at 2. revert s.
  enough (forall l, utf8_valid l = true -> clean (flat_map escape (chars_of (string_of_bytes l)))) as H
    by by intros s; apply H.
  apply utf8_valid_ind; [by apply clean_ascii| |].
  - intros b l Hb IH. cbn. apply clean_app; [|done]. apply escape_low.
    by rewrite byte_of_ascii_of_byte.
  - intros p l Hp Hv IH.
    assert (Hpl : flat_map escape (chars_of (string_of_bytes (p ++ l))) =
      chars_of (string_of_bytes p) ++ flat_map escape (chars_of (string_of_bytes l))).
    { clear Hv IH. induction Hp as [|b p Hb _ IHp]; [done|]. cbn. rewrite escape_high
        by by rewrite byte_of_ascii_of_byte. cbn. f_equal. apply IHp. }
    rewrite Hpl. apply clean_app; [|done]. unfold clean. rewrite string_of_list_ascii_of_string.
    unfold is_str. rewrite bytes_of_string_of_bytes. split; [|done].
    clear Hv Hpl. induction Hp as [|b p Hb _ IHp]; [done|]. cbn -[Ascii.eqb].
    apply orb_false_iff. split; [|done]. apply Ascii.eqb_neq. intros Heq.
    enough (u8_to_Z b = 30) by lia. by rewrite <- (byte_of_ascii_of_byte b), Heq.
Qed.

Lemma seal_clean close parts : clean [close] -> Forall clean parts -> clean (seal close parts).
Proof.
  intros Hc. induction 1 as [|p [|p' parts] Hp Hps IH]; [done|by apply clean_app|].
  change (clean (p ++ ","%char :: seal close (p' :: parts))).
  apply clean_app; [done|]. apply clean_cons; [by apply clean_ascii|done].
Qed.

Lemma print_string_clean s : is_str s = true -> clean (print_string s).
Proof.
  intros Hs. apply clean_cons; [by apply clean_ascii|].
  apply clean_app; [by apply escaped_clean|by apply clean_ascii].
Qed.

Lemma pretty_clean (z : Z) : clean (chars_of (pretty z)).
Proof.
  apply clean_ascii, (pretty_Z_chars (fun c => (N_of_ascii c <? 128)%N && negb (Ascii.eqb c Text.RECORD_SEPARATOR)));
    [|done]. intros n. unfold pretty_N_char. by repeat case_match.
Qed.

Lemma print_value_clean v : json_exact v = true -> clean (print_value v).
Proof.
  unfold json_exact. induction v as [|[]|[n|n|n]|s|l IH|m IH] using json_ind';
    cbn [print_value print_number json_wf]; intros Hv; try discriminate Hv; try by apply clean_ascii.
  1, 2: apply pretty_clean.
  - by apply print_string_clean.
  - apply clean_cons; [by apply clean_ascii|]. apply seal_clean; [by apply clean_ascii|].
    apply Forall_map. rewrite forallb_forall in Hv. rewrite Forall_forall in *. intros v Hin.
    by apply IH, Hv, list_elem_of_In.
  - apply clean_cons; [by apply clean_ascii|]. apply seal_clean; [by apply clean_ascii|].
    apply andb_true_iff in Hv as [_ Hv]. apply Forall_map. rewrite forallb_forall in Hv.
    rewrite Forall_forall in *. intros kv Hin. specialize (Hv kv ltac:(by apply list_elem_of_In)).
    apply andb_true_iff in Hv as [Hk Hv]. apply clean_app; [by apply print_string_clean|].
    apply clean_cons; [by apply clean_ascii|by apply IH].
Qed.

#[global] Instance SerdeJson_laws : JsonTextLaws SerdeJson.
Proof.
  split. intros v Hv Hd. exists (string_of_list_ascii (print_value v)).
  destruct (print_value_clean v Hv) as [Hrec Hstr]. split_and!; [| | |done].
  - cbn. unfold print_json. by rewrite Hv.
  - change (read_json (string_of_list_ascii (print_value v)) = Ok v).
    unfold read_json. rewrite list_ascii_of_string_of_list_ascii.
    pose proof (read_printed v Hv 127 ltac:(lia) [] eq_refl) as Hr. rewrite app_nil_r in Hr.
    by rewrite Hr.
  - unfold Text.is_record. rewrite Hrec. destruct (print_value_head v Hv) as (c & s & -> & _). done.
Qed.
