(* ===== verification/Urls.v ===== *)
(** * URLs ([src/negotiate.rs], [src/transport/mod.rs])

    What the functions that build URLs do to the path and to the query, in terms of what the
    documentation of [url] says of its types. *)

From Stdlib Require Import ZArith Lia String.
From stdpp Require Import base list strings pretty.
From S2P Require Import Prelude Framing Errors Negotiate RustStr.

Local Open Scope Z_scope.

(** What the operations of [url] do to path and query, and that a printed URL reads back. *)
Class UrlLaws (UL : UrlLib) : Prop := {
  parse_print : forall u, url_parse (url_to_string u) = Ok u;
  pairs_clear : forall u, query_pairs (url_clear_query u) = [];
  pairs_append : forall k v u, query_pairs (append_pair k v u) = query_pairs u ++ [(k, v)];
  pairs_fragment : forall u, query_pairs (url_clear_fragment u) = query_pairs u;
  pairs_path : forall p u, query_pairs (url_set_path p u) = query_pairs u;
  path_clear : forall u, url_path (url_clear_query u) = url_path u;
  path_append : forall k v u, url_path (append_pair k v u) = url_path u;
  path_fragment : forall u, url_path (url_clear_fragment u) = url_path u;
  (** A path that was read, with or without its last slash, can be extended. *)
  path_extend : forall u rest, rest = url_path u \/ rest +:+ "/" = url_path u ->
    url_path (url_set_path (rest +:+ "/negotiate") u) = rest +:+ "/negotiate"
}.

Section urls.
Context `{UL : UrlLib, LW : !UrlLaws UL}.

Lemma append_pairs_spec ps u : query_pairs (append_pairs ps u) = query_pairs u ++ ps /\
  url_path (append_pairs ps u) = url_path u.
Proof.
  revert u. induction ps as [|[k v] ps IH]; intros u; [by rewrite app_nil_r|].
  change (append_pairs ((k, v) :: ps) u) with (append_pairs ps (append_pair k v u)).
  destruct (IH (append_pair k v u)) as [-> ->]. by rewrite pairs_append, path_append, <- app_assoc.
Qed.

Definition redacted (p : string * string) : string * string :=
  (p.1, if String.eqb p.1 "access_token" then "***"%string else p.2).

(** C31: A logged URL does not show the access token: what [redact_access_token] makes of a URL is a
    fixed text when the URL cannot be read, and otherwise a URL with the same path and the same
    parameters in the same order, in which every value of [access_token] is three stars and every
    other value is kept; a token that [append_access_token] put into a URL is hidden this way. *)
Theorem redaction_hides_token (url : string) :
  match url_parse url with
  | Err _ => redact_access_token url = "<unparsable url>"%string
  | Ok u => exists u', url_parse (redact_access_token url) = Ok u' /\
      query_pairs u' = map redacted (query_pairs u) /\ url_path u' = url_path u /\
      Forall (fun p => p.1 = "access_token"%string -> p.2 = "***"%string) (query_pairs u')
  end /\
  forall token target, append_access_token url (Some token) = Ok target -> token <> EmptyString ->
    exists u u', url_parse url = Ok u /\ url_parse (redact_access_token target) = Ok u' /\
      query_pairs u' = map redacted (query_pairs u) ++ [("access_token", "***")%string].
Proof.
  assert (Hred : forall url u, url_parse url = Ok u -> exists u', url_parse (redact_access_token url) = Ok u' /\
    query_pairs u' = map redacted (query_pairs u) /\ url_path u' = url_path u).
  { clear url. intros url u Hu. unfold redact_access_token. rewrite Hu.
    destruct (existsb _ _) eqn:Hex.
    - rewrite parse_print. eexists. split; [done|].
      destruct (append_pairs_spec (map (fun '(k, v) => (k, if String.eqb k "access_token" then "***"%string else v))
        (query_pairs u)) (url_clear_query u)) as [-> ->].
      rewrite pairs_clear, path_clear. split; [|done]. cbn [app]. apply map_ext. by intros [k v].
    - exists u. split; [done|]. split; [|done]. symmetry. rewrite <- (map_id (query_pairs u)) at 2.
      apply map_ext_in. intros [k v] Hin. unfold redacted. cbn.
      destruct (String.eqb k "access_token") eqn:Hk; [|done]. exfalso.
      enough (existsb (fun p => String.eqb (fst p) "access_token") (query_pairs u) = true) by congruence.
      apply existsb_exists. by exists (k, v). }
  split.
  - destruct (url_parse url) as [u|e] eqn:Hu; [|unfold redact_access_token; by rewrite Hu].
    destruct (Hred url u Hu) as (u' & Hp & Hq & Hpath). exists u'. split_and!; [done..|].
    rewrite Hq. apply Forall_map, Forall_true. intros [k v]. unfold redacted. cbn. by intros ->.
  - intros token target Happ Hne. unfold append_access_token, non_empty in Happ.
    destruct token as [|ch token]; [done|].
    destruct (url_parse url) as [u|e] eqn:Hu; [|done]. cbn in Happ. injection Happ as <-.
    destruct (Hred (url_to_string (append_pair "access_token" (String ch token) u)) _ (parse_print _)) as (u' & Hp & Hq & _).
    exists u, u'. split_and!; [done..|]. by rewrite Hq, pairs_append, map_app.
Qed.

(** The values of a parameter. *)
Definition values_of (key : string) (u : Url) : list string :=
  map snd (filter (fun p => p.1 = key) (query_pairs u)).

Lemma pop_slash s : ends_with_slash s = true -> pop s +:+ "/" = s.
Proof.
  induction s as [|c s IH]; [done|]. cbn [ends_with_slash pop]. destruct s as [|c' s].
  - intros Hc. apply Ascii.eqb_eq in Hc as ->. done.
  - intros Hs. rewrite string_app_cons. f_equal. by apply IH.
Qed.

(** The keys that the negotiation sets itself. *)
Definition kept (p : string * string) : Prop :=
  (p.1 <> "negotiateVersion" /\ p.1 <> "useStatefulReconnect")%string.

Lemma values_kept key l : filter (fun p => p.1 = key) (filter kept l) =
  if bool_decide (key = "negotiateVersion" \/ key = "useStatefulReconnect")%string then []
  else filter (fun p => p.1 = key) l.
Proof.
  induction l as [|[k v] l IH]; [by case_bool_decide|].
  destruct (decide (kept (k, v))) as [Hk|Hk]; [rewrite (filter_cons_True kept) by done
    |rewrite (filter_cons_False kept), IH by done].
  - destruct (decide (k = key)) as [->|Hne].
    + rewrite !filter_cons_True, IH by done. destruct Hk. by rewrite bool_decide_eq_false_2 by naive_solver.
    + by rewrite !(filter_cons_False _ (k, v)), IH by done.
  - case_bool_decide as Hkey; [done|]. rewrite (filter_cons_False _ (k, v)); [done|]. cbn. intros ->.
    apply Hk. unfold kept. cbn. naive_solver.
Qed.

Lemma slashed r : pop (r +:+ "/") = r /\ ends_with_slash (r +:+ "/") = true.
Proof.
  induction r as [|c r [IH1 IH2]]; [done|]. rewrite string_app_cons.
  destruct (r +:+ "/") as [|d t] eqn:E; [by destruct r|]. split; [|exact IH2].
  change (pop (String c (String d t))) with (String c (pop (String d t))). by rewrite IH1.
Qed.

(** The path of the hub without its last slash, unless it is nothing else. *)
Lemma trimmed_path p : let rest := if ends_with_slash p && (1 <? String.length p)%nat then pop p else p in
  (rest = p \/ rest +:+ "/" = p) /\ (p = "/"%string -> rest = p) /\
  (p <> "/"%string -> forall r, r +:+ "/" = p -> rest = r) /\ (ends_with_slash p = false -> rest = p).
Proof.
  cbv zeta. destruct (ends_with_slash p) eqn:He; cbn [andb]; [|split_and!; [by left|done| |done]].
  - destruct (Nat.ltb_spec 1 (String.length p)) as [Hl|Hl]; split_and!; try done.
    + right. by apply pop_slash.
    + intros ->. cbn in Hl. lia.
    + intros _ r <-. apply slashed.
    + by left.
    + intros Hne r Hr. exfalso. apply Hne. subst p. destruct r as [|c r]; [done|].
      rewrite string_app_cons in Hl. destruct (r +:+ "/") eqn:E; [by destruct r|cbn in Hl; lia].
  - intros _ r <-. by rewrite (proj2 (slashed r)) in He.
Qed.

(** C32: The negotiation asks for what the options say: [resolve_negotiate_url] fails exactly when the
    URL cannot be read; otherwise its URL has the parameters of the hub's URL in their order,
    except that [negotiateVersion] has one value, the version of the options, and
    [useStatefulReconnect] is [true] when the options ask for it and absent otherwise, whatever
    the hub's URL said; the path is that of the hub without its last slash, followed by
    [/negotiate], except that the path [/] of a hub at the root keeps its slash, which gives
    [//negotiate]. *)
Theorem negotiate_url_spec (hub_url : string) (options : NegotiateOptions) :
  match url_parse hub_url with
  | Err e => resolve_negotiate_url hub_url options = Err (EUrlParse e)
  | Ok u => exists text u', resolve_negotiate_url hub_url options = Ok text /\ url_parse text = Ok u' /\
      values_of "negotiateVersion" u' = [pretty (no_negotiate_version options)] /\
      values_of "useStatefulReconnect" u' =
        (if no_use_stateful_reconnect options then ["true"%string] else []) /\
      (forall key, key <> "negotiateVersion"%string -> key <> "useStatefulReconnect"%string ->
        values_of key u' = values_of key u) /\
      (url_path u = "/"%string -> url_path u' = "//negotiate"%string) /\
      (url_path u <> "/"%string -> forall rest, rest +:+ "/" = url_path u ->
        url_path u' = rest +:+ "/negotiate") /\
      (ends_with_slash (url_path u) = false -> url_path u' = url_path u +:+ "/negotiate")
  end.
Proof.
  unfold resolve_negotiate_url. destruct (url_parse hub_url) as [u|e]; [|done]. cbn [map_err mbind result_bind].
  destruct (trimmed_path (url_path u)) as (Hrest & H1 & H2 & H3).
  set (rest := if _ && _ then pop (url_path u) else url_path u) in *. clearbody rest.
  rewrite pairs_fragment, pairs_path. set (u0 := url_clear_query _).
  set (pairs := if no_use_stateful_reconnect options then _ else _).
  destruct (append_pairs_spec pairs u0) as [Hq Hp].
  assert (Hpath : url_path u0 = rest +:+ "/negotiate").
  { subst u0. by rewrite path_clear, path_fragment, path_extend. }
  assert (Hval : forall key, values_of key (append_pairs pairs u0) = map snd (filter (fun p => p.1 = key) pairs)).
  { intros key. unfold values_of. rewrite Hq. subst u0. by rewrite pairs_clear. }
  eexists _, _. split; [done|]. split; [apply parse_print|]. rewrite !Hval, Hp, Hpath.
  fold kept in pairs.
  assert (Hpairs : forall key, filter (fun p => p.1 = key) pairs =
    filter (fun p => p.1 = key) (filter kept (query_pairs u)) ++
    filter (fun p => p.1 = key) (("negotiateVersion"%string, pretty (no_negotiate_version options)) ::
      if no_use_stateful_reconnect options then [("useStatefulReconnect", "true")%string] else [])).
  { intros key. rewrite <- filter_app. subst pairs.
    destruct (no_use_stateful_reconnect options); [by rewrite <- app_assoc|done]. }
  rewrite !Hpairs, !values_kept. split_and!.
  - by destruct (no_use_stateful_reconnect options).
  - by destruct (no_use_stateful_reconnect options).
  - intros key Hk1 Hk2. rewrite Hval, Hpairs, values_kept, bool_decide_eq_false_2 by naive_solver.
    rewrite filter_cons_False by naive_solver. unfold values_of.
    destruct (no_use_stateful_reconnect options); [rewrite filter_cons_False by naive_solver|];
      by rewrite app_nil_r.
  - intros Hu. by rewrite (H1 Hu), Hu.
  - intros Hu r Hr. by rewrite (H2 Hu r Hr).
  - intros Hu. by rewrite (H3 Hu).
Qed.

(** ** The URL of the socket *)

Lemma strip_prefix_app p s : strip_prefix p (p +:+ s) = Some s.
Proof. induction p as [|c p IH]; [done|]. rewrite string_app_cons. cbn. by rewrite Ascii.eqb_refl. Qed.

Lemma replace_first_none from to s : has_substring from s = false -> replace_first from to s = s.
Proof.
  induction s as [|c s IH]; cbn [has_substring replace_first].
  - by destruct (strip_prefix from EmptyString).
  - destruct (strip_prefix from (String c s)); [done|]. intros H. by rewrite IH.
Qed.

(** [a] holds no beginning of an occurrence of [p] that reaches into [s]. *)
Definition first_at (p a s : string) : Prop :=
  forall x y, a = x +:+ y -> y <> EmptyString -> strip_prefix p (y +:+ s) = None.

Fixpoint first_at_b (p a s : string) : bool :=
  match a with
  | EmptyString => true
  | String _ a' => match strip_prefix p (a +:+ s) with None => first_at_b p a' s | Some _ => false end
  end.

Lemma first_at_true p a s : first_at_b p a s = true -> first_at p a s.
Proof.
  intros H x. revert a H. induction x as [|c x IH]; intros a H y Ha Hy.
  - subst a. rewrite string_app_empty in H. destruct y as [|d y]; [done|]. cbn [first_at_b] in H.
    by destruct (strip_prefix p (String d y +:+ s)).
  - subst a. rewrite string_app_cons in H. cbn [first_at_b] in H.
    destruct (strip_prefix p _); [done|]. by apply (IH (x +:+ y)).
Qed.

Lemma replace_first_at from to a rest : first_at from a (from +:+ rest) ->
  replace_first from to (a +:+ from +:+ rest) = a +:+ to +:+ rest.
Proof.
  induction a as [|c a IH]; intros H.
  - rewrite !string_app_empty. destruct (from +:+ rest) as [|d s] eqn:E.
    + assert (strip_prefix from EmptyString = Some rest) as Hs by by rewrite <- E, strip_prefix_app.
      cbn. by rewrite Hs.
    + cbn [replace_first]. rewrite <- E. by rewrite strip_prefix_app.
  - rewrite !string_app_cons. cbn [replace_first].
    pose proof (H EmptyString (String c a) eq_refl ltac:(done)) as Hc. rewrite string_app_cons in Hc.
    rewrite Hc. f_equal. apply IH. intros x y -> Hy. by apply (H (String c x) y).
Qed.

(** The two replacements, on a URL with one of the two schemes. *)
Definition with_ws_scheme (url : string) : string :=
  replace_first "http://" "ws://" (replace_first "https://" "wss://" url).

Lemma ws_scheme_https rest : with_ws_scheme ("https://" +:+ rest) = "wss://" +:+ replace_first "http://" "ws://" rest.
Proof. done. Qed.

Lemma ws_scheme_http rest : with_ws_scheme ("http://" +:+ rest) = "ws://" +:+ replace_first "https://" "wss://" rest.
Proof. done. Qed.

(** The URL of the socket before its scheme is changed. *)
Definition websocket_target (u : Url) (connection_token : string) : Url :=
  append_pairs (filter (fun p => fst p <> "negotiateVersion"%string) (query_pairs u) ++
    [("id"%string, connection_token)]) (url_clear_query (url_clear_fragment u)).

(** C33: The URL of the socket: [build_websocket_url] fails when the hub's URL cannot be read;
    otherwise the URL it prints has the path of the hub, its parameters in their order without
    [negotiateVersion], and then [id] with the connection token, and the access token is appended
    to it.  Its scheme becomes [wss] or [ws] and nothing else changes, provided the rest of the
    text does not hold the other scheme: the replacement is not tied to the beginning, so that
    behind [https] the first [http://] of the path becomes [ws://] as well, and a hub behind a
    proxy that takes the address as its path is not reached. *)
Theorem websocket_url_spec (base_url connection_token : string) (access_token : option string) :
  match url_parse base_url with
  | Err e => build_websocket_url base_url connection_token access_token = Err (EUrlParse e)
  | Ok u =>
      let u' := websocket_target u connection_token in
      query_pairs u' = filter (fun p => p.1 <> "negotiateVersion"%string) (query_pairs u) ++
        [("id"%string, connection_token)] /\
      url_path u' = url_path u /\
      (forall rest, url_to_string u' = "https://" +:+ rest -> has_substring "http://" rest = false ->
        build_websocket_url base_url connection_token access_token =
          append_access_token ("wss://" +:+ rest) access_token) /\
      (forall rest, url_to_string u' = "http://" +:+ rest -> has_substring "https://" rest = false ->
        build_websocket_url base_url connection_token access_token =
          append_access_token ("ws://" +:+ rest) access_token) /\
      (forall a rest, url_to_string u' = "https://" +:+ a +:+ "http://" +:+ rest ->
        first_at "http://" a ("http://" +:+ rest) ->
        build_websocket_url base_url connection_token access_token =
          append_access_token ("wss://" +:+ a +:+ "ws://" +:+ rest) access_token)
  end.
Proof.
  unfold build_websocket_url. destruct (url_parse base_url) as [u|e]; [|done].
  cbn [map_err mbind result_bind]. rewrite pairs_fragment.
  unfold websocket_target.
  set (pairs := filter _ (query_pairs u) ++ _). set (u0 := url_clear_query (url_clear_fragment u)).
  destruct (append_pairs_spec pairs u0) as [Hq Hp]. cbv zeta.
  fold (with_ws_scheme (url_to_string (append_pairs pairs u0))).
  split_and!.
  - rewrite Hq. subst u0. by rewrite pairs_clear.
  - rewrite Hp. subst u0. by rewrite path_clear, path_fragment.
  - intros rest -> Hr. by rewrite ws_scheme_https, replace_first_none.
  - intros rest -> Hr. by rewrite ws_scheme_http, replace_first_none.
  - intros a rest -> Hf. by rewrite ws_scheme_https, replace_first_at.
Qed.

End urls.
