(* ===== verification/Retry.v ===== *)
(** * Retry policies and lifecycle callbacks ([src/hub_connection/retry.rs],
    [src/hub_connection/callbacks.rs], [src/hub_connection/state.rs])

    Durations are seconds.  A callback is application code: the model records that the callbacks
    registered for an event ran, with which argument. *)

From Stdlib Require Import ZArith Lia String.
From stdpp Require Import base list strings.
From S2P Require Import Prelude.

Local Open Scope Z_scope.

(** [HubConnectionState] *)
Inductive HubConnectionState : Type :=
| Disconnected
| Connecting
| Connected
| Disconnecting
| Reconnecting.

#[global] Instance HubConnectionState_eq_dec : EqDecision HubConnectionState.
Proof. solve_decision. Defined.

(** ** Retry policies *)

(** [RetryContext] *)
Record RetryContext := {
  rc_elapsed : Z;
  rc_previous_retry_count : nat;
  rc_retry_reason : string
}.

(** [trait RetryPolicy] *)
Definition RetryPolicy : Type := RetryContext -> option Z.

(** [DEFAULT_RETRY_DELAYS] *)
Definition DEFAULT_RETRY_DELAYS : list Z := [0; 2; 10; 30].

(** [DefaultReconnectPolicy] *)
Record DefaultReconnectPolicy := { delays : list (option Z) }.

(** [DefaultReconnectPolicy::new] *)
Definition policy_new (ds : list Z) : DefaultReconnectPolicy := {| delays := map Some ds ++ [None] |}.

(** [impl RetryPolicy for DefaultReconnectPolicy] *)
Definition next_retry_delay (p : DefaultReconnectPolicy) : RetryPolicy :=
  fun context => default None (delays p !! rc_previous_retry_count context).

(** [impl Default for DefaultReconnectPolicy] *)
Definition policy_default : DefaultReconnectPolicy := policy_new DEFAULT_RETRY_DELAYS.

(** The policy gives exactly the delays it was made from. *)
Lemma next_retry_delay_new ds c : next_retry_delay (policy_new ds) c = ds !! rc_previous_retry_count c.
Proof.
  unfold next_retry_delay, policy_new. cbn.
  destruct (ds !! rc_previous_retry_count c) as [d|] eqn:Hd.
  - rewrite lookup_app_l; [|by rewrite length_map; apply lookup_lt_Some in Hd].
    by rewrite list_lookup_fmap, Hd.
  - apply lookup_ge_None in Hd. rewrite lookup_app_r by by rewrite length_map.
    destruct (_ - _)%nat; done.
Qed.

(** ** Lifecycle callbacks *)

(** A round of callbacks. *)
Inductive LifecycleEvent : Type :=
| OnClosed (error : option string)
| OnReconnecting (error : option string)
| OnReconnected (connection_id : option string).

(** [LifecycleCallbacks]: the callbacks registered for each event, by their numbers, and the flag
    [connection_started]; [lc_called] records the calls. *)
Record LifecycleCallbacks := {
  lc_closed : list nat;
  lc_reconnecting : list nat;
  lc_reconnected : list nat;
  connection_started : bool;
  lc_called : list (nat * LifecycleEvent)
}.

(** [LifecycleCallbacks::default] *)
Definition lifecycle_new : LifecycleCallbacks := {|
  lc_closed := []; lc_reconnecting := []; lc_reconnected := []; connection_started := false;
  lc_called := [] |}.

(** [mark_started] *)
Definition mark_started (l : LifecycleCallbacks) : LifecycleCallbacks := {|
  lc_closed := lc_closed l; lc_reconnecting := lc_reconnecting l;
  lc_reconnected := lc_reconnected l; connection_started := true; lc_called := lc_called l |}.

(** [register_closed] *)
Definition register_closed (callback : nat) (l : LifecycleCallbacks) : LifecycleCallbacks := {|
  lc_closed := lc_closed l ++ [callback]; lc_reconnecting := lc_reconnecting l;
  lc_reconnected := lc_reconnected l; connection_started := connection_started l;
  lc_called := lc_called l |}.

(** [register_reconnecting] *)
Definition register_reconnecting (callback : nat) (l : LifecycleCallbacks) : LifecycleCallbacks := {|
  lc_closed := lc_closed l; lc_reconnecting := lc_reconnecting l ++ [callback];
  lc_reconnected := lc_reconnected l; connection_started := connection_started l;
  lc_called := lc_called l |}.

(** [register_reconnected] *)
Definition register_reconnected (callback : nat) (l : LifecycleCallbacks) : LifecycleCallbacks := {|
  lc_closed := lc_closed l; lc_reconnecting := lc_reconnecting l;
  lc_reconnected := lc_reconnected l ++ [callback]; connection_started := connection_started l;
  lc_called := lc_called l |}.

(** The loop over the callbacks; a panic of one is caught ([invoke_callback]), so all run. *)
Definition call_all (callbacks : list nat) (event : LifecycleEvent) (started : bool)
    (l : LifecycleCallbacks) : LifecycleCallbacks := {|
  lc_closed := lc_closed l; lc_reconnecting := lc_reconnecting l;
  lc_reconnected := lc_reconnected l; connection_started := started;
  lc_called := lc_called l ++ map (fun c => (c, event)) callbacks |}.

(** [invoke_closed]: only once after [mark_started]. *)
Definition invoke_closed (error : option string) (l : LifecycleCallbacks) : LifecycleCallbacks :=
  if connection_started l then call_all (lc_closed l) (OnClosed error) false l else l.

(** [invoke_reconnecting] *)
Definition invoke_reconnecting (error : option string) (l : LifecycleCallbacks) : LifecycleCallbacks :=
  call_all (lc_reconnecting l) (OnReconnecting error) (connection_started l) l.

(** [invoke_reconnected] *)
Definition invoke_reconnected (connection_id : option string) (l : LifecycleCallbacks)
    : LifecycleCallbacks :=
  call_all (lc_reconnected l) (OnReconnected connection_id) (connection_started l) l.

