(* ===== verification/Connection.v ===== *)
(** * Establishing a connection ([src/connection.rs], [src/transport/websocket.rs])

    [connect] negotiates, opens the WebSocket, sends the handshake and reads the answer together
    with the messages that came along with it; [reopen] opens the socket of an established
    connection once more.  Opening a socket and waiting for what arrives on it are the parameter
    [Sockets]. *)

From Stdlib Require Import ZArith Lia String.
From stdpp Require Import base list strings.
From S2P Require Import Prelude Framing Utf8 Errors Values Arguments Message JsonProtocol.
From S2P Require Import MessageBuffer Handshake Negotiate Retry.

Local Open Scope Z_scope.

(** [TransportMessage] *)
Inductive TransportMessage : Type :=
| TText (text : string)
| TBinary (bytes : list u8)
| TClosed (reason : option string).

(** ** The reader of the socket *)

(** What [tungstenite] delivers: a message or an error, as its text. *)
Inductive SocketMessage : Type :=
| SText (text : string)
| SBinary (data : list u8)
| SPing
| SPong
| SFrame
| SClose (reason : option string).

(** [read_loop], as long as the receiver is there: what it puts into the channel. *)
Fixpoint read_loop (read : list (result string SocketMessage)) : list TransportMessage :=
  match read with
  | [] => [TClosed None]
  | Ok (SText text) :: read => TText text :: read_loop read
  | Ok (SBinary data) :: read => TBinary data :: read_loop read
  | Ok (SPing | SPong | SFrame) :: read => read_loop read
  | Ok (SClose reason) :: _ => [TClosed reason; TClosed None]
  | Err error :: _ => [TClosed (Some error); TClosed None]
  end.

(** ** Connecting *)

(** Sockets: opening one at a URL, and waiting, at most so long, for what arrives next; the
    outer [None] is the timeout, the inner one the end of the channel.  An operation here is one that
    returns: nothing bounds the opening of a socket, so a [connect] that waits for a server that
    does not answer is not a value of [connect] below, and what is said of a [connect] that returns
    is said under the condition that its operations do. *)
Class Sockets (W : Type) := {
  sockets_transport :: Transport W;
  client_build : Z -> result string unit;
  ws_connect : string -> W -> result string transport * W;
  ws_receive : transport -> Z -> W -> option (option TransportMessage) * W
}.

(** [DEFAULT_HANDSHAKE_TIMEOUT], in seconds. *)
Definition DEFAULT_HANDSHAKE_TIMEOUT : Z := 15.

(** [ConnectionOptions]; whether an HTTP client is given matters, not which one. *)
Record ConnectionOptions (W : Type) := {
  op_base_url : string;
  op_negotiate : NegotiateOptions;
  op_handshake_request : HandshakeRequest;
  op_handshake_version_override : option Z;
  op_transfer_format : TransferFormat;
  op_handshake_timeout : Z;
  op_access_token_factory : option (AccessTokenFactory W);
  op_hub_protocol : HubProtocol;
  op_server_timeout : Z;
  op_keep_alive_interval : Z;
  op_reconnect_policy : option RetryPolicy;
  op_stateful_reconnect_buffer_size : Z;
  op_http_client : bool;
  op_log_message_content : bool
}.
Arguments op_base_url {W}.
Arguments op_negotiate {W}.
Arguments op_handshake_request {W}.
Arguments op_handshake_version_override {W}.
Arguments op_transfer_format {W}.
Arguments op_handshake_timeout {W}.
Arguments op_access_token_factory {W}.
Arguments op_hub_protocol {W}.
Arguments op_server_timeout {W}.
Arguments op_keep_alive_interval {W}.
Arguments op_reconnect_policy {W}.
Arguments op_stateful_reconnect_buffer_size {W}.
Arguments op_http_client {W}.
Arguments op_log_message_content {W}.

(** [ResumeTarget] *)
Record ResumeTarget := { rt_url : string; rt_server_token : option string }.

(** [Connection]; the receiver is the transport's. *)
Record Connection := {
  co_base_url : string;
  co_connection_id : option string;
  co_connection_token : string;
  co_transport : transport;
  co_handshake_result : HandshakeResult;
  co_initial_messages : list HubMessage;
  co_resume : option ResumeTarget
}.

Section connection.
Context `{UL : UrlLib} `{HC : HttpClient W} `{SO : !Sockets W} `{HT : HandshakeText}.

(** [parse_transport_handshake] *)
Definition parse_transport_handshake (message : TransportMessage) : result Error HandshakeResult :=
  match message with
  | TText text => parse_response (HText text)
  | TBinary bytes => parse_response (HBinary bytes)
  | TClosed reason =>
      Err (EHandshake ("connection closed during handshake: " +:+ default "unknown reason"%string reason))
  end.

(** [parse_initial_messages] *)
Definition parse_initial_messages (protocol : HubProtocol) (h : HandshakeResult)
    : result Error (list HubMessage) :=
  match remaining h with
  | None => Ok []
  | Some (RText text) => map_err error_from_protocol (parse_messages protocol (IText text))
  | Some (RBytes bytes) => map_err error_from_protocol (parse_messages protocol (IBinary bytes))
  end.

(** [WebSocketTransport::connect_with_options] *)
Definition connect_with_options (url : string) (access_token : option string) (w : W)
    : result Error transport * W :=
  match append_access_token url access_token with
  | Err e => (Err e, w)
  | Ok target_url => let '(r, w) := ws_connect target_url w in (map_err EWebSocket r, w)
  end.

(** [WebSocketTransport::connect], with the default options. *)
Definition transport_connect (url : string) (access_token : option string) (w : W)
    : result Error transport * W := connect_with_options url access_token w.

(** [negotiate]: with a client of its own. *)
Definition negotiate (hub_url : string) (options : NegotiateOptions) (access_token : option string)
    (s : NegState W) : option (result Error NegotiateResult * NegState W) :=
  match client_build (no_timeout options) with
  | Err e => Some (Err (EHttp e), s)
  | Ok _ => negotiate_with_client hub_url options access_token s
  end.

(** [Connection::close] *)
Definition connection_close (c : Connection) (w : W) : result Error unit * W :=
  transport_close (co_transport c) w.

(** [ResumeTarget::reopen] *)
Definition reopen (target : ResumeTarget) (options : ConnectionOptions W) (s : NegState W)
    : result Error transport * NegState W :=
  let '(r, s) := match rt_server_token target with
                 | Some t => (Ok (Some t), s)
                 | None => resolve (op_access_token_factory options) s
                 end in
  match (t ← r; append_access_token (rt_url target) t) with
  | Err e => (Err e, s)
  | Ok url =>
      let '(r, w) := connect_with_options url None (ns_world s) in
      (r, {| ns_world := w; ns_requests := ns_requests s; ns_factory_calls := ns_factory_calls s |})
  end.

(** [connect] up to the socket: the URL to open and what to keep of the negotiation. *)
Definition connection_urls (result : NegotiateResult)
    : Prelude.result Error (string * option string * string * option ResumeTarget) :=
  let response := ng_response result in
  connection_token ← websocket_token response;
  websocket_url ← build_websocket_url (ng_url result) connection_token (ng_access_token result);
  resume ← match nr_use_stateful_reconnect response with
           | Some true =>
               url ← build_websocket_url (ng_url result) connection_token None;
               Ok (Some {| rt_url := url;
                           rt_server_token := if ng_token_from_server result
                                              then ng_access_token result else None |})
           | _ => Ok None
           end;
  Ok (connection_token, nr_connection_id response, websocket_url, resume).

(** [connect] on the open socket: the handshake. *)
Definition shake_hands (options : ConnectionOptions W) (tr : transport) (w : W)
    : result Error (HandshakeResult * list HubMessage) * W :=
  let handshake_request := {|
    hr_protocol := hr_protocol (op_handshake_request options);
    hr_version := resolve_handshake_version (no_use_stateful_reconnect (op_negotiate options))
      (version (op_hub_protocol options)) (op_handshake_version_override options) |} in
  match write_request handshake_request with
  | Err e => (Err e, w)
  | Ok payload =>
      match send_text tr payload w with
      | (Err e, w) => (Err e, w)
      | (Ok _, w) =>
          let '(received, w) := ws_receive tr (op_handshake_timeout options) w in
          (message ← ok_or received (EHandshake "handshake timeout");
           message ← ok_or message (EHandshake "connection closed during handshake");
           handshake_result ← parse_transport_handshake message;
           match hs_error (response handshake_result) with
           | Some error => Err (EHandshake error)
           | None =>
               initial_messages ← parse_initial_messages (op_hub_protocol options) handshake_result;
               Ok (handshake_result, initial_messages)
           end, w)
      end
  end.

(** [Connection::connect]; [None] only if the negotiation runs out of fuel. *)
Definition connect (options : ConnectionOptions W) (s : NegState W)
    : option (result Error Connection * NegState W) :=
  let client := if op_http_client options then Ok tt
                else map_err EHttp (client_build (no_timeout (op_negotiate options))) in
  match client with
  | Err e => Some (Err e, s)
  | Ok _ =>
      match negotiate_with_token_factory (op_base_url options) (op_negotiate options)
              (op_access_token_factory options) s with
      | None => None
      | Some (Err e, s) => Some (Err e, s)
      | Some (Ok result, s) =>
          match connection_urls result with
          | Err e => Some (Err e, s)
          | Ok (connection_token, connection_id, websocket_url, resume) =>
              match connect_with_options websocket_url None (ns_world s) with
              | (Err e, w) => Some (Err e, {| ns_world := w; ns_requests := ns_requests s;
                                              ns_factory_calls := ns_factory_calls s |})
              | (Ok tr, w) =>
                  let '(r, w) := shake_hands options tr w in
                  Some ('(handshake_result, initial_messages) ← r;
                        Ok {| co_base_url := op_base_url options;
                              co_connection_id := connection_id;
                              co_connection_token := connection_token;
                              co_transport := tr;
                              co_handshake_result := handshake_result;
                              co_initial_messages := initial_messages;
                              co_resume := resume |},
                        {| ns_world := w; ns_requests := ns_requests s;
                           ns_factory_calls := ns_factory_calls s |})
              end
          end
      end
  end.

(** ** What an established connection satisfies *)

(** The answers of the server in a negotiation that succeeded, as the requests recorded them. *)
Definition negotiated_as (options : NegotiateOptions) (s s' : NegState W) (res : NegotiateResult)
    (trace : list (string * option string * result Error NegotiateResponse)) : Prop :=
  ns_requests s' = ns_requests s ++ trace /\ success options None trace res.

Lemma negotiate_total url options factory s : exists r s',
  negotiate_with_token_factory url options factory s = Some (r, s') /\
  match r with Ok res => exists trace, negotiated_as options s s' res trace | Err _ => True end.
Proof.
  assert (Hsrc : forall src s, exists r s', negotiate_with_source url options src s = Some (r, s') /\
    match r with Ok res => exists trace, negotiated_as options s s' res trace | Err _ => True end).
  { intros src s0.
    destruct (negotiate_loop_ok options (S (Z.to_nat MAX_NEGOTIATE_REDIRECTS)) url 0 src false s0 None)
      as (r & s' & trace & Hr & [Hreq _ _ _ Hres]); [by left|done|done|done|].
    exists r, s'. split; [exact Hr|]. destruct r; [|done]. exists trace. by split. }
  unfold negotiate_with_token_factory. destruct factory as [factory|]; [|apply Hsrc].
  assert (Hreq : ns_requests (resolve (Some factory) s).2 = ns_requests s) by (cbn; by destruct (factory _)).
  destruct (resolve (Some factory) s) as [[t|e] s1]; [|by eexists _, _]. cbn in Hreq.
  destruct (Hsrc (Factory factory t) s1) as (r & s' & Hr & H). exists r, s'. unfold negotiated_as in *.
  rewrite <- Hreq. by split.
Qed.

(** The resume target is there exactly when the server agreed; its token is the server's. *)
Lemma connection_urls_resume res token id url resume :
  connection_urls res = Ok (token, id, url, resume) ->
  (is_Some resume <-> nr_use_stateful_reconnect (ng_response res) = Some true) /\
  (forall target, resume = Some target ->
    build_websocket_url (ng_url res) token None = Ok (rt_url target) /\
    rt_server_token target = if ng_token_from_server res then ng_access_token res else None).
Proof.
  unfold connection_urls. destruct (websocket_token _) as [t|]; [|done]. cbn.
  destruct (build_websocket_url (ng_url res) t (ng_access_token res)) as [u|]; [|done]. cbn.
  destruct (nr_use_stateful_reconnect (ng_response res)) as [[]|]; cbn.
  - destruct (build_websocket_url (ng_url res) t None) as [u'|] eqn:Hb; [|done]. cbn.
    intros [= <- <- <- <-]. split; [by split; eauto|]. intros target [= <-]. done.
  - intros [= <- <- <- <-]. split; [|done]. split; [by intros []|done].
  - intros [= <- <- <- <-]. split; [|done]. split; [by intros []|done].
Qed.

Lemma shake_hands_sound options tr w h ms w' :
  shake_hands options tr w = (Ok (h, ms), w') ->
  hs_error (response h) = None /\ parse_initial_messages (op_hub_protocol options) h = Ok ms.
Proof.
  unfold shake_hands. destruct (write_request _); [|done].
  destruct (send_text tr a w) as [[] w1]; [|done].
  destruct (ws_receive _ _ _) as [[[message|]|] w2]; cbn; [|done..].
  destruct (parse_transport_handshake message) as [h'|]; [|done]. cbn.
  destruct (hs_error (response h')) eqn:He; [done|].
  destruct (parse_initial_messages (op_hub_protocol options) h') eqn:Hp; [|done]. cbn.
  by intros [= <- <- <-].
Qed.

Lemma connect_total options s : exists r s', connect options s = Some (r, s').
Proof.
  unfold connect. destruct (if op_http_client options then _ else _) as [|]; [|by eexists _, _].
  destruct (negotiate_total (op_base_url options) (op_negotiate options)
    (op_access_token_factory options) s) as (r & s1 & -> & _).
  destruct r as [res|e]; [|by eexists _, _].
  destruct (connection_urls res) as [[[[ct id] url] resume]|]; [|by eexists _, _].
  destruct (connect_with_options url None (ns_world s1)) as [[tr|e] w]; [|by eexists _, _].
  destruct (shake_hands options tr w). by eexists _, _.
Qed.

(** C34: connecting gives a connection or an error once the requests, the opening of the socket and the
    wait for the handshake have returned.  A connection has completed a handshake without error and
    holds exactly the messages that came along with it.  It can be resumed exactly when the answer
    that ended the negotiation says that the server uses stateful reconnect, which is accepted only
    when the client asked for it; it is then resumed at the URL of that answer, with a token only
    if the server issued it. *)
Theorem connect_sound (options : ConnectionOptions W) (s : NegState W) : exists r s',
  connect options s = Some (r, s') /\
  match r with
  | Err _ => True
  | Ok c =>
      hs_error (response (co_handshake_result c)) = None /\
      parse_initial_messages (op_hub_protocol options) (co_handshake_result c) =
        Ok (co_initial_messages c) /\
      exists trace res, ns_requests s' = ns_requests s ++ trace /\
        success (op_negotiate options) None trace res /\
        match co_resume c with
        | None => nr_use_stateful_reconnect (ng_response res) <> Some true
        | Some target =>
            nr_use_stateful_reconnect (ng_response res) = Some true /\
            no_use_stateful_reconnect (op_negotiate options) = true /\
            build_websocket_url (ng_url res) (co_connection_token c) None = Ok (rt_url target) /\
            rt_server_token target = issued trace
        end
  end.
Proof.
  unfold connect. destruct (if op_http_client options then _ else _) as [|]; [|by eexists _, _].
  destruct (negotiate_total (op_base_url options) (op_negotiate options)
    (op_access_token_factory options) s) as (r & s1 & -> & Hr).
  destruct r as [res|e]; [|by eexists _, _]. destruct Hr as (trace & Hreq & Hs).
  destruct (connection_urls res) as [[[[ct id] url] resume]|] eqn:Hu; [|by eexists _, _].
  destruct (connect_with_options url None (ns_world s1)) as [[tr|e] w]; [|by eexists _, _].
  destruct (shake_hands options tr w) as [[[h ms]|e] w'] eqn:Hh; cbn; [|by eexists _, _].
  eexists _, _. split; [done|]. cbn. destruct (shake_hands_sound _ _ _ _ _ _ Hh) as [He Hm].
  split_and!; [done|done|]. exists trace, res. split_and!; [done|done|].
  apply connection_urls_resume in Hu as [Hagree Ht].
  destruct resume as [target|]; [|intros Ha; by apply Hagree in Ha as [? ?]].
  destruct (Ht target eq_refl) as [Hb Htok].
  pose proof Hs as (_ & _ & Hask & Hfs & t & _ & Hat).
  assert (Ha : nr_use_stateful_reconnect (ng_response res) = Some true) by by apply Hagree.
  split_and!; [done|by apply Hask|done|]. rewrite Htok, Hfs, Hat. by destruct (issued trace).
Qed.

(** C35: a message the server sends in the same frame as the handshake response is not lost: for
    every protocol that keeps its promise, the handshake succeeds and the initial messages are
    what arrives of the message written. *)
Theorem handshake_keeps_messages (p : HubProtocol) (supported : HubMessage -> Prop)
    (arrives : HubMessage -> list HubMessage -> Prop) (m : HubMessage) (json : string)
    (r : HandshakeResponse) (bytes : list u8) :
  protocol_ok p supported arrives -> supported m ->
  write_message p m = Ok bytes -> bytes <> [] ->
  Text.is_record json = true -> is_str json = true -> response_from_str json = Ok r ->
  let frame := match transfer_format p with
               | FText => TText (Text.write json +:+ string_of_bytes bytes)
               | FBinary => TBinary (bytes_of_string (Text.write json) ++ bytes)
               end in
  exists h ms, parse_transport_handshake frame = Ok h /\ response h = r /\
    parse_initial_messages p h = Ok ms /\ arrives m ms.
Proof.
  intros Hp Hm Hw Hne Hrec Hstr Hr. cbv zeta.
  destruct (written_parses _ _ _ Hp m Hm) as (bytes' & ms & Hw' & Hparse & Harr).
  rewrite Hw in Hw'. injection Hw' as <-. unfold as_input in Hparse.
  destruct (transfer_format p); cbn [parse_transport_handshake].
  - rewrite (parse_response_text json _ r) by done. eexists _, _. split_and!; [done|done| |done].
    unfold parse_initial_messages. cbn. destruct (string_of_bytes bytes) eqn:Hb.
    + destruct bytes; [done|]. discriminate Hb.
    + cbn. by rewrite Hparse.
  - rewrite (parse_response_binary json _ r) by done. eexists _, _. split_and!; [done|done| |done].
    unfold parse_initial_messages. destruct bytes; [done|]. cbn. by rewrite Hparse.
Qed.

End connection.
