(* ===== verification/WebSocket.v ===== *)
(** * The WebSocket transport ([src/transport/websocket.rs], [src/transport/mod.rs])

    A transport handle shares one socket: the sink, the task that reads, the flag [closed].  With
    its send queue enabled, sends go through the queue's worker, which holds a handle without a
    queue, and [close] first stops the worker.  The calls of [send_text], [send_binary] and
    [close] are programs whose phases interleave with each other and with the worker at the
    points where the source waits. *)

From Stdlib Require Import ZArith Lia String Ascii.
From stdpp Require Import base list strings pretty relations.
From S2P Require Import Prelude Framing Utf8 Errors Values Arguments Message JsonProtocol.
From S2P Require Import MessageBuffer SendQueue Negotiate Connection.

Local Open Scope Z_scope.

(** ** What is logged of a payload *)

(** [TransportPayloadDetail] *)
Inductive TransportPayloadDetail : Type :=
| DText (text : string)
| DBinary (bytes : list u8).

Definition hex_digit (n : N) : ascii :=
  Ascii.ascii_of_N (if (n <? 10)%N then 48 + n else 87 + n)%N.

(** [format!("{value:02x}")] *)
Definition hex_byte (b : u8) : string :=
  String (hex_digit (Byte.to_N b / 16)) (String (hex_digit (Byte.to_N b mod 16)) EmptyString).

(** [format_data_detail] *)
Definition format_data_detail (data : TransportPayloadDetail) (include_content : bool) : string :=
  match data with
  | DText text =>
      let detail := ("String data of length " +:+ pretty (Z.of_nat (String.length text)))%string in
      if include_content
      then (detail +:+ ". Content: " +:+ String "034" (text +:+ String "034" EmptyString))%string
      else detail
  | DBinary bytes =>
      let detail := ("Binary data of length " +:+ pretty (len bytes))%string in
      if include_content
      then (detail +:+ ". Content: " +:+
            String "034" (String.concat EmptyString (map hex_byte bytes) +:+ String "034" EmptyString))%string
      else detail
  end.

(** Without [log_message_content] a log line tells the kind and the length of a payload only:
    payloads that agree in both are logged alike. *)
Lemma log_hides_content (d d' : TransportPayloadDetail) :
  match d, d' with
  | DText s, DText s' => String.length s = String.length s'
  | DBinary b, DBinary b' => length b = length b'
  | _, _ => False
  end <-> format_data_detail d false = format_data_detail d' false.
Proof.
  destruct d as [s|b], d' as [s'|b']; cbn; [split|split; [done|by intros [=]]..|split].
  - by intros ->.
  - intros H. simplify_eq/=. lia.
  - unfold len. by intros ->.
  - unfold len. intros H. simplify_eq/=. lia.
Qed.

(** ** The socket and its handles *)

(** The sink of the socket, [tungstenite]'s. *)
Class Sink (K : Type) := {
  sink_send : SocketMessage -> K -> result string unit * K;
  sink_close : K -> result string unit * K
}.

(** What the handles share.  [sk_sent] and [sk_closings] record the frames that the sink accepted
    and what it answered when it was closed. *)
Record Socket (K : Type) := {
  sk_sink : K;
  sk_read_task : bool;
  sk_closed : bool;
  sk_sent : list SocketMessage;
  sk_closings : list (result string unit)
}.
Arguments sk_sink {K}. Arguments sk_read_task {K}. Arguments sk_closed {K}.
Arguments sk_sent {K}. Arguments sk_closings {K}.

(** [WebSocketTransportInner]: the sink is given or not, the queue is named by a number. *)
Record WebSocketTransportInner := {
  wi_sender : bool;
  wi_log_message_content : bool;
  wi_send_queue : option nat
}.

(** [WebSocketTransport] *)
Abbreviation WebSocketTransport := (option WebSocketTransportInner).

(** [WebSocketTransport::clone_without_send_queue] *)
Definition clone_without_send_queue (t : WebSocketTransport) : WebSocketTransport :=
  match t with
  | None => None
  | Some inner => Some {| wi_sender := wi_sender inner;
                          wi_log_message_content := wi_log_message_content inner;
                          wi_send_queue := None |}
  end.

(** [WebSocketTransport::send_queue] *)
Definition send_queue (t : WebSocketTransport) : option nat :=
  inner ← t; wi_send_queue inner.

(** [WebSocketTransport::enable_send_queue]; the second part is the queue that was made, with the
    transport of its worker. *)
Definition enable_send_queue (name : nat) (t : WebSocketTransport)
    : WebSocketTransport * option WebSocketTransport :=
  match send_queue t with
  | Some _ => (t, None)
  | None =>
      let direct_transport := clone_without_send_queue t in
      match t with
      | None => (None, None)
      | Some inner => (Some {| wi_sender := wi_sender inner;
                               wi_log_message_content := wi_log_message_content inner;
                               wi_send_queue := Some name |}, Some direct_transport)
      end
  end.

Section socket.
Context `{SI : Sink K}.

(** The handle and the socket of [WebSocketTransport::connect_with_options]. *)
Definition opened (log_message_content : bool) (sink : K) : WebSocketTransport * Socket K :=
  (Some {| wi_sender := true; wi_log_message_content := log_message_content; wi_send_queue := None |},
   {| sk_sink := sink; sk_read_task := true; sk_closed := false; sk_sent := []; sk_closings := [] |}).

(** [send] of the sink, with its record. *)
Definition write_frame (m : SocketMessage) (k : Socket K) : result Error unit * Socket K :=
  let '(r, sink) := sink_send m (sk_sink k) in
  (map_err EWebSocket r,
   {| sk_sink := sink; sk_read_task := sk_read_task k; sk_closed := sk_closed k;
      sk_sent := sk_sent k ++ (if is_ok r then [m] else []); sk_closings := sk_closings k |}).

(** [WebSocketTransport::send_text_direct] *)
Definition send_text_direct (t : WebSocketTransport) (payload : string) (k : Socket K)
    : result Error unit * Socket K :=
  match t with
  | None => (Ok tt, k)
  | Some inner => if wi_sender inner then write_frame (SText payload) k else (Ok tt, k)
  end.

(** [WebSocketTransport::send_binary_direct] *)
Definition send_binary_direct (t : WebSocketTransport) (payload : list u8) (k : Socket K)
    : result Error unit * Socket K :=
  match t with
  | None => (Ok tt, k)
  | Some inner => if wi_sender inner then write_frame (SBinary payload) k else (Ok tt, k)
  end.

(** [WebSocketTransport::close] from the lock on [closed] on, which it holds to the end. *)
Definition close_locked (inner : WebSocketTransportInner) (k : Socket K)
    : result Error unit * Socket K :=
  if sk_closed k then (Ok tt, k)
  else
    let k := {| sk_sink := sk_sink k; sk_read_task := sk_read_task k; sk_closed := true;
                sk_sent := sk_sent k; sk_closings := sk_closings k |} in
    let '(r, k) :=
      if wi_sender inner then
        let '(r, sink) := sink_close (sk_sink k) in
        (map_err EWebSocket r,
         {| sk_sink := sink; sk_read_task := sk_read_task k; sk_closed := sk_closed k;
            sk_sent := sk_sent k; sk_closings := sk_closings k ++ [r] |})
      else (Ok tt, k) in
    match r with
    | Err e => (Err e, k)
    | Ok _ => (Ok tt, {| sk_sink := sk_sink k; sk_read_task := false; sk_closed := sk_closed k;
                         sk_sent := sk_sent k; sk_closings := sk_closings k |})
    end.

End socket.

(** A handle without a queue is a transport: every operation is done at once. *)
#[export] Instance direct_transport `{Sink K} (t : WebSocketTransport) : Transport (Socket K) := {
  send_text _ payload k := send_text_direct t payload k;
  send_binary _ payload k := send_binary_direct t payload k;
  transport_close _ k :=
    match t with None => (Ok tt, k) | Some inner => close_locked inner k end
}.

(** ** Calls *)

(** A call of [send_text] or [send_binary], and one of [close], at the point it has reached. *)
Inductive WsCall : Type :=
| CSend (payload : OutboundPayload)
| CSendWait (payload : OutboundPayload) (response : nat)
| CSent (payload : OutboundPayload) (r : result Error unit)
| CClose
| CStopTake
| CStopJoin
| CCloseLock
| CClosed (r : result Error unit).

(** The slot of the worker's handle, behind its lock: there, taken by a caller of [stop] that
    holds the lock while it waits, or empty. *)
Inductive WorkerSlot : Type := WorkerThere | WorkerJoined | WorkerTaken.

Record WsSystem (K : Type) := {
  ws_queue : Queue (Socket K);
  ws_worker : WorkerSlot;
  ws_calls : list WsCall;
  ws_next : nat
}.
Arguments ws_queue {K}. Arguments ws_worker {K}. Arguments ws_calls {K}. Arguments ws_next {K}.

Definition set_world {T} (w : T) (q : Queue T) : Queue T := {|
  q_commands := q_commands q; q_senders := q_senders q; q_buffer := q_buffer q;
  q_pending := q_pending q; q_wait := q_wait q; q_running := q_running q;
  q_answers := q_answers q; q_taken := q_taken q; q_flushed := q_flushed q; q_world := w |}.

Section calls.
Context `{SI : Sink K} (t : WebSocketTransport).

Abbreviation system := (WsSystem K).

(** The system after one call [i] got to [c]. *)
Definition goes_to (i : nat) (c : WsCall) (q : Queue (Socket K)) (worker : WorkerSlot) (next : nat)
    (s : system) : system :=
  {| ws_queue := q; ws_worker := worker; ws_calls := <[i := c]> (ws_calls s); ws_next := next |}.

(** The answer a caller reads from its response channel. *)
Definition response_of (response : nat) (q : Queue (Socket K)) : option (result Error unit) :=
  (fun x => snd (snd x)) <$> list_find (fun a => fst a = response) (q_answers q).

(** A direct send. *)
Definition send_direct (payload : OutboundPayload) (k : Socket K) : result Error unit * Socket K :=
  match payload with OText s => send_text_direct t s k | OBinary b => send_binary_direct t b k end.

(** One call goes on from the point it has reached; [None]: it waits or has returned. *)
Definition ws_call_step (i : nat) (s : system) : option system :=
  let q := ws_queue s in
  c ← ws_calls s !! i;
  match c with
  (** [send_text], [send_binary] and [TransportSendQueue::send] *)
  | CSend p =>
      match send_queue t with
      | Some _ =>
          if q_running q then
            Some (goes_to i (CSendWait p (ws_next s)) (enqueue (Send p (ws_next s)) q) (ws_worker s)
                    (1 + ws_next s)%nat s)
          else Some (goes_to i (CSent p (Err (EProtocol "transport send queue closed"))) q
                       (ws_worker s) (ws_next s) s)
      | None =>
          let '(r, k) := send_direct p (q_world q) in
          Some (goes_to i (CSent p r) (set_world k q) (ws_worker s) (ws_next s) s)
      end
  | CSendWait p response =>
      match response_of response q with
      | Some r => Some (goes_to i (CSent p r) q (ws_worker s) (ws_next s) s)
      | None =>
          if q_running q then None
          else Some (goes_to i (CSent p (Err (EProtocol "transport send queue dropped response"))) q
                       (ws_worker s) (ws_next s) s)
      end
  (** [close] and [TransportSendQueue::stop] *)
  | CClose =>
      match t with
      | None => Some (goes_to i (CClosed (Ok tt)) q (ws_worker s) (ws_next s) s)
      | Some inner =>
          match wi_send_queue inner with
          | Some _ => Some (goes_to i CStopTake (enqueue Shutdown q) (ws_worker s) (ws_next s) s)
          | None => Some (goes_to i CCloseLock q (ws_worker s) (ws_next s) s)
          end
      end
  | CStopTake =>
      match ws_worker s with
      | WorkerThere => Some (goes_to i CStopJoin q WorkerJoined (ws_next s) s)
      | WorkerJoined => None
      | WorkerTaken => Some (goes_to i CCloseLock q WorkerTaken (ws_next s) s)
      end
  | CStopJoin =>
      if q_running q then None else Some (goes_to i CCloseLock q WorkerTaken (ws_next s) s)
  | CCloseLock =>
      inner ← t;
      let '(r, k) := close_locked inner (q_world q) in
      Some (goes_to i (CClosed r) (set_world k q) (ws_worker s) (ws_next s) s)
  | CSent _ _ | CClosed _ => None
  end.

Definition starts (c : WsCall) : bool :=
  match c with CSend _ | CClose => true | _ => false end.

(** Callers come at any time, a call goes on, the worker goes on. *)
Inductive ws_step : system -> system -> Prop :=
| ws_called c s : starts c = true ->
    ws_step s {| ws_queue := ws_queue s; ws_worker := ws_worker s;
                 ws_calls := ws_calls s ++ [c]; ws_next := ws_next s |}
| ws_calls_on i s s' : ws_call_step i s = Some s' -> ws_step s s'
| ws_works s q : loop_iteration (TR := direct_transport (clone_without_send_queue t)) 0%nat (ws_queue s)
    = Some q -> send_queue t <> None ->
    ws_step s {| ws_queue := q; ws_worker := ws_worker s; ws_calls := ws_calls s;
                 ws_next := ws_next s |}.

(** The socket of [connect_with_options] and the queue, before any call. *)
Definition ws_new (sink : K) : system := {|
  ws_queue := queue_new (opened false sink).2; ws_worker := WorkerThere; ws_calls := [];
  ws_next := 0%nat |}.

End calls.

(** The handle that [connect] makes: [connect_with_options], then [enable_send_queue]. *)
Definition queued_handle (log_message_content : bool) : WebSocketTransport :=
  (enable_send_queue 0%nat (opened log_message_content tt).1).1.

(** ** What the worker does to commands and answers *)

Section worker.
Context `{TR : Transport T} (tr : transport).

(** Commands move from the channel to the record of those taken out, in order. *)
Lemma iteration_commands (q q' : Queue T) : queue_ok q -> loop_iteration tr q = Some q' ->
  q_taken q' ++ q_commands q' = q_taken q ++ q_commands q.
Proof.
  intros [Hu Ha Hi Hb Ho]. unfold loop_iteration. destruct (q_running q); [|done].
  destruct (q_wait q); cbn [negb].
  - destruct (Hi eq_refl) as [-> ->]. destruct (q_commands q) as [|[p r|] commands].
    + destruct (q_senders q); [done|]. by intros [= <-].
    + cbn. intros [= <-]. cbn. rewrite <- app_assoc. do 2 f_equal.
      destruct (drain_spec commands [p] [r]) as (_ & _ & H3 & _);
        [exists (is_text p); by constructor|]. cbn. by rewrite H3 at 3.
    + intros [= <-]. cbn. by rewrite <- app_assoc.
  - destruct (flush_buffer tr (q_buffer q) (q_world q)) as [[r w]|]; [|done]. by intros [= <-].
Qed.

(** Draining keeps each pending response next to its payload, and says [Ok] to nobody. *)
Lemma drain_pairs commands buffer pending : uniform buffer ->
  let d := drain_ready_commands commands buffer pending in
  forall P : OutboundPayload -> nat -> Prop,
  (forall p r, Send p r ∈ dr_taken d -> P p r) ->
  Forall2 P buffer pending ->
  (dr_pending d = [] \/ Forall2 P (dr_buffer d) (dr_pending d)) /\
  Forall (fun a => is_ok (snd a) = false) (dr_answers d).
Proof.
  revert buffer pending. induction commands as [|[p r|] commands IH];
    intros buffer pending Hu; cbv zeta; intros P HP H2.
  - cbn. split; [by right|done].
  - cbn [drain_ready_commands] in *.
    destruct (push_spec buffer p Hu) as [(b & Hpush & -> & Hb)|(e & u & Hpush & _)];
      rewrite Hpush in *; cbn in *.
    + apply IH; [done|intros; apply HP; by right|].
      apply Forall2_app; [done|]. constructor; [|done]. apply HP. by left.
    + destruct (IH buffer pending Hu P) as [H H']; [intros; apply HP; by right|done|].
      split; [done|]. by constructor.
  - cbn. split; [by left|]. unfold fail_pending. by apply Forall_map, Forall_true.
Qed.

End worker.

(** ** The invariant *)

(** The frame a batch becomes. *)
Definition frame_of (batch : list OutboundPayload) : option SocketMessage :=
  match batch with
  | [] => None
  | OText _ :: _ => SText <$> texts batch
  | OBinary _ :: _ => SBinary <$> binaries batch
  end.

(** [p] is part of a batch whose frame the sink accepted. *)
Definition written {K} (p : OutboundPayload) (q : Queue (Socket K)) : Prop :=
  exists b f, p ∈ b /\ b ∈ q_flushed q /\ frame_of b = Some f /\ f ∈ sk_sent (q_world q).

Section invariant.
Context `{SI : Sink K} (log : bool).

Abbreviation t := (queued_handle log).
Abbreviation worker_step := (loop_iteration (TR := direct_transport (clone_without_send_queue t)) 0%nat).

Record queue_written (q : Queue (Socket K)) : Prop := {
  qw_pending : q_pending q = [] \/ Forall2 (fun p r => Send p r ∈ q_taken q) (q_buffer q) (q_pending q);
  qw_answers : forall r, (r, Ok tt) ∈ q_answers q -> exists p, Send p r ∈ q_taken q /\ written p q
}.

Lemma written_mono p (q q' : Queue (Socket K)) : written p q ->
  q_flushed q `prefix_of` q_flushed q' -> sk_sent (q_world q) `prefix_of` sk_sent (q_world q') ->
  written p q'.
Proof.
  intros (b & f & Hp & Hb & Hf & Hs) [l Hl] [l' Hl']. exists b, f. rewrite Hl, Hl'.
  split_and!; [done| |done|]; apply elem_of_app; by left.
Qed.

(** A flush writes the frame of the batch and records it when the sink accepts it. *)
Lemma flush_written b (k k' : Socket K) r :
  flush_buffer (TR := direct_transport (clone_without_send_queue t)) 0%nat b k = Some (r, k') ->
  b = [] /\ r = Ok tt /\ k' = k \/
  exists f, frame_of b = Some f /\
    sk_sent k' = sk_sent k ++ (if is_ok r then [f] else []) /\
    sk_closed k' = sk_closed k /\ sk_closings k' = sk_closings k /\ sk_read_task k' = sk_read_task k.
Proof.
  destruct b as [|[s|l] b]; unfold flush_buffer.
  - intros [= <- <-]. by left.
  - destruct (texts _) as [p|] eqn:E; cbn -[texts]; [|done]. rewrite E. unfold write_frame.
    destruct (sink_send _ _) as [r' k2] eqn:Es. intros [= <- <-]. right. exists (SText p). cbn.
    by destruct r'.
  - destruct (binaries _) as [p|] eqn:E; cbn -[binaries]; [|done]. rewrite E. unfold write_frame.
    destruct (sink_send _ _) as [r' k2] eqn:Es. intros [= <- <-]. right. exists (SBinary p). cbn.
    by destruct r'.
Qed.

(** The worker answers [Ok] only for what it has written. *)
Lemma iteration_written q q' : queue_ok q -> queue_written q -> worker_step q = Some q' ->
  queue_written q' /\ q_flushed q `prefix_of` q_flushed q' /\
  sk_sent (q_world q) `prefix_of` sk_sent (q_world q').
Proof.
  intros [Hu Ha Hi Hb Ho] [Hp Hw]. unfold loop_iteration. destruct (q_running q); [|done].
  destruct (q_wait q); cbn [negb].
  - destruct (Hi eq_refl) as [-> ->]. destruct (q_commands q) as [|[p r|] commands].
    + destruct (q_senders q); [done|]. intros [= <-]. cbn. rewrite !app_nil_r. split_and!; [|done..].
      split; cbn; [by left|done].
    + cbn. intros [= <-]. cbn. split_and!; [|done..].
      destruct (drain_pairs commands [p] [r] (ltac:(exists (is_text p); by constructor))
        (fun p' r' => Send p' r' ∈ q_taken q ++ Send p r :: dr_taken (drain_ready_commands commands [p] [r])))
        as [H1 H2]; [set_solver|constructor; [set_solver|done]|].
      split; cbn; [done|]. intros r' [Hr|Hr]%elem_of_app.
      * destruct (Hw r' Hr) as (p' & Hin & Hwr). exists p'. split; [set_solver|]. by eapply written_mono.
      * rewrite Forall_forall in H2. by specialize (H2 _ Hr).
    + intros [= <-]. cbn. rewrite !app_nil_r. split_and!; [|done..]. split; cbn; [by left|].
      intros r' Hr. destruct (Hw r' Hr) as (p' & Hin & Hwr). exists p'. split; [set_solver|].
      by eapply written_mono.
  - destruct (flush_buffer _ (q_buffer q) (q_world q)) as [[r k']|] eqn:Hf; [|done].
    intros [= <-]. cbn. apply flush_written in Hf.
    assert (Hpre : sk_sent (q_world q) `prefix_of` sk_sent k').
    { destruct Hf as [(_ & _ & ->)|(f & _ & -> & _)]; [done|]. by eexists. }
    split_and!; [|by eexists|done]. split; cbn; [by left|]. intros r' [Hr|Hr]%elem_of_app.
    + destruct (Hw r' Hr) as (p' & Hin & Hwr). exists p'. split; [done|].
      eapply written_mono; [done|by eexists|done].
    + unfold complete_pending in Hr. apply list_elem_of_fmap in Hr as (r'' & [= <- Hok] & Hin).
      destruct r as [[]|e]; [|done]. destruct Hp as [Hp|Hp]; [rewrite Hp in Hin; by apply elem_of_nil in Hin|].
      apply list_elem_of_lookup in Hin as [j Hj].
      destruct (Forall2_lookup_r _ _ _ _ _ Hp Hj) as (p & Hpj & Hsend). exists p. split; [done|].
      destruct Hf as [(Hnil & _)|(f & Hfr & Hsent & _)]; [by rewrite Hnil in Hpj|].
      exists (q_buffer q), f. split_and!; [by eapply list_elem_of_lookup_2| |done|].
      * destruct (q_buffer q); [done|]. cbn. set_solver.
      * cbn. rewrite Hsent. set_solver.
Qed.

(** What holds of the queue's and the socket's state, whatever the calls are at. *)
Record socket_ok (s : WsSystem K) : Prop := {
  so_queue : queue_ok (ws_queue s);
  so_written : queue_written (ws_queue s);
  so_fresh : Forall (fun r => r < ws_next s)%nat (callers (q_taken (ws_queue s) ++ q_commands (ws_queue s)));
  so_responses : NoDup (callers (q_taken (ws_queue s) ++ q_commands (ws_queue s)));
  (** Nobody takes the worker's handle away from a worker that runs. *)
  so_worker : ws_worker s = WorkerTaken -> q_running (ws_queue s) = false;
  (** The sink is closed at most once, after the worker, and the reader is aborted when that
      succeeds. *)
  so_closed : match sk_closings (q_world (ws_queue s)) with
              | [] => sk_closed (q_world (ws_queue s)) = false /\ sk_read_task (q_world (ws_queue s)) = true
              | [r] => sk_closed (q_world (ws_queue s)) = true /\ q_running (ws_queue s) = false /\
                       sk_read_task (q_world (ws_queue s)) = negb (is_ok r)
              | _ => False
              end
}.

(** What holds of a call. *)
Definition call_ok (s : WsSystem K) (c : WsCall) : Prop :=
  match c with
  | CSendWait p r => Send p r ∈ q_taken (ws_queue s) ++ q_commands (ws_queue s)
  | CSent p (Ok _) => written p (ws_queue s)
  | CCloseLock => q_running (ws_queue s) = false
  | CClosed r => q_running (ws_queue s) = false /\ exists r', sk_closings (q_world (ws_queue s)) = [r'] /\
                 match r with Ok _ => True | Err _ => is_ok r' = false end
  | _ => True
  end.

Definition ws_ok (s : WsSystem K) : Prop := socket_ok s /\ Forall (call_ok s) (ws_calls s).

(** What a step may do to the parts that the calls look at. *)
Record extends (s s' : WsSystem K) : Prop := {
  ex_commands : q_taken (ws_queue s) ++ q_commands (ws_queue s)
    `prefix_of` q_taken (ws_queue s') ++ q_commands (ws_queue s');
  ex_flushed : q_flushed (ws_queue s) `prefix_of` q_flushed (ws_queue s');
  ex_sent : sk_sent (q_world (ws_queue s)) `prefix_of` sk_sent (q_world (ws_queue s'));
  ex_running : q_running (ws_queue s) = false ->
    q_running (ws_queue s') = false /\ sk_sent (q_world (ws_queue s')) = sk_sent (q_world (ws_queue s));
  ex_closings : sk_closings (q_world (ws_queue s)) <> [] ->
    sk_closings (q_world (ws_queue s')) = sk_closings (q_world (ws_queue s))
}.

Lemma call_ok_extends s s' c : extends s s' -> call_ok s c -> call_ok s' c.
Proof.
  intros [[l Hl] Hf Hs Hr Hc]. destruct c as [p|p r|p [[]|e]|  | | | |r]; cbn; auto.
  - rewrite Hl. set_solver.
  - intros. by eapply written_mono.
  - intros H. by apply Hr.
  - intros (Hrun & r' & Hcl & H). split; [by apply Hr|]. exists r'. rewrite Hc; rewrite Hcl; [by split|done].
Qed.

Lemma extends_refl s c w n :
  extends s {| ws_queue := ws_queue s; ws_worker := w; ws_calls := c; ws_next := n |}.
Proof. by split. Qed.

Lemma iteration_socket q q' : worker_step q = Some q' ->
  q_running q = true /\ sk_closed (q_world q') = sk_closed (q_world q) /\
  sk_closings (q_world q') = sk_closings (q_world q) /\
  sk_read_task (q_world q') = sk_read_task (q_world q).
Proof.
  unfold loop_iteration. destruct (q_running q); [|done]. cbn [negb]. destruct (q_wait q).
  - destruct (q_commands q) as [|[p r|] commands]; [destruct (q_senders q); [done|]| |];
      [by intros [= <-]| |by intros [= <-]].
    destruct (push_payload _ _); by intros [= <-].
  - destruct (flush_buffer _ _ _) as [[r k']|] eqn:Hf; [|done]. intros [= <-]. cbn.
    apply flush_written in Hf as [(_ & _ & ->)|(f & _ & _ & ? & ? & ?)]; by split_and!.
Qed.

(** The worker goes on. *)
Lemma worker_extends s q : socket_ok s -> worker_step (ws_queue s) = Some q ->
  let s' := {| ws_queue := q; ws_worker := ws_worker s; ws_calls := ws_calls s; ws_next := ws_next s |} in
  socket_ok s' /\ extends s s'.
Proof.
  intros [Hq Hw Hf Hn Hwk Hc] Hit. cbv zeta.
  pose proof (iteration_commands _ _ _ Hq Hit) as Hcm.
  destruct (iteration_written _ _ Hq Hw Hit) as (Hw' & Hfl & Hse).
  destruct (iteration_socket _ _ Hit) as (Hrun & Hcl & Hcs & Hrt).
  split; split; cbn; rewrite ?Hcm, ?Hcl, ?Hcs, ?Hrt; try done.
  - by eapply iteration_ok.
  - intros H. specialize (Hwk H). congruence.
  - destruct (sk_closings _) as [|r [|]]; [done| |done]. destruct Hc as (_ & Hc & _). congruence.
  - congruence.
Qed.

(** A command goes into the channel. *)
Lemma enqueue_extends s c n calls : socket_ok s -> (ws_next s <= n)%nat ->
  match c with Send _ r => r = ws_next s /\ (ws_next s < n)%nat | Shutdown => True end ->
  let s' := {| ws_queue := enqueue c (ws_queue s); ws_worker := ws_worker s; ws_calls := calls;
               ws_next := n |} in
  socket_ok s' /\ extends s s'.
Proof.
  intros [Hq Hw Hf Hn Hwk Hc] Hle Hr. cbv zeta. unfold enqueue. destruct (q_running (ws_queue s)) eqn:Hrun; cbn [negb].
  - split; split; cbn; try done.
    + by destruct Hq.
    + destruct Hw as [Hp Ha]. by split.
    + rewrite app_assoc, callers_app. apply Forall_app. split; [eapply Forall_impl; [exact Hf|cbn; lia]|].
      destruct c as [p r|]; [|done]. cbn. constructor; [lia|done].
    + rewrite app_assoc, callers_app. apply NoDup_app. split_and!; [done| |destruct c; cbn; [apply NoDup_singleton|constructor]].
      intros r Hin Hin2. rewrite Forall_forall in Hf. specialize (Hf r Hin).
      destruct c as [p r'|]; cbn in Hin2; [|by apply elem_of_nil in Hin2].
      apply list_elem_of_singleton in Hin2. lia.
    + rewrite app_assoc. by eexists.
    + congruence.
  - split; [|by split; cbn]. split; cbn; try done.
    + eapply Forall_impl; [exact Hf|cbn; lia].
    + by rewrite Hrun.
Qed.

(** [close] under its lock. *)
Lemma close_locked_extends s calls inner r k : t = Some inner ->
  socket_ok s -> q_running (ws_queue s) = false -> close_locked inner (q_world (ws_queue s)) = (r, k) ->
  let s' := {| ws_queue := set_world k (ws_queue s); ws_worker := ws_worker s; ws_calls := calls;
               ws_next := ws_next s |} in
  socket_ok s' /\ extends s s' /\ call_ok s' (CClosed r).
Proof.
  intros [= <-] [Hq Hw Hf Hn Hwk Hc] Hrun. unfold close_locked. cbn [wi_sender].
  assert (Hq' : forall k', queue_ok (set_world k' (ws_queue s))) by (intros; by destruct Hq).
  destruct (sk_closed _) eqn:Hcl.
  - intros [= <- <-]. split; [split; cbn; try done|]; [by destruct Hw|rewrite Hcl; done|].
    split; [by split|]. cbn. split; [done|].
    destruct (sk_closings _) as [|r0 [|]]; [by destruct Hc| |done]. by exists r0.
  - destruct (sink_close _) as [r0 sink]. destruct (sk_closings _) as [|r1 [|]] eqn:Hcs; [|naive_solver|done].
    destruct Hc as [_ Hrt].
    destruct r0 as [[]|e]; cbn; intros [= <- <-]; cbn; rewrite ?Hcs; (split; [split; cbn; try done|]);
      try (by destruct Hw); (split; [split; cbn; try done; by rewrite ?Hcs|]); split; try done;
      by eexists.
Qed.

(** A response belongs to one payload. *)
Lemma response_twice p p' r cs j j' : NoDup (callers cs) -> cs !! j = Some (Send p r) ->
  cs !! j' = Some (Send p' r) -> ~ (j < j')%nat.
Proof.
  intros Hnd Hj Hj' Hlt. rewrite <- (take_drop_middle _ _ _ Hj), callers_app in Hnd. cbn in Hnd.
  apply NoDup_app in Hnd as (_ & _ & [Hn _]%NoDup_cons). apply Hn. unfold callers.
  apply list_elem_of_omap. exists (Send p' r). split; [|done]. apply list_elem_of_lookup.
  exists (j' - S j)%nat. rewrite lookup_drop. by replace (S j + (j' - S j))%nat with j' by lia.
Qed.

Lemma response_unique p p' r cs : NoDup (callers cs) -> Send p r ∈ cs -> Send p' r ∈ cs -> p = p'.
Proof.
  intros Hnd (j & Hj)%list_elem_of_lookup (j' & Hj')%list_elem_of_lookup.
  pose proof (response_twice _ _ _ _ _ _ Hnd Hj Hj'). pose proof (response_twice _ _ _ _ _ _ Hnd Hj' Hj).
  assert (j = j') as -> by lia. congruence.
Qed.

Lemma response_in r (q : Queue (Socket K)) x : response_of r q = Some x -> (r, x) ∈ q_answers q.
Proof.
  unfold response_of. destruct (list_find _ _) as [[j [r' x']]|] eqn:E; cbn; [|done].
  intros [= <-]. apply list_find_Some in E as (Hj & Hr & _). cbn in Hr. subst r'.
  by eapply list_elem_of_lookup_2.
Qed.

Lemma goes_to_ok i c q w n s : let s' := goes_to i c q w n s in
  Forall (call_ok s) (ws_calls s) -> socket_ok s' -> extends s s' -> call_ok s' c ->
  ws_ok s' /\ extends s s'.
Proof.
  cbv zeta. intros Hcs Hs He Hc. split; [|done]. split; [done|]. cbn. apply Forall_insert; [|done].
  eapply Forall_impl; [exact Hcs|]. intros c'. by apply call_ok_extends.
Qed.

(** Only the slot of the worker changes. *)
Lemma slot_extends s w calls : socket_ok s ->
  (w = WorkerTaken -> q_running (ws_queue s) = false) ->
  let s' := {| ws_queue := ws_queue s; ws_worker := w; ws_calls := calls; ws_next := ws_next s |} in
  socket_ok s' /\ extends s s'.
Proof. intros [] Hw. split; [by split|apply extends_refl]. Qed.

Lemma ws_call_ok i s s' : ws_ok s -> ws_call_step t i s = Some s' -> ws_ok s' /\ extends s s'.
Proof.
  intros [Hs Hcs]. unfold ws_call_step. destruct (ws_calls s !! i) as [c|] eqn:Hi; cbn -[queued_handle]; [|done].
  pose proof (Forall_lookup_1 _ _ _ _ Hcs Hi) as Hc.
  pose proof (so_worker _ Hs) as Hwk.
  destruct c as [p|p r|p x| | | | |x]; cbn -[goes_to close_locked]; try done.
  - destruct (q_running (ws_queue s)) eqn:Hrun; intros [= <-].
    + edestruct (enqueue_extends s (Send p (ws_next s)) (S (ws_next s))) as [H1 H2]; [done|lia|cbn; lia|].
      apply goes_to_ok; try done. unfold enqueue. rewrite Hrun. cbn. set_solver.
    + edestruct (slot_extends s (ws_worker s)) as [H1 H2]; [done|done|]. by apply goes_to_ok.
  - destruct (response_of r (ws_queue s)) as [x|] eqn:Hx.
    + intros [= <-]. edestruct (slot_extends s (ws_worker s)) as [H1 H2]; [done|done|].
      apply goes_to_ok; [done|done|done|]. destruct x as [[]|]; cbn; [|done].
      destruct (qw_answers _ (so_written _ Hs) r) as (p' & Hp' & Hwr); [by apply response_in|].
      rewrite (response_unique p p' r _ (so_responses _ Hs) Hc); [done|set_solver].
    + destruct (q_running (ws_queue s)) eqn:Hrun; [done|]. intros [= <-].
      edestruct (slot_extends s (ws_worker s)) as [H1 H2]; [done|congruence|]. by apply goes_to_ok.
  - intros [= <-]. edestruct (enqueue_extends s Shutdown (ws_next s)) as [H1 H2]; [done|lia|done|].
    by apply goes_to_ok.
  - destruct (ws_worker s) eqn:Hw; [| |]; intros [= <-].
    + edestruct (slot_extends s WorkerJoined) as [H1 H2]; [done|done|]. by apply goes_to_ok.
    + edestruct (slot_extends s WorkerTaken) as [H1 H2]; [done|auto|].
      apply goes_to_ok; [done..|]. cbn. auto.
  - destruct (q_running (ws_queue s)) eqn:Hrun; [done|]. intros [= <-].
    edestruct (slot_extends s WorkerTaken) as [H1 H2]; [done|done|]. by apply goes_to_ok.
  - cbn in Hc. destruct (close_locked _ _) as [x k] eqn:Hcl. intros [= <-].
    eapply close_locked_extends in Hcl as (H1 & H2 & H3); [|done..]. apply goes_to_ok; done.
Qed.

Lemma ws_step_ok s s' : ws_ok s -> ws_step t s s' -> ws_ok s' /\ extends s s'.
Proof.
  intros [Hs Hcs] Hst. destruct Hst as [c s Hc|i s s' Hi|s q Hq _].
  - split; [|apply extends_refl]. split; [by destruct Hs|]. cbn. apply Forall_app. split; [done|].
    constructor; [|done]. by destruct c.
  - by eapply ws_call_ok.
  - destruct (worker_extends _ _ Hs Hq) as [H1 H2]. split; [|done]. split; [done|]. cbn.
    eapply Forall_impl; [exact Hcs|]. intros c. by apply call_ok_extends.
Qed.

Lemma ws_reachable_ok s s' : ws_ok s -> rtc (ws_step t) s s' -> ws_ok s'.
Proof. intros Hok H. induction H as [|s0 s1 s2 Hst _ IH]; [done|]. apply IH. by eapply ws_step_ok. Qed.

Lemma ws_new_ok (sink : K) : ws_ok (ws_new sink).
Proof.
  split; [|constructor]. split; cbn; try done; try constructor; cbn; auto using uniform_nil, NoDup_nil_2.
  intros r Hr. by apply elem_of_nil in Hr.
Qed.

Lemma ws_extends s s' : ws_ok s -> rtc (ws_step t) s s' ->
  q_running (ws_queue s) = false -> sk_closings (q_world (ws_queue s)) <> [] ->
  q_running (ws_queue s') = false /\ sk_sent (q_world (ws_queue s')) = sk_sent (q_world (ws_queue s)) /\
  sk_closings (q_world (ws_queue s')) = sk_closings (q_world (ws_queue s)).
Proof.
  intros Hok H. revert Hok. induction H as [|s0 s1 s2 Hst _ IH]; [done|]. intros Hok Hrun Hcl.
  destruct (ws_step_ok _ _ Hok Hst) as [Hok1 He]. destruct (ex_running _ _ He Hrun) as [Hr1 Hs1].
  pose proof (ex_closings _ _ He Hcl) as Hc1. rewrite <- Hs1, <- Hc1. apply IH; [done|done|].
  by rewrite Hc1.
Qed.

(** C24: A send that says [Ok] was written: whatever sends, closes and steps of the worker interleave,
    the payload of a call of [send_text] or [send_binary] that returned [Ok] is part of a batch
    whose frame the sink accepted. *)
Theorem ws_sent_is_written (sink : K) (s : WsSystem K) (i : nat) (p : OutboundPayload) :
  rtc (ws_step t) (ws_new sink) s -> ws_calls s !! i = Some (CSent p (Ok tt)) ->
  written p (ws_queue s).
Proof.
  intros Hr Hi. destruct (ws_reachable_ok _ _ (ws_new_ok sink) Hr) as [_ Hcs].
  exact (Forall_lookup_1 _ _ _ _ Hcs Hi).
Qed.

(** C25: Closing is final: once one call of [close] has returned, with whatever result, the worker is
    gone, the sink was closed exactly once, and whatever is called afterwards nothing more is
    written, the sink is not closed again, and no later [send] returns [Ok]. *)
Theorem ws_close_is_final (sink : K) (s s' : WsSystem K) (i : nat) (r : result Error unit) :
  rtc (ws_step t) (ws_new sink) s -> ws_calls s !! i = Some (CClosed r) ->
  rtc (ws_step t) s s' ->
  q_running (ws_queue s') = false /\
  sk_sent (q_world (ws_queue s')) = sk_sent (q_world (ws_queue s)) /\
  (exists r', sk_closings (q_world (ws_queue s')) = [r']) /\
  (forall j p s'', ws_calls s' !! j = Some (CSend p) -> ws_call_step t j s' = Some s'' ->
    ws_calls s'' !! j = Some (CSent p (Err (EProtocol "transport send queue closed")))).
Proof.
  intros Hr Hi Hr'. pose proof (ws_reachable_ok _ _ (ws_new_ok sink) Hr) as Hok.
  destruct (Forall_lookup_1 _ _ _ _ (proj2 Hok) Hi) as (Hrun & r' & Hcl & _).
  destruct (ws_extends _ _ Hok Hr' Hrun) as (Hrun' & Hs & Hc); [by rewrite Hcl|].
  split_and!; [done|done|exists r'; by rewrite Hc|].
  intros j p s'' Hj. unfold ws_call_step. rewrite Hj. cbn -[goes_to]. rewrite Hrun'. intros [= <-]. cbn.
  apply list_lookup_insert_eq. by eapply lookup_lt_Some.
Qed.

(** A failed close abandons the reader: when [close] returned an error, the task that reads the
    socket was not aborted and never will be, and every call of [close] that goes on from there
    returns [Ok] all the same. *)
Theorem ws_failed_close_leaves_reader (sink : K) (s s' : WsSystem K) (i : nat) (e : Error) :
  rtc (ws_step t) (ws_new sink) s -> ws_calls s !! i = Some (CClosed (Err e)) ->
  rtc (ws_step t) s s' ->
  sk_read_task (q_world (ws_queue s')) = true /\
  (forall j s'', ws_calls s' !! j = Some CCloseLock -> ws_call_step t j s' = Some s'' ->
    ws_calls s'' !! j = Some (CClosed (Ok tt)) /\ sk_read_task (q_world (ws_queue s'')) = true).
Proof.
  intros Hr Hi Hr'. pose proof (ws_reachable_ok _ _ (ws_new_ok sink) Hr) as Hok.
  destruct (Forall_lookup_1 _ _ _ _ (proj2 Hok) Hi) as (Hrun & r' & Hcl & Hr0).
  destruct (ws_extends _ _ Hok Hr' Hrun) as (Hrun' & Hs & Hc); [by rewrite Hcl|].
  pose proof (so_closed _ (proj1 (ws_reachable_ok _ _ Hok Hr'))) as Hco. rewrite Hc, Hcl, Hr0 in Hco.
  destruct Hco as (Hcd & _ & Hrt). split; [done|].
  intros j s'' Hj. unfold ws_call_step. rewrite Hj. cbn -[goes_to close_locked].
  unfold close_locked. rewrite Hcd. intros [= <-]. cbn. split; [|done].
  apply list_lookup_insert_eq. by eapply lookup_lt_Some.
Qed.

End invariant.
