(* ===== verification/Runtime.v ===== *)
(** * The runtime of a connection ([src/hub_connection/runtime.rs])

    A runtime owns the transport of a connection, its counter of invocation ids, the task that
    receives and dispatches messages and the task that pings the server and watches for its
    silence.  Reconnect buffers are shared between runtimes, so they live in a store and a
    runtime holds the number of its buffer, as the code holds an [Arc]. *)

From Stdlib Require Import ZArith Lia String.
From stdpp Require Import base list strings gmap pretty relations.
From S2P Require Import Prelude Framing Utf8 Errors Values Arguments Message JsonProtocol.
From S2P Require Import MessageBuffer Link Bus Dispatch Handshake Negotiate Retry Connection.

Local Open Scope Z_scope.

(** [DEFAULT_SERVER_TIMEOUT], [DEFAULT_KEEP_ALIVE_INTERVAL], in seconds. *)
Definition DEFAULT_SERVER_TIMEOUT : Z := 30.
Definition DEFAULT_KEEP_ALIVE_INTERVAL : Z := 15.

(** [SERVER_TIMEOUT_MESSAGE] *)
Definition SERVER_TIMEOUT_MESSAGE : string :=
  "Server timeout elapsed without receiving a message from the server.".

#[global] Instance MessageBuffer_inhabited : Inhabited MessageBuffer := populate buffer_new.

(** Two's complement on 64 bits: the arithmetic of [AtomicI64]. *)
Definition as_i64 (z : Z) : Z := (z + 2 ^ 63) `mod` 2 ^ 64 - 2 ^ 63.

(** [HubRuntime]; the tasks are modelled below. *)
Record HubRuntime := {
  hr_transport : transport;
  hr_hub_protocol : HubProtocol;
  hr_transfer_format : TransferFormat;
  hr_message_buffer : option nat;
  hr_invocation_id : Z;
  hr_cached_ping : list u8
}.

(** [HubRuntime::start]; the tasks it spawns are [receive_task] and [keepalive_iteration] below. *)
Definition runtime_start (tr : transport) (protocol : HubProtocol) (format : TransferFormat)
    (buffer : option nat) : result Error HubRuntime :=
  cached_ping ← map_err (fun e => EProtocol (protocol_error_text e)) (write_message protocol HPing);
  Ok {| hr_transport := tr; hr_hub_protocol := protocol; hr_transfer_format := format;
        hr_message_buffer := buffer; hr_invocation_id := 0; hr_cached_ping := cached_ping |}.

(** [next_invocation_id] *)
Definition next_invocation_id (rt : HubRuntime) : string * HubRuntime :=
  let id := as_i64 (hr_invocation_id rt + 1) in
  (pretty id, {| hr_transport := hr_transport rt; hr_hub_protocol := hr_hub_protocol rt;
                 hr_transfer_format := hr_transfer_format rt;
                 hr_message_buffer := hr_message_buffer rt; hr_invocation_id := id;
                 hr_cached_ping := hr_cached_ping rt |}).

Section runtime.
Context `{TR : Transport T} (size : Z).

(** [send_with_backpressure] *)
Definition send_with_backpressure (rt : HubRuntime) (m : HubMessage) (buffers : list MessageBuffer)
    (w : T) : result Error (option Z) * list MessageBuffer * T :=
  match hr_message_buffer rt with
  | Some i =>
      let '(r, b, w) := MessageBuffer.send (hr_hub_protocol rt) size m (hr_transport rt)
                          (hr_transfer_format rt) (buffers !!! i) w in
      (r, <[i := b]> buffers, w)
  | None =>
      match send_hub_message (hr_hub_protocol rt) (hr_transport rt) (hr_transfer_format rt) m w with
      | (Ok _, w) => (Ok None, buffers, w)
      | (Err e, w) => (Err e, buffers, w)
      end
  end.

(** [HubRuntime::send] *)
Definition runtime_send (rt : HubRuntime) (m : HubMessage) (buffers : list MessageBuffer) (w : T)
    : result Error unit * list MessageBuffer * T :=
  let '(r, buffers, w) := send_with_backpressure rt m buffers w in
  (match r with Ok _ => Ok tt | Err e => Err e end, buffers, w).

(** [send_initial_ping] *)
Definition send_initial_ping (rt : HubRuntime) (w : T) : result Error unit * T :=
  match hr_transfer_format rt with
  | FText =>
      match from_utf8 (hr_cached_ping rt) with
      | Ok text => send_text (hr_transport rt) text w
      | Err e => (Err (EProtocol ("invalid ping payload: " +:+ e)), w)
      end
  | FBinary => send_binary (hr_transport rt) (hr_cached_ping rt) w
  end.

(** [resend_buffered_messages] *)
Definition resend_buffered_messages (rt : HubRuntime) (buffers : list MessageBuffer) (w : T)
    : result Error unit * list MessageBuffer * T :=
  match hr_message_buffer rt with
  | Some i =>
      let '(r, b, w) := resend (hr_hub_protocol rt) (hr_transport rt) (hr_transfer_format rt)
                          (buffers !!! i) w in
      (r, <[i := b]> buffers, w)
  | None => (Ok tt, buffers, w)
  end.

(** [HubRuntime::shutdown] *)
Definition runtime_shutdown (rt : HubRuntime) (buffers : list MessageBuffer) (w : T)
    : result Error unit * list MessageBuffer * T :=
  let '(_, buffers, w) :=
    runtime_send rt (HClose {| close_error := None; close_allow_reconnect := None |}) buffers w in
  let '(r, w) := transport_close (hr_transport rt) w in
  (r, buffers, w).

(** [abort_without_close] *)
Definition abort_without_close (rt : HubRuntime) (w : T) : T := (transport_close (hr_transport rt) w).2.

End runtime.

(** ** The receive task *)

Section receive.
Context `{TR : Transport T} (protocol : HubProtocol) (size : Z) (tr : transport)
  (format : TransferFormat).

(** The loop over the messages of a frame. *)
Fixpoint dispatch_all (ms : list HubMessage) (s : DispatchState T)
    : result Error unit * DispatchState T :=
  match ms with
  | [] => (Ok tt, s)
  | m :: ms =>
      match dispatch protocol size tr format m s with
      | (Ok _, s) => dispatch_all ms s
      | (Err e, s) => (Err e, s)
      end
  end.

(** [process_text], [process_binary] *)
Definition process_input (input : HubProtocolInput) (s : DispatchState T)
    : result Error unit * DispatchState T :=
  match parse_messages protocol input with
  | Err e => (Err (EProtocol (protocol_error_text e)), s)
  | Ok ms => dispatch_all ms s
  end.

(** What the loop of the receive task waits for. *)
Inductive RecvEvent : Type :=
| RShutdown
| RMessage (message : option TransportMessage) (shutdown : bool).

(** The close event of the receive task itself. *)
Definition report_closed (error : option string) (s : DispatchState T) : DispatchState T :=
  if ds_close_signaled s then s
  else {| ds_bus := ds_bus s; ds_buffer := ds_buffer s;
          ds_events := ds_events s ++ [{| ci_error := error; ci_allow_reconnect := None;
                                          ci_transport_dropped := true |}];
          ds_close_signaled := ds_close_signaled s; ds_world := ds_world s |}.

(** One iteration of the loop; [shutdown] is the flag as read for a close message.  Returns
    whether the loop goes on. *)
Definition receive_one (event : RecvEvent) (s : DispatchState T) : bool * DispatchState T :=
  match event with
  | RShutdown => (false, s)
  | RMessage None _ => (false, report_closed None s)
  | RMessage (Some (TText text)) _ => (true, (process_input (IText text) s).2)
  | RMessage (Some (TBinary bytes)) _ => (true, (process_input (IBinary bytes) s).2)
  | RMessage (Some (TClosed reason)) shutdown =>
      (false, if shutdown then s else report_closed reason s)
  end.

(** The loop over the initial messages, each with the flag [shutdown] as read before it; [false]
    when the task returns. *)
Fixpoint receive_initial (ms : list (HubMessage * bool)) (s : DispatchState T)
    : bool * DispatchState T :=
  match ms with
  | [] => (true, s)
  | (_, true) :: _ => (false, s)
  | (m, false) :: ms =>
      match dispatch protocol size tr format m s with
      | (Ok _, s) => receive_initial ms s
      | (Err _, s) => (false, s)
      end
  end.

(** The loop of the receive task on a sequence of events; the flag says whether it still runs. *)
Fixpoint receive_loop (events : list RecvEvent) (s : DispatchState T) : bool * DispatchState T :=
  match events with
  | [] => (true, s)
  | event :: events =>
      match receive_one event s with
      | (true, s) => receive_loop events s
      | (false, s) => (false, s)
      end
  end.

(** The receive task. *)
Definition receive_task (initial : list (HubMessage * bool)) (events : list RecvEvent) (s : DispatchState T)
    : bool * DispatchState T :=
  match receive_initial initial s with
  | (true, s) => receive_loop events s
  | (false, s) => (false, s)
  end.

(** ** What the receive task keeps *)

(** Bus and buffer are sound and the supervisor was told at most once. *)
Definition told (n : nat) (s : DispatchState T) : Prop :=
  bus_ok (ds_bus s) /\ (forall b, ds_buffer s = Some b -> buffer_ok size b) /\
  length (ds_events s) = n.

(** No shutdown was requested. *)
Definition no_shutdown (event : RecvEvent) : bool :=
  match event with RShutdown => false | RMessage _ shutdown => negb shutdown end.

Lemma dispatch_all_ok ms s : dispatch_ok size s -> dispatch_ok size (dispatch_all ms s).2.
Proof.
  revert s. induction ms as [|m ms IH]; intros s Hok; [done|]. cbn [dispatch_all].
  pose proof (dispatch_preserves protocol size tr format m s Hok) as Hd.
  destruct (dispatch protocol size tr format m s) as [[] s']; [by apply IH|done].
Qed.

Lemma process_input_ok input s : dispatch_ok size s -> dispatch_ok size (process_input input s).2.
Proof.
  intros Hok. unfold process_input. destruct (parse_messages protocol input); [|done].
  by apply dispatch_all_ok.
Qed.

Lemma receive_initial_ok ms s : dispatch_ok size s -> dispatch_ok size (receive_initial ms s).2.
Proof.
  revert s. induction ms as [|[m []] ms IH]; intros s Hok; [done|done|]. cbn [receive_initial].
  pose proof (dispatch_preserves protocol size tr format m s Hok) as Hd.
  destruct (dispatch protocol size tr format m s) as [[] s']; [by apply IH|done].
Qed.

Lemma report_closed_told error s : dispatch_ok size s -> told 1 (report_closed error s).
Proof.
  intros (Hbus & Hbuf & Hev). unfold report_closed, told.
  destruct (ds_close_signaled s); cbn; [done|]. by rewrite length_app, Hev.
Qed.

Lemma dispatch_ok_told s : dispatch_ok size s ->
  exists n, told n s /\ (n <= 1)%nat.
Proof.
  intros (Hbus & Hbuf & Hev). exists (if ds_close_signaled s then 1%nat else 0%nat).
  split; [done|]. destruct (ds_close_signaled s); lia.
Qed.

Lemma receive_loop_ok events s : dispatch_ok size s ->
  let '(running, s') := receive_loop events s in
  exists n, told n s' /\ (n <= 1)%nat /\
    (running = false -> forallb no_shutdown events = true -> n = 1%nat).
Proof.
  revert s. induction events as [|event events IH]; intros s Hok; cbn [receive_loop].
  { destruct (dispatch_ok_told s Hok) as (n & Hn & Hle). by exists n. }
  destruct event as [|[[text|bytes|reason]|] shutdown]; cbn [receive_one].
  - destruct (dispatch_ok_told s Hok) as (n & Hn & Hle). by exists n.
  - specialize (IH _ (process_input_ok (IText text) s Hok)). destruct (receive_loop _ _) as [running s'].
    destruct IH as (n & Hn & Hle & Hone). exists n. split_and!; [done|done|].
    cbn. intros Hr [_ Hs]%andb_true_iff. by apply Hone.
  - specialize (IH _ (process_input_ok (IBinary bytes) s Hok)). destruct (receive_loop _ _) as [running s'].
    destruct IH as (n & Hn & Hle & Hone). exists n. split_and!; [done|done|].
    cbn. intros Hr [_ Hs]%andb_true_iff. by apply Hone.
  - destruct shutdown; [destruct (dispatch_ok_told s Hok) as (n & Hn & Hle); by exists n|].
    exists 1%nat. split_and!; [by apply report_closed_told|lia|done].
  - exists 1%nat. split_and!; [by apply report_closed_told|lia|done].
Qed.

(** C22: whatever arrives, well-formed or not, the receive task keeps the invariants of the bus
    and of the reconnect buffer and tells the supervisor at most once that the transport closed;
    when its loop ends and no shutdown was requested, exactly once. *)
Theorem receive_task_reports (initial : list (HubMessage * bool)) (events : list RecvEvent)
    (s : DispatchState T) :
  dispatch_ok size s ->
  let '(running, s') := receive_task initial events s in
  bus_ok (ds_bus s') /\ (forall b, ds_buffer s' = Some b -> buffer_ok size b) /\
  (length (ds_events s') <= 1)%nat /\
  ((receive_initial initial s).1 = true -> forallb no_shutdown events = true ->
    running = false -> length (ds_events s') = 1%nat).
Proof.
  intros Hok. unfold receive_task. pose proof (receive_initial_ok initial s Hok) as Hi.
  destruct (receive_initial initial s) as [[] s1]; cbn in *.
  - pose proof (receive_loop_ok events s1 Hi) as Hl. destruct (receive_loop events s1) as [running s'].
    destruct Hl as (n & (Hbus & Hbuf & Hev) & Hle & Hone). rewrite Hev. split_and!; auto.
  - destruct (dispatch_ok_told s1 Hi) as (n & (Hbus & Hbuf & Hev) & Hle). rewrite Hev. split_and!; auto.
    done.
Qed.

(** Only a close message makes [dispatch] itself tell the supervisor. *)
Lemma dispatch_events m s : (forall c, m <> HClose c) ->
  ds_events (dispatch protocol size tr format m s).2 = ds_events s.
Proof.
  intros Hm. unfold dispatch, guard.
  assert (Hroute : forall s, ds_events (route protocol size tr format m s).2 = ds_events s).
  { clear s. intros s. destruct m as [m|m|m|m|m| |m|m|m]; cbn [route]; try done; try by destruct (Hm m).
    - unfold handle_invocation, send_completion. by repeat case_match.
    - unfold handle_stream_item. by case_match.
    - by repeat case_match. }
  destruct (ds_buffer s) as [b|]; [|apply Hroute].
  destruct (should_process_message m tr format b) as [[] b']; [by rewrite Hroute|done].
Qed.

(** An error in one of the messages that came with the handshake response ends the receive task
    without a word: from then on nothing that arrives is read, whatever it is, also that the
    transport closed is not reported, and the messages after it are dropped; while the same error
    in a later frame leaves the task running in the same state. *)
Theorem initial_error_silences (m : HubMessage) (before after : list (HubMessage * bool)) (e : Error)
    (s s0 s1 : DispatchState T) (text : string) :
  (forall c, m <> HClose c) -> receive_initial before s = (true, s0) ->
  dispatch protocol size tr format m s0 = (Err e, s1) ->
  (forall events, receive_task (before ++ (m, false) :: after) events s = (false, s1)) /\
  ds_events s1 = ds_events s0 /\
  (parse_messages protocol (IText text) = Ok [m] ->
    receive_one (RMessage (Some (TText text)) false) s0 = (true, s1)).
Proof.
  intros Hm Hb Hd. split_and!.
  - intros events. unfold receive_task.
    enough (receive_initial (before ++ (m, false) :: after) s = (false, s1)) as -> by done.
    clear -Hb Hd. revert s Hb. induction before as [|[m' []] before IH]; intros s; cbn [receive_initial app].
    + intros [= ->]. by rewrite Hd.
    + done.
    + destruct (dispatch protocol size tr format m' s) as [[] s']; [apply IH|done].
  - by rewrite <- (dispatch_events m s0 Hm), Hd.
  - intros Hp. cbn. unfold process_input. rewrite Hp. cbn. by rewrite Hd.
Qed.

End receive.

(** ** The keepalive task *)

(** The local variables of [run_keepalive] with the flag and the channel it shares with the
    receive task. *)
Record Keepalive (T : Type) := {
  ka_last_received : Z;
  ka_next_ping_at : Z;
  ka_running : bool;
  ka_shared : DispatchState T
}.
Arguments ka_last_received {T}.
Arguments ka_next_ping_at {T}.
Arguments ka_running {T}.
Arguments ka_shared {T}.

(** The branches of the [select!]; a ping is written by time [written].  [KDropped]: [changed]
    fails, since the [HubRuntime] with the sender was dropped. *)
Inductive KeepaliveBranch : Type :=
| KShutdown
| KDropped
| KReceived
| KSent
| KServerDeadline
| KPingDeadline (written : Z).

Section keepalive.
Context `{TR : Transport T} (protocol : HubProtocol) (tr : transport) (format : TransferFormat)
  (server_timeout keep_alive_interval : Z).

(** The start of [run_keepalive]. *)
Definition keepalive_new (now : Z) (s : DispatchState T) : Keepalive T := {|
  ka_last_received := now; ka_next_ping_at := now + keep_alive_interval; ka_running := true;
  ka_shared := s |}.

(** The report of the server timeout, and the close of the transport. *)
Definition report_timeout (s : DispatchState T) : DispatchState T :=
  {| ds_bus := ds_bus s; ds_buffer := ds_buffer s;
     ds_events := if ds_close_signaled s then ds_events s
                  else ds_events s ++ [{| ci_error := Some SERVER_TIMEOUT_MESSAGE;
                                          ci_allow_reconnect := None;
                                          ci_transport_dropped := false |}];
     ds_close_signaled := true;
     ds_world := (transport_close tr (ds_world s)).2 |}.

(** One iteration of [run_keepalive] at time [now]; [None] when the branch is not ready. *)
Definition keepalive_iteration (now : Z) (branch : KeepaliveBranch) (k : Keepalive T)
    : option (Keepalive T) :=
  let server_deadline := ka_last_received k + server_timeout in
  let ping_deadline := ka_next_ping_at k in
  if negb (ka_running k) then None
  else
    match branch with
    | KShutdown =>
        Some {| ka_last_received := ka_last_received k; ka_next_ping_at := ka_next_ping_at k;
                ka_running := false; ka_shared := ka_shared k |}
    | KDropped => Some k
    | KReceived =>
        Some {| ka_last_received := now; ka_next_ping_at := ka_next_ping_at k;
                ka_running := true; ka_shared := ka_shared k |}
    | KSent =>
        Some {| ka_last_received := ka_last_received k; ka_next_ping_at := now + keep_alive_interval;
                ka_running := true; ka_shared := ka_shared k |}
    | KServerDeadline =>
        if now <? server_deadline then None
        else if server_timeout <=? now - ka_last_received k then
          Some {| ka_last_received := ka_last_received k; ka_next_ping_at := ka_next_ping_at k;
                  ka_running := false; ka_shared := report_timeout (ka_shared k) |}
        else Some k
    | KPingDeadline written =>
        if now <? ping_deadline then None
        else if ka_next_ping_at k <=? now then
          let '(_, w) := send_hub_message protocol tr format HPing (ds_world (ka_shared k)) in
          Some {| ka_last_received := ka_last_received k;
                  ka_next_ping_at := written + keep_alive_interval; ka_running := true;
                  ka_shared := with_world w (ka_shared k) |}
        else Some k
    end.

(** A runtime that is dropped without a shutdown leaves its keepalive task in a loop that does not
    wait: at any moment [changed] is ready again, and the iteration changes nothing. *)
Lemma dropped_runtime_spins k now : ka_running k = true -> keepalive_iteration now KDropped k = Some k.
Proof. intros Hrun. unfold keepalive_iteration. by rewrite Hrun. Qed.

End keepalive.
