(* ===== verification/Pings.v ===== *)
(** * What the keepalive task knows ([run_keepalive] of [src/hub_connection/runtime.rs])

    The keepalive task does not see what is sent and received: it waits for two [Notify], which
    keep one notification each until the task takes it.  Here the task runs beside the others: the
    calls that are sent through the [HubRuntime], which notify it, the completions of dispatch,
    which do not, and the frames the receive task gets.  So what a ping or a server timeout means
    can be said of what was really sent and received. *)

From Stdlib Require Import ZArith Lia String.
From stdpp Require Import base list strings relations.
From S2P Require Import Prelude Framing Errors Values Arguments Message JsonProtocol.
From S2P Require Import MessageBuffer Bus Dispatch Connection Runtime.

Local Open Scope Z_scope.

(** The task, the clock, the notifications that wait ([Notify] of [sent] and of [received]), and
    when calls were sent or pings written, and frames received. *)
Record Watched (T : Type) := {
  wa_task : Keepalive T;
  wa_now : Z;
  wa_sent : bool;
  wa_received : bool;
  wa_calls : list Z;
  wa_frames : list Z
}.
Arguments wa_task {T}. Arguments wa_now {T}. Arguments wa_sent {T}. Arguments wa_received {T}.
Arguments wa_calls {T}. Arguments wa_frames {T}.

Definition with_shared {T} (s : DispatchState T) (k : Keepalive T) : Keepalive T := {|
  ka_last_received := ka_last_received k; ka_next_ping_at := ka_next_ping_at k;
  ka_running := ka_running k; ka_shared := s |}.

Section pings.
Context `{TR : Transport T} (protocol : HubProtocol) (size : Z) (tr : transport)
  (format : TransferFormat) (server_timeout keep_alive_interval : Z).

Local Abbreviation iteration := (keepalive_iteration protocol tr format server_timeout keep_alive_interval).
Local Abbreviation shared x := (ka_shared (wa_task x)).

Definition watch_new (now : Z) (s : DispatchState T) : Watched T := {|
  wa_task := keepalive_new keep_alive_interval now s; wa_now := now; wa_sent := false;
  wa_received := false; wa_calls := []; wa_frames := [] |}.

(** The buffers hold the one that dispatch shares with the runtime. *)
Definition buffer_in (rt : HubRuntime) (buffers : list MessageBuffer) : option MessageBuffer :=
  hr_message_buffer rt ≫= fun i => buffers !! i.

(** [send_with_backpressure] of a call that succeeds, and its [sent.notify_one()]. *)
Definition call_sent (now : Z) (rt : HubRuntime) (buffers : list MessageBuffer) (w : T)
    (x : Watched T) : Watched T := {|
  wa_task := with_shared (with_buffer (buffer_in rt buffers) (with_world w (shared x))) (wa_task x);
  wa_now := now; wa_sent := true; wa_received := wa_received x; wa_calls := wa_calls x ++ [now];
  wa_frames := wa_frames x |}.

(** The loops of the receive task on a message that came in or came with the handshake, with
    [receive_activity.notify_one()]. *)
Definition frame_received (now : Z) (s : DispatchState T) (x : Watched T) : Watched T := {|
  wa_task := with_shared s (wa_task x); wa_now := now; wa_sent := wa_sent x; wa_received := true;
  wa_calls := wa_calls x; wa_frames := wa_frames x ++ [now] |}.

(** Anything else at time [now]: completions and acknowledgements, what others do. *)
Definition shared_changed (now : Z) (s : DispatchState T) (x : Watched T) : Watched T := {|
  wa_task := with_shared s (wa_task x); wa_now := now; wa_sent := wa_sent x;
  wa_received := wa_received x; wa_calls := wa_calls x; wa_frames := wa_frames x |}.

(** A branch of the task that is ready, as far as notifications go, and what it takes. *)
Definition notified (branch : KeepaliveBranch) (x : Watched T) : bool :=
  match branch with KSent => wa_sent x | KReceived => wa_received x | _ => true end.

Definition task_done (now : Z) (branch : KeepaliveBranch) (k : Keepalive T) (x : Watched T) : Watched T := {|
  wa_task := k;
  wa_now := match branch with KPingDeadline written => written | _ => now end;
  wa_sent := match branch with KSent => false | _ => wa_sent x end;
  wa_received := match branch with KReceived => false | _ => wa_received x end;
  wa_calls := match branch with KPingDeadline written => wa_calls x ++ [written] | _ => wa_calls x end;
  wa_frames := wa_frames x |}.

Inductive watch_step : Watched T -> Watched T -> Prop :=
| watch_call now rt m buffers r buffers' w x :
    wa_now x <= now -> ds_buffer (shared x) = buffer_in rt buffers ->
    send_with_backpressure size rt m buffers (ds_world (shared x)) = (Ok r, buffers', w) ->
    watch_step x (call_sent now rt buffers' w x)
| watch_frame now m shutdown go_on s x :
    wa_now x <= now ->
    receive_one protocol size tr format (RMessage (Some m) shutdown) (shared x) = (go_on, s) ->
    watch_step x (frame_received now s x)
| watch_initial now m s x :
    wa_now x <= now -> dispatch protocol size tr format m (shared x) = (Ok tt, s) ->
    watch_step x (frame_received now s x)
| watch_completion now c r s x :
    wa_now x <= now -> send_completion protocol tr format c (shared x) = (r, s) ->
    watch_step x (shared_changed now s x)
| watch_other now s x : wa_now x <= now -> watch_step x (shared_changed now s x)
| watch_task now branch k x :
    wa_now x <= now -> (forall written, branch = KPingDeadline written -> now <= written) ->
    notified branch x = true -> iteration now branch (wa_task x) = Some k ->
    watch_step x (task_done now branch k x).

(** What the variables of the task say of what was sent and received. *)
Record watch_ok (t0 : Z) (x : Watched T) : Prop := {
  wo_calls : Forall (fun r => r <= wa_now x) (wa_calls x);
  wo_frames : Forall (fun r => r <= wa_now x) (wa_frames x);
  wo_noticed : wa_sent x = false ->
    Forall (fun r => r + keep_alive_interval <= ka_next_ping_at (wa_task x)) (wa_calls x);
  wo_heard : wa_received x = false ->
    Forall (fun r => r <= ka_last_received (wa_task x)) (wa_frames x);
  wo_last : t0 <= ka_last_received (wa_task x) <= wa_now x;
  wo_due : ka_next_ping_at (wa_task x) <= wa_now x + keep_alive_interval
}.

Lemma later_all l (a b : Z) : a <= b -> Forall (fun r => r <= a) l -> Forall (fun r => r <= b) l.
Proof. intros Hab H. eapply Forall_impl; [exact H|]. cbn. lia. Qed.

Lemma later_snoc l (a b : Z) : a <= b -> Forall (fun r => r <= a) l -> Forall (fun r => r <= b) (l ++ [b]).
Proof. intros Hab H. apply Forall_app. split; [by eapply later_all|]. by constructor. Qed.

Lemma shifted_all l (a b d : Z) : a <= b -> Forall (fun r => r <= a) l -> Forall (fun r => r + d <= b + d) l.
Proof. intros Hab H. eapply Forall_impl; [exact H|]. cbn. lia. Qed.

(** What an iteration can be: it leaves what is shared alone, or it pings, or it gives up. *)
Lemma iteration_cases now branch k k' : iteration now branch k = Some k' ->
  (ka_shared k' = ka_shared k /\
   match branch with KServerDeadline | KPingDeadline _ => False | _ => True end) \/
  (exists written, branch = KPingDeadline written /\ ka_next_ping_at k <= now /\
     k' = {| ka_last_received := ka_last_received k; ka_next_ping_at := written + keep_alive_interval;
             ka_running := true;
             ka_shared := with_world (send_hub_message protocol tr format HPing (ds_world (ka_shared k))).2
                            (ka_shared k) |}) \/
  (branch = KServerDeadline /\ ka_last_received k + server_timeout <= now /\
     k' = {| ka_last_received := ka_last_received k; ka_next_ping_at := ka_next_ping_at k;
             ka_running := false; ka_shared := report_timeout tr (ka_shared k) |}).
Proof.
  unfold keepalive_iteration. destruct (ka_running k); [|done]. cbn [negb].
  destruct branch as [| | | | |written]; try by intros [= <-]; left.
  - destruct (now <? _) eqn:E; [done|]. bool_to_prop.
    replace (server_timeout <=? now - ka_last_received k) with true by lia. intros [= <-].
    right. right. split_and!; [done|lia|done].
  - destruct (now <? _) eqn:E; [done|]. bool_to_prop.
    replace (ka_next_ping_at k <=? now) with true by lia.
    destruct (send_hub_message _ _ _ _ _) as [r w] eqn:Hs. intros [= <-].
    right. left. exists written. split_and!; [done|lia|done].
Qed.

Lemma watch_step_ok t0 x x' : watch_ok t0 x -> watch_step x x' -> watch_ok t0 x'.
Proof.
  intros Hok Hstep. destruct Hstep as
    [now rt m bs r bs' w x0 Hnow _ _|now m sd go s x0 Hnow _|now m s x0 Hnow _|now c r s x0 Hnow _|now s x0 Hnow|
     now branch k x0 Hnow Hw Hready Hit]; destruct Hok as [Hc Hf Hn Hh Hl Hd].
  - split; cbn; [by eapply later_snoc|by eapply later_all|done|done|lia|lia].
  - split; cbn; [by eapply later_all|by eapply later_snoc|done|done|lia|lia].
  - split; cbn; [by eapply later_all|by eapply later_snoc|done|done|lia|lia].
  - split; cbn; [by eapply later_all|by eapply later_all|done|done|lia|lia].
  - split; cbn; [by eapply later_all|by eapply later_all|done|done|lia|lia].
  - destruct (iteration_cases _ _ _ _ Hit) as [[_ Hb]|[(written & -> & Hping & ->)|(-> & Hto & ->)]].
    + unfold keepalive_iteration in Hit. destruct (ka_running _); [|done]. cbn [negb] in Hit.
      assert (Hc' : Forall (fun r => r <= now) (wa_calls x0)) by by eapply later_all.
      assert (Hf' : Forall (fun r => r <= now) (wa_frames x0)) by by eapply later_all.
      destruct branch; try done; injection Hit as <-; split; cbn; try done; try lia; intros _.
      by apply (shifted_all _ now).
    + specialize (Hw written eq_refl).
      assert (Hc' : Forall (fun r => r <= written) (wa_calls x0 ++ [written]))
        by (apply (later_snoc _ (wa_now x0)); [lia|done]).
      split; cbn; try done; try lia; [by apply (later_all _ (wa_now x0)); [lia|]|].
      intros _. by apply (shifted_all _ written).
    + split; cbn; try done; try lia; by apply (later_all _ (wa_now x0)).
Qed.

Lemma watch_reachable_ok t0 s x : rtc watch_step (watch_new t0 s) x -> watch_ok t0 x.
Proof.
  intros H. assert (Hnew : watch_ok t0 (watch_new t0 s)) by (split; cbn; by try lia).
  revert Hnew. induction H as [|x0 x1 x2 Hs _ IH]; [done|]. intros Hok. by eapply IH, watch_step_ok.
Qed.

(** C20: What the keepalive task does, and when.  An iteration leaves the connection alone, or writes a
    ping, or gives the server up, with a report and a close of the transport.  It pings only when,
    unless a notification is still waiting to be taken, every earlier ping and every call that was
    sent through the runtime lies at least the keep-alive interval back; it gives up only when,
    with the same exception, no frame (or message that came with the handshake) was received for the
    server timeout.  And it does: a ping is
    due at most the keep-alive interval from now and can be written once it is, and once the
    timeout has passed since the last notification the task can report it, which tells the
    supervisor unless it knows of a close already. *)
Theorem keepalive_watches (t0 : Z) (s : DispatchState T) (x : Watched T) (now : Z) :
  rtc watch_step (watch_new t0 s) x ->
  (forall branch k', iteration now branch (wa_task x) = Some k' ->
    ka_shared k' = shared x \/
    (ka_shared k' = with_world (send_hub_message protocol tr format HPing (ds_world (shared x))).2 (shared x) /\
     (wa_sent x = false -> Forall (fun r => r + keep_alive_interval <= now) (wa_calls x))) \/
    (ka_shared k' = report_timeout tr (shared x) /\ ka_running k' = false /\ t0 + server_timeout <= now /\
     (wa_received x = false -> Forall (fun r => r + server_timeout <= now) (wa_frames x)))) /\
  ka_next_ping_at (wa_task x) <= wa_now x + keep_alive_interval /\
  (ka_running (wa_task x) = true -> ka_next_ping_at (wa_task x) <= now -> exists k',
    iteration now (KPingDeadline now) (wa_task x) = Some k' /\
    ka_shared k' = with_world (send_hub_message protocol tr format HPing (ds_world (shared x))).2 (shared x)) /\
  (ka_running (wa_task x) = true -> ka_last_received (wa_task x) + server_timeout <= now -> exists k',
    iteration now KServerDeadline (wa_task x) = Some k' /\ ka_running k' = false /\
    ds_close_signaled (ka_shared k') = true /\
    ds_events (ka_shared k') = ds_events (shared x) ++
      (if ds_close_signaled (shared x) then [] else
        [{| ci_error := Some SERVER_TIMEOUT_MESSAGE; ci_allow_reconnect := None;
            ci_transport_dropped := false |}])).
Proof.
  intros [Hc Hf Hn Hh Hl Hd]%watch_reachable_ok. split_and!; [|done|..].
  - intros branch k' Hit.
    destruct (iteration_cases _ _ _ _ Hit) as [[Hs _]|[(written & _ & Hping & ->)|(_ & Hto & ->)]]; [by left|..].
    + right. left. split; [done|]. intros Hw. eapply Forall_impl; [exact (Hn Hw)|]. cbn. lia.
    + right. right. split_and!; [done|done|lia|]. intros Hw. eapply Forall_impl; [exact (Hh Hw)|]. cbn. lia.
  - intros Hrun Hdue. unfold keepalive_iteration. rewrite Hrun. cbn [negb].
    replace (now <? _) with false by lia. replace (_ <=? now) with true by lia.
    destruct (send_hub_message _ _ _ _ _) as [r w]. by eexists.
  - intros Hrun Hto. unfold keepalive_iteration. rewrite Hrun. cbn [negb].
    replace (now <? _) with false by lia. replace (server_timeout <=? _) with true by lia.
    eexists. split; [done|]. cbn. split_and!; [done|done|].
    destruct (ds_close_signaled (shared x)); [by rewrite app_nil_r|done].
Qed.

(** A message that dispatch sends does not put the ping off: when a completion is written at the
    moment a ping is due, the ping follows at once. *)
Theorem completion_not_noticed (t0 : Z) (s s1 : DispatchState T) (c : CompletionMessage) :
  0 <= keep_alive_interval -> send_completion protocol tr format c s = (Ok tt, s1) ->
  exists x k', rtc watch_step (watch_new t0 s) x /\ wa_now x = t0 + keep_alive_interval /\
    shared x = s1 /\ wa_sent x = false /\
    iteration (wa_now x) (KPingDeadline (wa_now x)) (wa_task x) = Some k' /\
    ka_shared k' = with_world (send_hub_message protocol tr format HPing (ds_world s1)).2 s1.
Proof.
  intros Hi Hc. exists (shared_changed (t0 + keep_alive_interval) s1 (watch_new t0 s)).
  unfold keepalive_iteration. cbn -[send_hub_message].
  replace (t0 + keep_alive_interval <? t0 + keep_alive_interval) with false by lia.
  replace (t0 + keep_alive_interval <=? t0 + keep_alive_interval) with true by lia.
  destruct (send_hub_message _ _ _ _ _) as [r w]. eexists. split_and!; [|done..].
  eapply rtc_l; [|apply rtc_refl]. eapply watch_completion; [cbn; lia|exact Hc].
Qed.

End pings.
