(* ===== verification/Client.v ===== *)
(** * The hub connection ([src/hub_connection/mod.rs], [stream.rs], [upload_stream.rs])

    The state behind a [HubConnection] and its operations: calls of hub methods, starting and
    closing, the supervisor's reaction to a closed transport.  Operations that wait for a lock
    are split where they wait ([start_begin]/[start_locked], [close_begin]/[close_locked]); the
    supervisor is a state machine whose states are the places where it waits. *)

From Stdlib Require Import ZArith Lia String.
From stdpp Require Import base list strings gmap pretty relations.
From S2P Require Import Prelude Framing Utf8 Errors Values Arguments Message JsonProtocol.
From S2P Require Import MessageBuffer Link Bus Dispatch Handshake Negotiate Retry Connection.
From S2P Require Import Runtime.

Local Open Scope Z_scope.

(** [ClientUploadStream]: the items it will produce. *)
Definition ClientUploadStream : Type := list (result string json).

(** [HubArgument] *)
Inductive HubArgument : Type :=
| HValue (value : json)
| HStream (stream : ClientUploadStream).

(** The supervisor's task: waiting for an event, sleeping before a reconnect attempt, ended. *)
Inductive Supervisor : Type :=
| SupWaiting
| SupSleeping (attempt : nat) (started : Z) (retry_reason : string)
| SupEnded.

(** [HubConnection]; [hc_uploads] are the upload tasks spawned. *)
Record HubConnection (W : Type) := {
  hc_state : HubConnectionState;
  hc_connection_id : option string;
  hc_runtime : option HubRuntime;
  hc_bus : MessageBus;
  hc_buffers : list MessageBuffer;
  hc_message_buffer : option nat;
  hc_resume : option ResumeTarget;
  hc_closing : bool;
  hc_stop_reconnect : bool;
  hc_supervisor : option Supervisor;
  hc_lifecycle : LifecycleCallbacks;
  hc_remaining_handshake_data : option RemainingData;
  hc_initial_messages : list HubMessage;
  hc_uploads : list (string * ClientUploadStream);
  hc_net : NegState W
}.
Arguments hc_state {W}.
Arguments hc_connection_id {W}.
Arguments hc_runtime {W}.
Arguments hc_bus {W}.
Arguments hc_buffers {W}.
Arguments hc_message_buffer {W}.
Arguments hc_resume {W}.
Arguments hc_closing {W}.
Arguments hc_stop_reconnect {W}.
Arguments hc_supervisor {W}.
Arguments hc_lifecycle {W}.
Arguments hc_remaining_handshake_data {W}.
Arguments hc_initial_messages {W}.
Arguments hc_uploads {W}.
Arguments hc_net {W}.

(** [HubConnection::new] *)
Definition hub_new {W} (w : W) : HubConnection W := {|
  hc_state := Disconnected; hc_connection_id := None; hc_runtime := None; hc_bus := bus_new;
  hc_buffers := []; hc_message_buffer := None; hc_resume := None; hc_closing := false;
  hc_stop_reconnect := false; hc_supervisor := None; hc_lifecycle := lifecycle_new;
  hc_remaining_handshake_data := None; hc_initial_messages := []; hc_uploads := [];
  hc_net := {| ns_world := w; ns_requests := []; ns_factory_calls := 0 |} |}.

(** ** Field updates *)

Section updates.
Context {W : Type}.
Implicit Types h : HubConnection W.

Definition set_state (st : HubConnectionState) h : HubConnection W := {|
  hc_state := st; hc_connection_id := hc_connection_id h; hc_runtime := hc_runtime h;
  hc_bus := hc_bus h; hc_buffers := hc_buffers h; hc_message_buffer := hc_message_buffer h;
  hc_resume := hc_resume h; hc_closing := hc_closing h;
  hc_stop_reconnect := hc_stop_reconnect h; hc_supervisor := hc_supervisor h;
  hc_lifecycle := hc_lifecycle h; hc_remaining_handshake_data := hc_remaining_handshake_data h;
  hc_initial_messages := hc_initial_messages h; hc_uploads := hc_uploads h; hc_net := hc_net h |}.

Definition set_runtime (rt : option HubRuntime) h : HubConnection W := {|
  hc_state := hc_state h; hc_connection_id := hc_connection_id h; hc_runtime := rt;
  hc_bus := hc_bus h; hc_buffers := hc_buffers h; hc_message_buffer := hc_message_buffer h;
  hc_resume := hc_resume h; hc_closing := hc_closing h;
  hc_stop_reconnect := hc_stop_reconnect h; hc_supervisor := hc_supervisor h;
  hc_lifecycle := hc_lifecycle h; hc_remaining_handshake_data := hc_remaining_handshake_data h;
  hc_initial_messages := hc_initial_messages h; hc_uploads := hc_uploads h; hc_net := hc_net h |}.

Definition set_bus (b : MessageBus) h : HubConnection W := {|
  hc_state := hc_state h; hc_connection_id := hc_connection_id h; hc_runtime := hc_runtime h;
  hc_bus := b; hc_buffers := hc_buffers h; hc_message_buffer := hc_message_buffer h;
  hc_resume := hc_resume h; hc_closing := hc_closing h;
  hc_stop_reconnect := hc_stop_reconnect h; hc_supervisor := hc_supervisor h;
  hc_lifecycle := hc_lifecycle h; hc_remaining_handshake_data := hc_remaining_handshake_data h;
  hc_initial_messages := hc_initial_messages h; hc_uploads := hc_uploads h; hc_net := hc_net h |}.

Definition set_net (n : NegState W) h : HubConnection W := {|
  hc_state := hc_state h; hc_connection_id := hc_connection_id h; hc_runtime := hc_runtime h;
  hc_bus := hc_bus h; hc_buffers := hc_buffers h; hc_message_buffer := hc_message_buffer h;
  hc_resume := hc_resume h; hc_closing := hc_closing h;
  hc_stop_reconnect := hc_stop_reconnect h; hc_supervisor := hc_supervisor h;
  hc_lifecycle := hc_lifecycle h; hc_remaining_handshake_data := hc_remaining_handshake_data h;
  hc_initial_messages := hc_initial_messages h; hc_uploads := hc_uploads h; hc_net := n |}.

Definition set_world (w : W) h : HubConnection W :=
  set_net {| ns_world := w; ns_requests := ns_requests (hc_net h);
             ns_factory_calls := ns_factory_calls (hc_net h) |} h.

Definition set_buffers (bs : list MessageBuffer) h : HubConnection W := {|
  hc_state := hc_state h; hc_connection_id := hc_connection_id h; hc_runtime := hc_runtime h;
  hc_bus := hc_bus h; hc_buffers := bs; hc_message_buffer := hc_message_buffer h;
  hc_resume := hc_resume h; hc_closing := hc_closing h;
  hc_stop_reconnect := hc_stop_reconnect h; hc_supervisor := hc_supervisor h;
  hc_lifecycle := hc_lifecycle h; hc_remaining_handshake_data := hc_remaining_handshake_data h;
  hc_initial_messages := hc_initial_messages h; hc_uploads := hc_uploads h; hc_net := hc_net h |}.

Definition set_resume (buffer : option nat) (target : option ResumeTarget) h : HubConnection W := {|
  hc_state := hc_state h; hc_connection_id := hc_connection_id h; hc_runtime := hc_runtime h;
  hc_bus := hc_bus h; hc_buffers := hc_buffers h; hc_message_buffer := buffer;
  hc_resume := target; hc_closing := hc_closing h;
  hc_stop_reconnect := hc_stop_reconnect h; hc_supervisor := hc_supervisor h;
  hc_lifecycle := hc_lifecycle h; hc_remaining_handshake_data := hc_remaining_handshake_data h;
  hc_initial_messages := hc_initial_messages h; hc_uploads := hc_uploads h; hc_net := hc_net h |}.

Definition set_identity (id : option string) (rest : option RemainingData) (ms : list HubMessage) h
    : HubConnection W := {|
  hc_state := hc_state h; hc_connection_id := id; hc_runtime := hc_runtime h;
  hc_bus := hc_bus h; hc_buffers := hc_buffers h; hc_message_buffer := hc_message_buffer h;
  hc_resume := hc_resume h; hc_closing := hc_closing h;
  hc_stop_reconnect := hc_stop_reconnect h; hc_supervisor := hc_supervisor h;
  hc_lifecycle := hc_lifecycle h; hc_remaining_handshake_data := rest;
  hc_initial_messages := ms; hc_uploads := hc_uploads h; hc_net := hc_net h |}.

Definition set_closing (closing stop : bool) h : HubConnection W := {|
  hc_state := hc_state h; hc_connection_id := hc_connection_id h; hc_runtime := hc_runtime h;
  hc_bus := hc_bus h; hc_buffers := hc_buffers h; hc_message_buffer := hc_message_buffer h;
  hc_resume := hc_resume h; hc_closing := closing; hc_stop_reconnect := stop;
  hc_supervisor := hc_supervisor h;
  hc_lifecycle := hc_lifecycle h; hc_remaining_handshake_data := hc_remaining_handshake_data h;
  hc_initial_messages := hc_initial_messages h; hc_uploads := hc_uploads h; hc_net := hc_net h |}.

Definition set_supervisor (sup : option Supervisor) h : HubConnection W := {|
  hc_state := hc_state h; hc_connection_id := hc_connection_id h; hc_runtime := hc_runtime h;
  hc_bus := hc_bus h; hc_buffers := hc_buffers h; hc_message_buffer := hc_message_buffer h;
  hc_resume := hc_resume h; hc_closing := hc_closing h;
  hc_stop_reconnect := hc_stop_reconnect h; hc_supervisor := sup;
  hc_lifecycle := hc_lifecycle h; hc_remaining_handshake_data := hc_remaining_handshake_data h;
  hc_initial_messages := hc_initial_messages h; hc_uploads := hc_uploads h; hc_net := hc_net h |}.

Definition set_lifecycle (l : LifecycleCallbacks) h : HubConnection W := {|
  hc_state := hc_state h; hc_connection_id := hc_connection_id h; hc_runtime := hc_runtime h;
  hc_bus := hc_bus h; hc_buffers := hc_buffers h; hc_message_buffer := hc_message_buffer h;
  hc_resume := hc_resume h; hc_closing := hc_closing h;
  hc_stop_reconnect := hc_stop_reconnect h; hc_supervisor := hc_supervisor h;
  hc_lifecycle := l; hc_remaining_handshake_data := hc_remaining_handshake_data h;
  hc_initial_messages := hc_initial_messages h; hc_uploads := hc_uploads h; hc_net := hc_net h |}.

Definition add_uploads (us : list (string * ClientUploadStream)) h : HubConnection W := {|
  hc_state := hc_state h; hc_connection_id := hc_connection_id h; hc_runtime := hc_runtime h;
  hc_bus := hc_bus h; hc_buffers := hc_buffers h; hc_message_buffer := hc_message_buffer h;
  hc_resume := hc_resume h; hc_closing := hc_closing h;
  hc_stop_reconnect := hc_stop_reconnect h; hc_supervisor := hc_supervisor h;
  hc_lifecycle := hc_lifecycle h; hc_remaining_handshake_data := hc_remaining_handshake_data h;
  hc_initial_messages := hc_initial_messages h; hc_uploads := hc_uploads h ++ us;
  hc_net := hc_net h |}.

End updates.

(** ** Calls of hub methods *)

(** [replace_streaming_params], with the runtime as the source of ids. *)
Fixpoint replace_streaming_params (arguments : list HubArgument) (rt : HubRuntime)
    : list json * list string * list (string * ClientUploadStream) * HubRuntime :=
  match arguments with
  | [] => ([], [], [], rt)
  | HValue value :: arguments =>
      let '(values, ids, streams, rt) := replace_streaming_params arguments rt in
      (value :: values, ids, streams, rt)
  | HStream stream :: arguments =>
      let '(id, rt) := next_invocation_id rt in
      let '(values, ids, streams, rt) := replace_streaming_params arguments rt in
      (values, id :: ids, (id, stream) :: streams, rt)
  end.

Definition optional_ids (ids : list string) : option (list string) :=
  match ids with [] => None | _ => Some ids end.

Section client.
Context `{UL : UrlLib} `{HC : HttpClient W} `{SO : !Sockets W} `{HT : HandshakeText}
  (options : ConnectionOptions W).

Local Abbreviation size := (op_stateful_reconnect_buffer_size options).
Local Abbreviation hub := (HubConnection W).
Local Abbreviation world h := (ns_world (hc_net h)).

(** [require_connected] *)
Definition require_connected (h : hub) : result Error unit :=
  if decide (hc_state h = Connected) then Ok tt else Err ENotConnected.

(** [send_through]; returns the channel the caller waits for after the lock is released. *)
Definition send_through (m : HubMessage) (h : hub) : result Error (option Z) * hub :=
  match hc_runtime h with
  | None => (Err ENotConnected, h)
  | Some rt =>
      let '(r, buffers, w) := send_with_backpressure size rt m (hc_buffers h) (world h) in
      (r, set_world w (set_buffers buffers h))
  end.

(** The ids of the upload streams and, for [invoke] and [stream], of the invocation. *)
Definition prepare (arguments : list HubArgument) (h : hub)
    : result Error (list json * list string * list (string * ClientUploadStream)) * hub :=
  match require_connected h, hc_runtime h with
  | Err e, _ => (Err e, h)
  | Ok _, None => (Err ENotConnected, h)
  | Ok _, Some rt =>
      let '(values, ids, streams, rt) := replace_streaming_params arguments rt in
      (Ok (values, ids, streams), set_runtime (Some rt) h)
  end.

Definition fresh_id (h : hub) : result Error string * hub :=
  match hc_runtime h with
  | None => (Err ENotConnected, h)
  | Some rt => let '(id, rt) := next_invocation_id rt in (Ok id, set_runtime (Some rt) h)
  end.

(** The send of [invoke] and [stream], undone when it fails. *)
Definition send_or_forget (id : string) (m : HubMessage)
    (streams : list (string * ClientUploadStream)) (ch : nat) (h : hub) : result Error nat * hub :=
  match send_through m h with
  | (Err e, h) => (Err e, set_bus (remove_pending id (hc_bus h)).2 h)
  | (Ok _, h) => (Ok ch, add_uploads streams h)
  end.

(** [invoke], up to the wait for the response: the receiver. *)
Definition invoke (method_name : string) (arguments : list HubArgument) (h : hub)
    : result Error nat * hub :=
  match prepare arguments h with
  | (Err e, h) => (Err e, h)
  | (Ok (values, ids, streams), h) =>
      match fresh_id h with
      | (Err e, h) => (Err e, h)
      | (Ok id, h) =>
          let '(ch, b) := register_pending id (hc_bus h) in
          send_or_forget id
            (HInvocation {| inv_headers := ∅; inv_invocation_id := Some id;
                            inv_target := method_name; inv_arguments := AJson values;
                            inv_stream_ids := optional_ids ids |})
            streams ch (set_bus b h)
      end
  end.

(** The end of [invoke]: what the caller gets from its channel, [None] while it waits. *)
Definition invoke_response (c : channel) : option (result Error json) :=
  match ch_items c with
  | Ok value :: _ => Some (Ok value)
  | Err error :: _ => Some (Err (EInvocation error))
  | [] => if ch_closed c then Some (Err ECanceled) else None
  end.

(** [HubConnection::stream]: the id and the receiver of the stream. *)
Definition stream (method_name : string) (arguments : list HubArgument) (h : hub)
    : result Error (string * nat) * hub :=
  match prepare arguments h with
  | (Err e, h) => (Err e, h)
  | (Ok (values, ids, streams), h) =>
      match fresh_id h with
      | (Err e, h) => (Err e, h)
      | (Ok id, h) =>
          let '(ch, b) := register_stream id (hc_bus h) in
          let '(r, h) := send_or_forget id
            (HStreamInvocation {| sinv_headers := ∅; sinv_invocation_id := id;
                                  sinv_target := method_name; sinv_arguments := values;
                                  sinv_stream_ids := optional_ids ids |})
            streams ch (set_bus b h) in
          ((fun ch => (id, ch)) <$> r, h)
      end
  end.

(** [HubConnection::send] *)
Definition send (method_name : string) (arguments : list HubArgument) (h : hub)
    : result Error unit * hub :=
  match prepare arguments h with
  | (Err e, h) => (Err e, h)
  | (Ok (values, ids, streams), h) =>
      match send_through
        (HInvocation {| inv_headers := ∅; inv_invocation_id := None; inv_target := method_name;
                        inv_arguments := AJson values; inv_stream_ids := optional_ids ids |}) h with
      | (Err e, h) => (Err e, h)
      | (Ok _, h) => (Ok tt, add_uploads streams h)
      end
  end.

(** A send through the runtime itself, as [cancel_stream] and the streams do it. *)
Definition send_direct (m : HubMessage) (h : hub) : result Error unit * hub :=
  match hc_runtime h with
  | None => (Err ENotConnected, h)
  | Some rt =>
      let '(r, buffers, w) := runtime_send size rt m (hc_buffers h) (world h) in
      (r, set_world w (set_buffers buffers h))
  end.

Definition cancel_message (id : string) : HubMessage :=
  HCancelInvocation {| cancel_headers := ∅; cancel_invocation_id := id |}.

(** [HubConnection::cancel_stream] *)
Definition cancel_stream (id : string) (h : hub) : result Error unit * hub :=
  match require_connected h with
  | Err e => (Err e, h)
  | Ok _ => send_direct (cancel_message id) (set_bus (remove_pending id (hc_bus h)).2 h)
  end.

(** [HubMethodStream::cancel] *)
Definition stream_cancel (id : string) (h : hub) : result Error unit * hub :=
  let '(removed, b) := remove_pending id (hc_bus h) in
  if removed then send_direct (cancel_message id) (set_bus b h) else (Ok tt, set_bus b h).

(** [Drop for HubMethodStream]: the task it spawns. *)
Definition stream_drop (id : string) (h : hub) : hub := (stream_cancel id h).2.

End client.
