(* ===== verification/Lifecycle.v ===== *)
(** * Starting, closing, reconnecting ([src/hub_connection/mod.rs])

    Each definition is a stretch of the code between two places where it waits: [start] and
    [close] wait for the lock [connect_operation], the supervisor for an event or a delay.
    [hub_step] lets these stretches interleave; the holder of the lock is part of its state. *)

From Stdlib Require Import ZArith Lia String.
From stdpp Require Import base list strings gmap pretty relations.
From S2P Require Import Prelude Framing Utf8 Errors Values Arguments Message JsonProtocol.
From S2P Require Import MessageBuffer Link Bus Dispatch Handshake Negotiate Retry Connection.
From S2P Require Import Runtime Client.

Local Open Scope Z_scope.

Section lifecycle.
Context `{UL : UrlLib} `{HC : HttpClient W} `{SO : !Sockets W} `{HT : HandshakeText}
  (options : ConnectionOptions W).

Local Abbreviation size := (op_stateful_reconnect_buffer_size options).
Local Abbreviation hub := (HubConnection W).
Local Abbreviation world h := (ns_world (hc_net h)).

Definition on_buffer (f : MessageBuffer -> MessageBuffer) (i : option nat) (h : hub) : hub :=
  match i with Some i => set_buffers (alter f i (hc_buffers h)) h | None => h end.

(** [use_connection_buffer] *)
Definition use_connection_buffer (c : Connection) (h : hub) : hub :=
  let previous := hc_message_buffer h in
  let h := match co_resume c with
           | Some target =>
               set_resume (Some (length (hc_buffers h))) (Some target)
                 (set_buffers (hc_buffers h ++ [buffer_new]) h)
           | None => set_resume None None h
           end in
  on_buffer dispose previous h.

(** The runtime of a new connection: [HubRuntime::start], the first ping, the store; the tail of
    [connect_runtime] and [reconnect_once]. *)
Definition start_runtime (c : Connection) (h : hub) : result Error unit * hub :=
  match runtime_start (co_transport c) (op_hub_protocol options) (op_transfer_format options)
          (hc_message_buffer h) with
  | Err e => (Err e, set_world (transport_close (co_transport c) (world h)).2 h)
  | Ok rt =>
      match send_initial_ping rt (world h) with
      | (Err e, w) =>
          let '(_, buffers, w) := runtime_shutdown size rt (hc_buffers h) w in
          (Err e, set_world w (set_buffers buffers h))
      | (Ok _, w) => (Ok tt, set_runtime (Some rt) (set_world w h))
      end
  end.

(** [connect_runtime]; [stopped] when [close] aborts the connect, with the network as the part of the
    connect that was done left it, whatever that is.  [None] is out of fuel in the negotiation,
    which does not happen ([connect_runtime_total]). *)
Definition connect_runtime (stopped : option (NegState W)) (h : hub) : option (result Error unit * hub) :=
  match stopped with
  | Some net => Some (Err (EAborted "connection stopped during start"), set_net net h)
  | None =>
    match connect options (hc_net h) with
    | None => None
    | Some (Err e, net) => Some (Err e, set_net net h)
    | Some (Ok c, net) =>
        let h := use_connection_buffer c (set_net net h) in
        Some (start_runtime c
          (set_identity (co_connection_id c) (remaining (co_handshake_result c))
             (co_initial_messages c) h))
    end
  end.

(** [reconnect_once] *)
Definition reconnect_once (h : hub) : option (result Error unit * hub) :=
  match connect options (hc_net h) with
  | None => None
  | Some (Err e, net) => Some (Err e, set_net net h)
  | Some (Ok c, net) =>
      let h := use_connection_buffer c (set_net net h) in
      Some (start_runtime c
        (set_identity (co_connection_id c) (hc_remaining_handshake_data h) (hc_initial_messages h) h))
  end.

(** [resume_transport] *)
Definition resume_transport (target : ResumeTarget) (i : nat) (h : hub) : result Error unit * hub :=
  let h := on_buffer disconnected (Some i) h in
  let h := match hc_runtime h with
           | Some current => set_world (abort_without_close current (world h)) h
           | None => h
           end in
  match reopen target options (hc_net h) with
  | (Err e, net) => (Err e, set_net net h)
  | (Ok tr, net) =>
      let h := set_net net h in
      match runtime_start tr (op_hub_protocol options) (op_transfer_format options) (Some i) with
      | Err e => (Err e, h)
      | Ok reopened =>
          let h := set_runtime (Some reopened) h in
          let '(r, buffers, w) := resend_buffered_messages reopened (hc_buffers h) (world h) in
          (r, set_world w (set_buffers buffers h))
      end
  end.

(** [shutdown_active_connection]; the flag says whether waiting calls of [close] are notified. *)
Definition shutdown_active_connection (close_reason : option string) (h : hub)
    : result Error unit * bool * hub :=
  let h := set_supervisor None h in
  let h := on_buffer dispose (hc_message_buffer h) h in
  let h := set_bus (cancel_all_pending INVOCATION_CANCELED_MESSAGE (hc_bus h)) h in
  let '(r, h) :=
    match hc_runtime h with
    | Some rt =>
        let '(r, buffers, w) := runtime_shutdown size rt (hc_buffers h) (world h) in
        (r, set_world w (set_buffers buffers (set_runtime None h)))
    | None => (Ok tt, h)
    end in
  match r with
  | Err e => (Err e, false, h)
  | Ok _ =>
      let h := set_state Disconnected (set_identity None None [] (set_resume None None h)) in
      (Ok tt, true, set_lifecycle (invoke_closed close_reason (hc_lifecycle h)) h)
  end.

(** [{:?}] of the state. *)
Definition state_text (st : HubConnectionState) : string :=
  match st with
  | Disconnected => "Disconnected"
  | Connecting => "Connecting"
  | Connected => "Connected"
  | Disconnecting => "Disconnecting"
  | Reconnecting => "Reconnecting"
  end.

(** [start]: the check of the state, under a read lock that is released again. *)
Definition start_check (h : hub) : result Error unit :=
  if decide (hc_state h = Disconnected) then Ok tt
  else Err (EInvalidState
    ("cannot start a HubConnection in the '" +:+ state_text (hc_state h) +:+ "' state")).

(** [start]: what follows, up to [connect_operation]. *)
Definition start_begin (h : hub) : hub := set_closing false false (set_state Connecting h).

(** [start] with [connect_operation], up to the end of the connect; [stopped] when a [close]
    stops the connect.  A close that came before ends the start at once ([inl]). *)
Definition start_connect (stopped : option (NegState W)) (h : hub)
    : option ((Error + result Error unit) * hub) :=
  if hc_closing h then
    Some (inl (EAborted "connection stopped during start"), set_state Disconnected h)
  else (fun '(r, h) => (inr r, h)) <$> connect_runtime stopped h.

(** [start] after the connect; the flag as in [shutdown_active_connection]. *)
Definition start_finish (r : result Error unit) (h : hub) : result Error unit * bool * hub :=
  match r with
  | Ok _ =>
      if hc_closing h then
        match shutdown_active_connection None h with
        | (Err e, notified, h) => (Err e, notified, h)
        | (Ok _, notified, h) =>
            (Err (EAborted "connection stopped during start"), notified, h)
        end
      else
        let h := set_state Connected h in
        let h := set_lifecycle (mark_started (hc_lifecycle h)) h in
        (Ok tt, false, set_supervisor (Some SupWaiting) h)
  | Err e =>
      (Err e, false, set_state Disconnected (set_identity None None [] (set_runtime None h)))
  end.

(** [close] on the state it read: it returns at once, waits for another [close], or goes on. *)
Inductive CloseBegin : Type :=
| CloseReturns
| CloseWaits
| CloseProceeds.

Definition close_check (h : hub) : CloseBegin :=
  match hc_state h with
  | Disconnected => CloseReturns
  | Disconnecting => CloseWaits
  | _ => CloseProceeds
  end.

(** [close] up to [connect_operation]. *)
Definition close_begin (h : hub) : hub := set_closing true true (set_state Disconnecting h).

(** [close] with [connect_operation]. *)
Definition close_locked (h : hub) : result Error unit * bool * hub := shutdown_active_connection None h.

(** [set_base_url] checks the same state as [start]. *)
Definition set_base_url_check (h : hub) : result Error unit :=
  if decide (hc_state h = Disconnected) then Ok tt
  else Err (EInvalidState "base URL can only be changed while the connection is disconnected").

(** ** The supervisor *)

(** The connection is given up: [Disconnected], the closed callbacks, the task ends. *)
Definition abandon (reason : option string) (h : hub) : hub :=
  set_supervisor (Some SupEnded)
    (set_lifecycle (invoke_closed reason (hc_lifecycle h)) (set_state Disconnected h)).

(** A closed event that is not resumed: cancel, and wait before the first attempt or give up. *)
Definition begin_reconnect (info : TransportCloseInfo) (now : Z) (h : hub) : hub :=
  let h := set_bus (cancel_all_pending (default INVOCATION_CANCELED_MESSAGE (ci_error info))
                      (hc_bus h)) h in
  match op_reconnect_policy options with
  | None => abandon (ci_error info) h
  | Some policy =>
      if decide (ci_allow_reconnect info = Some false) then abandon (ci_error info) h
      else
        let h := on_buffer disconnected (hc_message_buffer h) h in
        let h := match hc_runtime h with
                 | Some current =>
                     set_runtime None (set_world (abort_without_close current (world h)) h)
                 | None => h
                 end in
        let retry_reason := default "connection closed"%string (ci_error info) in
        match policy {| rc_elapsed := 0; rc_previous_retry_count := 0;
                        rc_retry_reason := retry_reason |} with
        | None => abandon (Some retry_reason) h
        | Some _ =>
            let h := set_state Reconnecting h in
            let h := set_lifecycle (invoke_reconnecting (ci_error info) (hc_lifecycle h)) h in
            if hc_closing h then set_supervisor (Some SupEnded) h
            else set_supervisor (Some (SupSleeping 1 now retry_reason)) h
        end
  end.

(** The branch of a [TransportEvent::Closed]. *)
Definition supervisor_closed (info : TransportCloseInfo) (now : Z) (h : hub) : hub :=
  if hc_closing h then set_supervisor (Some SupEnded) h
  else
    match ci_transport_dropped info, hc_resume h, hc_message_buffer h with
    | true, Some target, Some i =>
        match resume_transport target i h with
        | (Ok _, h) => h
        | (Err _, h) => begin_reconnect info now h
        end
    | _, _, _ => begin_reconnect info now h
    end.

(** After the delay: one iteration of the inner loop.  [None]: see [connect_runtime]. *)
Definition supervisor_attempt (now : Z) (attempt : nat) (started : Z) (h : hub) : option hub :=
  if hc_closing h || hc_stop_reconnect h || negb (bool_decide (hc_state h = Reconnecting)) then
    Some (set_supervisor (Some SupWaiting) h)
  else
    match reconnect_once h with
    | None => None
    | Some (Ok _, h) =>
        let h := set_state Connected h in
        let h := set_lifecycle (invoke_reconnected (hc_connection_id h) (hc_lifecycle h)) h in
        Some (set_supervisor (Some SupWaiting) h)
    | Some (Err error, h) =>
        let retry_reason := error_text error in
        match op_reconnect_policy options with
        | None => Some h
        | Some policy =>
            match policy {| rc_elapsed := now - started; rc_previous_retry_count := attempt;
                            rc_retry_reason := retry_reason |} with
            | None => Some (abandon (Some retry_reason) h)
            | Some _ => Some (set_supervisor (Some (SupSleeping (S attempt) started retry_reason)) h)
            end
        end
    end.

(** The branch of the stop signal. *)
Definition supervisor_stopped (h : hub) : hub :=
  if hc_stop_reconnect h then set_supervisor (Some SupEnded) h else h.

(** The branch of a channel that ended. *)
Definition supervisor_channel_ended (h : hub) : hub := set_supervisor (Some SupEnded) h.

(** ** The system: calls of [start] and [close], the supervisor, the lock *)

(** Where a call is. *)
Inductive Call : Type :=
| StartChecked
| StartLock
| StartConnected (r : result Error unit)
| StartDone (r : result Error unit)
| CloseChecked (c : CloseBegin)
| CloseLock
| CloseWaiting
| CloseDone (r : result Error unit).

(** [sys_lock] is the call that holds [connect_operation]. *)
Record System := {
  sys_hub : hub;
  sys_lock : option nat;
  sys_calls : list Call
}.

Definition put (h : hub) (lock : option nat) (i : nat) (c : Call) (s : System) : System :=
  {| sys_hub := h; sys_lock := lock; sys_calls := <[i := c]> (sys_calls s) |}.

(** [notify_waiters]: the calls of [close] that wait return. *)
Definition notify (c : Call) : Call :=
  match c with CloseWaiting => CloseDone (Ok tt) | c => c end.

(** The call [i] ends and gives the lock back. *)
Definition finish (h : hub) (i : nat) (c : Call) (notified : bool) (s : System) : System :=
  {| sys_hub := h; sys_lock := None;
     sys_calls := (if notified then map notify else id) (<[i := c]> (sys_calls s)) |}.

(** A new call reads the state. *)
Definition call_start (s : System) : System :=
  {| sys_hub := sys_hub s; sys_lock := sys_lock s;
     sys_calls := sys_calls s ++ [match start_check (sys_hub s) with
                                  | Ok _ => StartChecked
                                  | Err e => StartDone (Err e)
                                  end] |}.

Definition call_close (s : System) : System :=
  {| sys_hub := sys_hub s; sys_lock := sys_lock s;
     sys_calls := sys_calls s ++ [CloseChecked (close_check (sys_hub s))] |}.

(** The call [i] goes on to the next place where it waits; [None] while it cannot. *)
Definition call_step (stopped : option (NegState W)) (i : nat) (s : System) : option System :=
  let h := sys_hub s in
  match sys_calls s !! i with
  | Some StartChecked => Some (put (start_begin h) (sys_lock s) i StartLock s)
  | Some StartLock =>
      match sys_lock s with
      | Some _ => None
      | None =>
          match start_connect stopped h with
          | None => None
          | Some (inl e, h) => Some (put h None i (StartDone (Err e)) s)
          | Some (inr r, h) => Some (put h (Some i) i (StartConnected r) s)
          end
      end
  | Some (StartConnected r) =>
      let '(r, notified, h) := start_finish r h in Some (finish h i (StartDone r) notified s)
  | Some (CloseChecked CloseReturns) => Some (put h (sys_lock s) i (CloseDone (Ok tt)) s)
  | Some (CloseChecked CloseWaits) => Some (put h (sys_lock s) i CloseWaiting s)
  | Some (CloseChecked CloseProceeds) => Some (put (close_begin h) (sys_lock s) i CloseLock s)
  | Some CloseLock =>
      match sys_lock s with
      | Some _ => None
      | None =>
          let '(r, notified, h) := close_locked h in Some (finish h i (CloseDone r) notified s)
      end
  | Some CloseWaiting | Some (StartDone _) | Some (CloseDone _) | None => None
  end.

Definition on_hub (f : hub -> hub) (s : System) : System :=
  {| sys_hub := f (sys_hub s); sys_lock := sys_lock s; sys_calls := sys_calls s |}.

(** What can happen.  [sys_user]: calls of hub methods, dispatching and registrations change
    other parts of the state; a callback may be registered at any time. *)
Inductive system_step : System -> System -> Prop :=
| sys_call_start s : system_step s (call_start s)
| sys_call_close s : system_step s (call_close s)
| sys_call_step stopped i s s' : call_step stopped i s = Some s' -> system_step s s'
| sys_closed info now s :
    hc_supervisor (sys_hub s) = Some SupWaiting ->
    system_step s (on_hub (supervisor_closed info now) s)
| sys_attempt now attempt started reason s h :
    hc_supervisor (sys_hub s) = Some (SupSleeping attempt started reason) ->
    supervisor_attempt now attempt started (sys_hub s) = Some h ->
    system_step s (on_hub (fun _ => h) s)
| sys_stopped s :
    hc_supervisor (sys_hub s) = Some SupWaiting ->
    system_step s (on_hub supervisor_stopped s)
| sys_channel_ended s :
    hc_supervisor (sys_hub s) = Some SupWaiting ->
    system_step s (on_hub supervisor_channel_ended s)
| sys_invoke method arguments s :
    system_step s (on_hub (fun h => (invoke options method arguments h).2) s)
| sys_stream method arguments s :
    system_step s (on_hub (fun h => (stream options method arguments h).2) s)
| sys_send method arguments s :
    system_step s (on_hub (fun h => (Client.send options method arguments h).2) s)
| sys_cancel_stream id s :
    system_step s (on_hub (fun h => (cancel_stream options id h).2) s)
| sys_stream_drop id s :
    system_step s (on_hub (stream_drop options id) s)
| sys_on_close c s :
    system_step s (on_hub (fun h => set_lifecycle (register_closed c (hc_lifecycle h)) h) s).

Definition system_new (w : W) : System :=
  {| sys_hub := hub_new w; sys_lock := None; sys_calls := [] |}.

(** ** What the operations leave alone *)

(** The part of the state that calls of hub methods do not touch. *)
Definition same_lifecycle (h h' : hub) : Prop :=
  hc_state h' = hc_state h /\ hc_supervisor h' = hc_supervisor h /\
  hc_lifecycle h' = hc_lifecycle h /\ hc_closing h' = hc_closing h /\
  hc_stop_reconnect h' = hc_stop_reconnect h.

Lemma same_refl h : same_lifecycle h h.
Proof. done. Qed.

Ltac same_lifecycle := repeat (case_match; simplify_eq/=; try (unfold same_lifecycle; by split_and!)).

Lemma send_through_same m h : same_lifecycle h (send_through options m h).2.
Proof. unfold send_through. same_lifecycle. Qed.

Lemma send_direct_same m h : same_lifecycle h (send_direct options m h).2.
Proof. unfold send_direct. same_lifecycle. Qed.

Lemma prepare_same arguments h : same_lifecycle h (prepare arguments h).2.
Proof. unfold prepare. same_lifecycle. Qed.

Lemma fresh_id_same h : same_lifecycle h (fresh_id h).2.
Proof. unfold fresh_id. same_lifecycle. Qed.

#[local] Instance same_preorder : PreOrder same_lifecycle.
Proof.
  split; [intros h; done|]. intros h1 h2 h3 (?&?&?&?&?) (?&?&?&?&?). split_and!; congruence.
Qed.

Lemma send_or_forget_same id m streams ch h : same_lifecycle h (send_or_forget options id m streams ch h).2.
Proof.
  unfold send_or_forget. pose proof (send_through_same m h) as H.
  destruct (send_through options m h) as [[] h']; exact H.
Qed.

Lemma invoke_same method arguments h : same_lifecycle h (invoke options method arguments h).2.
Proof.
  unfold invoke. pose proof (prepare_same arguments h) as H1.
  destruct (prepare arguments h) as [[[[values ids] streams]|e] h1]; [|done]. etrans; [exact H1|].
  pose proof (fresh_id_same h1) as H2. destruct (fresh_id h1) as [[id|e] h2]; [|done].
  etrans; [exact H2|]. destruct (register_pending id (hc_bus h2)) as [ch b].
  etrans; [|apply send_or_forget_same]. done.
Qed.

Lemma stream_same method arguments h : same_lifecycle h (stream options method arguments h).2.
Proof.
  unfold stream. pose proof (prepare_same arguments h) as H1.
  destruct (prepare arguments h) as [[[[values ids] streams]|e] h1]; [|done]. etrans; [exact H1|].
  pose proof (fresh_id_same h1) as H2. destruct (fresh_id h1) as [[id|e] h2]; [|done].
  etrans; [exact H2|]. destruct (register_stream id (hc_bus h2)) as [ch b].
  set (m := HStreamInvocation _).
  pose proof (send_or_forget_same id m streams ch (set_bus b h2)) as H3.
  destruct (send_or_forget options id m streams ch (set_bus b h2)). exact H3.
Qed.

Lemma send_same method arguments h : same_lifecycle h (Client.send options method arguments h).2.
Proof.
  unfold Client.send. pose proof (prepare_same arguments h) as H1.
  destruct (prepare arguments h) as [[[[values ids] streams]|e] h1]; [|done]. etrans; [exact H1|].
  set (m := HInvocation _). pose proof (send_through_same m h1) as H2.
  destruct (send_through options m h1) as [[] h2]; exact H2.
Qed.

Lemma cancel_stream_same id h : same_lifecycle h (cancel_stream options id h).2.
Proof.
  unfold cancel_stream. destruct (require_connected h); [|done].
  exact (send_direct_same (cancel_message id) (set_bus _ h)).
Qed.

Lemma stream_drop_same id h : same_lifecycle h (stream_drop options id h).
Proof.
  unfold stream_drop, stream_cancel. destruct (remove_pending id (hc_bus h)) as [[] b]; [|done].
  exact (send_direct_same (cancel_message id) (set_bus b h)).
Qed.

Lemma on_buffer_same f i h : same_lifecycle h (on_buffer f i h).
Proof. by destruct i. Qed.

Lemma use_connection_buffer_same c h : same_lifecycle h (use_connection_buffer c h).
Proof.
  unfold use_connection_buffer. etrans; [|apply on_buffer_same]. by destruct (co_resume c).
Qed.

Lemma start_runtime_same c h : same_lifecycle h (start_runtime c h).2.
Proof. unfold start_runtime. same_lifecycle. Qed.

Lemma connect_runtime_same stopped h r h' :
  connect_runtime stopped h = Some (r, h') -> same_lifecycle h h'.
Proof.
  unfold connect_runtime. destruct stopped; [by intros [= <- <-]|].
  destruct (connect options (hc_net h)) as [[[c|e] net]|]; [|by intros [= <- <-]|done].
  intros [= Hs]. pose proof (start_runtime_same c (set_identity (co_connection_id c)
    (remaining (co_handshake_result c)) (co_initial_messages c)
    (use_connection_buffer c (set_net net h)))) as H.
  rewrite Hs in H. etrans; [|exact H]. exact (use_connection_buffer_same c (set_net net h)).
Qed.

Lemma reconnect_once_same h r h' : reconnect_once h = Some (r, h') -> same_lifecycle h h'.
Proof.
  unfold reconnect_once.
  destruct (connect options (hc_net h)) as [[[c|e] net]|]; [|by intros [= <- <-]|done].
  set (h1 := use_connection_buffer c (set_net net h)).
  intros [= Hs]. pose proof (start_runtime_same c (set_identity (co_connection_id c)
    (hc_remaining_handshake_data h1) (hc_initial_messages h1) h1)) as H.
  rewrite Hs in H. etrans; [|exact H]. exact (use_connection_buffer_same c (set_net net h)).
Qed.

Lemma resume_transport_same target i h : same_lifecycle h (resume_transport target i h).2.
Proof. unfold resume_transport. same_lifecycle. Qed.

(** Connecting always returns. *)
Lemma connect_runtime_total stopped h : connect_runtime stopped h <> None.
Proof.
  unfold connect_runtime. destruct stopped; [done|].
  destruct (connect_total options (hc_net h)) as (r & net & ->). by destruct r.
Qed.

(** A shutdown: the supervisor is gone, pending calls are cancelled; when the transport closes,
    everything is reset. *)
Lemma shutdown_spec reason h :
  let '(r, notified, h') := shutdown_active_connection reason h in
  hc_supervisor h' = None /\ pending (hc_bus h') = ∅ /\ hc_runtime h' = None /\
  hc_closing h' = hc_closing h /\
  match r with
  | Ok _ => notified = true /\ hc_state h' = Disconnected /\ hc_message_buffer h' = None /\
      hc_resume h' = None /\ hc_connection_id h' = None /\
      hc_lifecycle h' = invoke_closed reason (hc_lifecycle h)
  | Err _ => notified = false /\ hc_state h' = hc_state h /\ hc_lifecycle h' = hc_lifecycle h
  end.
Proof.
  destruct h as [st id [rt|] bus bufs [i|] res cl stop sup lc rest init up net];
    unfold shutdown_active_connection; cbn;
    repeat (case_match; simplify_eq/=); by split_and!.
Qed.

End lifecycle.
