(* ===== verification/Closing.v ===== *)
(** * What callers of [start] and [close] can rely on

    Invariants of [system_step]: how often the closed callbacks run, and what becomes of the
    connection after a close whose transport did not close cleanly. *)

From Stdlib Require Import ZArith Lia String.
From stdpp Require Import base list strings gmap relations.
From S2P Require Import Prelude Framing Utf8 Errors Values Arguments Message JsonProtocol.
From S2P Require Import MessageBuffer Link Bus Dispatch Handshake Negotiate Retry Connection.
From S2P Require Import Runtime Client Lifecycle.

Section closing.
Context `{UL : UrlLib} `{HC : HttpClient W} `{SO : !Sockets W} `{HT : HandshakeText}
  (options : ConnectionOptions W).

Local Abbreviation hub := (HubConnection W).

(** ** The closed callbacks *)

Definition is_closed (e : LifecycleEvent) : bool := match e with OnClosed _ => true | _ => false end.

(** The calls of the closed callback [c], and how often it is registered. *)
Definition closed_calls (c : nat) (l : LifecycleCallbacks) : nat :=
  length (filter (fun e => fst e = c /\ is_closed (snd e) = true)
    (lc_called l)).
Definition registered (c : nat) (l : LifecycleCallbacks) : nat :=
  length (filter (fun d => d = c) (lc_closed l)).

(** The calls of [start] that succeeded. *)
Definition start_ok (c : Call) : bool := match c with StartDone (Ok _) => true | _ => false end.
Definition starts (calls : list Call) : nat := length (filter (fun c => start_ok c = true) calls).

Lemma starts_app l k : starts (l ++ k) = (starts l + starts k)%nat.
Proof. unfold starts. by rewrite filter_app, length_app. Qed.

Lemma starts_insert i c c' l : l !! i = Some c -> start_ok c = false ->
  starts (<[i := c']> l) = (starts l + if start_ok c' then 1 else 0)%nat.
Proof.
  intros Hi Hc. rewrite <- (take_drop_middle l i c) at 2 by done.
  rewrite insert_take_drop by by eapply lookup_lt_Some.
  rewrite !starts_app. unfold starts. rewrite !filter_cons.
  rewrite (decide_False (P := start_ok c = true)) by congruence.
  destruct (start_ok c'); case_decide; try done; cbn; lia.
Qed.

Lemma starts_notify l : starts (map notify l) = starts l.
Proof.
  unfold starts. induction l as [|c l IH]; [done|]. cbn [map]. rewrite !filter_cons.
  replace (start_ok (notify c)) with (start_ok c) by by destruct c.
  case_decide; cbn; by rewrite IH.
Qed.

(** What the rest of the state needs to know about the callbacks. *)
Record lifecycle_ok (n : nat) (l : LifecycleCallbacks) : Prop := {
  lo_calls : forall c, (closed_calls c l + (if connection_started l then registered c l else 0) <=
    n * registered c l)%nat;
  lo_started : connection_started l = true -> (1 <= n)%nat
}.

Lemma filter_map_pair (c : nat) e l :
  length (filter (fun p => fst p = c /\ is_closed (snd p) = true)
    (map (fun d => (d, e)) l)) =
  match e with OnClosed _ => length (filter (fun d => d = c) l) | _ => 0%nat end.
Proof.
  induction l as [|d l IH]; [by destruct e|]. cbn [map]. rewrite !filter_cons.
  destruct e; cbn [is_closed fst snd] in *; repeat case_decide; cbn; rewrite ?IH; naive_solver.
Qed.

Lemma call_all_calls c cs e st l :
  closed_calls c (call_all cs e st l) =
    (closed_calls c l + match e with OnClosed _ => length (filter (fun d => d = c) cs) | _ => 0 end)%nat.
Proof. unfold closed_calls. cbn. by rewrite filter_app, length_app, filter_map_pair. Qed.

Lemma invoke_closed_ok n reason l : lifecycle_ok n l -> lifecycle_ok n (invoke_closed reason l).
Proof.
  intros [Hc Hs]. unfold invoke_closed. destruct (connection_started l) eqn:Hst; [|by split; rewrite ?Hst].
  split; [|done]. intros c. specialize (Hc c). rewrite call_all_calls. cbn.
  unfold registered in *. cbn. lia.
Qed.

Lemma other_event_ok n cs e l : (forall r, e <> OnClosed r) ->
  lifecycle_ok n l -> lifecycle_ok n (call_all cs e (connection_started l) l).
Proof.
  intros He [Hc Hs]. split; [|done]. intros c. specialize (Hc c). rewrite call_all_calls.
  destruct e; [naive_solver| |]; unfold registered in *; cbn; lia.
Qed.

Lemma mark_started_ok n l : lifecycle_ok n l -> lifecycle_ok (S n) (mark_started l).
Proof.
  intros [Hc Hs]. split; [|cbn; lia]. intros c. specialize (Hc c).
  unfold closed_calls, registered in *. cbn in *. destruct (connection_started l); lia.
Qed.

Lemma register_closed_ok n d l : lifecycle_ok n l -> lifecycle_ok n (register_closed d l).
Proof.
  intros [Hc Hs]. split; [|done]. intros c. specialize (Hc c). unfold closed_calls, registered in *.
  cbn. rewrite filter_app, length_app. destruct (connection_started l); [specialize (Hs eq_refl); nia|nia].
Qed.

Lemma abandon_ok n reason (h : hub) : lifecycle_ok n (hc_lifecycle h) ->
  lifecycle_ok n (hc_lifecycle (abandon reason h)).
Proof. apply invoke_closed_ok. Qed.

Lemma begin_reconnect_ok n info now (h : hub) : lifecycle_ok n (hc_lifecycle h) ->
  lifecycle_ok n (hc_lifecycle (begin_reconnect options info now h)).
Proof.
  intros Hl. unfold begin_reconnect. destruct (op_reconnect_policy options) as [policy|];
    [|by apply abandon_ok]. case_decide; [by apply abandon_ok|].
  set (h1 := match hc_runtime _ with Some _ => _ | None => _ end).
  assert (Hl1 : hc_lifecycle h1 = hc_lifecycle h).
  { subst h1. destruct (hc_message_buffer _); cbn; by destruct (hc_runtime h). }
  destruct (policy _); [|apply abandon_ok; by rewrite Hl1]. cbn.
  assert (lifecycle_ok n (invoke_reconnecting (ci_error info) (hc_lifecycle h1))).
  { rewrite Hl1. by apply other_event_ok. }
  by destruct (hc_closing h1).
Qed.

Lemma supervisor_closed_ok n info now (h : hub) : lifecycle_ok n (hc_lifecycle h) ->
  lifecycle_ok n (hc_lifecycle (supervisor_closed options info now h)).
Proof.
  intros Hl. unfold supervisor_closed. destruct (hc_closing h); [done|].
  destruct (ci_transport_dropped info); [|by apply begin_reconnect_ok].
  destruct (hc_resume h) as [target|]; [|by apply begin_reconnect_ok].
  destruct (hc_message_buffer h) as [i|]; [|by apply begin_reconnect_ok].
  pose proof (resume_transport_same options target i h) as (_ & _ & Hs & _).
  destruct (resume_transport options target i h) as [[] h']; cbn in *;
    [by rewrite Hs|apply begin_reconnect_ok; by rewrite Hs].
Qed.

Lemma supervisor_attempt_ok n now attempt started (h h' : hub) : lifecycle_ok n (hc_lifecycle h) ->
  supervisor_attempt options now attempt started h = Some h' -> lifecycle_ok n (hc_lifecycle h').
Proof.
  intros Hl. unfold supervisor_attempt. destruct (_ || _); [by intros [= <-]|].
  destruct (reconnect_once options h) as [[r h1]|] eqn:Hr; [|done].
  apply reconnect_once_same in Hr as (_ & _ & Hs & _). rewrite <- Hs in Hl.
  destruct r; [intros [= <-]; by apply other_event_ok|].
  destruct (op_reconnect_policy options) as [policy|]; [|by intros [= <-]].
  destruct (policy _); intros [= <-]; [done|by apply abandon_ok].
Qed.

Lemma shutdown_ok n reason (h : hub) : lifecycle_ok n (hc_lifecycle h) ->
  lifecycle_ok n (hc_lifecycle (shutdown_active_connection options reason h).2).
Proof.
  intros Hl. pose proof (shutdown_spec options reason h) as H.
  destruct (shutdown_active_connection options reason h) as [[[] nt] h']; cbn;
    destruct H as (_ & _ & _ & _ & H).
  - destruct H as (_ & _ & _ & _ & _ & ->). by apply invoke_closed_ok.
  - destruct H as (_ & _ & ->). done.
Qed.

Definition system_ok (s : System (W := W)) : Prop :=
  lifecycle_ok (starts (sys_calls s)) (hc_lifecycle (sys_hub s)).

Lemma finish_starts (h : hub) i c c' nt s : sys_calls s !! i = Some c -> start_ok c = false ->
  starts (sys_calls (finish h i c' nt s)) = (starts (sys_calls s) + if start_ok c' then 1 else 0)%nat.
Proof.
  intros Hi Hc. rewrite <- (starts_insert i c c' (sys_calls s) Hi Hc).
  destruct nt; [apply starts_notify|done].
Qed.

Lemma start_finish_ok n r (h : hub) : lifecycle_ok n (hc_lifecycle h) ->
  let '(r', nt, h') := start_finish options r h in
  lifecycle_ok (n + if start_ok (StartDone r') then 1 else 0) (hc_lifecycle h').
Proof.
  intros Hl. unfold start_finish. destruct r as [|e]; [|by rewrite Nat.add_0_r].
  destruct (hc_closing h).
  - pose proof (shutdown_ok n None h Hl) as H.
    destruct (shutdown_active_connection options None h) as [[[] nt] h']; by rewrite Nat.add_0_r.
  - rewrite Nat.add_1_r. by apply mark_started_ok.
Qed.

Lemma put_ok (h : hub) lock i c c' s : sys_calls s !! i = Some c -> start_ok c = false ->
  start_ok c' = false -> lifecycle_ok (starts (sys_calls s)) (hc_lifecycle h) ->
  system_ok (put h lock i c' s).
Proof.
  intros Hi Hc Hc' Hl. unfold system_ok, put. cbn [sys_calls sys_hub].
  by rewrite (starts_insert i c), Hc', Nat.add_0_r.
Qed.

Lemma call_step_ok stopped i s s' : system_ok s -> call_step options stopped i s = Some s' ->
  system_ok s'.
Proof.
  intros Hok. unfold call_step. destruct (sys_calls s !! i) as [c|] eqn:Hi; [|done].
  destruct c as [| |r|r|[]| | |r]; try done.
  - intros [= <-]. by eapply put_ok.
  - destruct (sys_lock s); [done|]. unfold start_connect. destruct (hc_closing (sys_hub s)).
    { intros [= <-]. by eapply put_ok. }
    destruct (connect_runtime options stopped (sys_hub s)) as [[r h]|] eqn:Hc; [|done].
    intros [= <-]. eapply put_ok; [done|done|done|].
    apply connect_runtime_same in Hc as (_ & _ & -> & _). done.
  - pose proof (start_finish_ok _ r (sys_hub s) Hok) as H.
    destruct (start_finish options r (sys_hub s)) as [[r' nt] h]. intros [= <-].
    unfold system_ok. by rewrite (finish_starts _ _ _ _ _ _ Hi).
  - intros [= <-]. by eapply put_ok.
  - intros [= <-]. by eapply put_ok.
  - intros [= <-]. by eapply put_ok.
  - destruct (sys_lock s); [done|]. unfold close_locked.
    pose proof (shutdown_ok _ None (sys_hub s) Hok) as H.
    destruct (shutdown_active_connection options None (sys_hub s)) as [[r nt] h]. intros [= <-].
    unfold system_ok. by rewrite (finish_starts _ _ _ _ _ _ Hi), Nat.add_0_r.
Qed.

Lemma system_step_ok s s' : system_ok s -> system_step options s s' -> system_ok s'.
Proof.
  assert (Hsame : forall s h, system_ok s -> same_lifecycle (sys_hub s) h -> system_ok (on_hub (fun _ => h) s)).
  { intros s0 h Hok (_ & _ & Hl & _). unfold system_ok. cbn. by rewrite Hl. }
  intros Hok Hstep. destruct Hstep.
  - unfold system_ok, call_start. cbn [sys_calls sys_hub]. rewrite starts_app.
    destruct (start_check (sys_hub s)); by rewrite Nat.add_0_r.
  - unfold system_ok, call_close. cbn [sys_calls sys_hub]. by rewrite starts_app, Nat.add_0_r.
  - by eapply call_step_ok.
  - by apply supervisor_closed_ok.
  - by eapply supervisor_attempt_ok.
  - unfold system_ok. cbn. unfold supervisor_stopped. by destruct (hc_stop_reconnect _).
  - done.
  - apply Hsame; [done|apply invoke_same].
  - apply Hsame; [done|apply stream_same].
  - apply Hsame; [done|apply send_same].
  - apply Hsame; [done|apply cancel_stream_same].
  - apply Hsame; [done|apply stream_drop_same].
  - by apply register_closed_ok.
Qed.

(** C21: whatever calls of [start], [close] and of hub methods overlap with the supervisor's work,
    a callback registered once with [on_close] has run at most once for each call of [start] that
    succeeded; in particular never before one did. *)
Theorem closed_once_per_start (w : W) (s : System (W := W)) (c : nat) :
  rtc (system_step options) (system_new w) s ->
  (closed_calls c (hc_lifecycle (sys_hub s)) <=
    starts (sys_calls s) * registered c (hc_lifecycle (sys_hub s)))%nat.
Proof.
  intros Hr. assert (Hok : system_ok s).
  { assert (Hnew : system_ok (system_new w)) by (split; cbn; [intros; lia|done]).
    revert Hnew. induction Hr as [|? ? ? Hstep _ IH]; [done|]. intros Hok.
    by eapply IH, system_step_ok. }
  destruct Hok as [Hc _]. specialize (Hc c). lia.
Qed.

(** ** A close that fails *)

(** No call is under way that could still change the state. *)
Definition idle (c : Call) : bool :=
  match c with
  | StartDone _ | CloseDone _ | CloseWaiting | CloseChecked CloseWaits => true
  | _ => false
  end.

(** The connection is stuck: closing, with nobody closing it. *)
Record wedged (s : System (W := W)) : Prop := {
  we_state : hc_state (sys_hub s) = Disconnecting;
  we_supervisor : hc_supervisor (sys_hub s) = None;
  we_calls : Forall (fun c => idle c = true) (sys_calls s)
}.

(** What becomes of a call made on a stuck connection. *)
Definition hopeless (c : Call) : bool :=
  match c with
  | StartDone (Err _) | CloseWaiting | CloseChecked CloseWaits => true
  | _ => false
  end.

Lemma wedged_step s s' n : wedged s -> Forall (fun c => hopeless c = true) (drop n (sys_calls s)) ->
  (n <= length (sys_calls s))%nat -> system_step options s s' ->
  wedged s' /\ Forall (fun c => hopeless c = true) (drop n (sys_calls s')) /\
  (n <= length (sys_calls s'))%nat.
Proof.
  intros [Hst Hsup Hcalls] Hnew Hn Hstep.
  assert (Hsame : forall f, same_lifecycle (sys_hub s) (f (sys_hub s)) ->
    wedged (on_hub f s) /\ Forall (fun c => hopeless c = true) (drop n (sys_calls (on_hub f s))) /\
    (n <= length (sys_calls (on_hub f s)))%nat).
  { intros f (H1 & H2 & _). split_and!; [split; cbn; congruence|done|done]. }
  destruct Hstep as [s|s|stopped i s s' Hcs|info now s Hw|now a st re s h Hw _|s Hw|s Hw| | | | | |];
    try (by rewrite Hsup in Hw);
    try (by apply Hsame; first [apply invoke_same|apply stream_same|apply send_same
      |apply cancel_stream_same|apply stream_drop_same]).
  - unfold call_start, start_check. rewrite decide_False by (rewrite Hst; done).
    split_and!; [split; cbn; try done; apply Forall_app; split; [done|by constructor]| |cbn; rewrite length_app; lia].
    cbn. rewrite drop_app_le by done. apply Forall_app. split; [done|by constructor].
  - unfold call_close, close_check. rewrite Hst.
    split_and!; [split; cbn; try done; apply Forall_app; split; [done|by constructor]| |cbn; rewrite length_app; lia].
    cbn. rewrite drop_app_le by done. apply Forall_app. split; [done|by constructor].
  - unfold call_step in Hcs. destruct (sys_calls s !! i) as [c|] eqn:Hi; [|done].
    pose proof (proj1 (Forall_lookup _ _) Hcalls i c Hi) as Hc.
    destruct c as [| | | |[]| | |]; try done. injection Hcs as <-.
    split_and!; [split; cbn; try done; by apply Forall_insert| |cbn; by rewrite length_insert].
    cbn. destruct (decide (i < n)%nat).
    + by rewrite drop_insert_lt.
    + rewrite drop_insert_ge by lia. by apply Forall_insert.
  - split_and!; [by split|done|done].
Qed.

(** C12: a close whose transport does not close cleanly wedges the connection: the call returns
    the error, and from then on, whatever happens, the state stays [Disconnecting], every later
    call of [start] fails and every later call of [close] waits without end. *)
Theorem failed_close_wedges (s s1 s2 : System (W := W)) (i : nat) (e : Error) :
  hc_state (sys_hub s) = Disconnecting -> sys_lock s = None ->
  sys_calls s !! i = Some CloseLock ->
  (forall j c, sys_calls s !! j = Some c -> j = i \/ idle c = true) ->
  (close_locked options (sys_hub s)).1.1 = Err e ->
  call_step options None i s = Some s1 -> rtc (system_step options) s1 s2 ->
  sys_calls s1 !! i = Some (CloseDone (Err e)) /\
  hc_state (sys_hub s2) = Disconnecting /\
  Forall (fun c => hopeless c = true) (drop (length (sys_calls s1)) (sys_calls s2)).
Proof.
  intros Hst Hlock Hi Hidle He Hstep Hr. unfold call_step in Hstep. rewrite Hi, Hlock in Hstep.
  unfold close_locked in *. pose proof (shutdown_spec options None (sys_hub s)) as Hs.
  destruct (shutdown_active_connection options None (sys_hub s)) as [[r nt] h]. cbn in He. subst r.
  destruct Hs as (Hsup & _ & _ & _ & Hnt & Hst' & _). subst nt. injection Hstep as <-.
  assert (Hw : wedged (finish h i (CloseDone (Err e)) false s)).
  { split; [cbn; congruence|done|]. cbn. apply Forall_lookup. intros j c.
    rewrite list_lookup_insert. case_decide as Hj; [naive_solver|]. intros Hc.
    destruct (Hidle j c Hc) as [->|]; [|done]. apply lookup_lt_Some in Hc. tauto. }
  split; [cbn; by apply list_lookup_insert_eq; eapply lookup_lt_Some|].
  set (n := length (sys_calls (finish h i (CloseDone (Err e)) false s))).
  assert (Hdrop : Forall (fun c => hopeless c = true)
    (drop n (sys_calls (finish h i (CloseDone (Err e)) false s)))).
  { unfold n. by rewrite drop_all. }
  assert (Hn : (n <= length (sys_calls (finish h i (CloseDone (Err e)) false s)))%nat) by done.
  clearbody n. clear Hi Hst Hlock Hidle Hst' Hsup.
  induction Hr as [x|x y z Hxy _ IH]; [by destruct Hw|].
  destruct (wedged_step x y n Hw Hdrop Hn Hxy) as (? & ? & ?). by apply IH.
Qed.

(** ** A close that misses the notification *)

(** The connection is closed and nobody can notify anybody: every call has ended, will end by
    itself, or waits. *)
Definition settled (c : Call) : bool := idle c || match c with CloseChecked CloseReturns => true | _ => false end.

(** The call read [Disconnecting], and waits or is about to. *)
Definition waits (c : Call) : bool := match c with CloseChecked CloseWaits | CloseWaiting => true | _ => false end.

Record forgotten (j : nat) (s : System (W := W)) : Prop := {
  fo_state : hc_state (sys_hub s) = Disconnected;
  fo_supervisor : hc_supervisor (sys_hub s) = None;
  fo_calls : Forall (fun c => settled c = true) (sys_calls s);
  fo_waits : exists c, sys_calls s !! j = Some c /\ waits c = true
}.

(** Everything that can happen, except a new call of [start]. *)
Definition step_without_start (s s' : System (W := W)) : Prop :=
  system_step options s s' /\ s' <> call_start s.

Lemma forgotten_new j s c : forgotten j s -> settled c = true ->
  forgotten j {| sys_hub := sys_hub s; sys_lock := sys_lock s; sys_calls := sys_calls s ++ [c] |}.
Proof.
  intros [Hst Hsup Hcalls (d & Hj & Hd)] Hc. split; [done|done| |].
  - cbn. apply Forall_app. split; [done|by constructor].
  - exists d. split; [|done]. cbn. by apply lookup_app_l_Some.
Qed.

Lemma forgotten_put j s lock i c c' : forgotten j s -> sys_calls s !! i = Some c -> settled c' = true ->
  (waits c = true -> waits c' = true) -> forgotten j (put (sys_hub s) lock i c' s).
Proof.
  intros [Hst Hsup Hcalls (d & Hj & Hd)] Hi Hc Hw. split; [done|done|by apply Forall_insert|].
  cbn. destruct (decide (i = j)) as [->|Hne].
  - exists c'. rewrite list_lookup_insert_eq by by eapply lookup_lt_Some. naive_solver.
  - exists d. by rewrite list_lookup_insert_ne.
Qed.

Lemma forgotten_step j s s' : forgotten j s -> step_without_start s s' -> forgotten j s'.
Proof.
  intros Hf [Hstep Hns]. pose proof Hf as [Hst Hsup Hcalls Hj].
  assert (Hsame : forall f, same_lifecycle (sys_hub s) (f (sys_hub s)) -> forgotten j (on_hub f s)).
  { intros f (H1 & H2 & _). split; cbn; [congruence..|done|done]. }
  destruct Hstep as [s|s|stopped i s s' Hcs|info now s Hw|now a st re s h Hw _|s Hw|s Hw| | | | | |];
    try (by rewrite Hsup in Hw);
    try (by apply Hsame; first [apply invoke_same|apply stream_same|apply send_same
      |apply cancel_stream_same|apply stream_drop_same]).
  - done.
  - unfold call_close, close_check. rewrite Hst. by apply forgotten_new.
  - unfold call_step in Hcs. destruct (sys_calls s !! i) as [c|] eqn:Hi; [|done].
    pose proof (proj1 (Forall_lookup _ _) Hcalls i c Hi) as Hc.
    destruct c as [| | | |[]| | |]; try done; injection Hcs as <-; by eapply forgotten_put.
  - by split.
Qed.

(** A call of [close] can miss the end of another one and then waits without end: it read the
    state [Disconnecting] while the other call was closing the connection; the other call ends,
    with success, and notifies those who wait before this call begins to wait.  The connection is
    [Disconnected], and whatever happens from then on, short of a new [start], this call does not
    return. *)
Theorem close_misses_notification (s s1 s2 : System (W := W)) (i j : nat) :
  sys_lock s = None -> sys_calls s !! i = Some CloseLock ->
  sys_calls s !! j = Some (CloseChecked CloseWaits) ->
  (forall k c, sys_calls s !! k = Some c -> k = i \/ idle c = true) ->
  (close_locked options (sys_hub s)).1.1 = Ok tt ->
  call_step options None i s = Some s1 -> rtc step_without_start s1 s2 ->
  sys_calls s1 !! i = Some (CloseDone (Ok tt)) /\ hc_state (sys_hub s2) = Disconnected /\
  exists c, sys_calls s2 !! j = Some c /\ waits c = true.
Proof.
  intros Hlock Hi Hj Hidle Hok Hstep Hr. unfold call_step in Hstep. rewrite Hi, Hlock in Hstep.
  unfold close_locked in *. pose proof (shutdown_spec options None (sys_hub s)) as Hs.
  destruct (shutdown_active_connection options None (sys_hub s)) as [[r nt] h]. cbn in Hok. subst r.
  destruct Hs as (Hsup & _ & _ & _ & Hnt & Hst & _). subst nt. injection Hstep as <-.
  assert (Hij : i <> j) by (intros ->; congruence).
  assert (Hf : forgotten j (finish h i (CloseDone (Ok tt)) true s)).
  { split; [done|done| |].
    - cbn. apply Forall_map, Forall_lookup. intros k c. rewrite list_lookup_insert.
      case_decide as Hk; [naive_solver|]. intros Hc. destruct (Hidle k c Hc) as [->|Hid].
      + apply lookup_lt_Some in Hc. tauto.
      + unfold settled in *. by destruct c as [| | | |[]| | |].
    - exists (CloseChecked CloseWaits). cbn. by rewrite list_lookup_fmap, list_lookup_insert_ne, Hj. }
  split.
  { cbn. by rewrite list_lookup_fmap, list_lookup_insert_eq by by eapply lookup_lt_Some. }
  enough (forgotten j s2) as [? _ _ ?] by done. clear -Hf Hr.
  induction Hr as [x|x y z Hxy _ IH]; [done|]. eapply IH, forgotten_step; done.
Qed.

End closing.
