(* ===== verification/Reuse.v ===== *)
(** * Invocation ids across runtimes

    [HubRuntime::start] begins a new counter of invocation ids, also when a transport is reopened
    for a connection whose calls are still pending, and the bus finds a call by its id alone.
    The theorems show what that means for the callers. *)

From Stdlib Require Import ZArith Lia String.
From stdpp Require Import base list strings gmap pretty relations.
From S2P Require Import Prelude Framing Utf8 Errors Values Arguments Message JsonProtocol.
From S2P Require Import MessageBuffer Link Bus Dispatch Handshake Negotiate Retry Connection.
From S2P Require Import Runtime Client Lifecycle.

Local Open Scope Z_scope.

Section reuse.
Context `{UL : UrlLib} `{HC : HttpClient W} `{SO : !Sockets W} `{HT : HandshakeText}
  (options : ConnectionOptions W).

Local Abbreviation hub := (HubConnection W).

(** A channel in which nothing arrived yet. *)
Definition waiting_channel (h : hub) (ch : nat) : Prop :=
  channels (hc_bus h) !! ch = Some {| ch_items := []; ch_closed := false |}.

(** What the caller that waits on a channel gets. *)
Definition response_on (h : hub) (ch : nat) : option (result Error json) :=
  channels (hc_bus h) !! ch ≫= invoke_response.

Lemma replace_values values rt :
  replace_streaming_params (map HValue values) rt = (values, [], [], rt).
Proof. induction values as [|v values IH]; cbn; [done|]. by rewrite IH. Qed.

Lemma send_through_bus m (h : hub) : hc_bus (send_through options m h).2 = hc_bus h.
Proof. unfold send_through. repeat case_match; by simplify_eq/=. Qed.

(** The first call on a new runtime has the id [1]. *)
Lemma invoke_first method values (h h' : hub) rt ch :
  hc_runtime h = Some rt -> hr_invocation_id rt = 0 ->
  invoke options method (map HValue values) h = (Ok ch, h') ->
  ch = length (channels (hc_bus h)) /\ hc_bus h' = (register_pending "1" (hc_bus h)).2.
Proof.
  intros Hrt Hid. unfold invoke, prepare, require_connected. rewrite Hrt.
  case_decide; [|done]. rewrite replace_values. unfold fresh_id. cbn [hc_runtime set_runtime].
  unfold next_invocation_id. rewrite Hid. change (pretty (as_i64 (0 + 1))) with "1"%string.
  cbn [register_pending]. unfold send_or_forget. set (m := HInvocation _).
  match goal with |- context [send_through options m ?h0] =>
    pose proof (send_through_bus m h0) as Hb; destruct (send_through options m h0) as [[room|e] h1] end;
    [|done].
  intros [= <- <-]. cbn in *. by rewrite Hb.
Qed.

Lemma resume_transport_ok target i (h h' : hub) : resume_transport options target i h = (Ok tt, h') ->
  hc_bus h' = hc_bus h /\ exists rt, hc_runtime h' = Some rt /\ hr_invocation_id rt = 0.
Proof.
  unfold resume_transport. set (h1 := match hc_runtime _ with Some _ => _ | None => _ end).
  assert (Hb : hc_bus h1 = hc_bus h) by (subst h1; cbn; by destruct (hc_runtime h)).
  clearbody h1. destruct (reopen target options (hc_net h1)) as [[tr|e] net]; [|done].
  unfold runtime_start. destruct (write_message _ HPing) as [ping|e]; [|done]. cbn.
  destruct (resend _ _ _ _ _) as [[r b] w]. intros [= -> <-]. cbn. eauto.
Qed.

Lemma start_runtime_ok c (h h' : hub) : start_runtime options c h = (Ok tt, h') ->
  hc_bus h' = hc_bus h /\ exists rt, hc_runtime h' = Some rt /\ hr_invocation_id rt = 0.
Proof.
  unfold start_runtime, runtime_start. destruct (write_message _ HPing) as [ping|e]; [|done]. cbn.
  destruct (send_initial_ping _ _) as [[[]|e] w].
  - intros [= <-]. cbn. eauto.
  - by destruct (runtime_shutdown _ _ _ _) as [[? ?] ?].
Qed.

Lemma reconnect_once_ok (h h' : hub) : reconnect_once options h = Some (Ok tt, h') ->
  hc_bus h' = hc_bus h /\ exists rt, hc_runtime h' = Some rt /\ hr_invocation_id rt = 0.
Proof.
  unfold reconnect_once. destruct (connect options (hc_net h)) as [[[c|e] net]|]; [|done..].
  intros [= Hs]. apply start_runtime_ok in Hs as [Hb Hrt]. split; [|done].
  rewrite Hb. unfold use_connection_buffer. destruct (co_resume c); cbn; by destruct (hc_message_buffer h).
Qed.

(** C11: after a stateful reconnect the ids start again while the old calls are still pending: a
    call made after the resume takes the id of the first pending call, whose caller is told that
    the call was cancelled, and the server's answer to the first call is delivered to the caller
    of the second. *)
Theorem resume_reuses_invocation_ids (target : ResumeTarget) (i : nat) (h h1 h2 : hub)
    (method : string) (values : list json) (first second : nat) (answer : json) :
  pending (hc_bus h) !! "1"%string = Some (Single first) -> waiting_channel h first ->
  resume_transport options target i h = (Ok tt, h1) ->
  invoke options method (map HValue values) h1 = (Ok second, h2) ->
  let h3 := set_bus (complete_invocation "1" (Ok answer) (hc_bus h2)) h2 in
  response_on h first = None /\ response_on h2 first = Some (Err ECanceled) /\
  response_on h3 second = Some (Ok answer).
Proof.
  intros Hp Hw Hr Hi. apply resume_transport_ok in Hr as [Hb (rt & Hrt & Hid)].
  destruct (invoke_first method values h1 h2 rt second Hrt Hid Hi) as [-> Hb2].
  rewrite Hb in *. cbv zeta. unfold response_on. rewrite Hw. cbn [set_bus hc_bus]. rewrite Hb2.
  unfold waiting_channel in Hw. pose proof (lookup_lt_Some _ _ _ Hw) as Hlt.
  unfold register_pending, insert_pending. rewrite Hp. cbn [snd channel_of].
  split_and!; [done| |].
  - cbn [set_pending channels]. rewrite lookup_app_l by (unfold ch_drop; by rewrite length_alter).
    unfold ch_drop. rewrite list_lookup_alter_eq, Hw. done.
  - unfold complete_invocation. cbn [set_pending pending]. rewrite lookup_insert_eq.
    cbn [set_pending channels channel_of]. unfold ch_send, ch_drop.
    rewrite !list_lookup_alter_eq, lookup_app_r by by rewrite length_alter.
    rewrite length_alter, Nat.sub_diag. done.
Qed.

(** A stream of an earlier connection cancels a call of the new one: after a reconnect the
    ids start again, and dropping a stream that was given the same id before removes the new call
    from the bus, whose caller is told that it was cancelled. *)
Theorem stale_stream_cancels_new_call (h h1 h2 : hub) (method : string) (values : list json)
    (ch : nat) :
  pending (hc_bus h) = ∅ -> reconnect_once options h = Some (Ok tt, h1) ->
  invoke options method (map HValue values) (set_state Connected h1) = (Ok ch, h2) ->
  response_on h2 ch = None /\
  response_on (stream_drop options "1" h2) ch = Some (Err ECanceled).
Proof.
  intros Hp Hr Hi. apply reconnect_once_ok in Hr as [Hb (rt & Hrt & Hid)].
  destruct (invoke_first method values (set_state Connected h1) h2 rt ch Hrt Hid Hi) as [-> Hb2].
  cbn [set_state hc_bus] in *. rewrite Hb in *.
  assert (Hbus : hc_bus h2 = set_pending {["1"%string := Single (length (channels (hc_bus h)))]}
    (channels (hc_bus h) ++ [{| ch_items := []; ch_closed := false |}]) (hc_bus h)).
  { rewrite Hb2. unfold register_pending, insert_pending. by rewrite Hp. }
  unfold response_on. rewrite Hbus. cbn [set_pending channels]. rewrite list_lookup_middle by done.
  split; [done|]. unfold stream_drop, stream_cancel, remove_pending. rewrite Hbus.
  cbn [set_pending pending]. rewrite lookup_singleton_eq. cbn [channel_of].
  unfold send_direct. cbn [set_bus hc_runtime].
  repeat case_match; simplify_eq/=; unfold ch_drop;
    by rewrite list_lookup_alter_eq, list_lookup_middle.
Qed.

End reuse.
