(* ===== verification/Reconnect.v ===== *)
(** * The reconnect loop ([HubConnection::spawn_supervisor] of [src/hub_connection/mod.rs])

    What the supervisor does between losing a connection and having one again, or giving up:
    how many attempts a policy allows, how they end, and what the callbacks are told.  The
    bound on the attempts holds under every interleaving with the rest of the program. *)

From Stdlib Require Import ZArith Lia String.
From stdpp Require Import base list strings gmap pretty relations.
From S2P Require Import Prelude Framing Utf8 Errors Values Arguments Message JsonProtocol.
From S2P Require Import MessageBuffer Link Bus Dispatch Handshake Negotiate Retry Connection.
From S2P Require Import Runtime Client Lifecycle Reuse.

Local Open Scope Z_scope.

Section reconnect.
Context `{UL : UrlLib} `{HC : HttpClient W} `{SO : !Sockets W} `{HT : HandshakeText}
  (options : ConnectionOptions W).

Local Abbreviation hub := (HubConnection W).

(** The supervisor alone: it wakes up at the times [wakes], as long as it sleeps; how many
    attempts it made.  [None]: see [supervisor_attempt]. *)
Fixpoint reconnect_run (wakes : list Z) (h : hub) : option (nat * hub) :=
  match wakes, hc_supervisor h with
  | now :: wakes, Some (SupSleeping attempt started _) =>
      h ← supervisor_attempt options now attempt started h;
      '(n, h) ← reconnect_run wakes h;
      Some (S n, h)
  | _, _ => Some (0%nat, h)
  end.

Lemma reconnect_run_awake wakes h : match hc_supervisor h with Some (SupSleeping _ _ _) => false | _ => true end
  = true -> reconnect_run wakes h = Some (0%nat, h).
Proof. intros Hs. destruct wakes; [done|]. cbn. by destruct (hc_supervisor h) as [[]|]. Qed.

(** The connection that the loop left: a new one, which the callbacks were told of, or none. *)
Definition reconnected (l : LifecycleCallbacks) (h : hub) : Prop :=
  hc_state h = Connected /\ hc_supervisor h = Some SupWaiting /\ (exists rt, hc_runtime h = Some rt) /\
  hc_lifecycle h = invoke_reconnected (hc_connection_id h) l.

Definition abandoned (l : LifecycleCallbacks) (h : hub) : Prop :=
  hc_state h = Disconnected /\ hc_supervisor h = Some SupEnded /\
  exists reason, hc_lifecycle h = invoke_closed (Some reason) l.

Lemma reconnect_once_total h : reconnect_once options h <> None.
Proof.
  unfold reconnect_once. destruct (connect_total options (hc_net h)) as (r & net & ->). by destruct r.
Qed.

Section delays.
Context (ds : list Z).
Hypothesis Hpolicy : op_reconnect_policy options = Some (next_retry_delay (policy_new ds)).

(** One attempt, with nobody closing the connection. *)
Lemma attempt_spec now attempt started (h : hub) :
  hc_state h = Reconnecting -> hc_closing h = false -> hc_stop_reconnect h = false ->
  exists h', supervisor_attempt options now attempt started h = Some h' /\
    (reconnected (hc_lifecycle h) h' \/
     (length ds <= attempt)%nat /\ abandoned (hc_lifecycle h) h' \/
     (attempt < length ds)%nat /\ hc_state h' = Reconnecting /\ hc_closing h' = false /\
       hc_stop_reconnect h' = false /\ hc_lifecycle h' = hc_lifecycle h /\
       exists reason, hc_supervisor h' = Some (SupSleeping (S attempt) started reason)).
Proof.
  intros Hst Hcl Hsr. unfold supervisor_attempt. rewrite Hcl, Hsr, bool_decide_eq_true_2 by done.
  cbn [negb orb]. destruct (reconnect_once options h) as [[r h1]|] eqn:Hr; [|by apply reconnect_once_total in Hr].
  pose proof (reconnect_once_same _ _ _ _ Hr) as (Hs1 & Hs2 & Hs3 & Hs4 & Hs5).
  destruct r as [[]|e].
  - apply reconnect_once_ok in Hr as (_ & rt & Hrt & _). eexists. split; [done|]. left.
    split_and!; [done|done|by exists rt|]. cbn. by rewrite Hs3.
  - rewrite Hpolicy, next_retry_delay_new. cbn [rc_previous_retry_count].
    destruct (ds !! attempt) as [d|] eqn:Hd.
    + apply lookup_lt_Some in Hd. eexists. split; [done|]. right. right. cbn.
      split_and!; [done|congruence|congruence|congruence|done|by eexists].
    + apply lookup_ge_None in Hd. eexists. split; [done|]. right. left. split; [done|].
      unfold abandoned, abandon. cbn. rewrite Hs3. split_and!; [done|done|by eexists].
Qed.

(** The attempts that are left after [attempt] of them were begun. *)
Lemma attempts_bounded wakes : forall attempt started reason (h : hub),
  hc_supervisor h = Some (SupSleeping attempt started reason) -> (attempt <= length ds)%nat ->
  hc_state h = Reconnecting -> hc_closing h = false -> hc_stop_reconnect h = false ->
  (S (length ds) <= attempt + length wakes)%nat ->
  exists n h', reconnect_run wakes h = Some (n, h') /\ (n + attempt <= S (length ds))%nat /\
    (reconnected (hc_lifecycle h) h' \/
     (n + attempt = S (length ds))%nat /\ abandoned (hc_lifecycle h) h').
Proof.
  induction wakes as [|now wakes IH]; intros attempt started reason h Hsup Ha Hst Hcl Hsr Hlen;
    cbn [length] in Hlen; [lia|].
  cbn [reconnect_run]. rewrite Hsup.
  destruct (attempt_spec now attempt started h Hst Hcl Hsr)
    as (h1 & -> & [Hok|[[Hge Hab]|(Hlt & Hst1 & Hcl1 & Hsr1 & Hl1 & r1 & Hsup1)]]); cbn [mbind option_bind].
  - rewrite reconnect_run_awake by (by destruct Hok as (_ & -> & _)). eexists _, _.
    split; [done|]. split; [lia|]. by left.
  - rewrite reconnect_run_awake by (by destruct Hab as (_ & -> & _)). eexists _, _.
    split; [done|]. split; [lia|]. right. split; [lia|done].
  - destruct (IH (S attempt) started r1 h1) as (n & h' & -> & Hn & Hend); [done|lia|done..|lia|].
    rewrite <- Hl1. eexists _, _. split; [done|]. split; [lia|].
    destruct Hend as [Hend|[Hn' Hend]]; [by left|right]. split; [lia|done].
Qed.

(** ** Under every interleaving *)

Definition sleeping_ok (h : hub) : Prop :=
  match hc_supervisor h with
  | Some (SupSleeping attempt _ _) => (1 <= attempt <= length ds)%nat
  | _ => True
  end.

Lemma same_sleeping (h h' : hub) : same_lifecycle h h' -> sleeping_ok h -> sleeping_ok h'.
Proof. intros (_ & Hs & _). unfold sleeping_ok. by rewrite Hs. Qed.

Lemma begin_sleeping info now (h : hub) : sleeping_ok (begin_reconnect options info now h).
Proof.
  unfold begin_reconnect. rewrite Hpolicy. case_decide; [done|]. rewrite next_retry_delay_new.
  cbn [rc_previous_retry_count]. destruct (ds !! 0%nat) eqn:Hd; [|done]. apply lookup_lt_Some in Hd.
  destruct (hc_closing _); [done|]. unfold sleeping_ok. cbn. lia.
Qed.

Lemma closed_sleeping info now (h : hub) : sleeping_ok h ->
  sleeping_ok (supervisor_closed options info now h).
Proof.
  intros Hok. unfold supervisor_closed. destruct (hc_closing h); [done|].
  destruct (ci_transport_dropped info), (hc_resume h) as [target|], (hc_message_buffer h) as [i|];
    try apply begin_sleeping.
  pose proof (resume_transport_same options target i h) as Hs.
  destruct (resume_transport options target i h) as [[] h1]; [by eapply same_sleeping|apply begin_sleeping].
Qed.

Lemma attempt_sleeping now attempt started reason (h h' : hub) :
  hc_supervisor h = Some (SupSleeping attempt started reason) -> sleeping_ok h ->
  supervisor_attempt options now attempt started h = Some h' -> sleeping_ok h'.
Proof.
  intros Hsup Hok. unfold supervisor_attempt. destruct (_ || _); [by intros [= <-]|].
  destruct (reconnect_once options h) as [[[[]|e] h1]|]; [by intros [= <-]| |done].
  rewrite Hpolicy, next_retry_delay_new. cbn [rc_previous_retry_count].
  destruct (ds !! attempt) eqn:Hd; intros [= <-]; [|done]. apply lookup_lt_Some in Hd.
  unfold sleeping_ok. cbn. lia.
Qed.

Lemma call_sleeping stopped i s s' : sleeping_ok (sys_hub s) ->
  call_step options stopped i s = Some s' -> sleeping_ok (sys_hub s').
Proof.
  assert (Hshut : forall reason (h : hub), sleeping_ok (shutdown_active_connection options reason h).2).
  { intros reason h. pose proof (shutdown_spec options reason h) as H.
    destruct (shutdown_active_connection options reason h) as [[r nt] h'].
    unfold sleeping_ok. cbn. by destruct H as (-> & _). }
  intros Hok. unfold call_step. destruct (sys_calls s !! i) as [c|]; [|done].
  destruct c as [| |r|r|[]| | |r]; try done; try (by intros [= <-]).
  - destruct (sys_lock s); [done|]. unfold start_connect. destruct (hc_closing _); [by intros [= <-]|].
    destruct (connect_runtime options stopped (sys_hub s)) as [[r h]|] eqn:Hc; [|done].
    intros [= <-]. by eapply same_sleeping; [eapply connect_runtime_same|].
  - unfold start_finish. pose proof (Hshut None (sys_hub s)) as Hs. destruct r as [|e]; [|by intros [= <-]].
    destruct (hc_closing _); [|by intros [= <-]].
    destruct (shutdown_active_connection options None (sys_hub s)) as [[[] nt] h]; by intros [= <-].
  - destruct (sys_lock s); [done|]. unfold close_locked. pose proof (Hshut None (sys_hub s)) as Hs.
    destruct (shutdown_active_connection options None (sys_hub s)) as [[r nt] h]. by intros [= <-].
Qed.

(** However calls of [start], [close] and hub methods interleave with the supervisor, no attempt
    beyond the delays of the policy is ever waited for. *)
Lemma attempts_always_bounded w s : rtc (system_step options) (system_new w) s ->
  sleeping_ok (sys_hub s).
Proof.
  intros Hr. assert (H0 : sleeping_ok (sys_hub (system_new w))) by done.
  revert H0. induction Hr as [|s1 s2 s3 Hstep _ IH]; [done|]. intros Hok. apply IH. clear IH.
  destruct Hstep; try exact Hok.
  - by eapply call_sleeping.
  - by apply closed_sleeping.
  - by eapply attempt_sleeping.
  - unfold on_hub, supervisor_stopped. cbn. by destruct (hc_stop_reconnect _).
  - done.
  - eapply same_sleeping; [apply invoke_same|done].
  - eapply same_sleeping; [apply stream_same|done].
  - eapply same_sleeping; [apply send_same|done].
  - eapply same_sleeping; [apply cancel_stream_same|done].
  - eapply same_sleeping; [apply stream_drop_same|done].
Qed.

(** From the loss of a connection to the end of the loop. *)
Lemma reconnect_ends (info : TransportCloseInfo) (now : Z) (wakes : list Z) (h : hub) :
  ci_allow_reconnect info <> Some false -> hc_closing h = false -> hc_stop_reconnect h = false ->
  (length ds <= length wakes)%nat ->
  let l := match ds with [] => hc_lifecycle h
           | _ => invoke_reconnecting (ci_error info) (hc_lifecycle h) end in
  exists n h', reconnect_run wakes (begin_reconnect options info now h) = Some (n, h') /\
    (n <= length ds)%nat /\ (reconnected l h' \/ n = length ds /\ abandoned l h').
Proof.
  intros Hallow Hcl Hsr Hlen. cbv zeta. unfold begin_reconnect. rewrite Hpolicy, decide_False by done.
  set (h1 := match hc_runtime _ with Some _ => _ | None => _ end).
  assert (H1 : hc_closing h1 = false /\ hc_stop_reconnect h1 = false /\ hc_lifecycle h1 = hc_lifecycle h).
  { subst h1. cbn. destruct (hc_message_buffer h); cbn; destruct (hc_runtime h); done. }
  clearbody h1. destruct H1 as (Hc1 & Hs1 & Hl1). rewrite next_retry_delay_new. cbn [rc_previous_retry_count].
  destruct (ds !! 0%nat) as [d|] eqn:Hd.
  - assert (Hl : match ds with [] => hc_lifecycle h
                 | _ => invoke_reconnecting (ci_error info) (hc_lifecycle h) end =
                 invoke_reconnecting (ci_error info) (hc_lifecycle h)) by by destruct ds.
    rewrite Hl. cbn [hc_closing set_state set_lifecycle]. rewrite Hc1. apply lookup_lt_Some in Hd.
    set (h2 := set_supervisor _ _).
    destruct (attempts_bounded wakes 1 now (default "connection closed"%string (ci_error info)) h2)
      as (n & h' & -> & Hn & Hend); [done|lia|done|done|done|cbn; lia|].
    cbn [hc_lifecycle h2 set_supervisor set_lifecycle set_state] in Hend. rewrite Hl1 in Hend.
    eexists _, _. split; [done|]. split; [lia|].
    destruct Hend as [Hend|[Hn' Hend]]; [by left|right]. split; [lia|done].
  - apply lookup_ge_None in Hd. assert (Hds : ds = []) by (destruct ds; [done|cbn in Hd; lia]). rewrite Hds.
    rewrite reconnect_run_awake by done. eexists _, _. split; [done|]. split; [lia|]. right.
    split; [done|]. unfold abandoned, abandon. cbn. rewrite Hl1. split_and!; [done|done|by eexists].
Qed.

(** C10: Reconnecting comes to an end: when a connection is lost and nobody closes it, the supervisor
    tells the reconnecting callbacks once and makes at most as many attempts as the policy has
    delays; it ends connected, with a runtime, when it tells the reconnected callbacks, or, after
    exactly that many attempts that failed, disconnected, when it tells the closed callbacks and
    its task is over.  And however calls of [start], [close] and hub methods interleave with the
    supervisor, no attempt beyond the delays of the policy is ever waited for. *)
Theorem reconnect_terminates (info : TransportCloseInfo) (now : Z) (wakes : list Z) (h : hub) :
  ci_allow_reconnect info <> Some false -> hc_closing h = false -> hc_stop_reconnect h = false ->
  (length ds <= length wakes)%nat ->
  let l := match ds with [] => hc_lifecycle h
           | _ => invoke_reconnecting (ci_error info) (hc_lifecycle h) end in
  (exists n h', reconnect_run wakes (begin_reconnect options info now h) = Some (n, h') /\
    (n <= length ds)%nat /\ (reconnected l h' \/ n = length ds /\ abandoned l h')) /\
  (forall w s, rtc (system_step options) (system_new w) s -> sleeping_ok (sys_hub s)).
Proof.
  intros Ha Hc Hs Hl. split; [by apply reconnect_ends|]. apply attempts_always_bounded.
Qed.

End delays.
End reconnect.
