(* ===== verification/Upload.v ===== *)
(** * Upload streams and method streams ([src/hub_connection/upload_stream.rs], [stream.rs])

    [launch_upload_streams] spawns one task per stream, which turns the items into commands, and
    one loop, which takes the commands out of the channel and sends them through whatever runtime
    the connection has at that moment.  The tasks interleave with each other and with everything
    else that happens to the connection. *)

From Stdlib Require Import ZArith Lia String.
From stdpp Require Import base list strings gmap pretty relations.
From S2P Require Import Prelude Framing Utf8 Errors Values Arguments Message JsonProtocol.
From S2P Require Import MessageBuffer Link Bus Dispatch Handshake Negotiate Retry Connection.
From S2P Require Import Runtime Client Lifecycle Reuse.

Local Open Scope Z_scope.

(** ** Sources of upload streams *)

(** [ClientUploadStream::from_stream] *)
Definition from_stream (stream : list (result string json)) : ClientUploadStream := stream.

(** [ClientUploadStream::from_values] *)
Definition from_values (stream : list json) : ClientUploadStream := from_stream (map Ok stream).

(** [ClientUploadStream::from_receiver] over the values that its channel delivers. *)
Definition from_receiver (receiver : list json) : ClientUploadStream := from_values receiver.

(** [FromIterator for ClientUploadStream] *)
Definition from_iter (items : list json) : ClientUploadStream := from_values items.

(** ** The tasks *)

(** [UploadCommand] *)
Inductive UploadCommand : Type :=
| UItem (stream_id : string) (item : json)
| UComplete (stream_id : string) (error : option string).

Definition command_stream (c : UploadCommand) : string :=
  match c with UItem id _ | UComplete id _ => id end.

(** The message of a command, in the loop of [launch_upload_streams]. *)
Definition upload_message (c : UploadCommand) : HubMessage :=
  match c with
  | UItem stream_id item =>
      HStreamItem {| item_headers := ∅; item_invocation_id := Some stream_id; item_item := item |}
  | UComplete stream_id error =>
      HCompletion {| comp_headers := ∅; comp_invocation_id := stream_id; comp_error := error;
                     comp_result := None |}
  end.

(** The loop that sends: it runs, has taken every command out, or has broken off. *)
Inductive UploadLoop : Type := ULRunning | ULFinished | ULBroken.

(** The tasks of one call of [launch_upload_streams]: the streams that are still read, the channel,
    the loop, the connection they share with everybody else. *)
Record Uploads (W : Type) := {
  up_readers : list (string * option ClientUploadStream);
  up_commands : list UploadCommand;
  up_loop : UploadLoop;
  up_hub : HubConnection W
}.
Arguments up_readers {W}. Arguments up_commands {W}. Arguments up_loop {W}.
Arguments up_hub {W}.

Definition ended (r : string * option ClientUploadStream) : bool :=
  match r.2 with None => true | Some _ => false end.

Section uploads.
Context `{UL : UrlLib} `{HC : HttpClient W} `{SO : !Sockets W} `{HT : HandshakeText}
  (options : ConnectionOptions W).

Local Abbreviation hub := (HubConnection W).
Local Abbreviation uploads := (Uploads W).

(** [launch_upload_streams]; without streams nothing is spawned. *)
Definition launch_upload_streams (streams : list (string * ClientUploadStream)) (h : hub) : uploads := {|
  up_readers := map (fun '(id, stream) => (id, Some stream)) streams; up_commands := [];
  up_loop := match streams with [] => ULFinished | _ => ULRunning end; up_hub := h |}.

(** What the task of stream [id] does with its next item: the command it sends, if any, and what
    is left to read.  A send fails once the loop is over, which ends the task at an item. *)
Definition read_item (id : string) (stream : ClientUploadStream) (loop : UploadLoop)
    : list UploadCommand * option ClientUploadStream :=
  let sent c := match loop with ULRunning => [c] | _ => [] end in
  match stream with
  | Ok value :: stream =>
      (sent (UItem id value), match loop with ULRunning => Some stream | _ => None end)
  | Err error :: _ => (sent (UComplete id (Some error)), None)
  | [] => (sent (UComplete id None), None)
  end.

(** One item of one stream. *)
Definition reader_step (i : nat) (s : uploads) : option uploads :=
  '(id, stream) ← up_readers s !! i;
  stream ← stream;
  let '(cs, stream) := read_item id stream (up_loop s) in
  Some {| up_readers := <[i := (id, stream)]> (up_readers s); up_commands := up_commands s ++ cs;
          up_loop := up_loop s; up_hub := up_hub s |}.

(** One iteration of the loop; [None]: it waits or is over. *)
Definition sender_step (s : uploads) : option uploads :=
  match up_loop s, up_commands s with
  | ULRunning, [] =>
      if forallb ended (up_readers s) then
        Some {| up_readers := up_readers s; up_commands := []; up_loop := ULFinished;
                up_hub := up_hub s |}
      else None
  | ULRunning, c :: cs =>
      match hc_runtime (up_hub s) with
      | None => Some {| up_readers := up_readers s; up_commands := []; up_loop := ULBroken;
                        up_hub := up_hub s |}
      | Some _ =>
          match send_direct options (upload_message c) (up_hub s) with
          | (Err _, h) => Some {| up_readers := up_readers s; up_commands := []; up_loop := ULBroken;
                                  up_hub := h |}
          | (Ok _, h) => Some {| up_readers := up_readers s; up_commands := cs; up_loop := ULRunning;
                                 up_hub := h |}
          end
      end
  | _, _ => None
  end.

(** The rest of the program does something to the connection. *)
Definition set_hub (h : hub) (s : uploads) : uploads := {|
  up_readers := up_readers s; up_commands := up_commands s; up_loop := up_loop s;
  up_hub := h |}.

(** A step of the uploads themselves, and of everything. *)
Inductive upload_step : uploads -> uploads -> Prop :=
| up_read i s s' : reader_step i s = Some s' -> upload_step s s'
| up_send s s' : sender_step s = Some s' -> upload_step s s'.

(** A run, with the connection before and after each step of the uploads. *)
Inductive upload_run : list (hub * hub) -> uploads -> uploads -> Prop :=
| run_done s : upload_run [] s s
| run_other steps s s' h : upload_run steps s s' -> upload_run steps s (set_hub h s')
| run_step steps s s' s'' : upload_run steps s s' -> upload_step s' s'' ->
    upload_run (steps ++ [(up_hub s', up_hub s'')]) s s''.

(** ** What is sent for a stream *)

(** The specification: the items up to the first error, then one completion. *)
Fixpoint stream_commands (id : string) (stream : ClientUploadStream) : list UploadCommand :=
  match stream with
  | [] => [UComplete id None]
  | Ok value :: stream => UItem id value :: stream_commands id stream
  | Err error :: _ => [UComplete id (Some error)]
  end.

Definition of_stream (id : string) (cs : list UploadCommand) : list UploadCommand :=
  filter (fun c => command_stream c = id) cs.
#[local] Arguments of_stream : simpl never.

(** What the reader of a stream has still to say. *)
Definition unread (r : string * option ClientUploadStream) : list UploadCommand :=
  match r.2 with Some stream => stream_commands r.1 stream | None => [] end.

(** The messages that a stream should lead to, and what a step does to the connection: nothing, or
    the runtime sends a message, or it fails to. *)
Fixpoint stream_messages (id : string) (stream : ClientUploadStream) : list HubMessage :=
  let completed error := HCompletion {| comp_headers := ∅; comp_invocation_id := id;
                                        comp_error := error; comp_result := None |} in
  match stream with
  | [] => [completed None]
  | Ok value :: stream =>
      HStreamItem {| item_headers := ∅; item_invocation_id := Some id; item_item := value |}
      :: stream_messages id stream
  | Err error :: _ => [completed (Some error)]
  end.

Definition message_stream (m : HubMessage) : option string :=
  match m with
  | HStreamItem m => item_invocation_id m
  | HCompletion m => Some (comp_invocation_id m)
  | _ => None
  end.

Inductive UploadEffect : Type := NoEffect | Sends (m : HubMessage) | FailsToSend (m : HubMessage).

Definition has_effect (e : UploadEffect) (step : hub * hub) : Prop :=
  match e with
  | NoEffect => step.2 = step.1
  | Sends m => exists rt, hc_runtime step.1 = Some rt /\ send_direct options m step.1 = (Ok tt, step.2)
  | FailsToSend m => exists e, send_direct options m step.1 = (Err e, step.2)
  end.

Definition sent_by (es : list UploadEffect) : list HubMessage :=
  omap (fun e => match e with Sends m => Some m | _ => None end) es.

Definition for_stream (id : string) (ms : list HubMessage) : list HubMessage :=
  filter (fun m => message_stream m = Some id) ms.

(** While the loop runs, what was sent, what is in the channel and what is unread make up the
    commands of the stream; afterwards what was sent is the beginning of them. *)
Definition upload_ok (streams : list (string * ClientUploadStream)) (sent : list UploadCommand)
    (s : uploads) : Prop :=
  (up_readers s).*1 = streams.*1 /\
  forall i id stream r, streams !! i = Some (id, stream) -> up_readers s !! i = Some r ->
    match up_loop s with
    | ULRunning => of_stream id sent ++ of_stream id (up_commands s) ++ unread r =
                   stream_commands id stream
    | ULFinished => of_stream id sent = stream_commands id stream
    | ULBroken => of_stream id sent `prefix_of` stream_commands id stream
    end.

Lemma of_stream_app id cs cs' : of_stream id (cs ++ cs') = of_stream id cs ++ of_stream id cs'.
Proof. apply filter_app. Qed.

Lemma of_stream_same id cs : Forall (fun c => command_stream c = id) cs -> of_stream id cs = cs.
Proof. apply filter_all. Qed.

Lemma of_stream_other id id' cs : Forall (fun c => command_stream c = id') cs -> id <> id' ->
  of_stream id cs = [].
Proof. intros H Hne. apply filter_none. eapply Forall_impl; [exact H|]. cbn. congruence. Qed.

(** Reading an item keeps the sum; all that is said is said of the stream. *)
Lemma read_item_spec id stream : let '(cs, rest) := read_item id stream ULRunning in
  cs ++ unread (id, rest) = stream_commands id stream /\ Forall (fun c => command_stream c = id) cs.
Proof. destruct stream as [|[v|e] stream]; cbn; (split; [done|]); by repeat constructor. Qed.

Lemma reader_ok streams sent i s s' : NoDup streams.*1 -> upload_ok streams sent s ->
  reader_step i s = Some s' -> upload_ok streams sent s'.
Proof.
  intros Hnd [Hids Hok]. unfold reader_step.
  destruct (up_readers s !! i) as [[id [stream|]]|] eqn:Hi; cbn -[read_item]; [|done..].
  destruct (read_item id stream (up_loop s)) as [cs rest] eqn:Hread. intros [= <-].
  assert (Hid : streams.*1 !! i = Some id) by by rewrite <- Hids, list_lookup_fmap, Hi.
  split; cbn.
  - rewrite list_fmap_insert. cbn. rewrite list_insert_id; [done|]. by rewrite Hids.
  - intros j id' stream' r Hj. rewrite list_lookup_insert. case_decide as Hij.
    + destruct Hij as [<- _]. intros [= <-].
      assert (id' = id) as -> by (rewrite list_lookup_fmap, Hj in Hid; by injection Hid).
      specialize (Hok i id stream' _ Hj Hi). destruct (up_loop s); [|done..].
      pose proof (read_item_spec id stream) as Hs. rewrite Hread in Hs. destruct Hs as [Hsum Hall].
      rewrite of_stream_app, (of_stream_same id cs) by done. rewrite <- app_assoc, Hsum. done.
    + intros Hr. specialize (Hok j id' stream' r Hj Hr). destruct (up_loop s); [|done..].
      pose proof (read_item_spec id stream) as Hs. rewrite Hread in Hs. destruct Hs as [_ Hall].
      rewrite of_stream_app, (of_stream_other id' id cs), app_nil_r; [done|done|].
      intros ->. apply Hij. split; [|by eapply lookup_lt_Some].
      eapply NoDup_lookup; [exact Hnd|exact Hid|]. by rewrite list_lookup_fmap, Hj.
Qed.

Lemma sender_ok streams sent s s' : upload_ok streams sent s -> sender_step s = Some s' ->
  exists e cs, has_effect e (up_hub s, up_hub s') /\ sent_by [e] = map upload_message cs /\
    upload_ok streams (sent ++ cs) s'.
Proof.
  intros [Hids Hok]. unfold sender_step. destruct (up_loop s); [|done..].
  assert (Hbroken : forall h, upload_ok streams (sent ++ []) {| up_readers := up_readers s; up_commands := [];
    up_loop := ULBroken; up_hub := h |}).
  { split; [done|]. cbn. intros i id stream r Hi Hr. rewrite app_nil_r, <- (Hok i id stream r Hi Hr). by eexists. }
  destruct (up_commands s) as [|c cs].
  - destruct (forallb ended (up_readers s)) eqn:Hall; [|done]. intros [= <-].
    exists NoEffect, []. rewrite app_nil_r. split_and!; [done..|]. split; [done|]. cbn.
    intros i id stream r Hi Hr. rewrite <- (Hok i id stream r Hi Hr).
    rewrite forallb_forall in Hall. specialize (Hall r).
    destruct r as [id' [rest|]]; [|cbn; by rewrite !app_nil_r].
    exfalso. enough (ended (id', Some rest) = true) by done. apply Hall, list_elem_of_In.
    by eapply list_elem_of_lookup_2.
  - destruct (hc_runtime (up_hub s)) as [rt|] eqn:Hrt; [|intros [= <-]; by exists NoEffect, []].
    destruct (send_direct _ _ _) as [[[]|e] h0] eqn:Hs; intros [= <-]; cycle 1.
    { exists (FailsToSend (upload_message c)), []. split_and!; [by exists e|done|apply Hbroken]. }
    exists (Sends (upload_message c)), [c]. split_and!; [by exists rt|done|].
    split; [done|]. cbn. intros i id stream r Hi Hr. rewrite <- (Hok i id stream r Hi Hr).
    rewrite of_stream_app. unfold of_stream. rewrite <- app_assoc. f_equal.
    rewrite !filter_cons. case_decide; [done|]. by cbn.
Qed.

Lemma launch_ok streams h : upload_ok streams [] (launch_upload_streams streams h).
Proof.
  split; cbn.
  - induction streams as [|[id stream] streams IH]; cbn; [done|]. by rewrite IH.
  - intros i id stream r Hi. rewrite list_lookup_fmap, Hi. intros [= <-]. by destruct streams.
Qed.

(** A run sends the messages of the commands that were taken out. *)
Lemma run_ok streams steps s s' : NoDup streams.*1 -> upload_ok streams [] s -> upload_run steps s s' ->
  exists es cs, Forall2 has_effect es steps /\ sent_by es = map upload_message cs /\ upload_ok streams cs s'.
Proof.
  intros Hnd Hok H. induction H as [s|steps s s' h _ IH|steps s s' s'' _ IH Hst].
  - by exists [], [].
  - destruct (IH Hok) as (es & cs & He & Hs & H). by exists es, cs.
  - destruct (IH Hok) as (es & cs & He & Hs & H). unfold sent_by in *. destruct Hst as [i s1 s2 Hst|s1 s2 Hst].
    + exists (es ++ [NoEffect]), cs. rewrite omap_app, app_nil_r. split_and!; [|done|by eapply reader_ok].
      apply Forall2_app; [done|]. constructor; [|done]. cbn. unfold reader_step in Hst.
      destruct (up_readers s1 !! i) as [[id [stream|]]|]; cbn -[read_item] in Hst; [|done..].
      destruct (read_item id stream (up_loop s1)). by injection Hst as <-.
    + destruct (sender_ok _ _ _ _ H Hst) as (e & cs' & He' & Hs' & H').
      exists (es ++ [e]), (cs ++ cs'). rewrite omap_app, map_app, Hs. unfold sent_by in Hs'. rewrite Hs'.
      split_and!; [|done|done]. apply Forall2_app; [done|by constructor].
Qed.

Lemma stream_messages_commands id stream :
  stream_messages id stream = map upload_message (stream_commands id stream).
Proof. induction stream as [|[v|e] stream IH]; cbn; [done| |done]. by rewrite IH. Qed.

Lemma for_stream_commands id cs :
  for_stream id (map upload_message cs) = map upload_message (of_stream id cs).
Proof.
  unfold for_stream, of_stream. induction cs as [|c cs IH]; [done|]. cbn [map].
  assert (Hc : message_stream (upload_message c) = Some (command_stream c)) by by destruct c.
  destruct (decide (command_stream c = id)) as [Heq|Hne].
  - rewrite !filter_cons_True by (by rewrite ?Hc, Heq). cbn [map]. by rewrite IH.
  - rewrite !filter_cons_False by (rewrite ?Hc; congruence). exact IH.
Qed.

(** *** Termination *)

Definition reader_weight (r : string * option ClientUploadStream) : nat :=
  match r.2 with Some stream => 2 * length stream + 3 | None => 0 end.

Definition upload_weight (s : uploads) : nat :=
  (sum_list (reader_weight <$> up_readers s) + length (up_commands s) +
   match up_loop s with ULRunning => 1 | _ => 0 end)%nat.

Lemma sum_insert (l : list nat) i x y : l !! i = Some x ->
  (sum_list (<[i := y]> l) + x = sum_list l + y)%nat.
Proof.
  revert i. induction l as [|z l IH]; intros [|i]; cbn; [done..| |].
  - intros [= ->]. unfold sum_list. cbn. lia.
  - intros H%IH. rewrite <- !Nat.add_assoc. f_equal. exact H.
Qed.

Lemma step_weight s s' : upload_step s s' -> (upload_weight s' < upload_weight s)%nat.
Proof.
  intros [i s0 s1 Hst|s0 s1 Hst]; revert Hst; unfold upload_weight.
  - unfold reader_step. destruct (up_readers s0 !! i) as [[id [stream|]]|] eqn:Hi; cbn -[read_item]; [|done..].
    destruct (read_item id stream (up_loop s0)) as [cs rest] eqn:Hr. intros [= <-]. cbn.
    rewrite list_fmap_insert, length_app.
    pose proof (sum_insert (reader_weight <$> up_readers s0) i _ (reader_weight (id, rest))
      (ltac:(by rewrite list_lookup_fmap, Hi))) as Hs.
    revert Hr Hs. destruct stream as [|[v|e] stream], (up_loop s0); cbn; intros [= <- <-]; cbn; lia.
  - unfold sender_step. destruct (up_loop s0), (up_commands s0) as [|c cs]; try done.
    + destruct (forallb _ _); [|done]. intros [= <-]. cbn. lia.
    + destruct (hc_runtime _); [destruct (send_direct _ _ _) as [[[]|] ?]|]; intros [= <-]; cbn; lia.
Qed.

Lemma run_weight steps s s' : upload_run steps s s' -> (length steps + upload_weight s' <= upload_weight s)%nat.
Proof.
  induction 1 as [|steps s s' h _ IH|steps s s' s'' _ IH Hst]; [done|done|]. apply step_weight in Hst.
  rewrite length_app. cbn. lia.
Qed.

(** C23: Uploads are sent in order and whole: whatever else happens to the connection, all that the
    steps of the tasks do to it is to send messages of streams through its runtime, one of which may fail;
    those for a stream are a beginning of a stream item for each of its items, in order, up to its
    first error, followed by one completion with that error, and when the loop took every command
    out they are all of that; and when the tasks cannot go on the loop has either done so or broken
    off. *)
Theorem upload_in_order (streams : list (string * ClientUploadStream)) (h : hub) (steps : list (hub * hub))
    (s : uploads) (id : string) (stream : ClientUploadStream) :
  NoDup streams.*1 -> (id, stream) ∈ streams ->
  upload_run steps (launch_upload_streams streams h) s ->
  (exists effects, Forall2 has_effect effects steps /\
    Forall (fun m => is_Some (message_stream m)) (sent_by effects) /\
    for_stream id (sent_by effects) `prefix_of` stream_messages id stream /\
    (up_loop s = ULFinished -> for_stream id (sent_by effects) = stream_messages id stream)) /\
  ((forall s', ~ upload_step s s') -> up_loop s <> ULRunning).
Proof.
  intros Hnd [i Hi]%list_elem_of_lookup Hrun.
  destruct (run_ok streams steps _ s Hnd (launch_ok streams h) Hrun) as (es & cs & He & Hsent & Hids & Hok).
  destruct (up_readers s !! i) as [r|] eqn:Hr; cycle 1.
  { exfalso. apply (f_equal (lookup i)) in Hids. by rewrite !list_lookup_fmap, Hi, Hr in Hids. }
  specialize (Hok i id stream r Hi Hr). split.
  { exists es. rewrite Hsent, for_stream_commands, stream_messages_commands. split_and!; [done| | |].
    - apply Forall_map, Forall_true. by intros [].
    - destruct (up_loop s); [|by rewrite Hok|destruct Hok as [k ->]]; rewrite <- ?Hok, ?map_app; by eexists.
    - intros Hl. rewrite Hl in Hok. by rewrite Hok. }
  intros Hstuck Hl. destruct (forallb ended (up_readers s)) eqn:Hall.
    + destruct (sender_step s) as [s'|] eqn:Hs; [by eapply Hstuck, up_send|].
      unfold sender_step in Hs. rewrite Hl, Hall in Hs. destruct (up_commands s); [done|].
      by destruct (hc_runtime _); [destruct (send_direct _ _ _) as [[|] ?]|].
    + apply not_true_iff_false in Hall. apply Hall, forallb_forall. intros [id' [rest|]] Hin; [|done].
      exfalso. apply list_elem_of_In, list_elem_of_lookup in Hin as [j Hj].
      destruct (reader_step j s) as [s'|] eqn:Hs; [by eapply Hstuck, up_read|].
      unfold reader_step in Hs. rewrite Hj in Hs. cbn in Hs.
      by destruct (read_item id' rest (up_loop s)).
Qed.

(** Uploads come to an end: the tasks take at most three steps per stream, two per item and one
    more, however they are interleaved with the rest of the program. *)
Theorem upload_terminates (streams : list (string * ClientUploadStream)) (h : hub)
    (steps : list (hub * hub)) (s : uploads) :
  upload_run steps (launch_upload_streams streams h) s ->
  (length steps <= 3 * length streams + 2 * sum_list (length <$> streams.*2) + 1)%nat.
Proof.
  intros H%run_weight. etrans; [apply Nat.le_add_r|]. etrans; [exact H|]. unfold upload_weight.
  assert (Hsum : sum_list (reader_weight <$> up_readers (launch_upload_streams streams h)) =
    (3 * length streams + 2 * sum_list (length <$> streams.*2))%nat).
  { clear H. cbn [launch_upload_streams up_readers]. induction streams as [|[id stream] streams IH]; [done|].
    cbn [map fmap list_fmap sum_list sum_list_with length]. unfold reader_weight at 1. cbn [snd].
    unfold sum_list, fmap in *. cbn in *. lia. }
  rewrite Hsum. cbn. destruct streams; cbn; lia.
Qed.

(** *** Uploads across a reconnect *)

(** The first upload stream announced on a new runtime has the id [1]. *)
Lemma send_first_stream method new (h h' : hub) rt :
  hc_runtime h = Some rt -> hr_invocation_id rt = 0 ->
  send options method [HStream new] h = (Ok tt, h') ->
  hc_uploads h' = hc_uploads h ++ [("1"%string, new)] /\ hc_runtime h' <> None.
Proof.
  intros Hrt Hid. unfold send, prepare, require_connected. rewrite Hrt. case_decide; [|done].
  cbn [replace_streaming_params]. unfold next_invocation_id. rewrite Hid.
  change (pretty (as_i64 (0 + 1))) with "1"%string. cbn [optional_ids].
  unfold send_through. cbn [hc_runtime set_runtime].
  destruct (send_with_backpressure _ _ _ _ _) as [[[r|e] bs] w]; [|done]. by intros [= <-].
Qed.

(** An upload of the lost connection goes on in a stream of the new one: the loop sends through
    whatever runtime is there, and the ids start again after a reconnect, so an item that a call
    of the lost connection still had to upload is sent as an item of the stream that a call of
    the new connection announced under the same id. *)
Theorem stale_upload_feeds_new_stream (s : uploads) (h h1 h2 h3 : hub) (method : string)
    (new : ClientUploadStream) (item : json) (cs : list UploadCommand) :
  up_loop s = ULRunning -> up_commands s = UItem "1" item :: cs ->
  reconnect_once options h = Some (Ok tt, h1) ->
  send options method [HStream new] (set_state Connected h1) = (Ok tt, h2) ->
  send_direct options (upload_message (UItem "1" item)) h2 = (Ok tt, h3) ->
  hc_uploads h2 = hc_uploads h1 ++ [("1"%string, new)] /\
  exists s', sender_step (set_hub h2 s) = Some s' /\ up_loop s' = ULRunning /\
    up_commands s' = cs /\ up_hub s' = h3.
Proof.
  intros Hl Hc Hr Hs Hd. apply reconnect_once_ok in Hr as [_ (rt & Hrt & Hid)].
  destruct (send_first_stream method new (set_state Connected h1) h2 rt Hrt Hid Hs) as [Hu Hrun].
  split; [done|]. unfold sender_step. cbn [set_hub up_loop up_commands up_hub]. rewrite Hl, Hc, Hd.
  destruct (hc_runtime h2); [|done]. by eexists.
Qed.

End uploads.

(** ** The stream a caller reads *)

(** [Poll<Option<T>>] *)
Inductive Poll (A : Type) : Type := Pending | Ready (item : option A).
Arguments Pending {A}. Arguments Ready {A}.

(** [HubMethodStream]: the receiver and how many items were taken from it. *)
Record HubMethodStream := {
  hms_invocation_id : string;
  hms_items : nat;
  hms_taken : nat
}.

(** [HubMethodStream::new] *)
Definition hub_method_stream_new (invocation_id : string) (items : nat) : HubMethodStream :=
  {| hms_invocation_id := invocation_id; hms_items := items; hms_taken := 0 |}.

(** [Stream for HubMethodStream]: [poll_next] *)
Definition poll_next (s : HubMethodStream) (b : MessageBus)
    : Poll (result Error json) * HubMethodStream :=
  match channels b !! hms_items s with
  | None => (Ready None, s)
  | Some c =>
      match ch_items c !! hms_taken s with
      | Some item =>
          (Ready (Some (map_err EInvocation item)),
           {| hms_invocation_id := hms_invocation_id s; hms_items := hms_items s;
              hms_taken := S (hms_taken s) |})
      | None => (if ch_closed c then Ready None else Pending, s)
      end
  end.

(** Reading on until the stream ends or has to wait. *)
Fixpoint read_all (fuel : nat) (s : HubMethodStream) (b : MessageBus)
    : list (result Error json) * Poll (result Error json) :=
  match fuel with
  | O => ([], (poll_next s b).1)
  | S fuel =>
      match poll_next s b with
      | (Ready (Some item), s) => let '(items, e) := read_all fuel s b in (item :: items, e)
      | (e, _) => ([], e)
      end
  end.

(** The operations on a bus that do not end stream [id]. *)
Inductive bus_op : Type :=
| BPending (id : string)
| BStream (id : string)
| BComplete (id : string) (r : outcome)
| BItem (id : string) (item : outcome)
| BRemove (id : string).

Definition run_op (b : MessageBus) (o : bus_op) : MessageBus :=
  match o with
  | BPending id => (register_pending id b).2
  | BStream id => (register_stream id b).2
  | BComplete id r => complete_invocation id r b
  | BItem id item => send_stream_item id item b
  | BRemove id => (remove_pending id b).2
  end.

Definition leaves (id : string) (o : bus_op) : bool :=
  match o with
  | BItem _ _ => true
  | BPending id' | BStream id' | BComplete id' _ | BRemove id' => negb (String.eqb id id')
  end.

Definition items_for (id : string) (o : bus_op) : list outcome :=
  match o with BItem id' item => if String.eqb id id' then [item] else [] | _ => [] end.

Lemma run_op_ok b o : bus_ok b -> bus_ok (run_op b o).
Proof.
  intros Hok. destruct o; cbn; [by apply insert_pending_ok|by apply insert_pending_ok
    |by apply complete_ok|by apply send_item_ok|by apply remove_pending_ok].
Qed.

(** What other operations leave of a stream's entry and channel. *)
Definition streaming (id : string) (ch : nat) (items : list outcome) (b : MessageBus) : Prop :=
  bus_ok b /\ pending b !! id = Some (Stream ch) /\
  channels b !! ch = Some {| ch_items := items; ch_closed := false |}.

Lemma other_channel b id id' ch p : bus_ok b -> pending b !! id = Some (Stream ch) ->
  pending b !! id' = Some p -> id <> id' -> channel_of p <> ch.
Proof. intros Hok H H' Hne Heq. apply Hne. by eapply ok_inj. Qed.

Lemma insert_streaming b id id' p ch items : streaming id ch items b -> id <> id' ->
  channel_of p = length (channels b) -> streaming id ch items (insert_pending id' p b).
Proof.
  intros (Hok & Hp & Hc) Hne Hch. split_and!; [by apply insert_pending_ok|cbn; by rewrite lookup_insert_ne|].
  pose proof (lookup_lt_Some _ _ _ Hc) as Hlt. unfold insert_pending. cbn.
  destruct (pending b !! id') as [old|] eqn:Hold; [|by rewrite lookup_app_l].
  rewrite lookup_app_l by (unfold ch_drop; by rewrite length_alter). unfold ch_drop.
  rewrite list_lookup_alter_ne; [done|]. by eapply other_channel.
Qed.

Lemma op_streaming b id ch items o : streaming id ch items b -> leaves id o = true ->
  streaming id ch (items ++ items_for id o) (run_op b o).
Proof.
  intros Hs Ho. destruct (Hs) as (Hok & Hp & Hc).
  destruct o as [id'|id'|id' r|id' item|id']; cbn in *; rewrite ?app_nil_r;
    try (apply negb_true_iff, String.eqb_neq in Ho).
  - by apply insert_streaming.
  - by apply insert_streaming.
  - split; [by apply complete_ok|]. unfold complete_invocation.
    destruct (pending b !! id') as [p|] eqn:Hp'; [|done]. cbn. rewrite lookup_delete_ne by done.
    split; [done|]. pose proof (other_channel _ _ _ _ _ Hok Hp Hp' Ho) as Hne. unfold ch_drop.
    rewrite list_lookup_alter_ne by done.
    destruct p; cbn in Hne; [|destruct (is_ok r); [done|]]; unfold ch_send; by rewrite list_lookup_alter_ne.
  - split; [by apply send_item_ok|]. unfold send_stream_item.
    destruct (String.eqb_spec id id') as [<-|Hne].
    + rewrite Hp. cbn. split; [done|]. unfold ch_send. by rewrite list_lookup_alter_eq, Hc.
    + rewrite app_nil_r. destruct (pending b !! id') as [[ch'|ch']|] eqn:Hp'; [done| |done]. cbn.
      split; [done|]. unfold ch_send. rewrite list_lookup_alter_ne; [done|].
      exact (other_channel _ _ _ _ _ Hok Hp Hp' Hne).
  - split; [by apply remove_pending_ok|]. unfold remove_pending.
    destruct (pending b !! id') as [p|] eqn:Hp'; [|done]. cbn. rewrite lookup_delete_ne by done.
    split; [done|]. unfold ch_drop. rewrite list_lookup_alter_ne; [done|]. by eapply other_channel.
Qed.

Lemma ops_streaming ops b id ch items : streaming id ch items b -> forallb (leaves id) ops = true ->
  streaming id ch (items ++ flat_map (items_for id) ops) (fold_left run_op ops b).
Proof.
  revert b items. induction ops as [|o ops IH]; intros b items Hs; cbn; [by rewrite app_nil_r|].
  intros [Ho Hops]%andb_true_iff. rewrite app_assoc. apply IH; [|done]. by apply op_streaming.
Qed.

(** Reading a channel from the start, with as much fuel as it has items. *)
Lemma read_all_spec items taken id ch b closed :
  channels b !! ch = Some {| ch_items := taken ++ items; ch_closed := closed |} ->
  read_all (length items) {| hms_invocation_id := id; hms_items := ch; hms_taken := length taken |} b =
    (map (map_err EInvocation) items, if closed then Ready None else Pending).
Proof.
  revert taken. induction items as [|item items IH]; intros taken Hc; cbn [read_all length].
  - unfold poll_next. cbn. rewrite Hc. cbn. by rewrite app_nil_r, lookup_ge_None_2.
  - unfold poll_next at 1. cbn [hms_items hms_taken]. rewrite Hc. cbn [ch_items].
    rewrite list_lookup_middle by done. cbn [hms_invocation_id].
    specialize (IH (taken ++ [item])). rewrite length_app, Nat.add_1_r in IH.
    rewrite IH by (by rewrite <- app_assoc). done.
Qed.

(** C30: A method stream yields what the server sent: a caller that opens a stream and reads it gets
    the items delivered under its id, in order and whatever else happens on the bus meanwhile,
    and then waits; once the invocation is completed, an error is the last item and the stream
    ends. *)
Theorem stream_yields_in_order (b : MessageBus) (id : string) (ops : list bus_op) (r : outcome) :
  bus_ok b -> forallb (leaves id) ops = true ->
  let '(ch, b1) := register_stream id b in
  let b2 := fold_left run_op ops b1 in
  let items := flat_map (items_for id) ops in
  let last := if is_ok r then [] else [r] in
  read_all (length items) (hub_method_stream_new id ch) b2 =
    (map (map_err EInvocation) items, Pending) /\
  read_all (length (items ++ last)) (hub_method_stream_new id ch) (complete_invocation id r b2) =
    (map (map_err EInvocation) (items ++ last), Ready None).
Proof.
  intros Hok Hops. unfold register_stream. cbv zeta. set (ch := length (channels b)).
  assert (Hs : streaming id ch [] (insert_pending id (Stream ch) b)).
  { split_and!; [by apply insert_pending_ok|cbn; by rewrite lookup_insert_eq|].
    unfold insert_pending. cbn. subst ch. destruct (pending b !! id); [|by rewrite list_lookup_middle].
    rewrite list_lookup_middle; [done|]. unfold ch_drop. by rewrite length_alter. }
  apply (ops_streaming ops) in Hs as (Hok2 & Hp2 & Hc2); [|done].
  set (b2 := fold_left _ _ _) in *. cbn [app] in *. split.
  - exact (read_all_spec _ [] _ _ _ false Hc2).
  - apply (read_all_spec _ [] _ _ _ true). unfold complete_invocation. rewrite Hp2. cbn. unfold ch_drop.
    rewrite list_lookup_alter_eq. destruct (is_ok r); [by rewrite Hc2, app_nil_r|].
    unfold ch_send. by rewrite list_lookup_alter_eq, Hc2.
Qed.
