(* ===== verification/Builder.v ===== *)
(** * The builder ([src/builder.rs], [HubConnectionConfig] of [src/hub_connection/mod.rs])

    A builder collects a configuration; [build] turns it into the options of a connection.  The
    methods are one definition each; a use of the builder is a list of calls, and what a list of
    calls configures is specified by the last call that concerns each option. *)

From Stdlib Require Import ZArith Lia String.
From stdpp Require Import base list strings.
From S2P Require Import Prelude Framing Utf8 Errors Values Arguments Message JsonProtocol.
From S2P Require Import MsgPackFormat MsgPackParse MsgPackProtocol Brotli.
From S2P Require Import MessageBuffer Bus Dispatch Handshake Negotiate Retry Connection.
From S2P Require Import Runtime Client.

Local Open Scope Z_scope.

(** [HubConnectionConfig]; as in [ConnectionOptions], of an HTTP client only its presence. *)
Record HubConnectionConfig (W : Type) := {
  cf_base_url : string;
  cf_negotiate : NegotiateOptions;
  cf_handshake_request : HandshakeRequest;
  cf_handshake_version_override : option Z;
  cf_transfer_format : TransferFormat;
  cf_access_token_factory : option (AccessTokenFactory W);
  cf_handshake_timeout : Z;
  cf_hub_protocol : HubProtocol;
  cf_server_timeout : Z;
  cf_keep_alive_interval : Z;
  cf_reconnect_policy : option RetryPolicy;
  cf_stateful_reconnect_buffer_size : Z;
  cf_http_client : bool;
  cf_log_message_content : bool
}.
Arguments cf_base_url {W}.
Arguments cf_negotiate {W}.
Arguments cf_handshake_request {W}.
Arguments cf_handshake_version_override {W}.
Arguments cf_transfer_format {W}.
Arguments cf_access_token_factory {W}.
Arguments cf_handshake_timeout {W}.
Arguments cf_hub_protocol {W}.
Arguments cf_server_timeout {W}.
Arguments cf_keep_alive_interval {W}.
Arguments cf_reconnect_policy {W}.
Arguments cf_stateful_reconnect_buffer_size {W}.
Arguments cf_http_client {W}.
Arguments cf_log_message_content {W}.

(** [HubConnectionConfig::into_connection_options] *)
Definition into_connection_options {W} (c : HubConnectionConfig W) : ConnectionOptions W :=
  {| op_base_url := cf_base_url c; op_negotiate := cf_negotiate c;
     op_handshake_request := cf_handshake_request c;
     op_handshake_version_override := cf_handshake_version_override c;
     op_transfer_format := cf_transfer_format c;
     op_access_token_factory := cf_access_token_factory c;
     op_handshake_timeout := cf_handshake_timeout c; op_hub_protocol := cf_hub_protocol c;
     op_server_timeout := cf_server_timeout c; op_keep_alive_interval := cf_keep_alive_interval c;
     op_reconnect_policy := cf_reconnect_policy c;
     op_stateful_reconnect_buffer_size := cf_stateful_reconnect_buffer_size c;
     op_http_client := cf_http_client c; op_log_message_content := cf_log_message_content c |}.

(** [HubConnectionBuilder] *)
Record HubConnectionBuilder (W : Type) := {
  hb_config : HubConnectionConfig W;
  hb_handshake_timeout : Z
}.
Arguments hb_config {W}. Arguments hb_handshake_timeout {W}.

Definition on_config {W} (f : HubConnectionConfig W -> HubConnectionConfig W)
    (b : HubConnectionBuilder W) : HubConnectionBuilder W :=
  {| hb_config := f (hb_config b); hb_handshake_timeout := hb_handshake_timeout b |}.

Section builder.
Context `{JT : JsonText, MP : MsgPack, BD : BrotliDecoder} {W : Type}.

Local Abbreviation config := (HubConnectionConfig W).
Local Abbreviation builder := (HubConnectionBuilder W).

(** [default_hub_protocol], with the feature [messagepack], which is on by default. *)
Definition default_hub_protocol : HubProtocol := MessagePackProtocol.

(** [ConnectionOptions::new] *)
Definition connection_options_new (base_url : string) : ConnectionOptions W := {|
  op_base_url := base_url; op_negotiate := negotiate_options_default;
  op_handshake_request := {| hr_protocol := name default_hub_protocol;
                             hr_version := version default_hub_protocol |};
  op_handshake_version_override := None;
  op_transfer_format := transfer_format default_hub_protocol;
  op_handshake_timeout := DEFAULT_HANDSHAKE_TIMEOUT; op_access_token_factory := None;
  op_hub_protocol := default_hub_protocol; op_server_timeout := DEFAULT_SERVER_TIMEOUT;
  op_keep_alive_interval := DEFAULT_KEEP_ALIVE_INTERVAL; op_reconnect_policy := None;
  op_stateful_reconnect_buffer_size := DEFAULT_STATEFUL_RECONNECT_BUFFER_SIZE;
  op_http_client := false; op_log_message_content := false |}.

(** [HubConnectionBuilder::new] *)
Definition builder_new (url : string) : builder := {|
  hb_config := {|
    cf_base_url := url; cf_negotiate := negotiate_options_default;
    cf_handshake_request := {| hr_protocol := name default_hub_protocol;
                               hr_version := version default_hub_protocol |};
    cf_handshake_version_override := None;
    cf_transfer_format := transfer_format default_hub_protocol;
    cf_access_token_factory := None; cf_handshake_timeout := 15;
    cf_hub_protocol := default_hub_protocol; cf_server_timeout := DEFAULT_SERVER_TIMEOUT;
    cf_keep_alive_interval := DEFAULT_KEEP_ALIVE_INTERVAL; cf_reconnect_policy := None;
    cf_stateful_reconnect_buffer_size := DEFAULT_STATEFUL_RECONNECT_BUFFER_SIZE;
    cf_http_client := false; cf_log_message_content := false |};
  hb_handshake_timeout := 15 |}.

(** [with_stateful_reconnect] *)
Definition with_stateful_reconnect (enabled : bool) : builder -> builder :=
  on_config (fun c : config =>
  {| cf_base_url := cf_base_url c;
     cf_negotiate := {|
       no_negotiate_version := no_negotiate_version (cf_negotiate c); no_use_stateful_reconnect := enabled;
       no_headers := no_headers (cf_negotiate c); no_timeout := no_timeout (cf_negotiate c) |};
     cf_handshake_request := cf_handshake_request c;
     cf_handshake_version_override := cf_handshake_version_override c;
     cf_transfer_format := cf_transfer_format c;
     cf_access_token_factory := cf_access_token_factory c;
     cf_handshake_timeout := cf_handshake_timeout c; cf_hub_protocol := cf_hub_protocol c;
     cf_server_timeout := cf_server_timeout c; cf_keep_alive_interval := cf_keep_alive_interval c;
     cf_reconnect_policy := cf_reconnect_policy c;
     cf_stateful_reconnect_buffer_size := cf_stateful_reconnect_buffer_size c;
     cf_http_client := cf_http_client c; cf_log_message_content := cf_log_message_content c |}).

(** [with_stateful_reconnect_buffer_size] *)
Definition with_stateful_reconnect_buffer_size (size : Z) : builder -> builder :=
  on_config (fun c : config =>
  {| cf_base_url := cf_base_url c; cf_negotiate := cf_negotiate c;
     cf_handshake_request := cf_handshake_request c;
     cf_handshake_version_override := cf_handshake_version_override c;
     cf_transfer_format := cf_transfer_format c;
     cf_access_token_factory := cf_access_token_factory c;
     cf_handshake_timeout := cf_handshake_timeout c; cf_hub_protocol := cf_hub_protocol c;
     cf_server_timeout := cf_server_timeout c; cf_keep_alive_interval := cf_keep_alive_interval c;
     cf_reconnect_policy := cf_reconnect_policy c; cf_stateful_reconnect_buffer_size := size;
     cf_http_client := cf_http_client c; cf_log_message_content := cf_log_message_content c |}).

(** [with_reconnect_policy] *)
Definition with_reconnect_policy (policy : RetryPolicy) : builder -> builder :=
  on_config (fun c : config =>
  {| cf_base_url := cf_base_url c; cf_negotiate := cf_negotiate c;
     cf_handshake_request := cf_handshake_request c;
     cf_handshake_version_override := cf_handshake_version_override c;
     cf_transfer_format := cf_transfer_format c;
     cf_access_token_factory := cf_access_token_factory c;
     cf_handshake_timeout := cf_handshake_timeout c; cf_hub_protocol := cf_hub_protocol c;
     cf_server_timeout := cf_server_timeout c; cf_keep_alive_interval := cf_keep_alive_interval c;
     cf_reconnect_policy := Some policy;
     cf_stateful_reconnect_buffer_size := cf_stateful_reconnect_buffer_size c;
     cf_http_client := cf_http_client c; cf_log_message_content := cf_log_message_content c |}).

(** [with_automatic_reconnect] *)
Definition with_automatic_reconnect : builder -> builder :=
  with_reconnect_policy (next_retry_delay policy_default).

(** [with_header] *)
Definition with_header (header value : string) : builder -> builder :=
  on_config (fun c : config =>
  {| cf_base_url := cf_base_url c;
     cf_negotiate := {|
       no_negotiate_version := no_negotiate_version (cf_negotiate c);
       no_use_stateful_reconnect := no_use_stateful_reconnect (cf_negotiate c);
       no_headers := no_headers (cf_negotiate c) ++ [(header, value)];
       no_timeout := no_timeout (cf_negotiate c) |};
     cf_handshake_request := cf_handshake_request c;
     cf_handshake_version_override := cf_handshake_version_override c;
     cf_transfer_format := cf_transfer_format c;
     cf_access_token_factory := cf_access_token_factory c;
     cf_handshake_timeout := cf_handshake_timeout c; cf_hub_protocol := cf_hub_protocol c;
     cf_server_timeout := cf_server_timeout c; cf_keep_alive_interval := cf_keep_alive_interval c;
     cf_reconnect_policy := cf_reconnect_policy c;
     cf_stateful_reconnect_buffer_size := cf_stateful_reconnect_buffer_size c;
     cf_http_client := cf_http_client c; cf_log_message_content := cf_log_message_content c |}).

(** [with_handshake_protocol] *)
Definition with_handshake_protocol (protocol : string) (version : Z) : builder -> builder :=
  on_config (fun c : config =>
  {| cf_base_url := cf_base_url c; cf_negotiate := cf_negotiate c;
     cf_handshake_request :=
       {| hr_protocol := protocol; hr_version := hr_version (cf_handshake_request c) |};
     cf_handshake_version_override := Some version; cf_transfer_format := cf_transfer_format c;
     cf_access_token_factory := cf_access_token_factory c;
     cf_handshake_timeout := cf_handshake_timeout c; cf_hub_protocol := cf_hub_protocol c;
     cf_server_timeout := cf_server_timeout c; cf_keep_alive_interval := cf_keep_alive_interval c;
     cf_reconnect_policy := cf_reconnect_policy c;
     cf_stateful_reconnect_buffer_size := cf_stateful_reconnect_buffer_size c;
     cf_http_client := cf_http_client c; cf_log_message_content := cf_log_message_content c |}).

(** [with_hub_protocol] *)
Definition with_hub_protocol (protocol : HubProtocol) : builder -> builder :=
  on_config (fun c : config =>
  {| cf_base_url := cf_base_url c; cf_negotiate := cf_negotiate c;
     cf_handshake_request :=
       {| hr_protocol := name protocol; hr_version := hr_version (cf_handshake_request c) |};
     cf_handshake_version_override := None; cf_transfer_format := transfer_format protocol;
     cf_access_token_factory := cf_access_token_factory c;
     cf_handshake_timeout := cf_handshake_timeout c; cf_hub_protocol := protocol;
     cf_server_timeout := cf_server_timeout c; cf_keep_alive_interval := cf_keep_alive_interval c;
     cf_reconnect_policy := cf_reconnect_policy c;
     cf_stateful_reconnect_buffer_size := cf_stateful_reconnect_buffer_size c;
     cf_http_client := cf_http_client c; cf_log_message_content := cf_log_message_content c |}).

(** [with_json_protocol], [with_messagepack_protocol], [with_messagepack_brotli_protocol] *)
Definition with_json_protocol : builder -> builder := with_hub_protocol JsonProtocol.
Definition with_messagepack_protocol : builder -> builder := with_hub_protocol MessagePackProtocol.
Definition with_messagepack_brotli_protocol : builder -> builder :=
  with_hub_protocol MessagePackBrotliProtocol.

(** [with_transfer_format] *)
Definition with_transfer_format (format : TransferFormat) : builder -> builder :=
  on_config (fun c : config =>
  {| cf_base_url := cf_base_url c; cf_negotiate := cf_negotiate c;
     cf_handshake_request := cf_handshake_request c;
     cf_handshake_version_override := cf_handshake_version_override c;
     cf_transfer_format := format; cf_access_token_factory := cf_access_token_factory c;
     cf_handshake_timeout := cf_handshake_timeout c; cf_hub_protocol := cf_hub_protocol c;
     cf_server_timeout := cf_server_timeout c; cf_keep_alive_interval := cf_keep_alive_interval c;
     cf_reconnect_policy := cf_reconnect_policy c;
     cf_stateful_reconnect_buffer_size := cf_stateful_reconnect_buffer_size c;
     cf_http_client := cf_http_client c; cf_log_message_content := cf_log_message_content c |}).

(** [with_access_token_factory] *)
Definition with_access_token_factory (factory : AccessTokenFactory W) : builder -> builder :=
  on_config (fun c : config =>
  {| cf_base_url := cf_base_url c; cf_negotiate := cf_negotiate c;
     cf_handshake_request := cf_handshake_request c;
     cf_handshake_version_override := cf_handshake_version_override c;
     cf_transfer_format := cf_transfer_format c; cf_access_token_factory := Some factory;
     cf_handshake_timeout := cf_handshake_timeout c; cf_hub_protocol := cf_hub_protocol c;
     cf_server_timeout := cf_server_timeout c; cf_keep_alive_interval := cf_keep_alive_interval c;
     cf_reconnect_policy := cf_reconnect_policy c;
     cf_stateful_reconnect_buffer_size := cf_stateful_reconnect_buffer_size c;
     cf_http_client := cf_http_client c; cf_log_message_content := cf_log_message_content c |}).

(** [with_negotiate_timeout] *)
Definition with_negotiate_timeout (timeout : Z) : builder -> builder :=
  on_config (fun c : config =>
  {| cf_base_url := cf_base_url c;
     cf_negotiate := {|
       no_negotiate_version := no_negotiate_version (cf_negotiate c);
       no_use_stateful_reconnect := no_use_stateful_reconnect (cf_negotiate c);
       no_headers := no_headers (cf_negotiate c); no_timeout := timeout |};
     cf_handshake_request := cf_handshake_request c;
     cf_handshake_version_override := cf_handshake_version_override c;
     cf_transfer_format := cf_transfer_format c;
     cf_access_token_factory := cf_access_token_factory c;
     cf_handshake_timeout := cf_handshake_timeout c; cf_hub_protocol := cf_hub_protocol c;
     cf_server_timeout := cf_server_timeout c; cf_keep_alive_interval := cf_keep_alive_interval c;
     cf_reconnect_policy := cf_reconnect_policy c;
     cf_stateful_reconnect_buffer_size := cf_stateful_reconnect_buffer_size c;
     cf_http_client := cf_http_client c; cf_log_message_content := cf_log_message_content c |}).

(** [with_access_token]: the callback as a factory. *)
Definition with_access_token (callback : W -> result Error string * W) : builder -> builder :=
  with_access_token_factory callback.

(** [with_handshake_timeout] *)
Definition with_handshake_timeout (timeout : Z) (b : builder) : builder :=
  {| hb_config := hb_config b; hb_handshake_timeout := timeout |}.

(** [with_server_timeout] *)
Definition with_server_timeout (timeout : Z) : builder -> builder :=
  on_config (fun c : config =>
  {| cf_base_url := cf_base_url c; cf_negotiate := cf_negotiate c;
     cf_handshake_request := cf_handshake_request c;
     cf_handshake_version_override := cf_handshake_version_override c;
     cf_transfer_format := cf_transfer_format c;
     cf_access_token_factory := cf_access_token_factory c;
     cf_handshake_timeout := cf_handshake_timeout c; cf_hub_protocol := cf_hub_protocol c;
     cf_server_timeout := timeout; cf_keep_alive_interval := cf_keep_alive_interval c;
     cf_reconnect_policy := cf_reconnect_policy c;
     cf_stateful_reconnect_buffer_size := cf_stateful_reconnect_buffer_size c;
     cf_http_client := cf_http_client c; cf_log_message_content := cf_log_message_content c |}).

(** [with_keep_alive_interval] *)
Definition with_keep_alive_interval (interval : Z) : builder -> builder :=
  on_config (fun c : config =>
  {| cf_base_url := cf_base_url c; cf_negotiate := cf_negotiate c;
     cf_handshake_request := cf_handshake_request c;
     cf_handshake_version_override := cf_handshake_version_override c;
     cf_transfer_format := cf_transfer_format c;
     cf_access_token_factory := cf_access_token_factory c;
     cf_handshake_timeout := cf_handshake_timeout c; cf_hub_protocol := cf_hub_protocol c;
     cf_server_timeout := cf_server_timeout c; cf_keep_alive_interval := interval;
     cf_reconnect_policy := cf_reconnect_policy c;
     cf_stateful_reconnect_buffer_size := cf_stateful_reconnect_buffer_size c;
     cf_http_client := cf_http_client c; cf_log_message_content := cf_log_message_content c |}).

(** [with_http_client] *)
Definition with_http_client : builder -> builder := on_config (fun c : config =>
  {| cf_base_url := cf_base_url c; cf_negotiate := cf_negotiate c;
     cf_handshake_request := cf_handshake_request c;
     cf_handshake_version_override := cf_handshake_version_override c;
     cf_transfer_format := cf_transfer_format c;
     cf_access_token_factory := cf_access_token_factory c;
     cf_handshake_timeout := cf_handshake_timeout c; cf_hub_protocol := cf_hub_protocol c;
     cf_server_timeout := cf_server_timeout c; cf_keep_alive_interval := cf_keep_alive_interval c;
     cf_reconnect_policy := cf_reconnect_policy c;
     cf_stateful_reconnect_buffer_size := cf_stateful_reconnect_buffer_size c;
     cf_http_client := true; cf_log_message_content := cf_log_message_content c |}).

(** [with_log_message_content] *)
Definition with_log_message_content (enabled : bool) : builder -> builder :=
  on_config (fun c : config =>
  {| cf_base_url := cf_base_url c; cf_negotiate := cf_negotiate c;
     cf_handshake_request := cf_handshake_request c;
     cf_handshake_version_override := cf_handshake_version_override c;
     cf_transfer_format := cf_transfer_format c;
     cf_access_token_factory := cf_access_token_factory c;
     cf_handshake_timeout := cf_handshake_timeout c; cf_hub_protocol := cf_hub_protocol c;
     cf_server_timeout := cf_server_timeout c; cf_keep_alive_interval := cf_keep_alive_interval c;
     cf_reconnect_policy := cf_reconnect_policy c;
     cf_stateful_reconnect_buffer_size := cf_stateful_reconnect_buffer_size c;
     cf_http_client := cf_http_client c; cf_log_message_content := enabled |}).

(** [build]: the options of the connection and its initial state. *)
Definition build (b : builder) (w : W) : ConnectionOptions W * HubConnection W :=
  let c := hb_config b in
  (into_connection_options
     {| cf_base_url := cf_base_url c; cf_negotiate := cf_negotiate c;
        cf_handshake_request := cf_handshake_request c;
        cf_handshake_version_override := cf_handshake_version_override c;
        cf_transfer_format := cf_transfer_format c;
        cf_access_token_factory := cf_access_token_factory c;
        cf_handshake_timeout := hb_handshake_timeout b; cf_hub_protocol := cf_hub_protocol c;
        cf_server_timeout := cf_server_timeout c;
        cf_keep_alive_interval := cf_keep_alive_interval c;
        cf_reconnect_policy := cf_reconnect_policy c;
        cf_stateful_reconnect_buffer_size := cf_stateful_reconnect_buffer_size c;
        cf_http_client := cf_http_client c; cf_log_message_content := cf_log_message_content c |},
   hub_new w).

(** ** Uses of the builder *)

(** A call of one of the methods, [with_json_protocol] and its like being calls of
    [with_hub_protocol], and so on. *)
Inductive BuilderCall : Type :=
| WithStatefulReconnect (enabled : bool)
| WithStatefulReconnectBufferSize (size : Z)
| WithReconnectPolicy (policy : RetryPolicy)
| WithHeader (header value : string)
| WithHandshakeProtocol (protocol : string) (version : Z)
| WithHubProtocol (protocol : HubProtocol)
| WithTransferFormat (format : TransferFormat)
| WithAccessTokenFactory (factory : AccessTokenFactory W)
| WithNegotiateTimeout (timeout : Z)
| WithHandshakeTimeout (timeout : Z)
| WithServerTimeout (timeout : Z)
| WithKeepAliveInterval (interval : Z)
| WithHttpClient
| WithLogMessageContent (enabled : bool).

Definition call (b : builder) (c : BuilderCall) : builder :=
  match c with
  | WithStatefulReconnect enabled => with_stateful_reconnect enabled b
  | WithStatefulReconnectBufferSize size => with_stateful_reconnect_buffer_size size b
  | WithReconnectPolicy policy => with_reconnect_policy policy b
  | WithHeader header value => with_header header value b
  | WithHandshakeProtocol protocol version => with_handshake_protocol protocol version b
  | WithHubProtocol protocol => with_hub_protocol protocol b
  | WithTransferFormat format => with_transfer_format format b
  | WithAccessTokenFactory factory => with_access_token_factory factory b
  | WithNegotiateTimeout timeout => with_negotiate_timeout timeout b
  | WithHandshakeTimeout timeout => with_handshake_timeout timeout b
  | WithServerTimeout timeout => with_server_timeout timeout b
  | WithKeepAliveInterval interval => with_keep_alive_interval interval b
  | WithHttpClient => with_http_client b
  | WithLogMessageContent enabled => with_log_message_content enabled b
  end.

(** The options of a connection built with [calls]. *)
Definition built (url : string) (calls : list BuilderCall) (w : W) : ConnectionOptions W :=
  (build (fold_left call calls (builder_new url)) w).1.

(** What the last call that sets an option sets it to. *)
Definition last_of {A} (f : BuilderCall -> option A) (d : A) (calls : list BuilderCall) : A :=
  default d (last (omap f calls)).

(** The options that [calls] are meant to give. *)
Definition configured (url : string) (calls : list BuilderCall) : ConnectionOptions W :=
  let set {A} (f : BuilderCall -> option A) (d : A) := last_of f d calls in {|
  op_base_url := url;
  op_negotiate := {|
    no_negotiate_version := DEFAULT_NEGOTIATE_VERSION;
    no_use_stateful_reconnect :=
      set (fun c => match c with WithStatefulReconnect e => Some e | _ => None end) false;
    no_headers := omap (fun c => match c with WithHeader n v => Some (n, v) | _ => None end) calls;
    no_timeout := set (fun c => match c with WithNegotiateTimeout t => Some t | _ => None end) 100 |};
  op_handshake_request := {|
    hr_protocol := set (fun c => match c with
      | WithHubProtocol p => Some (name p) | WithHandshakeProtocol n _ => Some n | _ => None end)
      (name default_hub_protocol);
    hr_version := version default_hub_protocol |};
  op_handshake_version_override := set (fun c => match c with
    | WithHubProtocol _ => Some None | WithHandshakeProtocol _ v => Some (Some v) | _ => None end) None;
  op_transfer_format := set (fun c => match c with
    | WithHubProtocol p => Some (transfer_format p) | WithTransferFormat f => Some f | _ => None end)
    (transfer_format default_hub_protocol);
  op_handshake_timeout :=
    set (fun c => match c with WithHandshakeTimeout t => Some t | _ => None end) 15;
  op_access_token_factory :=
    set (fun c => match c with WithAccessTokenFactory f => Some (Some f) | _ => None end) None;
  op_hub_protocol :=
    set (fun c => match c with WithHubProtocol p => Some p | _ => None end) default_hub_protocol;
  op_server_timeout := set (fun c => match c with WithServerTimeout t => Some t | _ => None end)
    DEFAULT_SERVER_TIMEOUT;
  op_keep_alive_interval :=
    set (fun c => match c with WithKeepAliveInterval i => Some i | _ => None end)
    DEFAULT_KEEP_ALIVE_INTERVAL;
  op_reconnect_policy :=
    set (fun c => match c with WithReconnectPolicy p => Some (Some p) | _ => None end) None;
  op_stateful_reconnect_buffer_size :=
    set (fun c => match c with WithStatefulReconnectBufferSize s => Some s | _ => None end)
    DEFAULT_STATEFUL_RECONNECT_BUFFER_SIZE;
  op_http_client := set (fun c => match c with WithHttpClient => Some true | _ => None end) false;
  op_log_message_content :=
    set (fun c => match c with WithLogMessageContent e => Some e | _ => None end) false |}.

Lemma last_of_snoc {A} (f : BuilderCall -> option A) d calls c :
  last_of f d (calls ++ [c]) = default (last_of f d calls) (f c).
Proof.
  unfold last_of. rewrite omap_app. cbn. destruct (f c); cbn; [by rewrite last_snoc|by rewrite app_nil_r].
Qed.

Lemma built_configured url calls w : built url calls w = configured url calls.
Proof.
  unfold built. induction calls as [|c calls IH] using rev_ind; [done|].
  rewrite fold_left_app. cbn [fold_left]. set (b := fold_left _ _ _) in *.
  unfold configured in *. cbv zeta in *. rewrite !last_of_snoc, omap_app.
  unfold build, into_connection_options in *. cbn in IH.
  injection IH as E1 E2 E3 E4 E5 E6 E7 E8 E9 E10 E11 E12 E13 E14.
  destruct c; cbn -[omap]; rewrite ?E1, ?E2, ?E3, ?E4, ?E5, ?E6, ?E7, ?E8, ?E9, ?E10, ?E11, ?E12,
    ?E13, ?E14; cbn; by rewrite ?app_nil_r.
Qed.

(** C29: The last call wins: whatever methods are called in whatever order, the connection gets every
    option from the last call that concerns it, headers from all calls in order, and otherwise
    the default; selecting a protocol also selects its transfer format and its handshake name
    and withdraws an explicit handshake version. *)
Theorem builder_last_call_wins (url : string) (calls : list BuilderCall) (w : W) :
  build (fold_left call calls (builder_new url)) w = (configured url calls, hub_new w).
Proof. rewrite <- (built_configured url calls w). done. Qed.

(** Calls that set what a protocol determines to something else. *)
Definition overrides (c : BuilderCall) : bool :=
  match c with WithHandshakeProtocol _ _ | WithTransferFormat _ => true | _ => false end.
Definition selects (c : BuilderCall) : bool :=
  match c with WithHubProtocol _ => true | _ => false end.

(** The handshake announces the protocol that the connection speaks, and the connection sends in
    the format of that protocol. *)
Record options_ok (o : ConnectionOptions W) : Prop := {
  oo_name : hr_protocol (op_handshake_request o) = name (op_hub_protocol o);
  oo_format : op_transfer_format o = transfer_format (op_hub_protocol o);
  oo_version : op_handshake_version_override o = None
}.

Definition config_ok (b : builder) : Prop := forall w, options_ok (build b w).1.

Lemma call_keeps_ok b c : config_ok b -> overrides c = false -> config_ok (call b c).
Proof. intros Hok Hc w. destruct (Hok w). by destruct c; try done; split. Qed.

(** Nothing is overridden after the last selection of a protocol; a builder starts with one. *)
Definition undisturbed (calls : list BuilderCall) : bool :=
  fold_left (fun ok c => selects c || negb (overrides c) && ok) calls true.

Lemma calls_keep_ok calls : forall b ok, (ok = true -> config_ok b) ->
  fold_left (fun ok c => selects c || negb (overrides c) && ok) calls ok = true ->
  config_ok (fold_left call calls b).
Proof.
  induction calls as [|c calls IH]; intros b ok Hok; [exact Hok|]. cbn [fold_left]. apply IH.
  destruct (selects c) eqn:Hs; [intros _ w; by destruct c|]. cbn.
  intros [Hc%negb_true_iff Ho]%andb_true_iff. apply call_keeps_ok; auto.
Qed.

(** C28: A built connection is consistent: whatever methods are called, unless [with_handshake_protocol]
    or [with_transfer_format] is called after the last selection of a protocol (or at all, when
    none is selected), the connection speaks the protocol selected last, or MessagePack, the handshake
    announces it under its name and at the version that the use of stateful reconnect asks for,
    and messages are sent in its format. *)
Theorem built_options_consistent (url : string) (calls : list BuilderCall) (w : W) :
  undisturbed calls = true ->
  let o := built url calls w in
  let protocol := default MessagePackProtocol
    (last (omap (fun c => match c with WithHubProtocol p => Some p | _ => None end) calls)) in
  op_hub_protocol o = protocol /\ hr_protocol (op_handshake_request o) = name protocol /\
  op_transfer_format o = transfer_format protocol /\
  resolve_handshake_version (no_use_stateful_reconnect (op_negotiate o)) (version protocol)
      (op_handshake_version_override o) =
    if no_use_stateful_reconnect (op_negotiate o) then version protocol else LEGACY_HANDSHAKE_VERSION.
Proof.
  intros Hu. cbv zeta. set (protocol := default MessagePackProtocol _).
  assert (Hp : op_hub_protocol (built url calls w) = protocol) by (by rewrite built_configured).
  destruct (calls_keep_ok calls (builder_new url) true) with (w := w) as [Hname Hformat Hversion].
  - intros _ w'. by split.
  - exact Hu.
  - change ((build _ w).1) with (built url calls w) in *. rewrite Hp in *.
    by rewrite Hname, Hformat, Hversion.
Qed.

End builder.
