(* ===== verification/Usage.v ===== *)
(** * One caller ([start] and [close] of [src/hub_connection/mod.rs], [examples/connect.rs])

    [Lifecycle] cuts [start] and [close] at their waits, so that calls can interleave.  Here the
    pieces are put together again, for a program that makes one call after the other: what each
    call returns and leaves, that it is one of the runs of the system, and the example program
    that connects and disconnects. *)

From Stdlib Require Import ZArith Lia String.
From stdpp Require Import base list strings gmap relations.
From S2P Require Import Prelude Framing Utf8 Errors Values Arguments Message JsonProtocol.
From S2P Require Import MsgPackFormat MsgPackParse MsgPackProtocol Brotli.
From S2P Require Import MessageBuffer Link Bus Dispatch Handshake Negotiate Retry Connection.
From S2P Require Import Runtime Client Lifecycle Builder.

Section usage.
Context `{UL : UrlLib} `{HC : HttpClient W} `{SO : !Sockets W} `{HT : HandshakeText}
  (options : ConnectionOptions W).

Local Abbreviation hub := (HubConnection W).

(** [HubConnection::start]; [None] only if the negotiation runs out of fuel. *)
Definition start (h : hub) : option (result Error unit * hub) :=
  match start_check h with
  | Err e => Some (Err e, h)
  | Ok _ =>
      match start_connect options None (start_begin h) with
      | None => None
      | Some (inl e, h) => Some (Err e, h)
      | Some (inr r, h) => let '(r, _, h) := start_finish options r h in Some (r, h)
      end
  end.

(** [HubConnection::close]; [None]: it waits for another call of [close]. *)
Definition close (h : hub) : option (result Error unit * hub) :=
  match close_check h with
  | CloseReturns => Some (Ok tt, h)
  | CloseWaits => None
  | CloseProceeds => let '(r, _, h) := close_locked options (close_begin h) in Some (r, h)
  end.

(** What [start] does when it is allowed to. *)
Lemma start_allowed h : hc_state h = Disconnected -> exists r h1 h2,
  connect_runtime options None (start_begin h) = Some (r, h1) /\
  start_finish options r h1 = (r, false, h2) /\ start h = Some (r, h2) /\
  same_lifecycle (start_begin h) h1.
Proof.
  intros Hst. destruct (connect_runtime options None (start_begin h)) as [[r h1]|] eqn:Hc;
    [|by apply connect_runtime_total in Hc].
  pose proof (connect_runtime_same options None (start_begin h) r h1 Hc) as Hs.
  assert (Hcl : hc_closing h1 = false) by (destruct Hs as (_ & _ & _ & -> & _); done).
  exists r, h1, (start_finish options r h1).2. split_and!; [done| | |done].
  - unfold start_finish. rewrite Hcl. by destruct r as [[]|e].
  - unfold start, start_check, start_connect. rewrite decide_True by done.
    change (hc_closing (start_begin h)) with false. cbn iota. rewrite Hc. cbn.
    unfold start_finish. rewrite Hcl. by destruct r as [[]|e].
Qed.

(** A connect that succeeds stores a runtime. *)
Lemma connected_runtime (h h1 : hub) :
  connect_runtime options None h = Some (Ok tt, h1) -> is_Some (hc_runtime h1).
Proof.
  unfold connect_runtime. destruct (connect options _) as [[[c|e] net]|]; [|done..].
  intros [= Hr]. unfold start_runtime in Hr. repeat case_match; by simplify_eq.
Qed.

(** A call of [start] that has read the state, from there to its end: it writes the state, then
    takes the lock, connects and finishes. *)
Lemma start_begins (s : System) i : sys_calls s !! i = Some StartChecked ->
  system_step options s (put (start_begin (sys_hub s)) (sys_lock s) i StartLock s).
Proof. intros Hi. apply (sys_call_step options None i). unfold call_step. by rewrite Hi. Qed.

Lemma start_locked_runs (s : System) i r h1 : sys_lock s = None ->
  sys_calls s !! i = Some StartLock -> hc_closing (sys_hub s) = false ->
  connect_runtime options None (sys_hub s) = Some (r, h1) ->
  rtc (system_step options) s {| sys_hub := (start_finish options r h1).2; sys_lock := None;
                sys_calls := <[i := StartDone r]> (sys_calls s) |}.
Proof.
  intros Hlock Hi Hopen Hc.
  assert (Hcl : hc_closing h1 = false)
    by (destruct (connect_runtime_same options None _ r h1 Hc) as (_ & _ & _ & -> & _); done).
  assert (Hfin : start_finish options r h1 = (r, false, (start_finish options r h1).2))
    by (unfold start_finish; rewrite Hcl; by destruct r as [[]|e]).
  assert (Hput : forall c, <[i := c]> (sys_calls s) !! i = Some c)
    by (intros c; apply list_lookup_insert_eq; by eapply lookup_lt_Some).
  eapply rtc_l; [apply (sys_call_step options None i); unfold call_step;
    rewrite Hi, Hlock; unfold start_connect; rewrite Hopen, Hc; done|].
  eapply rtc_l; [apply (sys_call_step options None i); unfold call_step; cbn [put sys_hub sys_lock sys_calls];
    rewrite Hput, Hfin; done|].
  unfold finish. cbn [put sys_calls]. by rewrite list_insert_insert_eq.
Qed.

Lemma start_checked_runs (s : System) i r h1 : sys_lock s = None ->
  sys_calls s !! i = Some StartChecked ->
  connect_runtime options None (start_begin (sys_hub s)) = Some (r, h1) ->
  rtc (system_step options) s {| sys_hub := (start_finish options r h1).2; sys_lock := None;
                sys_calls := <[i := StartDone r]> (sys_calls s) |}.
Proof.
  intros Hlock Hi Hc. eapply rtc_l; [by apply start_begins|].
  rewrite <- (list_insert_insert_eq (sys_calls s) i (StartDone r) StartLock).
  apply (start_locked_runs (put _ _ i StartLock s)); [done| |done|done].
  apply list_lookup_insert_eq. by eapply lookup_lt_Some.
Qed.

(** A call that is made alone is a run of the system in which only that call goes on. *)
Lemma start_runs (s : System) r h' : sys_lock s = None -> start (sys_hub s) = Some (r, h') ->
  rtc (system_step options) s
    {| sys_hub := h'; sys_lock := None; sys_calls := sys_calls s ++ [StartDone r] |}.
Proof.
  intros Hlock Hstart. eapply rtc_l; [apply sys_call_start|]. unfold call_start, start_check.
  destruct (decide (hc_state (sys_hub s) = Disconnected)) as [Hst|Hst].
  - destruct (start_allowed _ Hst) as (r' & h1 & h2 & Hc & Hf & Heq & _).
    rewrite Heq in Hstart. injection Hstart as -> ->.
    set (s' := {| sys_hub := _ |}).
    pose proof (start_checked_runs s' (length (sys_calls s)) r h1 Hlock (list_lookup_middle _ [] _ _ eq_refl) Hc) as H.
    rewrite Hf in H. cbn [snd s' sys_calls] in H. rewrite insert_app_r_alt in H by lia.
    by rewrite Nat.sub_diag in H.
  - unfold start, start_check in *. rewrite decide_False in * by done. injection Hstart as <- <-. by rewrite Hlock.
Qed.

(** For [close], the calls that waited are notified when it succeeds. *)
Lemma close_runs (s : System) r h' : sys_lock s = None -> close (sys_hub s) = Some (r, h') ->
  exists calls, rtc (system_step options) s {| sys_hub := h'; sys_lock := None; sys_calls := calls |} /\
    last calls = Some (CloseDone r).
Proof.
  intros Hlock Hclose. set (n := length (sys_calls s)).
  assert (Hput : forall c c', <[n := c']> (sys_calls s ++ [c]) = sys_calls s ++ [c']).
  { intros c c'. unfold n. rewrite insert_app_r_alt by lia. by rewrite Nat.sub_diag. }
  assert (Hlook : forall c, (sys_calls s ++ [c]) !! n = Some c) by (intros c; by apply list_lookup_middle).
  unfold close in Hclose. destruct (close_check (sys_hub s)) eqn:Hc; [|done|].
  - injection Hclose as <- <-. eexists. split; [|by apply last_snoc].
    eapply rtc_l; [apply sys_call_close|]. unfold call_close. rewrite Hc.
    eapply rtc_l; [apply (sys_call_step options None n); unfold call_step; cbn [sys_hub sys_lock sys_calls];
      by rewrite Hlook|].
    unfold put. cbn [sys_hub sys_lock sys_calls]. rewrite Hput, Hlock. done.
  - destruct (close_locked options (close_begin (sys_hub s))) as [[r' notified] h2] eqn:Hl.
    injection Hclose as -> ->.
    exists ((if notified then map notify else id) (sys_calls s ++ [CloseDone r])). split.
    2: { destruct notified; [rewrite map_app|]; apply last_snoc. }
    eapply rtc_l; [apply sys_call_close|]. unfold call_close. rewrite Hc.
    eapply rtc_l; [apply (sys_call_step options None n); unfold call_step; cbn [sys_hub sys_lock sys_calls];
      by rewrite Hlook|].
    unfold put. cbn [sys_hub sys_lock sys_calls]. rewrite Hput, Hlock.
    eapply rtc_l; [apply (sys_call_step options None n); unfold call_step; cbn [sys_hub sys_lock sys_calls];
      rewrite Hlook, Hl; done|].
    unfold finish. cbn [sys_hub sys_lock sys_calls]. by rewrite Hput.
Qed.

(** A start that succeeds leaves a connection that is up, and then [close] returns. *)
Lemma start_ok_close_returns h r h1 : hc_state h = Disconnected -> start h = Some (Ok r, h1) ->
  is_Some (close h1).
Proof.
  intros Hst Hs. destruct (start_allowed h Hst) as (r' & h' & h2 & _ & Hf & Heq & (_ & _ & _ & Hcl & _)).
  rewrite Heq in Hs. injection Hs as -> ->. unfold start_finish in Hf. rewrite Hcl in Hf.
  change (hc_closing (start_begin h)) with false in Hf. cbn iota in Hf.
  injection Hf as Hh1. assert (Hst1 : hc_state h1 = Connected) by (by subst h1).
  unfold close, close_check. rewrite Hst1.
  destruct (close_locked options _) as [[r' n] h2]. by eexists.
Qed.

(** A session: starting a disconnected connection always returns; when it fails the connection is
    disconnected as before and can be started again, when it succeeds the connection is up, and
    closing it then returns: with everything reset, each closed callback called once more, and the
    connection ready for another start, or with the transport's error and a connection that can
    neither be started nor closed. *)
Theorem session_spec (h : hub) : hc_state h = Disconnected -> exists r h1, start h = Some (r, h1) /\
  match r with
  | Err _ => hc_state h1 = Disconnected /\ hc_runtime h1 = None /\ hc_lifecycle h1 = hc_lifecycle h /\
      start_check h1 = Ok tt
  | Ok _ => hc_state h1 = Connected /\ hc_supervisor h1 = Some SupWaiting /\ is_Some (hc_runtime h1) /\
      exists r' h2, close h1 = Some (r', h2) /\ hc_runtime h2 = None /\ pending (hc_bus h2) = ∅ /\
        match r' with
        | Ok _ => hc_state h2 = Disconnected /\ start_check h2 = Ok tt /\ close h2 = Some (Ok tt, h2) /\
            lc_called (hc_lifecycle h2) =
              lc_called (hc_lifecycle h) ++ map (fun c => (c, OnClosed None)) (lc_closed (hc_lifecycle h))
        | Err _ => hc_state h2 = Disconnecting /\ is_ok (start_check h2) = false /\ close h2 = None
        end
  end.
Proof.
  intros Hst. destruct (start_allowed h Hst) as (r & h1 & h2 & Hc & Hf & Hs & (Hst1 & Hsup & Hlc & Hcl & _)).
  exists r, h2. split; [done|]. destruct r as [[]|e].
  - unfold start_finish in Hf. rewrite Hcl in Hf. change (hc_closing (start_begin h)) with false in Hf.
    injection Hf as <-. split_and!; [done|done| |].
    + exact (connected_runtime _ _ Hc).
    + set (h2 := set_supervisor _ _). unfold close. change (close_check h2) with CloseProceeds. cbn iota.
      unfold close_locked. pose proof (shutdown_spec options None (close_begin h2)) as Hsd.
      destruct (shutdown_active_connection options None (close_begin h2)) as [[r' nt] h3].
      exists r', h3. destruct Hsd as (_ & Hp & Hrt & _ & Hsd). split_and!; [done..|].
      destruct r' as [[]|e].
      * destruct Hsd as (_ & Hst3 & _ & _ & _ & Hl3). unfold start_check, close, close_check.
        rewrite Hst3. split_and!; [done..|]. rewrite Hl3. unfold invoke_closed. cbn. by rewrite Hlc.
      * destruct Hsd as (_ & Hst3 & _). unfold start_check, close, close_check. by rewrite Hst3.
  - unfold start_finish in Hf. injection Hf as <-. split_and!; done.
Qed.

End usage.

(** ** [examples/connect.rs] *)

Section example.
Context `{MP : MsgPack, BD : BrotliDecoder}.
Context `{UL : UrlLib} `{HC : HttpClient W} `{SO : !Sockets W} `{HT : HandshakeText}.

(** [main] up to the connection: the environment gives the URL and the token. *)
Definition example_connection (env : string -> option string) (w : W)
    : result string (ConnectionOptions W * HubConnection W) :=
  url ← ok_or (env "SIGNALR_URL"%string) "SIGNALR_URL must be set"%string;
  let token := default EmptyString (env "ACCESS_TOKEN"%string) in
  Ok (build (with_access_token (fun w => (Ok token, w)) (builder_new url)) w).

(** [main]: the connection id it prints, or the error it ends with; [None] if it does not end. *)
Definition example_main (env : string -> option string) (w : W)
    : option (result string (option string) * W) :=
  match example_connection env w with
  | Err e => Some (Err e, w)
  | Ok (options, connection) =>
      match start options connection with
      | None => None
      | Some (Err e, h) => Some (Err (error_text e), ns_world (hc_net h))
      | Some (Ok _, h) =>
          let printed := hc_connection_id h in
          match close options h with
          | None => None
          | Some (Err e, h) => Some (Err (error_text e), ns_world (hc_net h))
          | Some (Ok _, h) => Some (Ok printed, ns_world (hc_net h))
          end
      end
  end.

(** The program ends, whatever the server does: with the id it printed or with an error, and
    without a URL in the environment it touches nothing. *)
Lemma example_ends env w : exists r w', example_main env w = Some (r, w') /\
  (env "SIGNALR_URL"%string = None -> r = Err "SIGNALR_URL must be set"%string /\ w' = w).
Proof.
  unfold example_main, example_connection.
  destruct (env "SIGNALR_URL"%string) as [u|]; [|by eexists _, _]. cbn [ok_or mbind result_bind].
  destruct (build _ w) as [options connection] eqn:Hb.
  assert (Hst : hc_state connection = Disconnected) by (injection Hb as _ <-; done).
  destruct (start_allowed options connection Hst) as (r & _ & h1 & _ & _ & Hs & _). rewrite Hs.
  destruct r as [[]|e]; [|by eexists _, _].
  destruct (start_ok_close_returns options connection () h1 Hst Hs) as [[r' h2] ->].
  destruct r' as [[]|e]; by eexists _, _.
Qed.

End example.
