(* ===== verification/Starts.v ===== *)
(** * Calls of [start] that overlap ([HubConnection::start])

    [start] reads the state under a lock that it gives back before it writes the state, so two
    calls can both find the connection disconnected.  The calls then connect one after the other.
    Here is what the second does to the connection that the first one made. *)

From Stdlib Require Import ZArith Lia String.
From stdpp Require Import base list strings gmap relations.
From S2P Require Import Prelude Framing Errors Values Arguments Message JsonProtocol.
From S2P Require Import MessageBuffer Bus Dispatch Handshake Negotiate Retry Connection.
From S2P Require Import Runtime Client Lifecycle Usage.

Section starts.
Context `{UL : UrlLib} `{HC : HttpClient W} `{SO : !Sockets W} `{HT : HandshakeText}
  (options : ConnectionOptions W).

Local Abbreviation hub := (HubConnection W).
Local Abbreviation step := (system_step options).

(** The connection once [start] has finished with it. *)
Definition up (h : hub) : hub := (start_finish options (Ok tt) h).2.

(** What the hub had as its runtime has no part in a connect: nothing closes it. *)
Lemma connect_ignores_runtime rt (h : hub) : exists r h1,
  connect_runtime options None h = Some (r, h1) /\
  exists h2, connect_runtime options None (set_runtime rt h) = Some (r, h2) /\
    hc_net h2 = hc_net h1 /\ (is_ok r = true -> hc_runtime h2 = hc_runtime h1).
Proof.
  unfold connect_runtime. change (hc_net (set_runtime rt h)) with (hc_net h).
  destruct (connect_total options (hc_net h)) as (r & net & ->). destruct r as [c|e];
    [|by eexists _, _; split; [done|]; eexists].
  set (k := set_identity _ _ _ (use_connection_buffer c (set_net net h))).
  set (k' := set_identity _ _ _ (use_connection_buffer c (set_net net (set_runtime rt h)))).
  assert (Hb : hc_message_buffer k' = hc_message_buffer k /\ hc_net k' = hc_net k /\
               hc_buffers k' = hc_buffers k).
  { subst k k'. unfold use_connection_buffer, on_buffer. cbn.
    by destruct (co_resume c), (hc_message_buffer h). }
  clearbody k k'. destruct Hb as (Hm & Hn & Hbs). unfold start_runtime. rewrite Hm, Hn, Hbs.
  assert (Hw : forall w, hc_net (Client.set_world w k') = hc_net (Client.set_world w k))
    by (intros w; cbn; by rewrite Hn).
  destruct (runtime_start _ _ _ _) as [rt'|e].
  2: { eexists _, _. split; [done|]. eexists. split; [done|]. by rewrite Hw. }
  destruct (send_initial_ping rt' _) as [[[]|e] w].
  - eexists _, _. split; [done|]. eexists. split; [done|]. split; [exact (Hw w)|done].
  - destruct (runtime_shutdown _ rt' _ w) as [[r bs] w']. eexists _, _. split; [done|].
    eexists. split; [done|]. split; [|done]. cbn. by rewrite Hn.
Qed.


(** Two calls read the state of a disconnected connection. *)
Lemma both_checked (s : System) : hc_state (sys_hub s) = Disconnected ->
  rtc step s {| sys_hub := sys_hub s; sys_lock := sys_lock s;
                sys_calls := sys_calls s ++ [StartChecked; StartChecked] |}.
Proof.
  intros Hst. assert (Hcheck : start_check (sys_hub s) = Ok tt) by (unfold start_check; by rewrite decide_True).
  eapply rtc_l; [apply sys_call_start|]. eapply rtc_l; [apply sys_call_start|].
  unfold call_start. cbn [sys_hub sys_lock sys_calls]. rewrite Hcheck, <- app_assoc. done.
Qed.

(** How [start] leaves the hub after its connect. *)
Lemma finished (r : result Error unit) (h h1 : hub) : connect_runtime options None (start_begin h) = Some (r, h1) ->
  let k := (start_finish options r h1).2 in
  hc_net k = hc_net h1 /\ hc_runtime k = (if is_ok r then hc_runtime h1 else None) /\
  hc_state k = (if is_ok r then Connected else Disconnected) /\
  lc_called (hc_lifecycle k) = lc_called (hc_lifecycle h).
Proof.
  intros Hc. destruct (connect_runtime_same options None _ r h1 Hc) as (_ & _ & Hl & Hcl & _).
  unfold start_finish. rewrite Hcl. change (hc_closing (start_begin h)) with false.
  change (hc_lifecycle (start_begin h)) with (hc_lifecycle h) in Hl.
  destruct r as [[]|e]; cbn; by rewrite Hl.
Qed.

(** C14: A start that succeeded is undone by another one: two calls of [start] both find the
    connection disconnected, and the second writes the state only after the first has returned
    [Ok].  The connection that was up is then taken for one that is being made, so that calls of
    hub methods fail; the second call connects as if there were no other runtime, whose transport
    it neither closes nor uses again, and when it fails the connection is disconnected with its
    runtime forgotten, without a call of any callback. *)
Theorem overlapping_starts (s : System) (h1 h2 : hub) (r : result Error unit) :
  sys_lock s = None -> hc_state (sys_hub s) = Disconnected ->
  connect_runtime options None (start_begin (sys_hub s)) = Some (Ok tt, h1) ->
  connect_runtime options None (start_begin (up h1)) = Some (r, h2) ->
  let i := length (sys_calls s) in
  exists s1 s' s2, rtc step s s1 /\ step s1 s' /\ rtc step s' s2 /\
    (sys_calls s1 !! i = Some (StartDone (Ok tt)) /\ hc_state (sys_hub s1) = Connected /\
     is_Some (hc_runtime (sys_hub s1))) /\
    (sys_calls s2 !! i = Some (StartDone (Ok tt)) /\ sys_calls s2 !! S i = Some (StartDone r) /\
     lc_called (hc_lifecycle (sys_hub s2)) = lc_called (hc_lifecycle (sys_hub s))) /\
    (forall method arguments, (invoke options method arguments (sys_hub s')).1 = Err ENotConnected) /\
    (exists h3, connect_runtime options None (set_runtime None (sys_hub s')) = Some (r, h3) /\
       hc_net (sys_hub s2) = hc_net h3 /\ hc_runtime (sys_hub s2) = if is_ok r then hc_runtime h3 else None) /\
    hc_state (sys_hub s2) = if is_ok r then Connected else Disconnected.
Proof.
  intros Hlock Hst Hc1 Hc2 i.
  destruct (finished _ _ _ Hc1) as (_ & Hrt1 & Hst1 & Hl1), (finished _ _ _ Hc2) as (Hn2 & Hrt2 & Hst2 & Hl2).
  set (s0 := {| sys_hub := sys_hub s; sys_lock := sys_lock s;
                sys_calls := sys_calls s ++ [StartChecked; StartChecked] |}).
  assert (Hi : sys_calls s0 !! i = Some StartChecked) by (by apply list_lookup_middle).
  pose proof (start_checked_runs options s0 i (Ok tt) h1 Hlock Hi Hc1) as Hr1. fold (up h1) in Hr1, Hst1, Hrt1, Hl1.
  set (s1 := {| sys_hub := up h1 |}) in Hr1.
  assert (Hj : sys_calls s1 !! S i = Some StartChecked).
  { cbn. rewrite list_lookup_insert_ne by lia. rewrite lookup_app_r by (unfold i; lia).
    unfold i. by rewrite Nat.sub_succ_l, Nat.sub_diag by lia. }
  assert (Hi1 : sys_calls s1 !! i = Some (StartDone (Ok tt))).
  { cbn. apply list_lookup_insert_eq. by eapply lookup_lt_Some. }
  pose proof (start_begins options s1 (S i) Hj) as Hb. set (s' := put _ _ _ _ _) in Hb.
  assert (Hj' : sys_calls s' !! S i = Some StartLock)
    by (apply list_lookup_insert_eq; by eapply lookup_lt_Some).
  pose proof (start_locked_runs options s' (S i) r h2 eq_refl Hj' eq_refl Hc2) as Hr2.
  eexists s1, s', _. split; [etrans; [by apply both_checked|exact Hr1]|]. split; [exact Hb|].
  split; [exact Hr2|]. cbn [sys_hub sys_calls]. split_and!; [done|done| | | | | | |done].
  - cbn. rewrite Hrt1. cbn. by eapply connected_runtime.
  - cbn [s' put sys_calls]. by rewrite !list_lookup_insert_ne by lia.
  - apply list_lookup_insert_eq. by eapply lookup_lt_Some.
  - by rewrite Hl2, Hl1.
  - intros method arguments. done.
  - destruct (connect_ignores_runtime None (start_begin (up h1))) as (r' & h' & Hc & h3 & Hc3 & Hn & Hrt).
    rewrite Hc2 in Hc. injection Hc as <- <-. exists h3. split; [done|]. rewrite Hn2, Hn, Hrt2. split; [done|].
    destruct (is_ok r); [|done]. by rewrite Hrt.
Qed.

(** A runtime that nobody shuts down: when the connection is lost and there is no policy, or the
    server forbids to reconnect, the supervisor leaves the runtime in place.  [close] returns
    without looking at it, and the next [start] connects as if it were not there, so that it is
    dropped with its keepalive task still in its loop ([Runtime.dropped_runtime_spins]). *)
Lemma lost_runtime_left (h : hub) info now :
  hc_closing h = false -> hc_resume h = None \/ ci_transport_dropped info = false ->
  op_reconnect_policy options = None \/ ci_allow_reconnect info = Some false ->
  let h' := supervisor_closed options info now h in
  hc_state h' = Disconnected /\ hc_runtime h' = hc_runtime h /\ close options h' = Some (Ok tt, h') /\
  exists r h1 h2, start options h' = Some (r, h1) /\ start options (set_runtime None h') = Some (r, h2) /\
    hc_net h2 = hc_net h1.
Proof.
  intros Hcl Hres Hpol h'.
  assert (Hh : h' = abandon (ci_error info) (set_bus (cancel_all_pending
    (default INVOCATION_CANCELED_MESSAGE (ci_error info)) (hc_bus h)) h)).
  { subst h'. unfold supervisor_closed. rewrite Hcl.
    replace (match ci_transport_dropped info with true => _ | false => _ end)
      with (begin_reconnect options info now h) by (destruct Hres as [-> | ->]; [by destruct (ci_transport_dropped info)|done]).
    unfold begin_reconnect. destruct Hpol as [->|Hf]; [done|].
    destruct (op_reconnect_policy options); [|done]. by rewrite decide_True. }
  clearbody h'. subst h'. set (k := abandon _ _). split_and!; [done|done|done|].
  destruct (connect_ignores_runtime None (start_begin k)) as (r & h1 & Hc & h2 & Hc2 & Hn & _).
  destruct (start_allowed options k eq_refl) as (r1 & k1 & k1' & Hk1 & Hf1 & Hs1 & _).
  destruct (start_allowed options (set_runtime None k) eq_refl) as (r2 & k2 & k2' & Hk2 & Hf2 & Hs2 & _).
  change (start_begin (set_runtime None k)) with (set_runtime None (start_begin k)) in Hk2.
  rewrite Hk1 in Hc. injection Hc as -> ->. rewrite Hk2 in Hc2. injection Hc2 as -> ->.
  exists r, k1', k2'. split_and!; [done|done|].
  destruct (finished _ _ _ Hk1) as (Hn1 & _), (finished _ (set_runtime None k) _ Hk2) as (Hn2 & _).
  rewrite Hf1 in Hn1. rewrite Hf2 in Hn2. cbn in Hn1, Hn2. congruence.
Qed.

End starts.
