(* ===== verification/Pieces.v ===== *)
(** * Inside a reconnect attempt ([reconnect_once], the inner loop of [spawn_supervisor])

    [Lifecycle] makes an attempt of the supervisor one step.  Here it is cut where other tasks can
    run: the check of the loop, the connect, the preparation of the runtime with its first ping,
    the store of the runtime, the report.  Without anything in between the pieces are the attempt.
    A [close] in between aborts the task of the supervisor, but an abort takes effect only when the
    task has to wait: between the first ping and the report it does not, so the pieces that are
    left are done. *)

From Stdlib Require Import ZArith Lia String.
From stdpp Require Import base list strings gmap relations.
From S2P Require Import Prelude Framing Errors Values Arguments Message JsonProtocol.
From S2P Require Import MessageBuffer Bus Dispatch Handshake Negotiate Retry Connection.
From S2P Require Import Runtime Client Lifecycle Reuse Reconnect Usage.

Section pieces.
Context `{UL : UrlLib} `{HC : HttpClient W} `{SO : !Sockets W} `{HT : HandshakeText}
  (options : ConnectionOptions W).

Local Abbreviation hub := (HubConnection W).
Local Abbreviation world h := (ns_world (hc_net h)).

(** The checks of the inner loop. *)
Definition attempt_check (h : hub) : bool :=
  negb (hc_closing h) && negb (hc_stop_reconnect h) && bool_decide (hc_state h = Reconnecting).

(** [Connection::connect] *)
Definition attempt_connect (h : hub) : option (result Error Connection * hub) :=
  '(r, net) ← connect options (hc_net h); Some (r, set_net net h).

(** What [reconnect_once] does with the connection, up to the first ping. *)
Definition attempt_prepare (c : Connection) (h : hub) : result Error HubRuntime * hub :=
  let h := use_connection_buffer c h in
  let h := set_identity (co_connection_id c) (hc_remaining_handshake_data h) (hc_initial_messages h) h in
  match runtime_start (co_transport c) (op_hub_protocol options) (op_transfer_format options)
          (hc_message_buffer h) with
  | Err e => (Err e, Client.set_world (transport_close (co_transport c) (world h)).2 h)
  | Ok rt =>
      match send_initial_ping rt (world h) with
      | (Err e, w) =>
          let '(_, buffers, w) := runtime_shutdown (op_stateful_reconnect_buffer_size options) rt (hc_buffers h) w in
          (Err e, Client.set_world w (set_buffers buffers h))
      | (Ok _, w) => (Ok rt, Client.set_world w h)
      end
  end.

(** [*runtime.write().await = Some(hub_runtime)] *)
Definition attempt_store (rt : HubRuntime) (h : hub) : hub := set_runtime (Some rt) h.

(** The branch of a success; a task that was aborted ends before it waits for events again. *)
Definition attempt_report (aborted : bool) (h : hub) : hub :=
  let h := set_state Connected h in
  let h := set_lifecycle (invoke_reconnected (hc_connection_id h) (hc_lifecycle h)) h in
  if aborted then h else set_supervisor (Some SupWaiting) h.

(** The rest of the loop after a failure. *)
Definition attempt_failed (now : Z) (attempt : nat) (started : Z) (error : Error) (h : hub) : hub :=
  let retry_reason := error_text error in
  match op_reconnect_policy options with
  | None => h
  | Some policy =>
      match policy {| rc_elapsed := now - started; rc_previous_retry_count := attempt;
                      rc_retry_reason := retry_reason |} with
      | None => abandon (Some retry_reason) h
      | Some _ => set_supervisor (Some (SupSleeping (S attempt) started retry_reason)) h
      end
  end.

(** The attempt, piece by piece. *)
Definition attempt_pieces (now : Z) (attempt : nat) (started : Z) (h : hub) : option hub :=
  if attempt_check h then
    '(r, h) ← attempt_connect h;
    match r with
    | Err e => Some (attempt_failed now attempt started e h)
    | Ok c =>
        let '(r, h) := attempt_prepare c h in
        match r with
        | Err e => Some (attempt_failed now attempt started e h)
        | Ok rt => Some (attempt_report false (attempt_store rt h))
        end
    end
  else Some (set_supervisor (Some SupWaiting) h).

(** Without anything in between they are the attempt of [Lifecycle]. *)
Lemma attempt_pieces_spec now attempt started h :
  attempt_pieces now attempt started h = supervisor_attempt options now attempt started h.
Proof.
  unfold attempt_pieces, supervisor_attempt, attempt_check. rewrite <- !negb_orb.
  destruct (hc_closing h), (hc_stop_reconnect h), (bool_decide _); try done. cbn [negb andb orb].
  assert (Hfail : forall e k, Some (attempt_failed now attempt started e k) =
    match op_reconnect_policy options with
    | None => Some k
    | Some policy =>
        match policy {| rc_elapsed := now - started; rc_previous_retry_count := attempt;
                        rc_retry_reason := error_text e |} with
        | None => Some (abandon (Some (error_text e)) k)
        | Some _ => Some (set_supervisor (Some (SupSleeping (S attempt) started (error_text e))) k)
        end
    end).
  { intros e k. unfold attempt_failed. by destruct (op_reconnect_policy options) as [policy|]; [destruct (policy _)|]. }
  unfold attempt_connect, reconnect_once.
  destruct (connect options (hc_net h)) as [[[c|e] net]|]; [|apply Hfail|done]. cbn [mbind option_bind].
  unfold attempt_prepare, start_runtime. cbn zeta.
  destruct (runtime_start _ _ _ _) as [rt|e]; [|apply Hfail].
  destruct (send_initial_ping rt _) as [[[]|e] w]; [done|].
  destruct (runtime_shutdown _ rt _ w) as [[? ?] ?]. apply Hfail.
Qed.

Lemma attempt_prepare_same c h : same_lifecycle h (attempt_prepare c h).2 /\
  hc_runtime (attempt_prepare c h).2 = hc_runtime h.
Proof.
  unfold attempt_prepare. set (k := set_identity _ _ _ _).
  assert (Hk : same_lifecycle h k /\ hc_runtime k = hc_runtime h).
  { subst k. split; [exact (use_connection_buffer_same c h)|].
    unfold use_connection_buffer, on_buffer. by destruct (co_resume c), (hc_message_buffer h). }
  clearbody k. destruct (runtime_start _ _ _ _) as [rt|e]; [|exact Hk].
  destruct (send_initial_ping rt _) as [[[]|e] w]; [exact Hk|].
  destruct (runtime_shutdown _ rt _ w) as [[? ?] ?]. exact Hk.
Qed.

End pieces.
