(* ===== verification/Session.v ===== *)
(** * A connection as its user sees it

    The abstract machine of a [HubConnection]: its phases, the steps between them, and what each
    step tells the lifecycle callbacks.  For a program whose calls of [start] and [close] do not
    overlap, the connection with its supervisor, its hub calls and what arrives for it implements
    this machine.  A [close] may come before and after a step of the supervisor, and also in the
    midst of a reconnect attempt ([Pieces]); the machine has a phase for what such a close leaves
    behind.  What the supervisor does when a transport is lost, up to its first wait for the retry
    delay, stays one step. *)

From Stdlib Require Import ZArith Lia String.
From stdpp Require Import base list strings gmap relations.
From S2P Require Import Prelude Framing Errors Values Arguments Message JsonProtocol.
From S2P Require Import MessageBuffer Bus Dispatch Handshake Negotiate Retry Connection.
From S2P Require Import Runtime Client Lifecycle Reuse Reconnect Usage Pieces.

(** ** The specification *)

(** [Unwatched]: up, but the supervisor has ended; [Overtaken]: a reconnect attempt has finished
    after a [close] ([announced] when that close failed, so that nobody was told of it);
    [Wedged]: a close has failed. *)
Inductive Phase : Type :=
| Idle
| Up
| Unwatched
| Retrying (attempt : nat)
| Overtaken (announced : bool)
| Wedged.

(** The callbacks have been told of a connection, and not of its end. *)
Definition announced (ph : Phase) : bool :=
  match ph with
  | Idle | Wedged => false
  | Up | Unwatched | Retrying _ => true
  | Overtaken announced => announced
  end.

(** A phase with a transport that can fail to close. *)
Definition has_transport (ph : Phase) : bool :=
  match ph with Up | Unwatched | Overtaken _ => true | _ => false end.

(** A step, with what the callbacks are told. *)
Inductive phase_step : Phase -> list LifecycleEvent -> Phase -> Prop :=
| ph_stay ph : phase_step ph [] ph
| ph_start : phase_step Idle [] Up
| ph_close ph : announced ph = true -> phase_step ph [OnClosed None] Idle
| ph_close_again : phase_step (Overtaken false) [] Idle
| ph_close_failed ph : has_transport ph = true -> phase_step ph [] Wedged
| ph_lost reason : phase_step Up [OnClosed reason] Idle
| ph_reconnecting reason : phase_step Up [OnReconnecting reason] (Retrying 1)
| ph_unwatched : phase_step Up [] Unwatched
| ph_reconnected attempt id : phase_step (Retrying attempt) [OnReconnected id] Up
| ph_retry attempt : phase_step (Retrying attempt) [] (Retrying (S attempt))
| ph_gave_up attempt reason : phase_step (Retrying attempt) [OnClosed (Some reason)] Idle
| ph_overtaken attempt :
    phase_step (Retrying attempt) [OnClosed None; OnReconnected None] (Overtaken false)
| ph_overtaken_failed attempt id : phase_step (Retrying attempt) [OnReconnected id] (Overtaken true).

Inductive phase_run : Phase -> list LifecycleEvent -> Phase -> Prop :=
| phases_refl ph : phase_run ph [] ph
| phases_step ph1 l1 ph2 l2 ph3 : phase_run ph1 l1 ph2 -> phase_step ph2 l2 ph3 ->
    phase_run ph1 (l1 ++ l2) ph3.

(** Where the callbacks are: reconnecting, closed while it was reconnecting, or neither. *)
Inductive Told : Type :=
| Settled
| ToldReconnecting
| ToldClosed.

Definition tell (t : Told) (e : LifecycleEvent) : Told :=
  match e, t with
  | OnReconnecting _, _ => ToldReconnecting
  | OnReconnected _, _ => Settled
  | OnClosed _, ToldReconnecting => ToldClosed
  | OnClosed _, _ => Settled
  end.

(** An event that may be told now: reconnecting unless it is the last word, reconnected only when
    reconnecting was, or nothing but the close that the attempt overtakes since. *)
Definition may_tell (t : Told) (e : LifecycleEvent) : bool :=
  match e, t with
  | OnReconnecting _, ToldReconnecting => false
  | OnReconnected _, Settled => false
  | _, _ => true
  end.

(** The order of what is told. *)
Fixpoint well_told (t : Told) (trace : list LifecycleEvent) : bool :=
  match trace with
  | [] => true
  | e :: trace => may_tell t e && well_told (tell t e) trace
  end.

Definition told_last (t : Told) (trace : list LifecycleEvent) : Told := fold_left tell trace t.

Lemma well_told_app l1 l2 : forall t,
  well_told t (l1 ++ l2) = well_told t l1 && well_told (told_last t l1) l2.
Proof. induction l1 as [|e l1 IH]; intros t; cbn; [done|]. by rewrite IH, andb_assoc. Qed.

Definition retrying (ph : Phase) : bool := match ph with Retrying _ => true | _ => false end.

(** The machine tells its events in order. *)
Lemma phase_run_told trace ph : phase_run Idle trace ph ->
  well_told Settled trace = true /\ (told_last Settled trace = ToldReconnecting <-> retrying ph = true).
Proof.
  remember Idle as ph0 eqn:H0. intros Hrun. revert H0.
  induction Hrun as [ph|ph1 l1 ph2 l2 ph3 _ IH Hstep]; intros ->; [by split|].
  destruct (IH eq_refl) as [Hw Ht]. unfold told_last in *. rewrite well_told_app, fold_left_app, Hw.
  unfold told_last. set (t := fold_left tell l1 Settled) in *. clearbody t.
  destruct Hstep as [ph| |ph Ha| |ph Hp|reason|reason| | | | | |]; cbn in *; destruct t; try naive_solver;
    destruct ph; naive_solver.
Qed.

(** ** The connection of one caller *)

Section session.
Context `{UL : UrlLib} `{HC : HttpClient W} `{SO : !Sockets W} `{HT : HandshakeText}
  (options : ConnectionOptions W).

Local Abbreviation hub := (HubConnection W).

(** What happens to a connection whose [start] and [close] are called one after the other: whole
    calls, hub calls, the supervisor, and the tasks that handle what arrives.  An attempt may be cut
    short by what comes next ([cs_attempt_cut]: the connection is made and its buffer and id are
    stored; what a shorter one leaves is a step [cs_inbound]), and a [close] may come between its
    first ping and the store of the runtime, or between that and its report, where the abort of the
    task has no effect any more. *)
Inductive client_step (h : hub) : hub -> Prop :=
| cs_start r h' : start options h = Some (r, h') -> client_step h h'
| cs_close r h' : close options h = Some (r, h') -> client_step h h'
| cs_closed info now : hc_supervisor h = Some SupWaiting ->
    client_step h (supervisor_closed options info now h)
| cs_attempt now attempt started reason h' :
    hc_supervisor h = Some (SupSleeping attempt started reason) ->
    supervisor_attempt options now attempt started h = Some h' -> client_step h h'
| cs_attempt_cut attempt started reason c h1 :
    hc_supervisor h = Some (SupSleeping attempt started reason) ->
    attempt_connect options h = Some (Ok c, h1) -> client_step h (attempt_prepare options c h1).2
| cs_close_before_store attempt started reason c rt h1 h2 r h3 :
    hc_supervisor h = Some (SupSleeping attempt started reason) ->
    attempt_connect options h = Some (Ok c, h1) -> attempt_prepare options c h1 = (Ok rt, h2) ->
    close options h2 = Some (r, h3) ->
    client_step h (attempt_report true (attempt_store rt h3))
| cs_close_before_report attempt started reason c rt h1 h2 r h3 :
    hc_supervisor h = Some (SupSleeping attempt started reason) ->
    attempt_connect options h = Some (Ok c, h1) -> attempt_prepare options c h1 = (Ok rt, h2) ->
    close options (attempt_store rt h2) = Some (r, h3) ->
    client_step h (attempt_report true h3)
| cs_stopped : hc_supervisor h = Some SupWaiting -> client_step h (supervisor_stopped h)
| cs_channel_ended : hc_supervisor h = Some SupWaiting -> client_step h (supervisor_channel_ended h)
| cs_invoke method arguments : client_step h (invoke options method arguments h).2
| cs_stream method arguments : client_step h (stream options method arguments h).2
| cs_send method arguments : client_step h (Client.send options method arguments h).2
| cs_cancel_stream id : client_step h (cancel_stream options id h).2
| cs_stream_drop id : client_step h (stream_drop options id h)
| cs_inbound b bs net : client_step h (set_net net (set_buffers bs (set_bus b h))).

(** The callbacks that are called for an event. *)
Definition callbacks (l : LifecycleCallbacks) (e : LifecycleEvent) : list (nat * LifecycleEvent) :=
  map (fun c => (c, e))
    match e with
    | OnClosed _ => lc_closed l
    | OnReconnecting _ => lc_reconnecting l
    | OnReconnected _ => lc_reconnected l
    end.

(** [l'] is [l] after the events, with the flag [started]. *)
Definition told_of (events : list LifecycleEvent) (started : bool) (l l' : LifecycleCallbacks) : Prop :=
  lc_closed l' = lc_closed l /\ lc_reconnecting l' = lc_reconnecting l /\
  lc_reconnected l' = lc_reconnected l /\ connection_started l' = started /\
  lc_called l' = lc_called l ++ flat_map (callbacks l) events.

(** What a hub in a phase looks like. *)
Definition phase_ok (ph : Phase) (h : hub) : Prop :=
  match ph with
  | Idle => hc_state h = Disconnected /\ (hc_supervisor h = None \/ hc_supervisor h = Some SupEnded) /\
      connection_started (hc_lifecycle h) = false
  | Up => hc_state h = Connected /\ hc_supervisor h = Some SupWaiting /\ is_Some (hc_runtime h) /\
      hc_closing h = false /\ hc_stop_reconnect h = false /\ connection_started (hc_lifecycle h) = true
  | Unwatched => hc_state h = Connected /\ hc_supervisor h = Some SupEnded /\ is_Some (hc_runtime h) /\
      connection_started (hc_lifecycle h) = true
  | Retrying attempt => hc_state h = Reconnecting /\ hc_runtime h = None /\ hc_closing h = false /\
      hc_stop_reconnect h = false /\ connection_started (hc_lifecycle h) = true /\
      exists started reason, hc_supervisor h = Some (SupSleeping attempt started reason)
  | Overtaken announced => hc_state h = Connected /\ hc_supervisor h = None /\
      connection_started (hc_lifecycle h) = announced
  | Wedged => hc_state h = Disconnecting /\ hc_supervisor h = None
  end.

(** A step of the connection is one of the machine. *)
Definition simulated (ph : Phase) (h h' : hub) : Prop :=
  exists events ph', phase_step ph events ph' /\ phase_ok ph' h' /\
    exists started, told_of events started (hc_lifecycle h) (hc_lifecycle h').

Lemma told_nothing l : told_of [] (connection_started l) l l.
Proof. unfold told_of. cbn. by rewrite app_nil_r. Qed.

Lemma told_closed reason l : connection_started l = true ->
  told_of [OnClosed reason] false l (invoke_closed reason l).
Proof. intros Hs. unfold invoke_closed, told_of, call_all. rewrite Hs. cbn. by rewrite app_nil_r. Qed.

(** Nothing the callbacks or the phase depend on has changed. *)
Lemma simulated_same ph h h' : phase_ok ph h -> same_lifecycle h h' ->
  (is_Some (hc_runtime h') <-> is_Some (hc_runtime h)) -> simulated ph h h'.
Proof.
  intros Hok (Hst & Hsup & Hl & Hcl & Hsr) Hrt. exists [], ph. split; [apply ph_stay|].
  split; [|eexists; rewrite Hl; apply told_nothing].
  destruct ph; cbn in *; rewrite ?Hst, ?Hsup, ?Hl, ?Hcl, ?Hsr, ?Hrt; try done.
  destruct Hok as (? & Hn & ?). split_and!; [done| |naive_solver..].
  destruct (hc_runtime h'); [|done]. rewrite Hn in Hrt. by destruct Hrt as [[? ?] _].
Qed.

(** *** Hub calls *)

Definition live (h : hub) : bool := match hc_runtime h with Some _ => true | None => false end.

Lemma live_iff h h' : live h' = live h -> is_Some (hc_runtime h') <-> is_Some (hc_runtime h).
Proof. unfold live. destruct (hc_runtime h), (hc_runtime h'); naive_solver. Qed.

Lemma send_through_live m h : live (send_through options m h).2 = live h.
Proof.
  unfold send_through, live. destruct (hc_runtime h) as [rt|] eqn:Hrt; [|cbn; by rewrite Hrt].
  destruct (send_with_backpressure _ _ _ _ _) as [[r bs] w]. cbn. by rewrite Hrt.
Qed.

Lemma send_direct_live m h : live (send_direct options m h).2 = live h.
Proof.
  unfold send_direct, live. destruct (hc_runtime h) as [rt|] eqn:Hrt; [|cbn; by rewrite Hrt].
  destruct (runtime_send _ _ _ _ _) as [[r bs] w]. cbn. by rewrite Hrt.
Qed.

Lemma prepare_live arguments h : live (prepare arguments h).2 = live h.
Proof.
  unfold prepare, live. destruct (require_connected h); [|done].
  destruct (hc_runtime h) as [rt|] eqn:Hrt; [|cbn; by rewrite Hrt].
  by destruct (replace_streaming_params arguments rt) as [[[? ?] ?] ?].
Qed.

Lemma fresh_id_live h : live (fresh_id h).2 = live h.
Proof.
  unfold fresh_id, live. destruct (hc_runtime h) as [rt|] eqn:Hrt; [|cbn; by rewrite Hrt].
  by destruct (next_invocation_id rt).
Qed.

Lemma send_or_forget_live id m streams ch h : live (send_or_forget options id m streams ch h).2 = live h.
Proof.
  unfold send_or_forget. rewrite <- (send_through_live m h).
  by destruct (send_through options m h) as [[] h'].
Qed.

Lemma invoke_live method arguments h : live (invoke options method arguments h).2 = live h.
Proof.
  unfold invoke. rewrite <- (prepare_live arguments h).
  destruct (prepare arguments h) as [[[[values ids] streams]|e] h1]; [|done]. cbn [snd].
  rewrite <- (fresh_id_live h1). destruct (fresh_id h1) as [[id|e] h2]; [|done].
  destruct (register_pending id (hc_bus h2)) as [ch b]. by rewrite send_or_forget_live.
Qed.

Lemma stream_live method arguments h : live (stream options method arguments h).2 = live h.
Proof.
  unfold stream. rewrite <- (prepare_live arguments h).
  destruct (prepare arguments h) as [[[[values ids] streams]|e] h1]; [|done]. cbn [snd].
  rewrite <- (fresh_id_live h1). destruct (fresh_id h1) as [[id|e] h2]; [|done].
  destruct (register_stream id (hc_bus h2)) as [ch b]. set (m := HStreamInvocation _).
  pose proof (send_or_forget_live id m streams ch (set_bus b h2)) as H.
  by destruct (send_or_forget options id m streams ch (set_bus b h2)).
Qed.

Lemma send_live method arguments h : live (Client.send options method arguments h).2 = live h.
Proof.
  unfold Client.send. rewrite <- (prepare_live arguments h).
  destruct (prepare arguments h) as [[[[values ids] streams]|e] h1]; [|done]. set (m := HInvocation _).
  cbn [snd]. rewrite <- (send_through_live m h1). by destruct (send_through options m h1) as [[] h2].
Qed.

Lemma cancel_stream_live id h : live (cancel_stream options id h).2 = live h.
Proof.
  unfold cancel_stream. destruct (require_connected h); [|done]. by rewrite send_direct_live.
Qed.

Lemma stream_drop_live id h : live (stream_drop options id h) = live h.
Proof.
  unfold stream_drop, stream_cancel. destruct (remove_pending id (hc_bus h)) as [[] b]; [|done].
  by rewrite send_direct_live.
Qed.

(** *** [start] and [close] *)

Lemma start_simulated ph h r h' : phase_ok ph h -> start options h = Some (r, h') -> simulated ph h h'.
Proof.
  intros Hok Hstart. destruct (decide (hc_state h = Disconnected)) as [Hst|Hst].
  2: { unfold start, start_check in Hstart. rewrite decide_False in Hstart by done.
       injection Hstart as <- <-. by apply simulated_same. }
  assert (ph = Idle) as -> by (destruct ph; cbn in Hok; naive_solver congruence).
  destruct Hok as (_ & Hsup & Hfl).
  destruct (start_allowed options h Hst) as (r' & h1 & h2 & Hc & Hf & Hs & (_ & Hsup1 & Hl & Hcl & Hsr)).
  rewrite Hs in Hstart. injection Hstart as -> ->. unfold start_finish in Hf. rewrite Hcl in Hf.
  change (hc_closing (start_begin h)) with false in Hf.
  change (hc_lifecycle (start_begin h)) with (hc_lifecycle h) in Hl.
  destruct r as [[]|e]; injection Hf as <-.
  - exists [], Up. split; [apply ph_start|]. split.
    + cbn. split_and!; [done|done|exact (connected_runtime _ _ _ Hc)|exact Hcl|exact Hsr|done].
    + exists true. unfold told_of. cbn. rewrite Hl. by rewrite app_nil_r.
  - exists [], Idle. split; [apply ph_stay|]. split.
    + cbn. rewrite Hsup1, Hl. done.
    + eexists. cbn. rewrite Hl. apply told_nothing.
Qed.

(** Without a runtime there is no transport that could fail to close. *)
Lemma shutdown_without_runtime reason h : hc_runtime h = None ->
  (shutdown_active_connection options reason h).1.1 = Ok tt.
Proof.
  intros Hrt. unfold shutdown_active_connection. cbn.
  destruct (hc_message_buffer h); cbn; rewrite Hrt; done.
Qed.

(** A whole [close] of a connection that is neither disconnected nor closing. *)
Lemma close_spec h r h' : hc_state h <> Disconnected -> close options h = Some (r, h') ->
  hc_supervisor h' = None /\
  match r with
  | Ok _ => hc_state h' = Disconnected /\ hc_connection_id h' = None /\ hc_runtime h' = None /\
      hc_lifecycle h' = invoke_closed None (hc_lifecycle h)
  | Err _ => hc_state h' = Disconnecting /\ hc_lifecycle h' = hc_lifecycle h /\ is_Some (hc_runtime h)
  end.
Proof.
  intros Hst Hclose. pose proof (shutdown_spec options None (close_begin h)) as Hsd.
  pose proof (shutdown_without_runtime None (close_begin h)) as Hnone.
  destruct (shutdown_active_connection options None (close_begin h)) as [[r' nt] h2] eqn:Heq.
  assert (r' = r /\ h2 = h') as [-> ->].
  { unfold close, close_check, close_locked in Hclose. rewrite Heq in Hclose.
    destruct (hc_state h); by simplify_eq. }
  change (hc_runtime (close_begin h)) with (hc_runtime h) in *.
  change (hc_lifecycle (close_begin h)) with (hc_lifecycle h) in *.
  destruct Hsd as (Hsup & _ & Hrt & _ & Hr). destruct r as [[]|e]; [naive_solver|].
  split_and!; [naive_solver..|]. destruct (hc_runtime h); [by eexists|]. by specialize (Hnone eq_refl).
Qed.

Lemma close_simulated ph h r h' : phase_ok ph h -> close options h = Some (r, h') -> simulated ph h h'.
Proof.
  intros Hok Hclose. destruct (decide (hc_state h = Disconnected)) as [Hst|Hst].
  { unfold close, close_check in Hclose. rewrite Hst in Hclose. injection Hclose as <- <-.
    by apply simulated_same. }
  assert (Hph : ph <> Idle /\ ph <> Wedged /\ connection_started (hc_lifecycle h) = announced ph).
  { destruct ph; cbn in Hok; try naive_solver. destruct Hok as [Hd _].
    unfold close, close_check in Hclose. by rewrite Hd in Hclose. }
  destruct Hph as (Hni & Hnw & Hfl), (close_spec h r h' Hst Hclose) as [Hsup Hr]. destruct r as [[]|e].
  - destruct Hr as (Hd & _ & _ & Hl). destruct (announced ph) eqn:Ha.
    + pose proof (told_closed None _ Hfl) as Htold. rewrite <- Hl in Htold.
      exists [OnClosed None], Idle. split; [by apply ph_close|]. split; [|by eexists].
      destruct Htold as (_ & _ & _ & Hs & _). cbn. split_and!; [done|by left|done].
    + assert (ph = Overtaken false) as -> by (destruct ph; cbn in Ha; by subst).
      unfold invoke_closed in Hl. rewrite Hfl in Hl. exists [], Idle. split; [apply ph_close_again|].
      rewrite Hl. split; [cbn; rewrite Hl; split_and!; [done|by left|done]|]. eexists. apply told_nothing.
  - destruct Hr as (Hd & Hl & Hrt). exists [], Wedged. split; [apply ph_close_failed|].
    + destruct ph; try done. destruct Hok as (_ & Hn & _). rewrite Hn in Hrt. by destruct Hrt.
    + split; [by split|]. eexists. rewrite Hl. apply told_nothing.
Qed.

(** *** The supervisor *)

Lemma begin_reconnect_simulated h h1 info now : phase_ok Up h -> same_lifecycle h h1 ->
  simulated Up h (begin_reconnect options info now h1).
Proof.
  intros (Hst & Hsup & _ & Hcl & Hsr & Hfl) (Hst1 & Hsup1 & Hl1 & Hcl1 & Hsr1).
  assert (Habandon : forall reason k, hc_lifecycle k = hc_lifecycle h -> simulated Up h (abandon reason k)).
  { intros reason k Hk. exists [OnClosed reason], Idle. split; [apply ph_lost|].
    unfold abandon. cbn. rewrite Hk. pose proof (told_closed reason _ Hfl) as Htold.
    split; [|by eexists]. destruct Htold as (_ & _ & _ & Hs & _). split_and!; [done|by right|done]. }
  unfold begin_reconnect. destruct (op_reconnect_policy options) as [policy|]; [|by apply Habandon].
  case_decide; [by apply Habandon|].
  set (h2 := match hc_runtime _ with Some _ => _ | None => _ end).
  assert (H2 : same_lifecycle h1 h2 /\ hc_runtime h2 = None).
  { subst h2. unfold on_buffer. destruct (hc_message_buffer _), (hc_runtime _) eqn:Hrt; by split. }
  clearbody h2. destruct H2 as [(Hst2 & Hsup2 & Hl2 & Hcl2 & Hsr2) Hrt2].
  destruct (policy _) as [delay|]; [|apply Habandon; congruence].
  replace (hc_closing _) with false by (cbn; congruence).
  exists [OnReconnecting (ci_error info)], (Retrying 1). split; [apply ph_reconnecting|]. split.
  - cbn. rewrite Hl2, Hl1. split_and!; [done|done|congruence|congruence|done|by eexists _, _].
  - exists true. unfold told_of, invoke_reconnecting, call_all. cbn. rewrite Hl2, Hl1, app_nil_r. done.
Qed.

Lemma supervisor_closed_simulated h info now : phase_ok Up h ->
  simulated Up h (supervisor_closed options info now h).
Proof.
  intros Hok. unfold supervisor_closed. destruct Hok as (Hst & Hsup & Hrt & Hcl & Hrest). rewrite Hcl.
  assert (Hok : phase_ok Up h) by done.
  destruct (ci_transport_dropped info), (hc_resume h) as [target|], (hc_message_buffer h) as [i|];
    try by apply begin_reconnect_simulated.
  pose proof (resume_transport_same options target i h) as Hs.
  destruct (resume_transport options target i h) as [[[]|e] h1] eqn:Hr; [|by apply begin_reconnect_simulated].
  apply simulated_same; [done|done|]. apply resume_transport_ok in Hr as (_ & rt & Hrt1 & _).
  rewrite Hrt1. split; [done|]. by eexists.
Qed.

Lemma reconnect_once_failed h e h1 : reconnect_once options h = Some (Err e, h1) -> hc_runtime h1 = hc_runtime h.
Proof.
  unfold reconnect_once. destruct (connect options (hc_net h)) as [[[c|e'] net]|]; [|by intros [= _ <-]|done].
  set (k := set_identity _ _ _ _). assert (Hk : hc_runtime k = hc_runtime h).
  { subst k. unfold use_connection_buffer, on_buffer. cbn. by destruct (co_resume c), (hc_message_buffer h). }
  clearbody k. unfold start_runtime. intros [= Hs]. repeat (case_match; simplify_eq/=; try done).
Qed.

Lemma supervisor_attempt_simulated attempt h now started h' : phase_ok (Retrying attempt) h ->
  supervisor_attempt options now attempt started h = Some h' -> simulated (Retrying attempt) h h'.
Proof.
  intros Hok. pose proof Hok as (Hst & Hrt & Hcl & Hsr & Hfl & Hsup).
  unfold supervisor_attempt. rewrite Hcl, Hsr, bool_decide_eq_true_2 by done. cbn [negb orb].
  destruct (reconnect_once options h) as [[r h1]|] eqn:Hr; [|done].
  pose proof (reconnect_once_same _ _ _ _ Hr) as Hs. pose proof Hs as (Hs1 & Hs2 & Hs3 & Hs4 & Hs5).
  destruct r as [[]|e].
  - intros [= <-]. apply reconnect_once_ok in Hr as (_ & rt & Hrt1 & _).
    exists [OnReconnected (hc_connection_id h1)], Up. split; [apply ph_reconnected|]. split.
    + cbn. rewrite Hs3. split_and!; [done|done|by eexists|congruence|congruence|done].
    + exists true. unfold told_of, invoke_reconnected, call_all. cbn. rewrite Hs3, app_nil_r. done.
  - apply reconnect_once_failed in Hr. destruct (op_reconnect_policy options) as [policy|].
    2: { intros [= <-]. apply simulated_same; [done|done|]. by rewrite Hr. }
    destruct (policy _) as [delay|]; intros [= <-].
    + exists [], (Retrying (S attempt)). split; [apply ph_retry|]. split.
      * cbn. rewrite Hs3. split_and!; [congruence|congruence|congruence|congruence|done|by eexists _, _].
      * eexists. cbn. rewrite Hs3. apply told_nothing.
    + exists [OnClosed (Some (error_text e))], Idle. split; [apply ph_gave_up|]. unfold abandon. cbn. rewrite Hs3.
      pose proof (told_closed (Some (error_text e)) _ Hfl) as Htold. split; [|by eexists].
      destruct Htold as (_ & _ & _ & Hf & _). split_and!; [done|by right|done].
Qed.

(** What an attempt has prepared leaves the phase. *)
Lemma attempt_prepared attempt h c h1 : phase_ok (Retrying attempt) h ->
  attempt_connect options h = Some (Ok c, h1) ->
  same_lifecycle h (attempt_prepare options c h1).2 /\ hc_runtime (attempt_prepare options c h1).2 = None.
Proof.
  intros (_ & Hrt & _) Hc. unfold attempt_connect in Hc.
  destruct (connect options (hc_net h)) as [[r net]|]; [|done]. injection Hc as -> <-.
  destruct (attempt_prepare_same options c (set_net net h)) as [Hs Hn]. split; [exact Hs|].
  rewrite Hn. exact Hrt.
Qed.

(** The report of an attempt after a [close]: told once more, and nobody watches. *)
Lemma report_simulated attempt h h2 r h3 rt : phase_ok (Retrying attempt) h -> same_lifecycle h h2 ->
  close options h2 = Some (r, h3) ->
  let h4 := attempt_report true (match rt with Some rt => attempt_store rt h3 | None => h3 end) in
  simulated (Retrying attempt) h h4.
Proof.
  intros (Hst & _ & _ & _ & Hfl & _) (Hst2 & _ & Hl2 & _) Hclose h4.
  destruct (close_spec h2 r h3) as [Hsup Hr]; [congruence|done|].
  assert (H4 : hc_state h4 = Connected /\ hc_supervisor h4 = None /\
    hc_lifecycle h4 = invoke_reconnected (hc_connection_id h3) (hc_lifecycle h3)) by (by destruct rt).
  clearbody h4. destruct H4 as (Hst4 & Hsup4 & Hl4). destruct r as [[]|e].
  - destruct Hr as (_ & Hid & _ & Hl). rewrite Hid, Hl, Hl2 in Hl4.
    exists [OnClosed None; OnReconnected None], (Overtaken false). split; [apply ph_overtaken|].
    unfold invoke_reconnected, invoke_closed, call_all in Hl4. rewrite Hfl in Hl4. cbn [phase_ok].
    split; [by rewrite Hl4|]. exists false. unfold told_of. rewrite Hl4. cbn. by rewrite app_nil_r, <- app_assoc.
  - destruct Hr as (_ & Hl & _). rewrite Hl, Hl2 in Hl4.
    exists [OnReconnected (hc_connection_id h3)], (Overtaken true). split; [apply ph_overtaken_failed|].
    unfold invoke_reconnected, call_all in Hl4. cbn [phase_ok]. split; [by rewrite Hl4|].
    exists true. unfold told_of. rewrite Hl4. cbn. by rewrite app_nil_r.
Qed.

Lemma phase_waiting ph h : phase_ok ph h -> hc_supervisor h = Some SupWaiting -> ph = Up.
Proof. destruct ph; cbn; [naive_solver|done|naive_solver..]. Qed.

Lemma phase_sleeping ph h attempt started reason : phase_ok ph h ->
  hc_supervisor h = Some (SupSleeping attempt started reason) -> ph = Retrying attempt.
Proof. destruct ph; cbn; naive_solver. Qed.

#[local] Hint Resolve simulated_same invoke_same stream_same send_same cancel_stream_same stream_drop_same
  live_iff invoke_live stream_live send_live cancel_stream_live stream_drop_live : session.

(** Every step of the connection is simulated. *)
Lemma client_step_simulated ph h h' : phase_ok ph h -> client_step h h' -> simulated ph h h'.
Proof.
  intros Hok Hstep. destruct Hstep as [r h' H|r h' H|info now H|now a started reason h' Hs H|a started reason c h1 Hs Hc
    |a started reason c rt h1 h2 r h3 Hs Hc Hp H|a started reason c rt h1 h2 r h3 Hs Hc Hp H
    |H|H| | | | | |b bs w]; try (by eauto with session).
  - by eapply start_simulated.
  - by eapply close_simulated.
  - pose proof (phase_waiting _ _ Hok H) as ->. by apply supervisor_closed_simulated.
  - pose proof (phase_sleeping _ _ _ _ _ Hok Hs) as ->. by eapply supervisor_attempt_simulated.
  - pose proof (phase_sleeping _ _ _ _ _ Hok Hs) as ->. destruct (attempt_prepared _ _ _ _ Hok Hc) as [Hk Hn].
    apply simulated_same; [done..|]. rewrite Hn. by destruct Hok as (_ & -> & _).
  - pose proof (phase_sleeping _ _ _ _ _ Hok Hs) as ->. destruct (attempt_prepared _ _ _ _ Hok Hc) as [Hk _].
    rewrite Hp in Hk. by apply (report_simulated a h h2 r h3 (Some rt)).
  - pose proof (phase_sleeping _ _ _ _ _ Hok Hs) as ->. destruct (attempt_prepared _ _ _ _ Hok Hc) as [Hk _].
    rewrite Hp in Hk. by apply (report_simulated a h (attempt_store rt h2) r h3 None).
  - pose proof (phase_waiting _ _ Hok H) as ->. unfold supervisor_stopped.
    destruct Hok as (? & ? & ? & ? & Hsr & ?). rewrite Hsr. by apply simulated_same.
  - pose proof (phase_waiting _ _ Hok H) as ->. exists [], Unwatched. split; [apply ph_unwatched|].
    destruct Hok as (? & ? & ? & ? & ? & ?). split; [done|]. eexists. apply told_nothing.
  - by apply simulated_same.
Qed.

Lemma told_trans events1 events2 b1 b2 l1 l2 l3 : told_of events1 b1 l1 l2 -> told_of events2 b2 l2 l3 ->
  told_of (events1 ++ events2) b2 l1 l3.
Proof.
  intros (H1 & H2 & H3 & _ & H4) (K1 & K2 & K3 & K4 & K5). unfold told_of.
  rewrite flat_map_app, app_assoc, <- H4, K5. split_and!; [congruence..|].
  f_equal. apply flat_map_ext. intros e. unfold callbacks. by rewrite H1, H2, H3.
Qed.

(** The runs of the connection are runs of the machine. *)
Lemma session_simulated h0 h : phase_ok Idle h0 -> rtc client_step h0 h ->
  exists trace ph, phase_run Idle trace ph /\ phase_ok ph h /\
    exists started, told_of trace started (hc_lifecycle h0) (hc_lifecycle h).
Proof.
  intros H0. revert h. refine (rtc_ind_r _ _ _ _); [|intros h1 h2 _ Hstep IH].
  - exists [], Idle. split; [apply phases_refl|]. split; [done|]. eexists. apply told_nothing.
  - destruct IH as (trace & ph & Hrun & Hok & b & Ht).
    destruct (client_step_simulated ph h1 h2 Hok Hstep) as (events & ph' & Hs & Hok' & b' & Ht').
    exists (trace ++ events), ph'. split; [by eapply phases_step|]. split; [done|]. exists b'. by eapply told_trans.
Qed.

(** Calls return, once what they wait for of the network has: [start] always, [close] unless an
    earlier one has failed. *)
Lemma calls_return ph h : phase_ok ph h ->
  is_Some (start options h) /\ (ph <> Wedged -> is_Some (close options h)).
Proof.
  intros Hok. split.
  - destruct (decide (hc_state h = Disconnected)) as [Hst|Hst].
    + destruct (start_allowed options h Hst) as (r & _ & h2 & _ & _ & -> & _). by eexists.
    + unfold start, start_check. rewrite decide_False by done. by eexists.
  - intros Hw. unfold close, close_check. destruct (close_locked options _) as [[r nt] h2].
    assert (hc_state h <> Disconnecting) by (destruct ph; [..|done]; destruct Hok as (-> & _); done).
    destruct (hc_state h); solve [done|by eexists].
Qed.

(** C9: A connection whose [start] and [close] are called one after the other implements the
    abstract machine of [phase_step]: every run of [client_step] is a run of the machine, whatever
    the server, the policy and the network do, and whatever is called and arrives in between.  A
    [close] may come between any two steps, and inside a reconnect attempt: while it connects and
    prepares its runtime, before it stores the runtime, and before it reports.  What the supervisor
    does on a loss, up to the wait for the retry delay, is one step, so that no [close] comes in the
    midst of it.  The connection a run ends with is the one the phase describes (connected with a
    runtime and a supervisor that waits, reconnecting without a runtime, connected without a
    supervisor after a [close] that an attempt has overtaken, and so on).  The callbacks were called
    with the events of the machine, in order, each registered callback once for each event, and
    with nothing else: reconnecting is not told twice without reconnected or closed in between, and
    reconnected only after reconnecting, with at most the overtaken closed in between.  Given that
    the operations of the network they wait for return, [start] returns in every phase, and [close]
    in every one but that after a failed close. *)
Theorem session_refines (h0 h : hub) : phase_ok Idle h0 -> rtc client_step h0 h ->
  exists trace ph, phase_run Idle trace ph /\ phase_ok ph h /\
    lc_called (hc_lifecycle h) =
      lc_called (hc_lifecycle h0) ++ flat_map (callbacks (hc_lifecycle h0)) trace /\
    well_told Settled trace = true /\
    is_Some (start options h) /\ (ph <> Wedged -> is_Some (close options h)).
Proof.
  intros H0 Hr. destruct (session_simulated h0 h H0 Hr) as (trace & ph & Hrun & Hok & b & _ & _ & _ & _ & Hc).
  exists trace, ph. split_and!; [done..| |apply (calls_return ph h Hok)|apply (calls_return ph h Hok)].
  apply (phase_run_told trace ph Hrun).
Qed.

(** The callbacks of a connection hear a story that makes sense: what one callback that is
    registered for all three events hears is well ordered, and the last word is reconnecting exactly
    while the connection is in that state. *)
Theorem callbacks_in_order (h0 h : hub) (c : nat) : phase_ok Idle h0 -> lc_called (hc_lifecycle h0) = [] ->
  lc_closed (hc_lifecycle h0) = [c] -> lc_reconnecting (hc_lifecycle h0) = [c] ->
  lc_reconnected (hc_lifecycle h0) = [c] -> rtc client_step h0 h ->
  let heard := map snd (lc_called (hc_lifecycle h)) in
  well_told Settled heard = true /\ (told_last Settled heard = ToldReconnecting <-> hc_state h = Reconnecting).
Proof.
  intros H0 Hno H1 H2 H3 Hr. destruct (session_simulated h0 h H0 Hr) as (trace & ph & Hrun & Hok & b & _ & _ & _ & _ & Hc).
  assert (Heard : map snd (lc_called (hc_lifecycle h)) = trace).
  { rewrite Hc, Hno. cbn [app]. clear -H1 H2 H3. induction trace as [|e trace IH]; [done|].
    cbn [flat_map]. unfold callbacks at 1. rewrite map_app, IH. by destruct e; rewrite ?H1, ?H2, ?H3. }
  cbn zeta. rewrite Heard. destruct (phase_run_told trace ph Hrun) as [Hw Ht]. split; [done|]. rewrite Ht.
  destruct ph; destruct Hok as (-> & _); by split.
Qed.

(** A new connection is idle, also after callbacks were registered. *)
Lemma hub_new_idle (w : W) : phase_ok Idle (hub_new w).
Proof. split_and!; [done|by left|done]. Qed.

End session.
