(* ===== verification/Attempts.v ===== *)
(** * A [close] during a reconnect attempt

    What becomes of a [close] that comes between two pieces of a reconnect attempt ([Pieces]). *)

From Stdlib Require Import ZArith Lia String.
From stdpp Require Import base list strings gmap relations.
From S2P Require Import Prelude Framing Errors Values Arguments Message JsonProtocol.
From S2P Require Import MessageBuffer Bus Dispatch Handshake Negotiate Retry Connection.
From S2P Require Import Runtime Client Lifecycle Reuse Reconnect Usage Pieces Session.

Section attempts.
Context `{UL : UrlLib} `{HC : HttpClient W} `{SO : !Sockets W} `{HT : HandshakeText}
  (options : ConnectionOptions W).

Local Abbreviation hub := (HubConnection W).
Local Abbreviation world h := (ns_world (hc_net h)).

(** C13: A reconnect attempt overtakes a [close]: when [close] is called while the supervisor has a
    new connection at hand and is about to store it, the call finds no runtime, tells the closed
    callbacks and returns [Ok] with the connection disconnected; then the pieces of the attempt
    that are left make the connection connected again and tell the callbacks that it is
    reconnected, with a runtime that runs and no supervisor to watch it, although [close] was the
    last thing that was called.  A [start] is refused. *)
Theorem attempt_overtakes_close (attempt : nat) (c : Connection) (rt : HubRuntime) (h h1 h2 : hub) :
  phase_ok (Retrying attempt) h -> attempt_check h = true ->
  attempt_connect options h = Some (Ok c, h1) -> attempt_prepare options c h1 = (Ok rt, h2) ->
  exists h3, close options h2 = Some (Ok tt, h3) /\ hc_state h3 = Disconnected /\ hc_runtime h3 = None /\
    let h4 := attempt_report true (attempt_store rt h3) in
    hc_state h4 = Connected /\ hc_runtime h4 = Some rt /\ hc_supervisor h4 = None /\
    is_ok (start_check h4) = false /\
    lc_called (hc_lifecycle h4) = lc_called (hc_lifecycle h) ++
      flat_map (callbacks (hc_lifecycle h)) [OnClosed None; OnReconnected None].
Proof.
  intros Hok _ Hc Hp. destruct (attempt_prepared options attempt h c h1 Hok Hc) as [(Hst2 & _ & Hl2 & _) Hrt2].
  rewrite Hp in Hst2, Hl2, Hrt2. cbn [snd] in *. destruct Hok as (Hst & _ & _ & _ & Hfl & _).
  assert (Hclose : exists r h3, close options h2 = Some (r, h3)).
  { unfold close, close_check. rewrite Hst2, Hst. destruct (close_locked options _) as [[r nt] h3]. by eexists _, _. }
  destruct Hclose as (r & h3 & Hclose). destruct (close_spec options h2 r h3) as [Hsup Hr]; [congruence|done|].
  destruct r as [[]|e]; [|destruct Hr as (_ & _ & Hn); rewrite Hrt2 in Hn; by destruct Hn].
  destruct Hr as (Hst3 & Hid & Hrt3 & Hl3). exists h3. split_and!; [done..|].
  unfold attempt_report, attempt_store. cbn. rewrite Hl3, Hid, Hl2. unfold invoke_closed, call_all. rewrite Hfl.
  cbn. by rewrite app_nil_r, <- app_assoc.
Qed.

End attempts.
