(* ===== verification/FakeHub.v ===== *)
(** * The fake hub of the test support ([src/test_support/mod.rs])

    One port answers negotiate requests, read as HTTP/1.1 by hand, and accepts WebSockets; a test
    drives the server side of each of them.  A panic of the source, which fails the test, is
    [None].  What arrives on a socket is the list of what is read from it. *)

From Stdlib Require Import ZArith Lia Ascii String.
From stdpp Require Import base list strings gmap pretty.
From S2P Require Import Prelude Framing Utf8 Errors Values Arguments Message JsonProtocol.
From S2P Require Import MsgPackFormat MsgPackParse MsgPackProtocol Brotli.
From S2P Require Import MessageBuffer Handshake Negotiate RustStr Connection.

Local Open Scope Z_scope.

(** ** Negotiate *)

(** [NegotiateReply] *)
Inductive NegotiateReply : Type :=
| RepOk
| RepJson (body : json)
| RepStatus (status : Z).

(** [NegotiateRequest] *)
Record NegotiateRequest := {
  rq_path_and_query : string;
  rq_authorization : option string;
  rq_headers : gmap string string
}.

(** [head.ends_with(b"\r\n\r\n")] *)
Definition head_complete (head : list u8) : bool :=
  bool_decide (take 4 (rev head) = [Byte.x0a; Byte.x0d; Byte.x0a; Byte.x0d]).

(** The loop that reads the head, byte by byte; [None]: the stream ended before. *)
Fixpoint read_head (head stream : list u8) : option (list u8 * list u8) :=
  if head_complete head then Some (head, stream)
  else match stream with
       | [] => None
       | byte :: stream => read_head (head ++ [byte]) stream
       end.

(** The path of the request line and the headers. *)
Definition parse_head (head : string) : string * gmap string string :=
  match lines head with
  | [] => (EmptyString, ∅)
  | first :: rest =>
      (default EmptyString (Text.split " " first !! 1%nat),
       hash_collect (map (fun '(name, value) => (to_ascii_lowercase (trim name), trim value))
         (omap (split_once ":") rest)))
  end.

Section negotiate.
Context `{JT : JsonText}.

(** The body of [NegotiateReply::Ok]. *)
Definition default_body (token : string) (stateful : bool) : json :=
  let body := obj_collect [
    ("negotiateVersion", JNumber (PosInt 1));
    ("connectionId", JString ("id-" +:+ token));
    ("connectionToken", JString token);
    ("availableTransports", JArray [JObject (obj_collect [
       ("transport", JString "WebSockets");
       ("transferFormats", JArray [JString "Text"; JString "Binary"])])])]%string in
  JObject (if stateful then obj_insert "useStatefulReconnect" (JBool true) body else body).

(** The status and the body of the reply; [None]: the value cannot be printed. *)
Definition reply_body (reply : option NegotiateReply) (token : string) (stateful : bool)
    : option (Z * string) :=
  match default RepOk reply with
  | RepOk =>
      match json_to_string (default_body token stateful) with
      | Ok body => Some (200, body)
      | Err _ => None
      end
  | RepJson body => match json_to_string body with Ok body => Some (200, body) | Err _ => None end
  | RepStatus status => Some (status, EmptyString)
  end.

Definition response_text (status : Z) (body : string) : string :=
  "HTTP/1.1 " +:+ pretty status +:+ " X" +:+ CRLF +:+ "Content-Type: application/json" +:+ CRLF +:+
  "Content-Length: " +:+ pretty (Z.of_nat (String.length body)) +:+ CRLF +:+
  "Connection: close" +:+ CRLF +:+ CRLF +:+ body.

(** The request that [negotiate] records. *)
Definition request_of (head : list u8) : NegotiateRequest :=
  let '(path_and_query, headers) := parse_head (from_utf8_lossy head) in
  {| rq_path_and_query := path_and_query; rq_authorization := headers !! "authorization"%string;
     rq_headers := headers |}.

Definition asks_stateful (r : NegotiateRequest) : bool :=
  has_substring "useStatefulReconnect=true" (rq_path_and_query r).

(** How many bytes of body it reads after the head. *)
Definition body_len (r : NegotiateRequest) : Z :=
  default 0 (rq_headers r !! "content-length"%string ≫= parse_usize).

(** [negotiate] on a connection that delivers [stream]: the requests afterwards and, unless the
    head never ended, the response written. *)
Definition negotiate (stream : list u8) (reply : option NegotiateReply) (token : string)
    (requests : list NegotiateRequest) : option (list NegotiateRequest * option string) :=
  match read_head [] stream with
  | None => Some (requests, None)
  | Some (head, stream) =>
      let request := request_of head in
      let requests := requests ++ [request] in
      '(status, body) ← reply_body reply token (asks_stateful request);
      Some (requests, Some (response_text status body))
  end.

End negotiate.

(** ** The server side of a WebSocket *)

(** [TIMEOUT], in seconds *)
Definition TIMEOUT : Z := 5.

(** [ServerConnection]: what will be read, whether the stream ends after it, what was written. *)
Record ServerConnection := {
  sc_path : string;
  sc_query : gmap string (list string);
  sc_incoming : list (result string SocketMessage);
  sc_eof : bool;
  sc_written : list SocketMessage;
  sc_protocol : option HubProtocol;
  sc_pending : list HubMessage
}.

Definition with_incoming (incoming : list (result string SocketMessage)) (c : ServerConnection)
    : ServerConnection :=
  {| sc_path := sc_path c; sc_query := sc_query c; sc_incoming := incoming; sc_eof := sc_eof c;
     sc_written := sc_written c; sc_protocol := sc_protocol c; sc_pending := sc_pending c |}.

Definition with_pending (pending : list HubMessage) (c : ServerConnection) : ServerConnection :=
  {| sc_path := sc_path c; sc_query := sc_query c; sc_incoming := sc_incoming c; sc_eof := sc_eof c;
     sc_written := sc_written c; sc_protocol := sc_protocol c; sc_pending := pending |}.

(** The values of each parameter, in order. *)
Definition collect_query (pairs : list (string * string)) : gmap string (list string) :=
  fold_left (fun query '(key, value) => <[key := default [] (query !! key) ++ [value]]> query) pairs ∅.

(** [ServerConnection::accept] of a request with this path and these query pairs, and of the
    stream after the upgrade; [None]: refused. *)
Definition server_accept (path : string) (pairs : list (string * string)) (refused_tokens : list string)
    (incoming : list (result string SocketMessage)) (eof : bool) : option ServerConnection :=
  if existsb (fun '(key, value) => String.eqb key "id" && existsb (String.eqb value) refused_tokens) pairs
  then None
  else Some {| sc_path := path; sc_query := collect_query pairs; sc_incoming := incoming;
               sc_eof := eof; sc_written := []; sc_protocol := None; sc_pending := [] |}.

(** [query_value]; the outer [None] is the panic. *)
Definition query_value (key : string) (c : ServerConnection) : option (option string) :=
  match sc_query c !! key with
  | Some [value] => Some (Some value)
  | Some _ => None
  | None => Some None
  end.

(** [next_frame] *)
Definition next_frame (c : ServerConnection) : option (option SocketMessage * ServerConnection) :=
  match sc_incoming c with
  | Ok m :: incoming => Some (Some m, with_incoming incoming c)
  | Err _ :: incoming => Some (None, with_incoming incoming c)
  | [] => if sc_eof c then Some (None, c) else None
  end.

(** [send_frame], on a socket that is still open. *)
Definition send_frame (frame : SocketMessage) (c : ServerConnection) : ServerConnection :=
  {| sc_path := sc_path c; sc_query := sc_query c; sc_incoming := sc_incoming c; sc_eof := sc_eof c;
     sc_written := sc_written c ++ [frame]; sc_protocol := sc_protocol c; sc_pending := sc_pending c |}.

(** [ServerConnection::close], on a socket that is still open: a close frame without a reason. *)
Definition server_close (c : ServerConnection) : ServerConnection := send_frame (SClose None) c.

Section server.
Context `{JT : JsonText, MP : MsgPack, BD : BrotliDecoder}.

Definition protocol_by_name (name : string) : option HubProtocol :=
  if String.eqb name "json" then Some JsonProtocol
  else if String.eqb name "messagepack" then Some MessagePackProtocol
  else if String.eqb name "messagepack+brotli" then Some MessagePackBrotliProtocol
  else None.

(** [assume_protocol] *)
Definition assume_protocol (name : string) (c : ServerConnection) : option ServerConnection :=
  p ← protocol_by_name name;
  Some {| sc_path := sc_path c; sc_query := sc_query c; sc_incoming := sc_incoming c;
          sc_eof := sc_eof c; sc_written := sc_written c; sc_protocol := Some p;
          sc_pending := sc_pending c |}.

(** [request["protocol"].as_str()] *)
Definition protocol_field (request : json) : option string :=
  match request with
  | JObject m => match obj_get "protocol" m with Some (JString s) => Some s | _ => None end
  | _ => None
  end.

(** [handshake_request] *)
Definition handshake_request (c : ServerConnection) : option (json * ServerConnection) :=
  '(frame, c) ← next_frame c;
  match frame with
  | Some (SText text) =>
      request ← strip_suffix Text.RECORD_SEPARATOR text;
      match json_from_str request with
      | Err _ => None
      | Ok request =>
          name ← protocol_field request;
          c ← assume_protocol name c;
          Some (request, c)
      end
  | _ => None
  end.

(** [handshake_response] *)
Definition handshake_response (error : option string) (c : ServerConnection) : option ServerConnection :=
  body ← match error with
         | Some error => match json_to_string (JObject [("error"%string, JString error)]) with
                         | Ok body => Some body
                         | Err _ => None
                         end
         | None => Some "{}"%string
         end;
  Some (send_frame (SText (body +:+ String Text.RECORD_SEPARATOR EmptyString)) c).

(** [handshake] *)
Definition server_handshake (c : ServerConnection) : option (json * ServerConnection) :=
  '(request, c) ← handshake_request c;
  c ← handshake_response None c;
  Some (request, c).

(** The frames that [recv_any] reads until one of them brings messages: the first message, the
    other ones and the frames that are left. *)
Fixpoint take_messages (p : HubProtocol) (incoming : list (result string SocketMessage))
    : option (HubMessage * list HubMessage * list (result string SocketMessage)) :=
  match incoming with
  | [] | Err _ :: _ | Ok (SClose _) :: _ => None
  | Ok (SPing | SPong | SFrame) :: incoming => take_messages p incoming
  | Ok (SText text) :: incoming =>
      match parse_messages p (IText text) with
      | Ok (m :: ms) => Some (m, ms, incoming)
      | Ok [] => take_messages p incoming
      | Err _ => None
      end
  | Ok (SBinary bytes) :: incoming =>
      match parse_messages p (IBinary bytes) with
      | Ok (m :: ms) => Some (m, ms, incoming)
      | Ok [] => take_messages p incoming
      | Err _ => None
      end
  end.

(** [recv_any] *)
Definition recv_any (c : ServerConnection) : option (HubMessage * ServerConnection) :=
  match sc_pending c with
  | m :: ms => Some (m, with_pending ms c)
  | [] =>
      p ← sc_protocol c;
      '(m, ms, incoming) ← take_messages p (sc_incoming c);
      Some (m, with_pending ms (with_incoming incoming c))
  end.

Definition is_ping (m : HubMessage) : bool := match m with HPing => true | _ => false end.

(** [recv]; the fuel is the number of pings it may skip. *)
Fixpoint recv (fuel : nat) (c : ServerConnection) : option (HubMessage * ServerConnection) :=
  match recv_any c with
  | None => None
  | Some (m, c) =>
      if is_ping m then match fuel with O => None | S fuel => recv fuel c end else Some (m, c)
  end.

(** [is_ping_or_close] *)
Definition is_ping_or_close (m : HubMessage) : bool :=
  match m with HPing | HClose _ => true | _ => false end.

(** [expect_closed]; the frames that are left. *)
Fixpoint expect_closed (protocol : option HubProtocol) (incoming : list (result string SocketMessage))
    (eof : bool) : option (list (result string SocketMessage)) :=
  let check input incoming :=
    p ← protocol;
    match parse_messages p input with
    | Ok messages => if forallb is_ping_or_close messages then expect_closed protocol incoming eof else None
    | Err _ => None
    end in
  match incoming with
  | [] => if eof then Some [] else None
  | Err _ :: incoming | Ok (SClose _) :: incoming => Some incoming
  | Ok (SPing | SPong | SFrame) :: incoming => expect_closed protocol incoming eof
  | Ok (SText text) :: incoming => check (IText text) incoming
  | Ok (SBinary bytes) :: incoming => check (IBinary bytes) incoming
  end.

(** [ServerConnection::send] *)
Definition server_send (m : HubMessage) (c : ServerConnection) : option ServerConnection :=
  p ← sc_protocol c;
  match write_message p m with
  | Err _ => None
  | Ok bytes =>
      match transfer_format p with
      | FText => match from_utf8 bytes with Ok text => Some (send_frame (SText text) c) | Err _ => None end
      | FBinary => Some (send_frame (SBinary bytes) c)
      end
  end.

(** [ServerConnection::send_binary] *)
Definition server_send_binary (frame : list u8) (c : ServerConnection) : ServerConnection :=
  send_frame (SBinary frame) c.

(** [compressed_invocation], given the compressor of the [brotli] crate. *)
Definition compressed_invocation (compress : list u8 -> list u8) (target : string) (arguments : mp_value)
    : option (list u8) :=
  let encode v := match mp_write_value v with Ok bytes => Some bytes | Err _ => None end in
  encoded ← encode arguments;
  message ← encode (MArray [MInteger 1; MMap []; MNil; MString target; MInteger 1;
                            MBinary (compress encoded)]);
  Some (Binary.write message).

End server.

(** ** The hub *)

(** [FakeHub]: the state its methods and its listener share. *)
Record FakeHub := {
  fh_url : string;
  fh_origin : string;
  fh_replies : list NegotiateReply;
  fh_requests : list NegotiateRequest;
  fh_connections : list ServerConnection;
  fh_refuse_websockets : bool;
  fh_refused_tokens : list string;
  fh_tokens : Z
}.

(** [FakeHub::start] on the port that it got. *)
Definition fake_hub_start (address : string) : FakeHub :=
  let origin := ("http://" +:+ address)%string in
  {| fh_url := (origin +:+ "/hub")%string; fh_origin := origin; fh_replies := []; fh_requests := [];
     fh_connections := []; fh_refuse_websockets := false; fh_refused_tokens := []; fh_tokens := 0 |}.

(** [reply_to_negotiate], [refuse_connection_token], [refuse_websockets], [negotiate_requests] *)
Definition reply_to_negotiate (reply : NegotiateReply) (h : FakeHub) : FakeHub :=
  {| fh_url := fh_url h; fh_origin := fh_origin h; fh_replies := fh_replies h ++ [reply];
     fh_requests := fh_requests h; fh_connections := fh_connections h;
     fh_refuse_websockets := fh_refuse_websockets h; fh_refused_tokens := fh_refused_tokens h;
     fh_tokens := fh_tokens h |}.

Definition refuse_connection_token (token : string) (h : FakeHub) : FakeHub :=
  {| fh_url := fh_url h; fh_origin := fh_origin h; fh_replies := fh_replies h;
     fh_requests := fh_requests h; fh_connections := fh_connections h;
     fh_refuse_websockets := fh_refuse_websockets h;
     fh_refused_tokens := fh_refused_tokens h ++ [token]; fh_tokens := fh_tokens h |}.

Definition refuse_websockets (h : FakeHub) : FakeHub :=
  {| fh_url := fh_url h; fh_origin := fh_origin h; fh_replies := fh_replies h;
     fh_requests := fh_requests h; fh_connections := fh_connections h;
     fh_refuse_websockets := true; fh_refused_tokens := fh_refused_tokens h; fh_tokens := fh_tokens h |}.

Definition negotiate_requests (h : FakeHub) : list NegotiateRequest := fh_requests h.

(** [FakeHub::accept]; [None]: no WebSocket within the timeout. *)
Definition hub_accept (h : FakeHub) : option (ServerConnection * FakeHub) :=
  match fh_connections h with
  | [] => None
  | c :: cs => Some (c, {| fh_url := fh_url h; fh_origin := fh_origin h; fh_replies := fh_replies h;
                           fh_requests := fh_requests h; fh_connections := cs;
                           fh_refuse_websockets := fh_refuse_websockets h;
                           fh_refused_tokens := fh_refused_tokens h; fh_tokens := fh_tokens h |})
  end.

(** A TCP connection to the port: an HTTP request, or what the server's WebSocket library makes
    of an upgrade request. *)
Inductive Incoming : Type :=
| InHttp (stream : list u8)
| InUpgrade (path : string) (pairs : list (string * string))
    (frames : list (result string SocketMessage)) (eof : bool).

Definition starts_with_post (stream : list u8) : bool :=
  bool_decide (take 4 stream = [Byte.x50; Byte.x4f; Byte.x53; Byte.x54]).

(** One iteration of the listener, with the task it spawns run at once; the response, if one is
    written.  [None]: the task panicked. *)
Definition listen `{JsonText} (i : Incoming) (h : FakeHub) : option (FakeHub * option string) :=
  match i with
  | InHttp stream =>
      if starts_with_post stream then
        let tokens := fh_tokens h + 1 in
        '(requests, response) ← negotiate stream (head (fh_replies h)) ("token-" +:+ pretty tokens)
                                  (fh_requests h);
        Some ({| fh_url := fh_url h; fh_origin := fh_origin h; fh_replies := tail (fh_replies h);
                 fh_requests := requests; fh_connections := fh_connections h;
                 fh_refuse_websockets := fh_refuse_websockets h;
                 fh_refused_tokens := fh_refused_tokens h; fh_tokens := tokens |}, response)
      else Some (h, None)
  | InUpgrade path pairs frames eof =>
      if fh_refuse_websockets h then Some (h, None)
      else
        Some ({| fh_url := fh_url h; fh_origin := fh_origin h; fh_replies := fh_replies h;
                 fh_requests := fh_requests h;
                 fh_connections := fh_connections h ++
                   option_list (server_accept path pairs (fh_refused_tokens h) frames eof);
                 fh_refuse_websockets := fh_refuse_websockets h;
                 fh_refused_tokens := fh_refused_tokens h; fh_tokens := fh_tokens h |}, None)
  end.

(** ** Reading a request back *)

(** The request that an HTTP client writes. *)
Definition header_line (h : string * string) : string := h.1 +:+ ": " +:+ h.2.

Fixpoint write_lines (ls : list string) : string :=
  match ls with [] => EmptyString | l :: ls => l +:+ CRLF +:+ write_lines ls end.

Definition request_head (path : string) (headers : list (string * string)) : string :=
  write_lines (("POST " +:+ path +:+ " HTTP/1.1") :: map header_line headers) +:+ CRLF.

Definition plain (s : string) : bool := negb (Text.contains CR s) && negb (Text.contains LF s).

(** A path without spaces and headers without line breaks, colons in names and outer spaces. *)
Definition head_ok (path : string) (headers : list (string * string)) : bool :=
  plain path && negb (Text.contains " " path) &&
  forallb (fun '(n, v) => plain n && plain v && negb (Text.contains ":" n) &&
    String.eqb (trim n) n && String.eqb (trim v) v) headers &&
  is_str (request_head path headers).

Lemma plain_bytes s : plain s = true ->
  Forall (fun b => b <> Byte.x0d /\ b <> Byte.x0a) (bytes_of_string s).
Proof.
  unfold plain, bytes_of_string. induction s as [|c s IH]; [constructor|].
  intros [H1 H2]%andb_true_iff. cbn [Text.contains] in *.
  apply negb_true_iff, orb_false_iff in H1 as [Hc1 H1], H2 as [Hc2 H2].
  cbn [String.list_byte_of_string]. constructor; [|apply IH; by rewrite H1, H2].
  apply Ascii.eqb_neq in Hc1, Hc2. split; intros Heq; [apply Hc1|apply Hc2];
    rewrite <- (Ascii.ascii_of_byte_of_ascii c), Heq; reflexivity.
Qed.

Lemma head_incomplete a b : b <> Byte.x0a -> head_complete (a ++ [b]) = false.
Proof.
  intros Hb. unfold head_complete. rewrite rev_unit. apply bool_decide_eq_false_2. cbn. congruence.
Qed.

(** Reading a line moves it from the stream to the head. *)
Lemma read_head_plain a l rest : Forall (fun b => b <> Byte.x0d /\ b <> Byte.x0a) l -> l <> [] ->
  head_complete a = false ->
  read_head a (l ++ rest) = read_head (a ++ l) rest /\ exists l' x, l = l' ++ [x] /\ x <> Byte.x0a.
Proof.
  intros Hl Hne Ha. split; cycle 1.
  { destruct (exists_last Hne) as (l' & x & ->). exists l', x. split; [done|].
    apply Forall_app in Hl as [_ Hx]. by apply Forall_inv in Hx as [_ Hx]. }
  clear Hne. revert a Ha. induction Hl as [|b l [_ Hb] _ IH]; intros a Ha; [by rewrite app_nil_r|].
  cbn [app read_head]. rewrite Ha, IH by by apply head_incomplete. by rewrite <- app_assoc.
Qed.

Lemma crlf_incomplete a x : x <> Byte.x0a -> head_complete (a ++ [x; Byte.x0d; Byte.x0a]) = false.
Proof.
  intros Hx. unfold head_complete. rewrite rev_app_distr. apply bool_decide_eq_false_2. cbn. congruence.
Qed.

Lemma read_head_lines a ls rest : Forall (fun l => plain l = true /\ l <> EmptyString) ls ->
  head_complete a = false -> (ls = [] -> exists a', a = a' ++ [Byte.x0d; Byte.x0a]) ->
  read_head a (bytes_of_string (write_lines ls +:+ CRLF) ++ rest) =
    Some (a ++ bytes_of_string (write_lines ls +:+ CRLF), rest).
Proof.
  intros Hls. revert a. induction Hls as [|l ls [Hl Hne] _ IH]; intros a Ha Hnil.
  - destruct (Hnil eq_refl) as [a' ->]. cbn [write_lines]. change (bytes_of_string (EmptyString +:+ CRLF))
      with [Byte.x0d; Byte.x0a]. cbn [app read_head]. rewrite Ha, head_incomplete by done.
    rewrite <- !app_assoc. cbn [app].
    destruct rest; cbn [read_head]; (replace (head_complete _) with true; [done|]); symmetry;
      unfold head_complete; rewrite rev_app_distr; by apply bool_decide_eq_true_2.
  - cbn [write_lines]. rewrite !string_app_assoc, bytes_app, <- app_assoc.
    destruct (read_head_plain a (bytes_of_string l)
      (bytes_of_string (CRLF +:+ write_lines ls +:+ CRLF) ++ rest)) as [-> (l' & x & Hx & Hxn)];
      [by apply plain_bytes|by destruct l|done|].
    rewrite bytes_app. change (bytes_of_string CRLF) with [Byte.x0d; Byte.x0a]. cbn [app read_head].
    assert (Hinc : head_complete (a ++ bytes_of_string l) = false)
      by (rewrite Hx, app_assoc; by apply head_incomplete).
    rewrite Hinc, head_incomplete by done. rewrite IH.
    + rewrite <- !app_assoc. done.
    + rewrite Hx, <- !app_assoc, app_assoc. cbn [app]. by apply crlf_incomplete.
    + intros _. exists (a ++ bytes_of_string l). by rewrite <- !app_assoc.
Qed.

Lemma lines_write ls : Forall (fun l => Text.contains LF l = false) ls ->
  lines (write_lines ls +:+ CRLF) = ls ++ [EmptyString].
Proof.
  induction 1 as [|l ls Hl _ IH]; [done|]. cbn [write_lines].
  rewrite !string_app_assoc, lines_cons by done. by rewrite IH.
Qed.

Lemma trim_space v : trim (String " " v) = trim v.
Proof. done. Qed.

Lemma plain_app s t : plain (s +:+ t) = plain s && plain t.
Proof.
  unfold plain. rewrite !contains_app, !negb_orb.
  destruct (Text.contains CR s), (Text.contains CR t), (Text.contains LF s), (Text.contains LF t); done.
Qed.

Lemma plain_line s : plain s = true -> Text.contains LF s = false.
Proof. unfold plain. intros [_ H]%andb_true_iff. by apply negb_true_iff. Qed.

Lemma header_lines_ok headers :
  forallb (fun '(n, v) => plain n && plain v && negb (Text.contains ":" n) &&
    String.eqb (trim n) n && String.eqb (trim v) v) headers = true ->
  Forall (fun l => plain l = true /\ l <> EmptyString) (map header_line headers) /\
  map (fun '(name, value) => (to_ascii_lowercase (trim name), trim value))
    (omap (split_once ":") (map header_line headers)) =
  map (fun '(n, v) => (to_ascii_lowercase n, v)) headers.
Proof.
  induction headers as [|[n v] headers IH]; [done|]. cbn [forallb]. intros H.
  rewrite !andb_true_iff, negb_true_iff, !String.eqb_eq in H.
  destruct H as [((((Hn & Hv) & Hc) & Htn) & Htv) Hrest].
  destruct IH as [IH1 IH2]; [done|]. cbn [map]. split.
  - constructor; [|done]. unfold header_line. cbn. split; [|by destruct n].
    by rewrite !plain_app, Hn, Hv.
  - cbn [omap list_omap]. unfold header_line at 1. cbn [fst snd].
    change (": " +:+ v) with (String ":" (String " " v)). rewrite split_once_at by done.
    cbn [map]. by rewrite IH2, trim_space, Htn, Htv.
Qed.

(** The head is read as it was written, and what is recorded of it. *)
Lemma head_read_back (path : string) (headers : list (string * string)) (body : list u8) :
  head_ok path headers = true ->
  let head := bytes_of_string (request_head path headers) in
  let recorded := hash_collect (map (fun '(n, v) => (to_ascii_lowercase n, v)) headers) in
  read_head [] (head ++ body) = Some (head, body) /\
  request_of head = {| rq_path_and_query := path;
                       rq_authorization := recorded !! "authorization"%string;
                       rq_headers := recorded |}.
Proof.
  unfold head_ok. intros [[[Hp Hs]%andb_true_iff Hh]%andb_true_iff Hstr]%andb_true_iff. cbv zeta.
  apply negb_true_iff in Hs. destruct (header_lines_ok headers) as [Hls Hmap]; [done|].
  assert (Hfirst : plain ("POST " +:+ path +:+ " HTTP/1.1") = true)
    by by rewrite !plain_app, Hp.
  split.
  - unfold request_head. rewrite (read_head_lines []); [done| |done|done]. by constructor.
  - unfold request_of. rewrite from_utf8_lossy_valid by done. unfold parse_head, request_head.
    rewrite lines_write; cycle 1.
    { constructor; [by apply plain_line|]. eapply Forall_impl; [exact Hls|]. intros l [Hl _].
      by apply plain_line. }
    cbn [app]. rewrite omap_app. cbn [omap list_omap split_once]. rewrite app_nil_r, Hmap.
    change ("POST " +:+ path +:+ " HTTP/1.1") with ("POST" +:+ String " " (path +:+ " HTTP/1.1")).
    rewrite split_line by done. change (" HTTP/1.1") with (String " " "HTTP/1.1").
    rewrite split_line by done. done.
Qed.

(** The fake hub reads a request as it was written: from the text of any request line and
    headers, followed by anything, it takes exactly the head, and records the path, the headers
    under their lower-cased names, the last one of a name, and the authorization among them. *)
Theorem request_read_back (path : string) (headers : list (string * string)) (body : list u8) :
  head_ok path headers = true ->
  let head := bytes_of_string (request_head path headers) in
  let recorded := hash_collect (map (fun '(n, v) => (to_ascii_lowercase n, v)) headers) in
  read_head [] (head ++ body) = Some (head, body) /\
  request_of head = {| rq_path_and_query := path;
                       rq_authorization := recorded !! "authorization"%string;
                       rq_headers := recorded |}.
Proof. apply head_read_back. Qed.

(** ** What the client makes of a reply *)

(** [Deserialize for NegotiateResponse], of an object: a missing field and [null] are [None]. *)
Definition opt_field {A} (read : json -> option A) (key : string) (m : object)
    : result string (option A) :=
  match obj_get key m with
  | None | Some JNull => Ok None
  | Some v => match read v with Some a => Ok (Some a) | None => Err "invalid type"%string end
  end.

Definition as_string (v : json) : option string := match v with JString s => Some s | _ => None end.
Definition as_bool (v : json) : option bool := match v with JBool b => Some b | _ => None end.
Definition as_u32 (v : json) : option Z :=
  match v with JNumber (PosInt n) => if n <? 2 ^ 32 then Some n else None | _ => None end.

Definition negotiate_response_of_json (v : json) : result string NegotiateResponse :=
  match v with
  | JObject m =>
      url ← opt_field as_string "url" m;
      access_token ← opt_field as_string "accessToken" m;
      error ← opt_field as_string "error" m;
      connection_id ← opt_field as_string "connectionId" m;
      connection_token ← opt_field as_string "connectionToken" m;
      negotiate_version ← opt_field as_u32 "negotiateVersion" m;
      use_stateful_reconnect ← opt_field as_bool "useStatefulReconnect" m;
      Ok {| nr_url := url; nr_access_token := access_token; nr_error := error;
            nr_connection_id := connection_id; nr_connection_token := connection_token;
            nr_negotiate_version := negotiate_version;
            nr_use_stateful_reconnect := use_stateful_reconnect |}
  | _ => Err "invalid type"%string
  end.

(** The response that the default reply is meant to be. *)
Definition default_response (token : string) (stateful : bool) : NegotiateResponse := {|
  nr_url := None; nr_access_token := None; nr_error := None;
  nr_connection_id := Some ("id-" +:+ token)%string; nr_connection_token := Some token;
  nr_negotiate_version := Some 1;
  nr_use_stateful_reconnect := if stateful then Some true else None |}.

Lemma default_body_read token stateful :
  negotiate_response_of_json (default_body token stateful) = Ok (default_response token stateful).
Proof. by destruct stateful. Qed.

Lemma default_body_exact token stateful : is_str token = true ->
  json_exact (default_body token stateful) = true /\ json_depth (default_body token stateful) < 128.
Proof.
  intros Ht. assert (Hid : is_str ("id-" +:+ token) = true) by by apply is_str_app.
  destruct stateful; (split; [|vm_compute; done]).
  all: unfold default_body; rewrite json_exact_object; apply andb_true_iff; split; [by vm_compute|].
  all: repeat (apply andb_true_iff; split); done.
Qed.

Lemma response_text_inj status status' body body' :
  response_text status body = response_text status' body' -> status = status' /\ body = body'.
Proof.
  assert (Hnum : forall (z z' : Z) c t t', (forall n, pretty_N_char n <> c) -> c <> "-"%char ->
    pretty z +:+ String c t = pretty z' +:+ String c t' -> z = z' /\ t = t').
  { intros z z' c t t' Hd Hm Heq. apply (f_equal (split_once c)) in Heq.
    rewrite !split_once_at in Heq by by apply pretty_Z_contains.
    injection Heq as Hz ->. by apply (inj pretty) in Hz as ->. }
  assert (Hdig : forall c, existsb (Ascii.eqb c) (map pretty_N_char [0; 1; 2; 3; 4; 5; 6; 7; 8; 9]%N) = false ->
    forall n, pretty_N_char n <> c).
  { intros c Hc n <-. enough (existsb (Ascii.eqb (pretty_N_char n))
      (map pretty_N_char [0; 1; 2; 3; 4; 5; 6; 7; 8; 9]%N) = true) by congruence.
    unfold pretty_N_char. by repeat case_match. }
  unfold response_text. intros Heq. apply (inj (String.append "HTTP/1.1 ")) in Heq.
  apply (Hnum status status' " "%char) in Heq as [-> Heq]; [|by apply Hdig|done]. split; [done|].
  apply (inj (String.append ("X" +:+ CRLF +:+ "Content-Type: application/json" +:+ CRLF +:+
    "Content-Length: "))) in Heq.
  apply (Hnum _ _ CR) in Heq as [_ Heq]; [|by apply Hdig|done].
  by apply (inj (String.append (String LF ("Connection: close" +:+ CRLF +:+ CRLF)))) in Heq.
Qed.

(** ** The client against the fake hub *)

(** An HTTP client that talks to a fake hub: it writes the request with the path and query of
    the URL, reads the response that is written, and parses its body as JSON. *)
Class HubHttp (JT : JsonText) (HC : HttpClient FakeHub) := {
  target_of : string -> string;
  body_of : string -> Body;
  post_reaches_hub : forall url headers (h h' : FakeHub) response,
    listen (InHttp (bytes_of_string (request_head (target_of url) headers))) h = Some (h', Some response) ->
    exists status body, response = response_text status body /\
      http_post url headers h = (Ok (status, body_of body), h');
  body_json_text : forall text, body_json (body_of text) = v ← json_from_str text; negotiate_response_of_json v
}.

Section client.
Context `{JT : JsonText, JL : !JsonTextLaws JT, UL : UrlLib} `{HC : HttpClient FakeHub}
  `{HH : !HubHttp JT HC}.

Lemma starts_with_post_head path headers rest :
  starts_with_post (bytes_of_string (request_head path headers) ++ rest) = true.
Proof. apply bool_decide_eq_true_2. unfold request_head. cbn [write_lines]. by rewrite !bytes_app. Qed.

(** One request without a queued reply: what is recorded and answered. *)
Lemma listen_default path headers (h : FakeHub) :
  head_ok path headers = true -> fh_replies h = [] -> exists text h',
    listen (InHttp (bytes_of_string (request_head path headers))) h =
      Some (h', Some (response_text 200 text)) /\
    (v ← json_from_str text; negotiate_response_of_json v) =
      Ok (default_response ("token-" +:+ pretty (fh_tokens h + 1))
            (has_substring "useStatefulReconnect=true" path)) /\
    fh_tokens h' = fh_tokens h + 1 /\ fh_connections h' = fh_connections h /\
    (exists r, fh_requests h' = fh_requests h ++ [r] /\ rq_path_and_query r = path /\
      rq_headers r = hash_collect (map (fun '(n, v) => (to_ascii_lowercase n, v)) headers)).
Proof.
  intros Hok Hr. set (tok := ("token-" +:+ pretty (fh_tokens h + 1))%string).
  destruct (default_body_exact tok (has_substring "useStatefulReconnect=true" path)) as [He Hd];
    [by apply is_str_app, pretty_Z_str|].
  destruct (json_print_read _ He Hd) as (text & Hp & Hrd & _ & _).
  destruct (head_read_back path headers [] Hok) as [Hread Hreq]. rewrite app_nil_r in Hread.
  unfold listen. pose proof (starts_with_post_head path headers []) as Hst. rewrite app_nil_r in Hst.
  rewrite Hst, Hr. unfold negotiate. rewrite Hread, Hreq. unfold asks_stateful, reply_body.
  cbn [head default rq_path_and_query]. fold tok. rewrite Hp. cbn. do 2 eexists.
  split; [done|]. rewrite Hrd. split; [apply (default_body_read tok)|]. split_and!; try done.
  by eexists.
Qed.

(** The client negotiates with the fake hub: with no reply queued, [negotiate_with_client] needs
    one request, gets the next connection token of the hub and the id that belongs to it, stateful
    reconnect exactly when it asked for it, keeps its own access token and URL; the hub has
    recorded the request with the client's headers, and opened no connection yet. *)
Theorem client_negotiates_with_hub (url negotiate_url : string) (options : NegotiateOptions)
    (access_token : option string) (s : NegState FakeHub) :
  resolve_negotiate_url url options = Ok negotiate_url ->
  head_ok (target_of negotiate_url) (request_headers options access_token) = true ->
  has_substring "useStatefulReconnect=true" (target_of negotiate_url) =
    no_use_stateful_reconnect options ->
  fh_replies (ns_world s) = [] ->
  let token := ("token-" +:+ pretty (fh_tokens (ns_world s) + 1))%string in
  exists s', negotiate_with_client url options access_token s =
    Some (Ok {| ng_response := default_response token (no_use_stateful_reconnect options);
                ng_access_token := access_token; ng_url := url; ng_token_from_server := false |}, s') /\
    fh_tokens (ns_world s') = fh_tokens (ns_world s) + 1 /\
    fh_connections (ns_world s') = fh_connections (ns_world s) /\
    exists r, fh_requests (ns_world s') = fh_requests (ns_world s) ++ [r] /\
      rq_path_and_query r = target_of negotiate_url /\
      rq_headers r = hash_collect (map (fun '(n, v) => (to_ascii_lowercase n, v))
        (request_headers options access_token)).
Proof.
  intros Hu Hok Hst Hr. cbv zeta. set (tok := ("token-" +:+ pretty _)%string).
  destruct (listen_default _ _ _ Hok Hr) as (text & h' & Hl & Hj & Htok & Hcon & Hreq).
  destruct (post_reaches_hub _ _ _ _ _ Hl) as (status & body & Heq & Hpost).
  apply response_text_inj in Heq as [<- <-]. rewrite Hst in Hj. fold tok in Hj.
  unfold negotiate_with_client, negotiate_with_source. cbn [negotiate_loop].
  unfold request_with_refresh, negotiate_once. rewrite Hu. cbn [token]. rewrite Hpost.
  cbn [map_err mbind result_bind]. rewrite Z.eqb_refl, body_json_text, Hj.
  cbn -[negotiate_loop default_response].
  destruct (no_use_stateful_reconnect options); cbn -[negotiate_loop];
    (eexists; split; [done|]; by split_and!).
Qed.
End client.
