(* ===== verification/HubApi.v ===== *)
(** * Handlers, callbacks and accessors of a connection ([src/hub_connection/mod.rs],
    [ClientMethodOutput] of [src/bus.rs])

    What an application registers on a connection: handlers of client methods, which get the
    arguments as JSON values or deserialized into a type of their own, and lifecycle callbacks. *)

From Stdlib Require Import ZArith Lia String.
From stdpp Require Import base list strings gmap.
From S2P Require Import Prelude Framing Utf8 Errors Values Arguments Message JsonProtocol.
From S2P Require Import MessageBuffer Bus Dispatch Handshake Negotiate Retry Connection.
From S2P Require Import Runtime Client.

Local Open Scope Z_scope.

(** ** Handlers *)

(** [ClientMethodOutput]: what comes out when it is awaited; [ready] and [async] differ in when. *)
Record ClientMethodOutput := { inner : output }.

(** [ClientMethodOutput::ready] *)
Definition ready (r : output) : ClientMethodOutput := {| inner := r |}.

(** [ClientMethodOutput::async] *)
Definition async (future : output) : ClientMethodOutput := {| inner := future |}.

(** [ClientMethodOutput::await_output] *)
Definition await_output (o : ClientMethodOutput) : output := inner o.

(** [invalid_arguments] *)
Definition invalid_arguments (method : string) (error : Error) : ClientMethodOutput :=
  ready (Err (error_text error)).

Section handlers.
Context `{MP : MsgPack} {W : Type}.

Local Abbreviation hub := (HubConnection W).

(** The closures that [on], [on_typed] and [on_async] register. *)
Definition on_closure (method : string) (run : list json -> option json) : handler :=
  fun arguments => await_output
    match arguments_to_json arguments with
    | Ok arguments => ready (Ok (run arguments))
    | Err error => invalid_arguments method error
    end.

Definition on_async_closure (method : string) (run : list json -> output) : handler :=
  fun arguments => await_output
    match arguments_to_json arguments with
    | Ok arguments => async (run arguments)
    | Err error => invalid_arguments method error
    end.

(** The application's handler, run for its effect, is what it does to a state [A]; the closure
    is a pair: the new state, and the output. *)
Definition on_typed_call {T A} (method : string) (from_seq : list json -> result string T)
    (from_slice : list u8 -> result string T) (run : T -> A -> A) (arguments : Arguments) (a : A)
    : A * ClientMethodOutput :=
  match deserialize from_seq from_slice arguments with
  | Ok value => (run value a, ready (Ok None))
  | Err error => (a, invalid_arguments method error)
  end.

Definition on_typed_closure {T} (method : string) (from_seq : list json -> result string T)
    (from_slice : list u8 -> result string T) : handler :=
  fun arguments => await_output (on_typed_call method from_seq from_slice (fun _ a => a) arguments tt).2.

Definition register (method : string) (h : handler) (c : hub) : Z * hub :=
  let '(id, b) := register_handler method h (hc_bus c) in (id, set_bus b c).

(** [HubConnection::on] *)
Definition on (method : string) (run : list json -> option json) : hub -> Z * hub :=
  register method (on_closure method run).

(** [HubConnection::on_typed] *)
Definition on_typed {T} (method : string) (from_seq : list json -> result string T)
    (from_slice : list u8 -> result string T) : hub -> Z * hub :=
  register method (on_typed_closure method from_seq from_slice).

(** [HubConnection::on_async] *)
Definition on_async (method : string) (run : list json -> output) : hub -> Z * hub :=
  register method (on_async_closure method run).

(** [HubConnection::off] *)
Definition off (method : string) (c : hub) : hub := set_bus (remove_handler method None (hc_bus c)) c.

(** [HubConnection::off_handler] *)
Definition off_handler (method : string) (id : Z) (c : hub) : hub :=
  set_bus (remove_handler method (Some id) (hc_bus c)) c.

(** ** Callbacks and accessors *)

(** [on_close], [on_reconnecting], [on_reconnected] *)
Definition on_close (callback : nat) (c : hub) : hub :=
  set_lifecycle (register_closed callback (hc_lifecycle c)) c.
Definition on_reconnecting (callback : nat) (c : hub) : hub :=
  set_lifecycle (register_reconnecting callback (hc_lifecycle c)) c.
Definition on_reconnected (callback : nat) (c : hub) : hub :=
  set_lifecycle (register_reconnected callback (hc_lifecycle c)) c.

(** [url] *)
Definition url (o : ConnectionOptions W) : string := op_base_url o.

(** [set_base_url] *)
Definition set_base_url (u : string) (o : ConnectionOptions W) (c : hub)
    : result Error unit * ConnectionOptions W :=
  if decide (hc_state c = Disconnected) then
    (Ok tt, {| op_base_url := u; op_negotiate := op_negotiate o;
               op_handshake_request := op_handshake_request o;
               op_handshake_version_override := op_handshake_version_override o;
               op_transfer_format := op_transfer_format o;
               op_handshake_timeout := op_handshake_timeout o;
               op_access_token_factory := op_access_token_factory o;
               op_hub_protocol := op_hub_protocol o; op_server_timeout := op_server_timeout o;
               op_keep_alive_interval := op_keep_alive_interval o;
               op_reconnect_policy := op_reconnect_policy o;
               op_stateful_reconnect_buffer_size := op_stateful_reconnect_buffer_size o;
               op_http_client := op_http_client o;
               op_log_message_content := op_log_message_content o |})
  else (Err (EInvalidState "base URL can only be changed while the connection is disconnected"), o).

(** ** Theorems *)

(** An error of one handler is what the server gets, unless there are several results. *)
Lemma expected_answer_error outputs e : Err e ∈ outputs -> exists e', expected_answer outputs = Err e' /\
  (e' = multiple_results \/ Err e' ∈ outputs).
Proof.
  intros He. unfold expected_answer.
  destruct (results_of outputs) as [|v1 [|v2 l]]; [| |by eexists; split; [done|left]].
  all: assert (Hin : e ∈ errors_of outputs)
    by (unfold errors_of; apply list_elem_of_omap; by exists (Err e)).
  all: destruct (last (errors_of outputs)) as [e'|] eqn:Hl;
    [|by apply last_None in Hl; rewrite Hl in Hin; apply elem_of_nil in Hin].
  all: exists e'; split; [done|right]; apply last_Some in Hl as [l' Hl].
  all: assert (Hin' : e' ∈ errors_of outputs) by (rewrite Hl; set_solver).
  all: apply list_elem_of_omap in Hin' as ([?|?] & Ho & Heq); [by repeat case_match|by simplify_eq].
Qed.

(** The handlers that dispatch runs after a registration. *)
Lemma registered_last method h (c : hub) target :
  to_ascii_lowercase target = to_ascii_lowercase method ->
  handlers_for target (hc_bus (register method h c).2) = handlers_for target (hc_bus c) ++ [h].
Proof.
  intros Ht. destruct (handlers_lookup (hc_bus c) method target h 0) as [Hl _].
  unfold register. cbn in *. by rewrite Hl, Ht, String.eqb_refl.
Qed.

(** C27: Arguments that cannot be read are reported and not handled: when the arguments of an
    invocation do not fit the type of a typed handler, the application's handler is not run, and
    an invocation that expects a result is completed with an error and without a result, with
    the reason as the error when no other handler is registered; one that expects none is not
    answered. *)
Theorem unreadable_arguments_reported `{TR : Transport X} {T A : Type} (protocol : HubProtocol)
    (tr : transport) (format : TransferFormat) (method e : string)
    (from_seq : list json -> result string T) (from_slice : list u8 -> result string T)
    (c : hub) (m : InvocationMessage) (s : DispatchState X) :
  ds_bus s = hc_bus (on_typed method from_seq from_slice c).2 ->
  to_ascii_lowercase (inv_target m) = to_ascii_lowercase method ->
  deserialize from_seq from_slice (inv_arguments m) = Err (EInvalidArguments e) ->
  (forall (run : T -> A -> A) a,
    (on_typed_call method from_seq from_slice run (inv_arguments m) a).1 = a) /\
  match inv_invocation_id m with
  | None => handle_invocation protocol tr format m s = (Ok tt, s)
  | Some id => exists error,
      handle_invocation protocol tr format m s =
        send_completion protocol tr format
          {| comp_headers := ∅; comp_invocation_id := id; comp_error := Some error;
             comp_result := None |} s /\
      (handlers_for method (hc_bus c) = [] -> error = ("invalid invocation arguments: " +:+ e)%string)
  end.
Proof.
  intros Hb Ht Hd. split; [intros run a; unfold on_typed_call; by rewrite Hd|].
  rewrite invocation_answer. destruct (inv_invocation_id m) as [id|]; [|done]. cbv zeta.
  unfold on_typed in Hb. rewrite Hb, registered_last, map_app by done. cbn [map].
  assert (Ho : on_typed_closure method from_seq from_slice (inv_arguments m) =
    Err ("invalid invocation arguments: " +:+ e)%string).
  { unfold on_typed_closure, on_typed_call. by rewrite Hd. }
  rewrite Ho. set (error := ("invalid invocation arguments: " +:+ e)%string).
  destruct (decide (handlers_for (inv_target m) (hc_bus c) = [])) as [Hnone|Hsome].
  - rewrite Hnone. by exists error.
  - destruct (expected_answer_error (map (fun h => h (inv_arguments m))
      (handlers_for (inv_target m) (hc_bus c)) ++ [Err error]) error) as (e' & He & _); [set_solver|].
    rewrite He. exists e'. split; [done|]. intros Hnone. exfalso. apply Hsome.
    unfold handlers_for in *. by rewrite Ht.
Qed.

(** Removing a registration undoes it: after [on_typed], or any registration, and [off_handler]
    with the id it returned, every method has the handlers it had before, and [off] leaves a
    method without handlers and the others as they were. *)
Theorem registration_roundtrip (method other : string) (h : handler) (c : hub) :
  bus_ok (hc_bus c) ->
  let '(id, c') := register method h c in
  handlers_for other (hc_bus (off_handler method id c')) = handlers_for other (hc_bus c) /\
  handlers_for other (hc_bus (off method c)) =
    if String.eqb (to_ascii_lowercase other) (to_ascii_lowercase method) then []
    else handlers_for other (hc_bus c).
Proof.
  intros Hok. destruct (handlers_lookup (hc_bus c) method other h 0) as (H1 & _ & H3 & H4).
  unfold register. cbn -[remove_handler handlers_for]. set (id := next_handler_id (hc_bus c)).
  set (b := (register_handler method h (hc_bus c)).2).
  change (set_handlers _ _ (hc_bus c)) with b.
  destruct (String.eqb_spec (to_ascii_lowercase other) (to_ascii_lowercase method)) as [Heq|Hne].
  - split; [|unfold handlers_for in *; by rewrite Heq].
    destruct (handlers_lookup b method other h id) as (_ & H2 & _ & _).
    unfold handlers_for. rewrite Heq, H2. subst b. cbn. rewrite lookup_insert_eq. cbn.
    rewrite filter_app. rewrite filter_all.
    + rewrite filter_cons_False by naive_solver. cbn. by rewrite app_nil_r.
    + destruct (handlers (hc_bus c) !! _) as [l|] eqn:Hl; [|done]. cbn.
      eapply Forall_impl; [exact (ok_handlers _ Hok _ _ Hl)|]. cbn. intros x Hx Hid. subst id. lia.
  - destruct (handlers_lookup b method other h id) as (_ & _ & _ & H4').
    rewrite H4', H4 by done. split; [|done]. subst b. rewrite H1. by rewrite app_nil_r.
Qed.

End handlers.
