(* ===== verification/Handlers.v ===== *)
(** * Handlers that act ([handle_invocation] of [src/hub_connection/dispatch.rs], [src/bus.rs],
      the closures of [src/hub_connection/mod.rs])

    In [Bus] a handler is a function of its arguments, which is all that the answers depend on.
    A real handler acts on the application: it pushes to a list, sets a flag, reads what an
    earlier one left.  Here a handler acts on a state [A] of the application, registration and the
    loop over the handlers are written for such handlers, and it is shown that nothing is lost:
    what the connection does is what it does with pure handlers that give the same outputs, and
    every handler that is registered under a name is called once for each invocation that the
    connection accepts, in the order of the invocations and of the registrations. *)

From Stdlib Require Import ZArith Lia String.
From stdpp Require Import base list strings gmap.
From S2P Require Import Prelude Framing Utf8 Errors Values Arguments Message JsonProtocol.
From S2P Require Import MessageBuffer Bus Dispatch Handshake Negotiate Retry Connection.
From S2P Require Import Runtime Client HubApi.

Local Open Scope Z_scope.

(** ** The handlers of an application *)

(** A [ClientMethodHandler] with what it does to the application. *)
Abbreviation acting A := (Arguments -> A -> A * output).

(** [RegisteredClientHandler] and the handlers of a [MessageBus], for such handlers. *)
Record AppHandler (A : Type) := { ah_id : Z; ah_run : acting A }.
Arguments ah_id {A}.
Arguments ah_run {A}.

Record AppBus (A : Type) := { ab_handlers : gmap string (list (AppHandler A)); ab_next_id : Z }.
Arguments ab_handlers {A}.
Arguments ab_next_id {A}.

Definition app_new {A} : AppBus A := {| ab_handlers := ∅; ab_next_id := 1 |}.

(** The entries of a name. *)
Definition entries {A} (target : string) (b : AppBus A) : list (AppHandler A) :=
  default [] (ab_handlers b !! to_ascii_lowercase target).

(** [register_handler] *)
Definition app_register {A} (target : string) (h : acting A) (b : AppBus A) : Z * AppBus A :=
  let id := ab_next_id b in
  (id, {| ab_handlers := <[to_ascii_lowercase target :=
                            entries target b ++ [{| ah_id := id; ah_run := h |}]]> (ab_handlers b);
          ab_next_id := id + 1 |}).

(** [remove_handler] *)
Definition app_remove {A} (target : string) (handler_id : option Z) (b : AppBus A) : AppBus A :=
  let key := to_ascii_lowercase target in
  match ab_handlers b !! key with
  | None => b
  | Some method_handlers =>
      let kept := match handler_id with
                  | Some id => filter (fun h => ah_id h <> id) method_handlers
                  | None => []
                  end in
      {| ab_handlers := match kept with
                        | [] => delete key (ab_handlers b)
                        | _ => <[key := kept]> (ab_handlers b)
                        end;
         ab_next_id := ab_next_id b |}
  end.

(** [handlers_for] *)
Definition app_handlers_for {A} (target : string) (b : AppBus A) : list (acting A) :=
  map ah_run (entries target b).

(** The closures of [on], [on_typed] and [on_async], around handlers of the application that act. *)
Section closures.
Context `{MP : MsgPack} {A : Type}.

Definition on_acting (method : string) (run : list json -> A -> A * option json) : acting A :=
  fun arguments a =>
    match arguments_to_json arguments with
    | Ok arguments => let '(a, r) := run arguments a in (a, await_output (ready (Ok r)))
    | Err error => (a, await_output (invalid_arguments method error))
    end.

Definition on_typed_acting {T} (method : string) (from_seq : list json -> result string T)
    (from_slice : list u8 -> result string T) (run : T -> A -> A) : acting A :=
  fun arguments a =>
    let '(a, o) := on_typed_call method from_seq from_slice run arguments a in (a, await_output o).

Definition on_async_acting (method : string) (run : list json -> A -> A * output) : acting A :=
  fun arguments a =>
    match arguments_to_json arguments with
    | Ok arguments => let '(a, r) := run arguments a in (a, await_output (async r))
    | Err error => (a, await_output (invalid_arguments method error))
    end.

(** What a typed handler answers does not depend on what the application's handler does. *)
Lemma on_typed_acting_output {T} method (from_seq : list json -> result string T) from_slice run arguments a :
  (on_typed_acting method from_seq from_slice run arguments a).2 =
    on_typed_closure method from_seq from_slice arguments.
Proof.
  unfold on_typed_acting, on_typed_closure, on_typed_call. by destruct (deserialize _ _ arguments).
Qed.

End closures.

(** ** Dispatch *)

(** The loop of [handle_invocation]. *)
Fixpoint call_handlers {A} (expects_response : bool) (hs : list (acting A)) (arguments : Arguments)
    (s : HandlerState) (a : A) : A * HandlerState :=
  match hs with
  | [] => (a, s)
  | h :: hs =>
      let '(a, o) := h arguments a in
      call_handlers expects_response hs arguments (handler_step expects_response s o) a
  end.

Section dispatch.
Context `{TR : Transport T} {A : Type} (protocol : HubProtocol) (size : Z) (tr : transport)
  (format : TransferFormat).

(** [handle_invocation] *)
Definition app_handle_invocation (b : AppBus A) (m : InvocationMessage) (s : DispatchState T) (a : A)
    : result Error unit * DispatchState T * A :=
  match app_handlers_for (to_ascii_lowercase (inv_target m)) b with
  | [] =>
      match inv_invocation_id m with
      | Some invocation_id =>
          (send_completion protocol tr format
             {| comp_headers := ∅; comp_invocation_id := invocation_id;
                comp_error := Some no_result; comp_result := None |} s, a)
      | None => (Ok tt, s, a)
      end
  | hs =>
      let '(a, state) := call_handlers (bool_decide (is_Some (inv_invocation_id m))) hs (inv_arguments m)
        {| Dispatch.hs_result := None; Dispatch.hs_error := None; Dispatch.hs_multiple := false |} a in
      match inv_invocation_id m with
      | Some invocation_id => (send_completion protocol tr format (completion_for invocation_id state) s, a)
      | None => (Ok tt, s, a)
      end
  end.

(** [dispatch]; the application is touched by invocations alone. *)
Definition app_dispatch (b : AppBus A) (m : HubMessage) (s : DispatchState T) (a : A)
    : result Error unit * DispatchState T * A :=
  let '(process, s) := guard tr format m s in
  if process then
    match m with
    | HInvocation m => app_handle_invocation b m s a
    | _ => (route protocol size tr format m s, a)
    end
  else (Ok tt, s, a).

(** The messages of a frame, one after the other until one fails ([process_input]). *)
Fixpoint app_dispatch_all (b : AppBus A) (ms : list HubMessage) (s : DispatchState T) (a : A)
    : result Error unit * DispatchState T * A :=
  match ms with
  | [] => (Ok tt, s, a)
  | m :: ms =>
      match app_dispatch b m s a with
      | (Ok _, s, a) => app_dispatch_all b ms s a
      | r => r
      end
  end.

(** [process_text], [process_binary] *)
Definition app_process_input (b : AppBus A) (input : HubProtocolInput) (s : DispatchState T) (a : A)
    : result Error unit * DispatchState T * A :=
  match parse_messages protocol input with
  | Err e => (Err (EProtocol (protocol_error_text e)), s, a)
  | Ok ms => app_dispatch_all b ms s a
  end.

End dispatch.

(** ** What the handlers do, one after the other *)

(** The application after the handlers were called, and what they returned. *)
Fixpoint outputs_of {A} (hs : list (acting A)) (arguments : Arguments) (a : A) : A * list output :=
  match hs with
  | [] => (a, [])
  | h :: hs =>
      let '(a, o) := h arguments a in
      let '(a, outputs) := outputs_of hs arguments a in (a, o :: outputs)
  end.

Lemma call_handlers_outputs {A} expects (hs : list (acting A)) arguments : forall s a,
  call_handlers expects hs arguments s a =
    ((outputs_of hs arguments a).1, fold_left (handler_step expects) (outputs_of hs arguments a).2 s).
Proof.
  induction hs as [|h hs IH]; intros s a; cbn; [done|].
  destruct (h arguments a) as [a1 o]. rewrite IH. by destruct (outputs_of hs arguments a1).
Qed.

Lemma length_outputs {A} (hs : list (acting A)) arguments : forall a,
  length (outputs_of hs arguments a).2 = length hs.
Proof.
  induction hs as [|h hs IH]; intros a; cbn; [done|].
  destruct (h arguments a) as [a1 o]. specialize (IH a1).
  destruct (outputs_of hs arguments a1); cbn in *; lia.
Qed.

(** A bus of pure handlers that return what the handlers return in this call. *)
Definition snapshot {A} (b : AppBus A) (m : InvocationMessage) (a : A) (bus : MessageBus) : MessageBus :=
  let outputs := (outputs_of (app_handlers_for (inv_target m) b) (inv_arguments m) a).2 in
  set_handlers {[to_ascii_lowercase (inv_target m) :=
      zip_with (fun h o => {| rh_id := ah_id h; rh_handler := fun _ => o |}) (entries (inv_target m) b) outputs]}
    (next_handler_id bus) bus.

Lemma snapshot_outputs {A} (b : AppBus A) m a bus :
  map (fun h => h (inv_arguments m)) (handlers_for (inv_target m) (snapshot b m a bus)) =
    (outputs_of (app_handlers_for (inv_target m) b) (inv_arguments m) a).2.
Proof.
  unfold handlers_for, snapshot. cbn [handlers set_handlers]. rewrite lookup_singleton_eq. cbn [default].
  pose proof (length_outputs (app_handlers_for (inv_target m) b) (inv_arguments m) a) as Hlen.
  unfold app_handlers_for in Hlen at 2. rewrite length_map in Hlen.
  revert Hlen. generalize (outputs_of (app_handlers_for (inv_target m) b) (inv_arguments m) a).2.
  generalize (entries (inv_target m) b). intros l.
  induction l as [|h l IH]; intros [|o os] Hlen; try done. cbn in *. f_equal. apply IH. lia.
Qed.

Section behaviour.
Context `{TR : Transport T} {A : Type} (protocol : HubProtocol) (tr : transport)
  (format : TransferFormat).

(** The answer to an invocation whose handlers returned [outputs]. *)
Definition answered (m : InvocationMessage) (outputs : list output) (s : DispatchState T)
    : result Error unit * DispatchState T :=
  match inv_invocation_id m with
  | None => (Ok tt, s)
  | Some id =>
      let answer := expected_answer outputs in
      send_completion protocol tr format
        {| comp_headers := ∅; comp_invocation_id := id;
           comp_error := match answer with Err e => Some e | Ok _ => None end;
           comp_result := match answer with Ok v => Some v | Err _ => None end |} s
  end.

Lemma send_completion_bus c (s : DispatchState T) bus :
  send_completion protocol tr format c (with_bus bus s) =
    let '(r, s') := send_completion protocol tr format c s in (r, with_bus bus s').
Proof.
  unfold send_completion. repeat (case_match; simplify_eq/=; try done).
Qed.

(** An invocation is answered from the outputs of the handlers. *)
Lemma acting_answered (b : AppBus A) m (s : DispatchState T) a :
  let '(a', outputs) := outputs_of (app_handlers_for (inv_target m) b) (inv_arguments m) a in
  app_handle_invocation protocol tr format b m s a = (answered m outputs s, a').
Proof.
  unfold app_handle_invocation, answered, app_handlers_for, entries.
  rewrite to_ascii_lowercase_idemp.
  destruct (map ah_run _) as [|h hs]; cbn [outputs_of]; [by destruct (inv_invocation_id m)|].
  rewrite call_handlers_outputs. cbn [outputs_of].
  destruct (h (inv_arguments m) a) as [a1 o]. destruct (outputs_of hs (inv_arguments m) a1) as [a2 os].
  cbn [fst snd]. destruct (inv_invocation_id m) as [id|]; [|done].
  rewrite bool_decide_eq_true_2 by done. do 2 f_equal. exact (completion_for_spec id (o :: os)).
Qed.

(** With handlers that act, an invocation does what it does with the pure handlers of its
    snapshot: what is shown of [handle_invocation] for every bus holds of handlers that act. *)
Theorem acting_as_pure (b : AppBus A) m (s : DispatchState T) a :
  let '(r, s', a') := app_handle_invocation protocol tr format b m s a in
  let bus := snapshot b m a (ds_bus s) in
  handle_invocation protocol tr format m (with_bus bus s) = (r, with_bus bus s').
Proof.
  pose proof (acting_answered b m s a) as Ha. pose proof (snapshot_outputs b m a (ds_bus s)) as Ho.
  destruct (outputs_of _ _ a) as [a1 outputs]. cbn [snd] in Ho. rewrite Ha.
  destruct (answered m outputs s) as [r s'] eqn:Hs. cbv zeta.
  rewrite invocation_answer. cbn [with_bus ds_bus]. rewrite Ho. unfold answered in Hs.
  destruct (inv_invocation_id m) as [id|]; [|by simplify_eq].
  cbv zeta in Hs |- *. by rewrite send_completion_bus, Hs.
Qed.

End behaviour.

(** ** Every handler is called, once and in order *)

Section calls.
Context `{TR : Transport T} {A : Type} (protocol : HubProtocol) (size : Z) (tr : transport)
  (format : TransferFormat).

(** The bus whose handlers also note that they were called, and with what. *)
Definition note (h : AppHandler A) : AppHandler (A * list (Z * Arguments)) := {|
  ah_id := ah_id h;
  ah_run := fun arguments '(a, log) =>
    let '(a, o) := ah_run h arguments a in (a, log ++ [(ah_id h, arguments)], o)
|}.
Definition noted (b : AppBus A) : AppBus (A * list (Z * Arguments)) := {|
  ab_handlers := map note <$> ab_handlers b; ab_next_id := ab_next_id b |}.

(** The calls a message leads to. *)
Definition calls_of (b : AppBus A) (m : HubMessage) : list (Z * Arguments) :=
  match m with
  | HInvocation m => map (fun h => (ah_id h, inv_arguments m)) (entries (inv_target m) b)
  | _ => []
  end.

(** The buffer after a message that is processed, and the messages the guard lets through: the
    buffer alone decides. *)
Definition buffer_after (m : HubMessage) (buffer : option MessageBuffer) : option MessageBuffer :=
  match m with
  | HAck m => (fun buffer => (ack size m buffer).1) <$> buffer
  | HSequence m => (fun buffer => (reset_sequence m buffer).2) <$> buffer
  | _ => buffer
  end.

Definition buffer_guard (m : HubMessage) (buffer : option MessageBuffer) : bool * option MessageBuffer :=
  match buffer with
  | Some buffer =>
      let '(process, buffer) := should_process_message m tr format buffer in (process, Some buffer)
  | None => (true, None)
  end.

Fixpoint accepted (ms : list HubMessage) (buffer : option MessageBuffer) : list HubMessage :=
  match ms with
  | [] => []
  | m :: ms =>
      let '(process, buffer) := buffer_guard m buffer in
      if process then m :: accepted ms (buffer_after m buffer) else accepted ms buffer
  end.

Lemma guard_buffer m (s : DispatchState T) :
  guard tr format m s = ((buffer_guard m (ds_buffer s)).1, with_buffer (buffer_guard m (ds_buffer s)).2 s).
Proof.
  unfold guard, buffer_guard. destruct s as [bus [buffer|] events signaled w]; cbn; [|done].
  by destruct (should_process_message m tr format buffer).
Qed.

Lemma entries_noted target b : entries target (noted b) = map note (entries target b).
Proof. unfold entries, noted. cbn. rewrite lookup_fmap. by destruct (ab_handlers b !! _). Qed.

Lemma outputs_noted l arguments : forall a log,
  outputs_of (map ah_run (map note l)) arguments (a, log) =
    let '(a', outputs) := outputs_of (map ah_run l) arguments a in
    (a', log ++ map (fun h => (ah_id h, arguments)) l, outputs).
Proof.
  induction l as [|h l IH]; intros a log; cbn; [by rewrite app_nil_r|].
  destruct (ah_run h arguments a) as [a1 o]. rewrite IH.
  destruct (outputs_of (map ah_run l) arguments a1) as [a2 os].
  by rewrite <- app_assoc.
Qed.

(** One message. *)
Lemma dispatch_noted b m (s : DispatchState T) a log :
  app_dispatch protocol size tr format (noted b) m s (a, log) =
    let '(rs, a') := app_dispatch protocol size tr format b m s a in
    (rs, (a', log ++ flat_map (calls_of b) (accepted [m] (ds_buffer s)))).
Proof.
  unfold app_dispatch. rewrite guard_buffer. cbn [accepted].
  destruct (buffer_guard m (ds_buffer s)) as [[] buffer]; cbn [fst snd flat_map]; [|by rewrite app_nil_r].
  destruct m as [m|?|?|?|?| |?|?|?]; cbn [calls_of app]; rewrite ?app_nil_r; try done.
  pose proof (acting_answered protocol tr format b m (with_buffer buffer s) a) as Ha.
  pose proof (acting_answered protocol tr format (noted b) m (with_buffer buffer s) (a, log)) as Hn.
  unfold app_handlers_for in *. rewrite entries_noted, outputs_noted in Hn.
  destruct (outputs_of (map ah_run (entries (inv_target m) b)) (inv_arguments m) a) as [a' outputs].
  by rewrite Ha, Hn.
Qed.

(** The buffer after a message. *)
Lemma dispatch_buffer b m (s : DispatchState T) (a : A) :
  let '(process, buffer) := buffer_guard m (ds_buffer s) in
  ds_buffer (app_dispatch protocol size tr format b m s a).1.2 =
    if process then buffer_after m buffer else buffer.
Proof.
  unfold app_dispatch. rewrite guard_buffer.
  destruct (buffer_guard m (ds_buffer s)) as [[] buffer]; cbn [fst snd]; [|done].
  destruct m as [m|?|m|?|?| |m|?|m]; cbn [buffer_after]; try done; cbn [route].
  - pose proof (acting_answered protocol tr format b m (with_buffer buffer s) a) as Ha.
    destruct (outputs_of _ _ a) as [a' outputs]. rewrite Ha. unfold answered, send_completion.
    destruct (inv_invocation_id m); [|done]. by destruct (send_hub_message _ _ _ _ _).
  - unfold handle_stream_item. by destruct (item_invocation_id m).
  - unfold handle_close. by destruct (transport_close tr _).
  - destruct buffer as [buffer|]; [|done]. cbn. by destruct (reset_sequence m buffer).
Qed.

Lemma accepted_cons b m ms (s : DispatchState T) (a : A) :
  accepted (m :: ms) (ds_buffer s) = accepted [m] (ds_buffer s) ++
    accepted ms (ds_buffer (app_dispatch protocol size tr format b m s a).1.2).
Proof.
  pose proof (dispatch_buffer b m s a) as Hb. cbn [accepted].
  destruct (buffer_guard m (ds_buffer s)) as [[] buffer]; by rewrite Hb.
Qed.

(** C15: Handlers are called for what arrives, exactly.  Of the messages that come in, up to the one
    that fails if one does, those that the reconnect buffer lets through are handed on, and each
    invocation among them calls every handler registered under its name, once, in the order of
    registration and with the arguments the server sent, the invocations in the order of their
    arrival; nothing else calls a handler.  A handler sees what earlier ones did to the
    application, noting the calls changes nothing, and an invocation that expects a result is
    answered from the outputs the handlers gave. *)
Theorem handlers_reached (b : AppBus A) (ms : list HubMessage) (s : DispatchState T) (a : A)
    (log : list (Z * Arguments)) :
  (let '(r, s', (a', log')) := app_dispatch_all protocol size tr format (noted b) ms s (a, log) in
   app_dispatch_all protocol size tr format b ms s a = (r, s', a') /\
   exists n, app_dispatch_all protocol size tr format b (take n ms) s a = (r, s', a') /\
     match r with
     | Ok _ => n = length ms
     | Err _ => exists k, n = S k /\ (k < length ms)%nat /\
         is_ok (app_dispatch_all protocol size tr format b (take k ms) s a).1.1 = true
     end /\
     log' = log ++ flat_map (calls_of b) (accepted (take n ms) (ds_buffer s))) /\
  forall m,
    let '(a', outputs) := outputs_of (app_handlers_for (inv_target m) b) (inv_arguments m) a in
    app_handle_invocation protocol tr format b m s a = (answered protocol tr format m outputs s, a').
Proof.
  split; [|intros m; apply acting_answered].
  revert s a log. induction ms as [|m ms IH]; intros s a log; cbn [app_dispatch_all].
  { split; [done|]. exists 0%nat. cbn. by rewrite app_nil_r. }
  rewrite dispatch_noted. pose proof (fun ms => accepted_cons b m ms s a) as Hacc.
  destruct (app_dispatch protocol size tr format b m s a) as [[[u|e] s1] a1] eqn:Hd.
  - cbn [fst snd] in Hacc. specialize (IH s1 a1 (log ++ flat_map (calls_of b) (accepted [m] (ds_buffer s)))).
    destruct (app_dispatch_all protocol size tr format (noted b) ms s1 _) as [[r s'] [a' log']].
    destruct IH as (Hall & n & Hn & Hend & Hlog). split; [done|]. exists (S n). cbn [take app_dispatch_all].
    rewrite Hd, Hacc, flat_map_app, app_assoc. split_and!; [done| |done].
    destruct r; [cbn; by f_equal|]. destruct Hend as (k & -> & Hk & Hok). exists (S k). cbn. rewrite Hd.
    split_and!; [done|lia|done].
  - split; [done|]. exists 1%nat. cbn [take app_dispatch_all]. rewrite Hd. split_and!; [done| |done].
    exists 0%nat. cbn. split_and!; [done|lia|done].
Qed.

End calls.

(** ** Registration *)

(** Registering appends under the name, whatever its case; removing by id takes out that entry,
    removing a method all of its entries; other names keep theirs. *)
Lemma entries_register {A} target other (h : acting A) (b : AppBus A) :
  let '(id, b') := app_register target h b in
  entries other b' = entries other b ++
    (if String.eqb (to_ascii_lowercase other) (to_ascii_lowercase target)
     then [{| ah_id := id; ah_run := h |}] else []).
Proof.
  unfold app_register, entries. cbn.
  destruct (String.eqb_spec (to_ascii_lowercase other) (to_ascii_lowercase target)) as [->|Hne].
  - by rewrite lookup_insert_eq.
  - by rewrite lookup_insert_ne, app_nil_r by done.
Qed.

Lemma entries_remove {A} target other handler_id (b : AppBus A) :
  entries other (app_remove target handler_id b) =
    if String.eqb (to_ascii_lowercase other) (to_ascii_lowercase target) then
      match handler_id with
      | Some id => filter (fun h => ah_id h <> id) (entries other b)
      | None => []
      end
    else entries other b.
Proof.
  unfold app_remove, entries.
  destruct (String.eqb_spec (to_ascii_lowercase other) (to_ascii_lowercase target)) as [->|Hne].
  - destruct (ab_handlers b !! to_ascii_lowercase target) as [l|] eqn:Hl; cbn.
    + destruct handler_id as [id|]; [|by rewrite lookup_delete_eq].
      destruct (filter _ l) eqn:Hf; [by rewrite lookup_delete_eq|by rewrite lookup_insert_eq].
    + rewrite Hl. by destruct handler_id.
  - destruct (ab_handlers b !! to_ascii_lowercase target) as [l|]; [|done]. cbn.
    destruct (match handler_id with Some _ => _ | None => _ end);
      [by rewrite lookup_delete_ne by done|by rewrite lookup_insert_ne by done].
Qed.
