(* ===== verification/HubTraffic.v ===== *)
(** * Messages between the client and the fake hub

    What the client writes through its send queue arrives at the server side of the fake hub, and
    the handshake of one side is what the other side expects.  Proved against what a protocol
    promises for messages sent together in one frame. *)

From Stdlib Require Import ZArith Lia Ascii String.
From stdpp Require Import base list strings gmap pretty.
From S2P Require Import Prelude Framing Utf8 Errors Values Arguments Message JsonProtocol.
From S2P Require Import MsgPackFormat MsgPackParse MsgPackProtocol Brotli.
From S2P Require Import MessageBuffer SendQueue Handshake Negotiate RustStr Connection WebSocket.
From S2P Require Import FakeHub.

Local Open Scope Z_scope.

(** ** Several messages in one frame *)

(** What a protocol promises for the frames of messages that arrive together. *)
Class BatchProtocol (p : HubProtocol) (supported : HubMessage -> Prop)
    (arrives : HubMessage -> list HubMessage -> Prop) : Prop :=
  batch_parses : forall ms, ms <> [] -> Forall supported ms -> exists frames arrived,
    Forall2 (fun m bytes => write_message p m = Ok bytes) ms frames /\
    Forall2 arrives ms arrived /\
    parse_messages p (as_input (transfer_format p) (concat frames)) = Ok (concat arrived).

#[export] Instance json_batches `{JT : JsonText, MP : MsgPack, JL : !JsonTextLaws JT} :
  BatchProtocol JsonProtocol json_supported json_arrives.
Proof.
  intros ms Hne Hms. destruct (json_frames_roundtrip ms Hne Hms) as (frames & ms' & Hw & _ & Hc & Hp).
  exists frames, (map (fun m => [m]) ms'). split_and!; [done| |].
  - clear -Hc. induction Hc; cbn; constructor; [by eexists|done].
  - cbn in *. rewrite Hp. f_equal. clear. by induction ms' as [|m ms' IH]; cbn; [|rewrite <- IH].
Qed.

#[export] Instance msgpack_batches `{MP : MsgPack, ML : !MsgPackLaws MP} :
  BatchProtocol MessagePackProtocol mp_supported mp_arrives.
Proof. intros ms Hne Hms. apply (frames_roundtrip _ _ _ mp_supported mp_written ms Hne Hms). Qed.

(** The payload the client gives to the transport for a written message. *)
Definition payload_of (p : HubProtocol) (bytes : list u8) : OutboundPayload :=
  match transfer_format p with FText => OText (string_of_bytes bytes) | FBinary => OBinary bytes end.

Definition input_of (f : SocketMessage) : option HubProtocolInput :=
  match f with SText text => Some (IText text) | SBinary bytes => Some (IBinary bytes) | _ => None end.

(** [f] is the frame that the send queue makes of the payloads of [batch]. *)
Definition carries (p : HubProtocol) (batch : list HubMessage) (f : SocketMessage) : Prop :=
  exists frames, Forall2 (fun m bytes => write_message p m = Ok bytes) batch frames /\
    frame_of (map (payload_of p) frames) = Some f.

Lemma texts_concat frames : texts (map (fun bytes => OText (string_of_bytes bytes)) frames) =
  Some (string_of_bytes (concat frames)).
Proof.
  induction frames as [|b frames IH]; [done|]. cbn [map texts concat]. rewrite IH. cbn.
  by rewrite string_of_app.
Qed.

Lemma binaries_concat frames : binaries (map (fun bytes => OBinary bytes) frames) = Some (concat frames).
Proof. induction frames as [|b frames IH]; [done|]. cbn [map binaries concat]. by rewrite IH. Qed.

(** The queue puts the frames of a batch one after the other. *)
Lemma frame_of_batch p frames : frames <> [] -> exists f, frame_of (map (payload_of p) frames) = Some f /\
  input_of f = Some (as_input (transfer_format p) (concat frames)).
Proof.
  intros Hne. destruct frames as [|b frames]; [done|]. unfold payload_of. destruct (transfer_format p).
  - exists (SText (string_of_bytes (concat (b :: frames)))).
    pose proof (texts_concat (b :: frames)) as Ht. cbn [map] in *. unfold frame_of. by rewrite Ht.
  - exists (SBinary (concat (b :: frames))).
    pose proof (binaries_concat (b :: frames)) as Hb. cbn [map] in *. unfold frame_of. by rewrite Hb.
Qed.

Lemma written_unique p ms frames frames' :
  Forall2 (fun m bytes => write_message p m = Ok bytes) ms frames ->
  Forall2 (fun m bytes => write_message p m = Ok bytes) ms frames' -> frames = frames'.
Proof.
  intros H. revert frames'. induction H as [|m b ms frames Hb _ IH]; intros frames' H';
    [by inversion H'|]. apply Forall2_cons_inv_l in H' as (b' & fs & Hb' & H' & ->).
  rewrite Hb in Hb'. injection Hb' as ->. f_equal. by apply IH.
Qed.

(** ** Receiving *)

(** [n] calls of [recv]. *)
Fixpoint recv_many (n fuel : nat) (c : ServerConnection) : option (list HubMessage * ServerConnection) :=
  match n with
  | O => Some ([], c)
  | S n =>
      '(m, c) ← recv fuel c;
      '(ms, c) ← recv_many n fuel c;
      Some (m :: ms, c)
  end.

Definition not_ping (m : HubMessage) : bool := negb (is_ping m).

Section traffic.
Context `{BP : BatchProtocol p supported arrives}.

(** What the frames of batches bring. *)
Lemma batches_parse batches frames :
  Forall (fun b => b <> [] /\ Forall supported b) batches -> Forall2 (carries p) batches frames ->
  exists arrived, Forall2 arrives (concat batches) (concat arrived) /\
    Forall2 (fun f ms => exists i, input_of f = Some i /\ parse_messages p i = Ok (concat ms)) frames arrived.
Proof.
  intros Hb Hf. induction Hf as [|b f batches frames (bytes & Hw & Hfr) _ IH]; [by exists []|].
  apply Forall_cons in Hb as [[Hne Hsup] Hb]. destruct (IH Hb) as (arrived & Ha & Hp).
  destruct (batch_parses b Hne Hsup) as (bytes' & ms & Hw' & Har & Hparse).
  rewrite (written_unique p b bytes bytes' Hw Hw') in Hfr.
  destruct (frame_of_batch p bytes') as (f' & Hf' & Hin); [by destruct Hw'|].
  rewrite Hf' in Hfr. injection Hfr as ->.
  exists (ms :: arrived). split; [by apply Forall2_app|]. constructor; [by eexists|done].
Qed.

(** The server has [all] still to receive. *)
Definition to_receive (all : list HubMessage) (c : ServerConnection) : Prop :=
  sc_protocol c = Some p /\ exists frames arrived, sc_incoming c = map Ok frames /\
    Forall2 (fun f ms => exists i, input_of f = Some i /\ parse_messages p i = Ok ms) frames arrived /\
    sc_pending c ++ concat arrived = all.

Lemma take_messages_next frames arrived m rest :
  Forall2 (fun f ms => exists i, input_of f = Some i /\ parse_messages p i = Ok ms) frames arrived ->
  concat arrived = m :: rest -> exists ms frames' arrived',
    take_messages p (map Ok frames) = Some (m, ms, map Ok frames') /\
    Forall2 (fun f ms => exists i, input_of f = Some i /\ parse_messages p i = Ok ms) frames' arrived' /\
    ms ++ concat arrived' = rest.
Proof.
  induction 1 as [|f ms frames arrived (i & Hin & Hparse) Hf IH]; [done|]. cbn [concat map].
  destruct ms as [|m1 ms1]; cbn [app].
  - intros Hall. destruct f; cbn in Hin; try done; injection Hin as <-; cbn; rewrite Hparse; auto.
  - intros [= -> <-]. destruct f; cbn in Hin; try done; injection Hin as <-; cbn; rewrite Hparse;
      by eexists ms1, frames, arrived.
Qed.

Lemma recv_any_next m rest c : to_receive (m :: rest) c ->
  exists c', recv_any c = Some (m, c') /\ to_receive rest c'.
Proof.
  intros (Hp & frames & arrived & Hi & Hf & Hall). unfold recv_any.
  destruct (sc_pending c) as [|m0 ms0] eqn:Hpe; cbn [app] in Hall.
  - destruct (take_messages_next frames arrived m rest Hf Hall) as (ms & frames' & arrived' & Ht & Hf' & Hr).
    rewrite Hp, Hi. cbn [mbind option_bind]. rewrite Ht. cbn. eexists. split; [done|].
    split; [done|]. by exists frames', arrived'.
  - injection Hall as -> Hr. eexists. split; [done|]. split; [done|]. by exists frames, arrived.
Qed.

Lemma recv_next all fuel c : to_receive all c -> (length all <= fuel)%nat ->
  match List.filter not_ping all with
  | [] => True
  | m :: ms => exists c' rest, recv fuel c = Some (m, c') /\ to_receive rest c' /\
      List.filter not_ping rest = ms /\ (length rest <= fuel)%nat
  end.
Proof.
  revert fuel c. induction all as [|m all IH]; intros fuel c Hall Hlen; [done|]. cbn in Hlen.
  destruct (recv_any_next m all c Hall) as (c1 & Hr & Hall1). cbn [List.filter].
  unfold not_ping at 1. destruct (is_ping m) eqn:Hm; cbn [negb].
  - destruct fuel as [|fuel]; [lia|]. specialize (IH fuel c1 Hall1 ltac:(lia)).
    destruct (List.filter not_ping all) as [|m' ms]; [done|].
    destruct IH as (c' & rest & Hrv & Hrest & Hms & Hl). exists c', rest. cbn [recv].
    rewrite Hr, Hm. split_and!; [done..|lia].
  - exists c1, all. split_and!; [|done|done|lia]. destruct fuel; cbn [recv]; by rewrite Hr, Hm.
Qed.

Lemma recv_many_all ms fuel c all : List.filter not_ping all = ms -> to_receive all c ->
  (length all <= fuel)%nat -> exists c', recv_many (length ms) fuel c = Some (ms, c').
Proof.
  revert c all. induction ms as [|m ms IH]; intros c all Hms Hall Hlen; [by eexists|].
  pose proof (recv_next all fuel c Hall Hlen) as Hn. rewrite Hms in Hn.
  destruct Hn as (c1 & rest & Hr & Hrest & Hms' & Hl).
  destruct (IH c1 rest Hms' Hrest Hl) as (c' & Hc'). exists c'. cbn [recv_many length].
  rewrite Hr. cbn [mbind option_bind]. by rewrite Hc'.
Qed.

(** C26: What the client sends arrives: however the send queue puts messages together into frames,
    repeated [recv] at the server side gives what should arrive for each of them, in the order
    they were sent, with nothing left out but pings. *)
Theorem server_receives_in_order (batches : list (list HubMessage)) (frames : list SocketMessage)
    (c : ServerConnection) :
  Forall (fun b => b <> [] /\ Forall supported b) batches -> Forall2 (carries p) batches frames ->
  sc_protocol c = Some p -> sc_pending c = [] -> sc_incoming c = map Ok frames ->
  exists arrived c', Forall2 arrives (concat batches) arrived /\
    let expected := List.filter not_ping (concat arrived) in
    recv_many (length expected) (length (concat arrived)) c = Some (expected, c').
Proof.
  intros Hb Hf Hp Hpe Hi. destruct (batches_parse batches frames Hb Hf) as (arrived & Ha & Hpar).
  destruct (recv_many_all (List.filter not_ping (concat (concat arrived))) (length (concat (concat arrived)))
    c (concat (concat arrived))) as (c' & Hc'); [done| |done|by exists (concat arrived), c'].
  split; [done|]. exists frames, (map (@concat _) arrived). split_and!; [done| |].
  - clear -Hpar. induction Hpar; cbn; by constructor.
  - rewrite Hpe. cbn [app]. clear. induction arrived as [|a l IH]; [done|]. cbn. by rewrite IH, concat_app.
Qed.
End traffic.

(** ** Calls that the fake hub does not see *)

(** With MessagePack the server side reads with the client's parser, which drops the messages
    that only a server reads. *)
Theorem messagepack_stream_calls_unseen `{MP : MsgPack, ML : !MsgPackLaws MP} (m : HubMessage)
    (f : SocketMessage) (rest : list (result string SocketMessage)) (c : ServerConnection) (fuel : nat) :
  match m with HStreamInvocation _ | HCancelInvocation _ => mp_supported m | _ => False end ->
  carries MessagePackProtocol [m] f ->
  sc_protocol c = Some MessagePackProtocol -> sc_pending c = [] -> sc_incoming c = Ok f :: rest ->
  recv fuel c = recv fuel (with_incoming rest c).
Proof.
  intros Hm Hc Hp Hpe Hi.
  assert (Hsup : mp_supported m) by by destruct m.
  destruct (batches_parse [[m]] [f]) as (arrived & Ha & Hpar);
    [constructor; [split; [done|by constructor]|done]|by constructor|].
  apply Forall2_cons_inv_l in Hpar as (ms & ar & (i & Hin & Hparse) & Hnil & ->).
  inversion Hnil; subst ar. change (Forall2 mp_arrives [m] (ms ++ [])) in Ha. rewrite app_nil_r in Ha.
  apply Forall2_cons_inv_l in Ha as (a & l & Ha & Hl & ->). inversion Hl; subst l.
  assert (a = []) as -> by by destruct m.
  enough (Hany : recv_any c = recv_any (with_incoming rest c)) by (destruct fuel; cbn [recv]; by rewrite Hany).
  unfold recv_any. cbn [with_incoming sc_pending sc_protocol sc_incoming]. rewrite Hpe, Hp, Hi.
  cbn [mbind option_bind take_messages].
  destruct f; cbn in Hin; try done; injection Hin as <-; rewrite Hparse; done.
Qed.

(** ** The handshake *)

(** What [serde] makes of the request and the response, in terms of JSON. *)
Class HandshakeJson (JT : JsonText) (HT : HandshakeText) : Prop := {
  request_printed : forall r, is_str (hr_protocol r) = true -> exists text m,
    request_to_string r = Ok text /\ json_from_str text = Ok (JObject m) /\
    obj_get "protocol" m = Some (JString (hr_protocol r));
  empty_response_read : response_from_str "{}" = Ok {| hs_error := None; hs_minor_version := None |};
  error_response_read : forall e text, json_to_string (JObject [("error"%string, JString e)]) = Ok text ->
    response_from_str text = Ok {| hs_error := Some e; hs_minor_version := None |}
}.

Section handshake.
Context `{JT : JsonText, JL : !JsonTextLaws JT, MP : MsgPack, BD : BrotliDecoder, HT : HandshakeText}.
Context `{HJ : !HandshakeJson JT HT}.

(** Both sides agree on the handshake: the fake hub reads the request of the client, takes the
    protocol it names, and answers with a frame that the client takes for an accepted handshake
    with nothing after it; an error that the fake hub answers is the error that the client
    reads. *)
Theorem handshake_agreed (r : HandshakeRequest) (p : HubProtocol) (payload e : string)
    (c : ServerConnection) (rest : list (result string SocketMessage)) :
  is_str (hr_protocol r) = true -> protocol_by_name (hr_protocol r) = Some p ->
  write_request r = Ok payload -> sc_incoming c = Ok (SText payload) :: rest -> is_str e = true ->
  (exists request c' text, server_handshake c = Some (request, c') /\ sc_protocol c' = Some p /\
    sc_incoming c' = rest /\ sc_written c' = sc_written c ++ [SText text] /\
    parse_response (HText text) =
      Ok {| response := {| hs_error := None; hs_minor_version := None |}; remaining := None |}) /\
  (exists c' text, handshake_response (Some e) c = Some c' /\ sc_written c' = sc_written c ++ [SText text] /\
    parse_response (HText text) =
      Ok {| response := {| hs_error := Some e; hs_minor_version := None |}; remaining := None |}).
Proof.
  intros Hstr Hp Hw Hi He.
  assert (Hparse : forall body resp, Text.is_record body = true -> response_from_str body = Ok resp ->
    parse_response (HText (body +:+ String Text.RECORD_SEPARATOR EmptyString)) =
      Ok {| response := resp; remaining := None |}).
  { intros body resp Hrec Hresp. change (body +:+ String Text.RECORD_SEPARATOR EmptyString)
      with (Text.write body). rewrite <- (Text.string_app_nil_r (Text.write body)).
    by apply parse_response_text. }
  split.
  - destruct (request_printed r Hstr) as (text & m & Ht & Hj & Hget).
    unfold write_request in Hw. rewrite Ht in Hw. cbn in Hw. injection Hw as <-.
    unfold server_handshake, handshake_request, next_frame. rewrite Hi. cbn [mbind option_bind].
    change (Text.write text) with (text +:+ String Text.RECORD_SEPARATOR EmptyString).
    rewrite strip_suffix_snoc. cbn [mbind option_bind]. rewrite Hj. unfold protocol_field. rewrite Hget.
    cbn [mbind option_bind]. unfold assume_protocol. rewrite Hp. cbn. eexists _, _, _.
    split_and!; [done..|]. apply (Hparse "{}"%string); [done|]. apply empty_response_read.
  - destruct (json_print_read (JObject [("error"%string, JString e)])) as (text & Ht & _ & Hrec & _);
      [rewrite json_exact_object; cbn; by rewrite He|vm_compute; done|].
    unfold handshake_response. rewrite Ht. cbn. eexists _, _. split_and!; [done..|].
    apply Hparse; [done|]. by apply error_response_read.
Qed.
End handshake.

(** ** Compressed invocations *)

Section compressed.
Context `{MP : MsgPack, BD : BrotliDecoder, ML : !MsgPackLaws MP}.

(** The frame of one message that is parsed as such. *)
Lemma parse_one_frame (parse_frame : list u8 -> result ProtocolError (option HubMessage)) packed m :
  packed <> [] -> len packed < 2 ^ 31 -> parse_frame packed = Ok (Some m) ->
  parse_binary parse_frame (Binary.write packed) = Ok [m].
Proof.
  intros Hne Hlen Hp. unfold parse_binary.
  pose proof (Binary.framed_write_all [packed] ltac:(by constructor)) as Hf.
  apply Binary.parse_framed in Hf. cbn [map concat] in Hf. rewrite app_nil_r in Hf. rewrite Hf. cbn.
  destruct packed; [done|]. by rewrite Hp.
Qed.

(** The compressed invocations of the fake hub are what the client's parser takes for an
    invocation: with a decoder that undoes the compressor, the frame made for a target and
    arguments parses to one invocation of that target without an id, with equal arguments. *)
Theorem compressed_invocation_arrives (compress : list u8 -> list u8) (target : string)
    (values : list json) (bytes : list u8) :
  let v := json_array_value values in
  let message := MArray [MInteger 1; MMap []; MNil; MString target; MInteger 1; MBinary (compress bytes)] in
  mp_write_value v = Ok bytes -> decode (compress bytes) = Ok bytes ->
  arguments_ok (AJson values) = true -> mp_wf v = true -> mp_depth v <= MAX_DEPTH ->
  mp_wf message = true -> (forall packed, mp_write_value message = Ok packed -> len packed < 2 ^ 31) ->
  exists frame, compressed_invocation compress target v = Some frame /\
    br_parse_messages (IBinary frame) =
      Ok [HInvocation {| inv_headers := ∅; inv_invocation_id := None; inv_target := target;
                         inv_arguments := AMessagePack bytes; inv_stream_ids := Some [] |}] /\
    args_eq (AJson values) (AMessagePack bytes).
Proof.
  cbv zeta. intros Hw Hdec Hok Hwf Hd Hwfm Hsize.
  set (before := [MInteger 1; MMap []; MNil; MString target; MInteger 1]).
  destruct (arguments_arrive (AJson values) _ bytes Hok eq_refl Hwf Hd Hw) as [Hfrom Heq].
  set (packed_args := MBinary (compress bytes)) in *.
  destruct (pack_written (before ++ [packed_args]) Hwfm) as (packed & Hwp & Hpk & Hne).
  assert (Hdep : Forall (fun v => mp_depth v <= MAX_DEPTH) (before ++ [packed_args]))
    by (repeat constructor; vm_compute; done).
  pose proof (payload_readable (before ++ [packed_args]) Hwfm Hdep) as [Hrb [[Hwa _] _]%Forall_cons]%Forall_app.
  destruct (write_layout packed_args Hwa) as (raw & _ & _ & _ & _ & _ & Hraw & _).
  pose proof (decode_written_invocation before packed_args [] packed raw Hwfm Hrb ltac:(done)
    ltac:(vm_compute; done) Hwp Hraw ltac:(done) ltac:(done)) as Hde. change (len before) with 5 in Hde.
  assert (Hread : mp_read_value raw = Ok (packed_args, [])).
  { rewrite <- (app_nil_r raw). by apply read_written. }
  exists (Binary.write packed). split_and!; [|cbn [br_parse_messages]|done].
  - unfold compressed_invocation. rewrite Hw. cbn [mbind option_bind]. subst packed_args before.
    cbn [app] in Hwp. by rewrite Hwp.
  - apply parse_one_frame; [done|by apply Hsize|]. unfold br_parse_frame. rewrite Hde.
    subst before. cbn [app mbind result_bind br_parse_message]. cbn -[br_invocation_message].
    unfold br_invocation_message. cbn -[from_messagepack]. rewrite Hread. cbn -[from_messagepack].
    rewrite Hdec. cbn -[from_messagepack]. by rewrite Hfrom.
Qed.
End compressed.
