(* ===== verification/EndToEnd.v ===== *)
(** * Calls from end to end

    A call goes through every part of the client: [invoke] gives it an id and a place in the bus,
    the runtime writes it with the protocol and hands it to the transport, the send queue makes a
    frame of it; the server reads the frame and answers; the reader of the socket, the receive
    task, dispatch and the bus bring the answer back to the caller.  The theorems here put the
    parts together, with the server side of [FakeHub], for every protocol that keeps the
    promises of [CallProtocol]; JSON and MessagePack do. *)

From Stdlib Require Import ZArith Lia String.
From stdpp Require Import base list strings gmap pretty.
From S2P Require Import Prelude Framing Utf8 Errors Values Arguments Message JsonProtocol.
From S2P Require Import MsgPackFormat MsgPackParse MsgPackProtocol Brotli.
From S2P Require Import MessageBuffer Bus Dispatch SendQueue Handshake Negotiate Retry Connection.
From S2P Require Import WebSocket Runtime Client Reuse FakeHub HubApi HubTraffic.

Local Open Scope Z_scope.

(** The completion that carries a result or an error. *)
Definition answer (id : string) (r : outcome) : CompletionMessage :=
  {| comp_headers := ∅; comp_invocation_id := id;
     comp_error := match r with Ok _ => None | Err e => Some e end;
     comp_result := match r with Ok v => Some v | Err _ => None end |}.

(** What a call needs of a protocol, beyond [BatchProtocol]: text that can be sent as text, and
    calls and answers that arrive as such. *)
Class CallProtocol `{MP : MsgPack} (p : HubProtocol) (supported : HubMessage -> Prop)
    (arrives : HubMessage -> list HubMessage -> Prop) : Prop := {
  call_batches :: BatchProtocol p supported arrives;
  call_text : forall m bytes, supported m -> write_message p m = Ok bytes ->
    transfer_format p = FText -> utf8_valid bytes = true;
  call_arrives : forall m ms, arrives (HInvocation m) ms -> exists m', ms = [HInvocation m'] /\
    inv_invocation_id m' = inv_invocation_id m /\ inv_target m' = inv_target m /\
    args_eq (inv_arguments m) (inv_arguments m');
  answer_arrives : forall id r ms, arrives (HCompletion (answer id r)) ms ->
    ms = [HCompletion (answer id r)]
}.

#[export] Instance json_calls `{JT : JsonText, MP : MsgPack, JL : !JsonTextLaws JT} :
  CallProtocol JsonProtocol json_supported json_arrives.
Proof.
  split.
  - apply _.
  - intros m bytes Hm Hw Hf. by eapply (written_text _ _ _ json_protocol_laws).
  - intros m ms (m' & Hc & ->). cbn in Hc. destruct (json_values (inv_arguments m)) as [l|] eqn:Hl; [|done].
    cbn in Hc. injection Hc as <-. eexists. split_and!; [done..|]. by exists l.
  - intros id r ms (m' & [= <-] & ->). done.
Qed.

#[export] Instance msgpack_calls `{MP : MsgPack, ML : !MsgPackLaws MP} :
  CallProtocol MessagePackProtocol mp_supported mp_arrives.
Proof.
  split.
  - apply _.
  - intros m bytes Hm Hw Hf. done.
  - intros m ms (a & Ha & ->). by eexists.
  - intros id r ms ->. by destruct r.
Qed.

Section frames.
Context `{MP : MsgPack} `{CP : !CallProtocol p supported arrives}.

(** One message that is written and put into a frame of its own. *)
Lemma frame_arrives m : supported m -> exists bytes f ms,
  write_message p m = Ok bytes /\ frame_of [payload_of p bytes] = Some f /\
  input_of f = Some (as_input (transfer_format p) bytes) /\
  parse_messages p (as_input (transfer_format p) bytes) = Ok ms /\ arrives m ms.
Proof.
  intros Hm. destruct (batch_parses [m] ltac:(done) ltac:(by constructor)) as (frames & arrived & Hw & Ha & Hp).
  apply Forall2_cons_inv_l in Hw as (bytes & fs & Hb & Hnil & ->). inversion Hnil; subst fs.
  apply Forall2_cons_inv_l in Ha as (ms & l & Ha & Hnil' & ->). inversion Hnil'; subst l.
  destruct (frame_of_batch p [bytes] ltac:(done)) as (f & Hf & Hi). cbn in Hi, Hp. rewrite app_nil_r in Hi. rewrite !app_nil_r in Hp.
  exists bytes, f, ms. by split_and!.
Qed.

(** The server takes one message out of one frame. *)
Lemma recv_one f input m (c : ServerConnection) rest : input_of f = Some input ->
  parse_messages p input = Ok [m] -> is_ping m = false ->
  sc_protocol c = Some p -> sc_pending c = [] -> sc_incoming c = Ok f :: rest ->
  exists c', recv 0 c = Some (m, c') /\ sc_protocol c' = Some p /\ sc_pending c' = [] /\
    sc_incoming c' = rest /\ sc_written c' = sc_written c.
Proof.
  intros Hin Hparse Hping Hp Hpe Hi. cbn [recv]. unfold recv_any. rewrite Hpe, Hp, Hi.
  cbn [mbind option_bind take_messages].
  destruct f; cbn in Hin; try done; injection Hin as <-; rewrite Hparse; cbn; rewrite Hping;
    by eexists.
Qed.

(** What the server writes is one frame, which the client reads as the message. *)
Lemma server_sends m (c : ServerConnection) : supported m -> sc_protocol c = Some p ->
  exists f input ms, server_send m c = Some (send_frame f c) /\ input_of f = Some input /\
    parse_messages p input = Ok ms /\ arrives m ms.
Proof.
  intros Hm Hp. destruct (frame_arrives m Hm) as (bytes & f & ms & Hw & _ & _ & Hparse & Ha).
  unfold server_send. rewrite Hp. cbn [mbind option_bind]. rewrite Hw.
  destruct (transfer_format p) eqn:Hf.
  - rewrite from_utf8_valid by by eapply call_text. by eexists _, _, ms.
  - by eexists _, _, ms.
Qed.

End frames.

(** ** The client's side of a call *)

Section client.
Context `{UL : UrlLib} `{HC : HttpClient W} `{SO : !Sockets W} `{HT : HandshakeText}
  (options : ConnectionOptions W).

Local Abbreviation hub := (HubConnection W).
Local Abbreviation world h := (ns_world (hc_net h)).

(** The id of the next call. *)
Definition next_id (rt : HubRuntime) : string := pretty (as_i64 (hr_invocation_id rt + 1)).

Definition call_message (id method : string) (values : list json) : HubMessage :=
  HInvocation {| inv_headers := ∅; inv_invocation_id := Some id; inv_target := method;
                 inv_arguments := AJson values; inv_stream_ids := None |}.

(** A call that was sent: what it registered, and what it wrote. *)
Lemma invoke_spec method values (h h' : hub) rt ch :
  hc_runtime h = Some rt -> hr_message_buffer rt = None ->
  invoke options method (map HValue values) h = (Ok ch, h') ->
  ch = length (channels (hc_bus h)) /\ hc_bus h' = (register_pending (next_id rt) (hc_bus h)).2 /\
  send_hub_message (hr_hub_protocol rt) (hr_transport rt) (hr_transfer_format rt)
    (call_message (next_id rt) method values) (world h) = (Ok tt, world h').
Proof.
  intros Hrt Hbuf. unfold invoke, prepare, require_connected. rewrite Hrt. case_decide; [|done].
  rewrite replace_values. unfold fresh_id. cbn [hc_runtime set_runtime next_invocation_id].
  fold (next_id rt). cbn [register_pending]. unfold send_or_forget, send_through.
  cbn [hc_runtime set_bus set_runtime]. unfold send_with_backpressure. cbn [hr_message_buffer]. rewrite Hbuf.
  cbn [hr_hub_protocol hr_transport hr_transfer_format hc_net hc_buffers set_bus set_runtime optional_ids].
  fold (call_message (next_id rt) method values).
  destruct (send_hub_message _ _ _ _ _) as [[[]|e] w]; [|done]. by intros [= <- <-].
Qed.

(** A registered call gets the outcome it is completed with. *)
Lemma completed_call id r (b : MessageBus) : let '(ch, b1) := register_pending id b in
  channels (complete_invocation id r b1) !! ch = Some {| ch_items := [r]; ch_closed := true |}.
Proof.
  cbn [register_pending]. set (ch := length (channels b)).
  assert (Hc : channels (insert_pending id (Single ch) b) !! ch = Some {| ch_items := []; ch_closed := false |}).
  { unfold insert_pending. cbn. subst ch. destruct (pending b !! id); [|by rewrite list_lookup_middle].
    rewrite list_lookup_middle; [done|]. unfold ch_drop. by rewrite length_alter. }
  unfold complete_invocation. cbn [pending insert_pending set_pending] in *. rewrite lookup_insert_eq.
  cbn [channels set_pending channel_of] in *. unfold ch_drop, ch_send in *.
  by rewrite !list_lookup_alter_eq, Hc.
Qed.

End client.

(** ** A call and its answer *)

Section end_to_end.
Context `{MP : MsgPack} `{CP : !CallProtocol p supported arrives}.
Context `{UL : UrlLib} `{HC : HttpClient W} `{SO : !Sockets W} `{HT : HandshakeText}
  (options : ConnectionOptions W).

Local Abbreviation hub := (HubConnection W).
Local Abbreviation world h := (ns_world (hc_net h)).

(** The receive task gets a frame with one message. *)
Lemma receive_frame size tr f input m read (s : DispatchState W) :
  input_of f = Some input -> parse_messages p input = Ok [m] -> ds_buffer s = None ->
  exists t, read_loop (Ok f :: read) = t :: read_loop read /\
    receive_one p size tr (transfer_format p) (RMessage (Some t) false) s =
      (true, (route p size tr (transfer_format p) m s).2).
Proof.
  intros Hin Hparse Hbuf. destruct f; cbn in Hin; try done; injection Hin as <-; eexists; (split; [done|]);
    cbn [receive_one]; unfold process_input; rewrite Hparse; cbn [dispatch_all]; unfold dispatch, guard;
    rewrite Hbuf; by destruct (route _ _ _ _ _ _) as [[] ?].
Qed.

(** The completion of a call that is on the bus reaches its caller. *)
Lemma answer_reaches id r (h h1 : hub) (s : DispatchState W) : ds_bus s = (register_pending id (hc_bus h)).2 ->
  response_on (set_bus (ds_bus (handle_completion (answer id r) s)) h1) (length (channels (hc_bus h))) =
    Some (map_err EInvocation r).
Proof.
  intros Hs. unfold response_on. cbn [hc_bus set_bus handle_completion with_bus ds_bus comp_error comp_result
    comp_invocation_id answer]. rewrite Hs.
  pose proof (completed_call id r (hc_bus h)) as Hcall. cbn [register_pending] in Hcall.
  replace (match match r with Ok _ => None | Err e => Some e end with
           | Some error => Err error
           | None => Ok (default JNull match r with Ok v => Some v | Err _ => None end) end) with r
    by by destruct r.
  cbn [register_pending snd]. rewrite Hcall. by destruct r.
Qed.

(** C6: A call is answered with what the server answers: the bytes that [invoke] hands to the transport
    make a frame from which the server reads the call, with the id, the method and the arguments
    of the caller; and when the server answers under that id with a result or an error, the frame
    it writes goes through the reader, the receive task and the bus to the caller, whose [invoke]
    returns that result or that error. *)
Theorem call_answered (h h1 : hub) (rt : HubRuntime) (method : string) (values : list json) (ch : nat) :
  hc_runtime h = Some rt -> hr_hub_protocol rt = p -> hr_transfer_format rt = transfer_format p ->
  hr_message_buffer rt = None -> supported (call_message (next_id rt) method values) ->
  invoke options method (map HValue values) h = (Ok ch, h1) ->
  exists bytes f,
    send_payload (hr_transport rt) (transfer_format p) bytes (world h) = (Ok tt, world h1) /\
    frame_of [payload_of p bytes] = Some f /\
    forall (c : ServerConnection) rest,
      sc_protocol c = Some p -> sc_pending c = [] -> sc_incoming c = Ok f :: rest ->
      exists m c1, recv 0 c = Some (HInvocation m, c1) /\
        inv_invocation_id m = Some (next_id rt) /\ inv_target m = method /\
        args_eq (AJson values) (inv_arguments m) /\
        forall r size (s : DispatchState W) read,
          supported (HCompletion (answer (next_id rt) r)) ->
          ds_bus s = hc_bus h1 -> ds_buffer s = None ->
          exists f' t s', server_send (HCompletion (answer (next_id rt) r)) c1 = Some (send_frame f' c1) /\
            read_loop (Ok f' :: read) = t :: read_loop read /\
            receive_one p size (hr_transport rt) (transfer_format p) (RMessage (Some t) false) s =
              (true, s') /\
            response_on (set_bus (ds_bus s') h1) ch = Some (map_err EInvocation r).
Proof.
  intros Hrt Hp Hfmt Hbuf Hsup Hinv.
  destruct (invoke_spec options method values h h1 rt ch Hrt Hbuf Hinv) as (-> & Hbus & Hsend).
  destruct (frame_arrives _ Hsup) as (bytes & f & ms & Hw & Hf & Hin & Hparse & Ha).
  rewrite Hp, Hfmt in Hsend. unfold send_hub_message in Hsend. rewrite Hw in Hsend.
  exists bytes, f. split; [exact Hsend|]. split; [exact Hf|]. intros c rest Hcp Hcpe Hci.
  apply call_arrives in Ha as (m & -> & Hid & Htgt & Hargs).
  destruct (recv_one f _ (HInvocation m) c rest Hin Hparse eq_refl Hcp Hcpe Hci)
    as (c1 & Hrecv & Hc1p & _ & _ & _).
  exists m, c1. split_and!; [done..|]. intros r size s read Hans Hs Hnobuf.
  destruct (server_sends _ c1 Hans Hc1p) as (f' & input & ms' & Hsrv & Hin' & Hparse' & Ha').
  apply answer_arrives in Ha' as ->.
  destruct (receive_frame size (hr_transport rt) f' input _ read s Hin' Hparse' Hnobuf) as (t & Hread & Hrecv').
  exists f', t. eexists. split_and!; [exact Hsrv|exact Hread|exact Hrecv'|].
  apply answer_reaches. by rewrite Hs.
Qed.

(** ** A call of the server *)

(** What the server gets from a handler registered with [on]. *)
Definition handler_outcome (run : list json -> option json) (values : list json) : outcome :=
  match run values with Some v => Ok v | None => Err no_result end.

(** C7: A call of the server is answered with what the handler returns: when the server calls a
    method for which one handler is registered with [on], the client reads the call from the
    frame, runs the handler on the arguments the server gave, and hands the transport the bytes
    of a completion whose frame the server reads as the handler's result, or as an error when it
    has none. *)
Theorem server_call_answered (method target id : string) (run : list json -> option json)
    (values : list json) (c : ServerConnection) (s : DispatchState W) (tr : transport) (size : Z)
    (read : list (result string SocketMessage)) :
  let outcome := handler_outcome run values in
  handlers_for target (ds_bus s) = [on_closure method run] -> ds_buffer s = None ->
  sc_protocol c = Some p ->
  supported (call_message id target values) -> supported (HCompletion (answer id outcome)) ->
  exists f t s' bytes f', server_send (call_message id target values) c = Some (send_frame f c) /\
    read_loop (Ok f :: read) = t :: read_loop read /\
    receive_one p size tr (transfer_format p) (RMessage (Some t) false) s = (true, s') /\
    ds_world s' = (send_payload tr (transfer_format p) bytes (ds_world s)).2 /\
    frame_of [payload_of p bytes] = Some f' /\
    forall (c1 : ServerConnection) rest,
      sc_protocol c1 = Some p -> sc_pending c1 = [] -> sc_incoming c1 = Ok f' :: rest ->
      exists c2, recv 0 c1 = Some (HCompletion (answer id outcome), c2).
Proof.
  cbv zeta. intros Hh Hbuf Hcp Hsup Hans.
  destruct (server_sends _ c Hsup Hcp) as (f & input & ms & Hsrv & Hin & Hparse & Ha).
  apply call_arrives in Ha as (m & -> & Hid & Htgt & (l & Hl & Hargs)). cbn in Hl, Hid, Htgt. injection Hl as <-.
  destruct (receive_frame size tr f input _ read s Hin Hparse Hbuf) as (t & Hread & Hrecv).
  destruct (frame_arrives _ Hans) as (bytes & f' & ms' & Hw & Hf' & Hin' & Hparse' & Ha').
  apply answer_arrives in Ha' as ->.
  exists f, t. eexists. exists bytes, f'. split; [exact Hsrv|]. split; [exact Hread|]. split; [exact Hrecv|].
  split; [|split; [exact Hf'|]].
  - cbn [route]. rewrite invocation_answer. rewrite Hid. cbv zeta. rewrite Htgt.
    rewrite Hh. cbn [map].
    assert (Hout : on_closure method run (inv_arguments m) = Ok (run values))
      by (unfold on_closure, arguments_to_json; by rewrite Hargs).
    rewrite Hout. assert (Hexp : expected_answer [Ok (run values)] = handler_outcome run values)
      by (unfold handler_outcome; by destruct (run values)).
    rewrite Hexp. fold (answer id (handler_outcome run values)).
    unfold send_completion, send_hub_message. rewrite Hw. by destruct (send_payload _ _ _ _).
  - intros c1 rest H1 H2 H3. destruct (recv_one f' _ _ c1 rest Hin' Hparse' eq_refl H1 H2 H3) as (c2 & Hr & _).
    by exists c2.
Qed.

End end_to_end.
