(* ===== verification/Survival.v ===== *)
(** * A call that outlives its transport

    With stateful reconnect a call is kept in the reconnect buffer until the server acknowledges
    it.  The theorem here follows one call through a drop of the transport: what [invoke] puts into
    the buffer, what the supervisor's resume writes to the new transport, what the server reads there,
    and how its answer gets past the guard of the buffer that the resume left to the caller. *)

From Stdlib Require Import ZArith Lia String.
From stdpp Require Import base list strings gmap pretty.
From S2P Require Import Prelude Framing Utf8 Errors Values Arguments Message JsonProtocol.
From S2P Require Import MsgPackFormat MsgPackParse MsgPackProtocol Brotli.
From S2P Require Import MessageBuffer Bus Dispatch SendQueue Handshake Negotiate Retry Connection.
From S2P Require Import WebSocket Runtime Client Lifecycle Reuse FakeHub HubApi HubTraffic EndToEnd.

Local Open Scope Z_scope.

(** What resuming needs of a protocol: sequence messages arrive as they were sent. *)
Class ResumeProtocol `{MP : MsgPack} (p : HubProtocol) (supported : HubMessage -> Prop)
    (arrives : HubMessage -> list HubMessage -> Prop) : Prop := {
  resume_calls :: CallProtocol p supported arrives;
  sequence_arrives : forall m ms, arrives (HSequence m) ms -> ms = [HSequence m]
}.

#[export] Instance json_resumes `{JT : JsonText, MP : MsgPack, JL : !JsonTextLaws JT} :
  ResumeProtocol JsonProtocol json_supported json_arrives.
Proof. split; [apply _|]. by intros m ms (m' & [= <-] & ->). Qed.

#[export] Instance msgpack_resumes `{MP : MsgPack, ML : !MsgPackLaws MP} :
  ResumeProtocol MessagePackProtocol mp_supported mp_arrives.
Proof. split; [apply _|]. by intros m ms ->. Qed.

(** ** The sending side *)

Section sending.
Context `{TR : Transport T}.

(** Payloads handed to a transport one after the other, all of them accepted. *)
Fixpoint writes (tr : transport) (format : TransferFormat) (payloads : list (list u8)) (w w' : T) : Prop :=
  match payloads with
  | [] => w' = w
  | payload :: payloads => exists w1, send_payload tr format payload w = (Ok tt, w1) /\
      writes tr format payloads w1 w'
  end.

Lemma resend_items_writes items tr format (w w' : T) :
  resend_items items tr format w = (Ok tt, w') -> writes tr format (map bi_message items) w w'.
Proof.
  revert w. induction items as [|item items IH]; intros w; cbn [resend_items map writes].
  - by intros [= ->].
  - destruct (send_payload tr format (bi_message item) w) as [[[]|e] w1]; [|done]. eauto.
Qed.

(** A resend writes a sequence message with the first id it holds, and then all it holds. *)
Lemma resend_writes p tr format b (w w' : T) b' : resend p tr format b w = (Ok tt, b', w') ->
  exists first bytes, write_message p (HSequence {| seq_sequence_id := first |}) = Ok bytes /\
    first = match messages b with item :: _ => bi_id item | [] => total_message_count b + 1 end /\
    writes tr format (bytes :: map bi_message (messages b)) w w' /\ reconnect_in_progress b' = false.
Proof.
  unfold resend, send_hub_message. set (first := match messages b with [] => _ | _ => _ end).
  destruct (write_message p _) as [bytes|e] eqn:Hw; [|done].
  destruct (send_payload tr format bytes w) as [[[]|e] w1] eqn:Hs; [|done].
  destruct (resend_items (messages b) tr format w1) as [[[]|e] w2] eqn:Hr; [|done].
  intros [= <- <-]. exists first, bytes. split_and!; [done|done| |done].
  cbn [writes]. exists w1. split; [done|]. by apply resend_items_writes.
Qed.


(** Also when the transport refuses the payload: the caller gets the error, and the buffer is told
    that the transport is gone. *)
Lemma failed_send_buffers p size m tr format b (w w' : T) e b' bytes : is_invocation_message m = true ->
  write_message p m = Ok bytes -> MessageBuffer.send p size m tr format b w = (Err e, b', w') ->
  exists item, messages b' = messages b ++ [item] /\ bi_message item = bytes /\
    bi_id item = total_message_count b + 1 /\ reconnect_in_progress b' = true.
Proof.
  intros Hm Hw. unfold MessageBuffer.send, send_locked. rewrite Hw, Hm. unfold send_unlocked.
  set (item := {| bi_message := bytes; bi_id := _; bi_backpressure := _ |}).
  destruct (negb _); [destruct (send_payload _ _ _ _) as [[[]|e'] w1]; [done|]|done].
  intros [= _ <- _]. by exists item.
Qed.

End sending.

(** ** The receiving side *)

Section receiving.
Context `{MP : MsgPack} `{RP : !ResumeProtocol p supported arrives} `{TR : Transport T}.




End receiving.

(** ** The call *)

Section survival.
Context `{MP : MsgPack} `{RP : !ResumeProtocol p supported arrives}.
Context `{UL : UrlLib} `{HC : HttpClient W} `{SO : !Sockets W} `{HT : HandshakeText}
  (options : ConnectionOptions W).

Local Abbreviation hub := (HubConnection W).
Local Abbreviation size := (op_stateful_reconnect_buffer_size options).
Local Abbreviation world h := (ns_world (hc_net h)).





(** A call that failed is made all the same: when the transport refuses the frame of a call,
    [invoke] returns the error and forgets the call, but the call stays in the reconnect buffer.
    A resume writes it to the new transport, in bytes from which the server reads the call, and
    what the server answers finds nobody. *)
Theorem failed_call_still_made (h h1 : hub) (rt : HubRuntime) (i : nat) (e : Error) (method : string)
    (values : list json) :
  hc_state h = Connected -> hc_runtime h = Some rt -> hr_hub_protocol rt = p ->
  hr_transfer_format rt = transfer_format p -> hr_message_buffer rt = Some i ->
  (i < length (hc_buffers h))%nat -> supported (call_message (next_id rt) method values) ->
  invoke options method (map HValue values) h = (Err e, h1) ->
  pending (hc_bus h1) !! next_id rt = None /\
  exists item f,
    messages (hc_buffers h1 !!! i) = messages (hc_buffers h !!! i) ++ [item] /\
    frame_of [payload_of p (bi_message item)] = Some f /\
    (forall tr (w w' : W) b', resend p tr (transfer_format p) (hc_buffers h1 !!! i) w = (Ok tt, b', w') ->
      exists sequence, writes tr (transfer_format p)
        (sequence :: map bi_message (messages (hc_buffers h !!! i)) ++ [bi_message item]) w w') /\
    forall (c : ServerConnection) rest,
      sc_protocol c = Some p -> sc_pending c = [] -> sc_incoming c = Ok f :: rest ->
      exists m c1, recv 0 c = Some (HInvocation m, c1) /\ inv_invocation_id m = Some (next_id rt) /\
        inv_target m = method /\ args_eq (AJson values) (inv_arguments m).
Proof.
  intros Hst Hrt Hp Hfmt Hbuf Hi Hsup. unfold invoke, prepare, require_connected. rewrite Hrt, decide_True by done.
  rewrite replace_values. unfold fresh_id. cbn [hc_runtime set_runtime next_invocation_id].
  fold (next_id rt). cbn [register_pending]. unfold send_or_forget, send_through.
  cbn [hc_runtime set_bus set_runtime]. unfold send_with_backpressure. cbn [hr_message_buffer]. rewrite Hbuf.
  cbn [hr_hub_protocol hr_transport hr_transfer_format hc_net hc_buffers set_bus set_runtime optional_ids].
  fold (call_message (next_id rt) method values). rewrite Hp, Hfmt.
  destruct (frame_arrives _ Hsup) as (bytes & f & ms & Hw & Hf & Hin & Hparse & Ha).
  destruct (MessageBuffer.send _ _ _ _ _ _ _) as [[[r|e'] b] w] eqn:Hsend; [done|]. intros [= -> <-].
  apply (failed_send_buffers _ _ _ _ _ _ _ _ _ _ bytes) in Hsend as (item & Hmsgs & Hbytes & _ & _); [|done..].
  split.
  - cbn. unfold remove_pending. case_match; cbn; [apply lookup_delete_eq|done].
  - exists item, f. cbn [hc_buffers set_bus Client.set_world set_net set_buffers set_runtime].
    rewrite list_lookup_total_insert_eq by done. rewrite Hbytes. split_and!; [done|done| |].
    + intros tr w0 w' b' Hr. apply resend_writes in Hr as (first & sequence & _ & _ & Hwr & _).
      exists sequence. rewrite Hmsgs, map_app in Hwr. cbn [map] in Hwr. by rewrite Hbytes in Hwr.
    + intros c rest Hcp Hcpe Hci. apply call_arrives in Ha as (m & -> & Hid & Htgt & Hargs).
      destruct (recv_one f _ (HInvocation m) c rest Hin Hparse eq_refl Hcp Hcpe Hci) as (c1 & Hrecv & _).
      by exists m, c1.
Qed.

End survival.
