(* ===== verification/Recorder.v ===== *)
(** * The recording example ([examples/record.rs])

    A program on top of the library's parts: it negotiates, opens the socket and shakes hands
    itself, writes every frame it gets into files and acknowledges what it received.  The
    environment and the file system are the parameter [Host]; an error is its text. *)

From Stdlib Require Import ZArith Lia Ascii String Sorted.
From stdpp Require Import base list strings gmap pretty.
From S2P Require Import Prelude Framing Utf8 Errors Values Arguments Message JsonProtocol.
From S2P Require Import MsgPackFormat MsgPackParse MsgPackProtocol Brotli.
From S2P Require Import MessageBuffer Handshake Negotiate RustStr Connection FakeHub.

Local Open Scope Z_scope.

(** [Call] *)
Record Call := {
  call_method : string;
  call_args : list json;
  call_invocation_id : option string;
  call_delay_secs : Z
}.

(** The environment, the files and [serde_json]'s indented printing; writing a file and making a
    directory change the world. *)
Class Host (W : Type) := {
  env_var : string -> option string;
  read_to_string : string -> result string string;
  calls_from_str : string -> result string (list Call);
  to_vec_pretty : json -> result string (list u8);
  create_dir_all : string -> W -> result string unit * W;
  fs_write : string -> list u8 -> W -> result string unit * W
}.

(** ** Names *)

(** [format!("{:06}", n)] *)
Fixpoint pad_zeros (n : nat) (s : string) : string :=
  match n with O => s | S n => String "0" (pad_zeros n s) end.
Definition pad6 (n : nat) : string :=
  let s := pretty (Z.of_nat n) in pad_zeros (6 - String.length s) s.

(** [Path::join] of a relative name *)
Definition join (out name : string) : string :=
  match out with
  | EmptyString => name
  | _ => if Text.ends_with "/" out then out +:+ name else out +:+ "/" +:+ name
  end.

(** [with_suffix] *)
Definition with_suffix (base suffix : string) : string := base +:+ "." +:+ suffix.

(** ** The recorder *)

(** [is_sequenced] *)
Definition is_sequenced (m : HubMessage) : bool :=
  match m with
  | HInvocation _ | HStreamInvocation _ | HStreamItem _ | HCompletion _ | HCancelInvocation _ => true
  | _ => false
  end.

(** [Recorder] *)
Record Recorder := {
  re_out : string;
  re_protocol : HubProtocol;
  re_brotli : bool;
  re_frames : nat
}.

Section payloads.
Context `{MP : MsgPack, BD : BrotliDecoder}.

(** The places of the flag and of the payload of a message, from its first item. *)
Definition payload_places (items : list mp_value) : option (nat * nat) :=
  first ← head items;
  kind ← m_as_i64 first;
  if (kind =? 1) || (kind =? 3) || (kind =? 4) then Some (4, 5)%nat
  else if kind =? 2 then Some (3, 4)%nat
  else None.

(** The payload of one message of a frame, if it is compressed. *)
Definition message_payload_of (message : list u8) : result string (option (list u8)) :=
  '(value, _) ← mp_read_value message;
  match value with
  | MArray items =>
      match payload_places items with
      | Some (flag, payload) =>
          if bool_decide ((items !! flag ≫= m_as_i64) = Some 1) then
            match items !! payload with
            | Some (MBinary data) =>
                decoded ← map_err protocol_error_text (decode data);
                Ok (Some decoded)
            | _ => Ok None
            end
          else Ok None
      | None => Ok None
      end
  | _ => Ok None
  end.

Fixpoint payloads_from (index : nat) (messages : list (list u8)) : result string (list (nat * list u8)) :=
  match messages with
  | [] => Ok []
  | message :: messages =>
      payload ← message_payload_of message;
      rest ← payloads_from (S index) messages;
      Ok (match payload with Some data => (index, data) :: rest | None => rest end)
  end.

(** [compressed_payloads] *)
Definition compressed_payloads (frame : list u8) : result string (list (nat * list u8)) :=
  messages ← map_err framing_error_text (Binary.parse frame);
  payloads_from 0 messages.

End payloads.

Section recorder.
Context `{JT : JsonText, MP : MsgPack, BD : BrotliDecoder, HO : Host W, HT : HandshakeText}.

(** The loop that writes the payloads. *)
Fixpoint write_payloads (base : string) (payloads : list (nat * list u8)) (w : W)
    : result string unit * W :=
  match payloads with
  | [] => (Ok tt, w)
  | (index, payload) :: payloads =>
      match fs_write (with_suffix base (pretty (Z.of_nat index) +:+ ".payload.msgpack")) payload w with
      | (Err e, w) => (Err e, w)
      | (Ok _, w) => write_payloads base payloads w
      end
  end.

(** [Recorder::parse] *)
Definition recorder_parse (r : Recorder) (base : string) (input : HubProtocolInput) (w : W)
    : result string (list HubMessage) * W :=
  let '(payloads, w) :=
    match re_brotli r, input with
    | true, IBinary bytes =>
        match compressed_payloads bytes with
        | Err e => (Err e, w)
        | Ok payloads => write_payloads base payloads w
        end
    | _, _ => (Ok tt, w)
    end in
  match payloads with
  | Err e => (Err e, w)
  | Ok _ =>
      match parse_messages (re_protocol r) input with
      | Ok messages =>
          match collect (map to_json_value messages) with
          | Err e => (Err (protocol_error_text e), w)
          | Ok values =>
              match to_vec_pretty (JArray values) with
              | Err e => (Err e, w)
              | Ok text =>
                  let '(written, w) := fs_write (with_suffix base "messages.json") text w in
                  (written ≫= fun _ => Ok messages, w)
              end
          end
      | Err error =>
          let '(written, w) := fs_write (with_suffix base "error.txt")
                                 (bytes_of_string (protocol_error_text error)) w in
          (written ≫= fun _ => Ok [], w)
      end
  end.

(** [Recorder::write_raw] *)
Definition write_raw (frame : TransportMessage) (r : Recorder) (w : W)
    : result string string * Recorder * W :=
  let r := {| re_out := re_out r; re_protocol := re_protocol r; re_brotli := re_brotli r;
              re_frames := S (re_frames r) |} in
  let base := join (re_out r) (pad6 (re_frames r)) in
  let '(written, w) :=
    match frame with
    | TText text => fs_write (with_suffix base "raw.txt") (bytes_of_string text) w
    | TBinary bytes => fs_write (with_suffix base "raw.bin") bytes w
    | TClosed _ => (Ok tt, w)
    end in
  (written ≫= fun _ => Ok base, r, w).

(** [Recorder::frame] *)
Definition recorder_frame (frame : TransportMessage) (r : Recorder) (w : W)
    : result string (list HubMessage) * Recorder * W :=
  let '(base, r, w) := write_raw frame r w in
  match base with
  | Err e => (Err e, r, w)
  | Ok base =>
      let '(messages, w) :=
        match frame with
        | TText text => recorder_parse r base (IText text) w
        | TBinary bytes => recorder_parse r base (IBinary bytes) w
        | TClosed _ => (Ok [], w)
        end in
      (messages, r, w)
  end.

Definition json_option {A} (f : A -> json) (o : option A) : json :=
  match o with Some a => f a | None => JNull end.

(** The response that the handshake file holds. *)
Definition response_json (response : HandshakeResponse) : json :=
  JObject [("error"%string, json_option JString (hs_error response));
           ("minorVersion"%string, json_option (fun z => JNumber (num_from_i64 z)) (hs_minor_version response))].

(** [Recorder::handshake] *)
Definition recorder_handshake (frame : TransportMessage) (r : Recorder) (w : W)
    : result string (list HubMessage) * Recorder * W :=
  let '(base, r, w) := write_raw frame r w in
  match base with
  | Err e => (Err e, r, w)
  | Ok base =>
      match frame with
      | TClosed _ => (Ok [], r, w)
      | TText _ | TBinary _ =>
          let input := match frame with TText text => HText text | TBinary bytes => HBinary bytes
                                      | TClosed _ => HBinary [] end in
          match map_err error_text (parse_response input) with
          | Err e => (Err e, r, w)
          | Ok result =>
              match to_vec_pretty (response_json (response result)) with
              | Err e => (Err e, r, w)
              | Ok text =>
                  match fs_write (with_suffix base "handshake.json") text w with
                  | (Err e, w) => (Err e, r, w)
                  | (Ok _, w) =>
                      match hs_error (response result) with
                      | Some error => (Err ("handshake rejected: " +:+ error), r, w)
                      | None =>
                          let '(messages, w) :=
                            match remaining result with
                            | Some (RText text) => recorder_parse r base (IText text) w
                            | Some (RBytes bytes) => recorder_parse r base (IBinary bytes) w
                            | None => (Ok [], w)
                            end in
                          (messages, r, w)
                      end
                  end
              end
          end
      end
  end.

End recorder.

(** ** The program *)

(** [send] *)
Definition record_send `{Transport W} (tr : transport) (p : HubProtocol) (m : HubMessage) (w : W)
    : result string unit * W :=
  match write_message p m with
  | Err e => (Err (protocol_error_text e), w)
  | Ok bytes =>
      match transfer_format p with
      | FText => match from_utf8 bytes with
                 | Ok text => let '(r, w) := send_text tr text w in (map_err error_text r, w)
                 | Err e => (Err e, w)
                 end
      | FBinary => let '(r, w) := send_binary tr bytes w in (map_err error_text r, w)
      end
  end.

(** The variables of the loop; a pending call is paired with its time, in seconds.  [lo_acks] and
    [lo_seen] record the acknowledgements that were sent and the messages that were parsed. *)
Record Loop (W : Type) := {
  lo_recorder : Recorder;
  lo_handshake_done : bool;
  lo_calls : list Call;
  lo_pending : list (Z * Call);
  lo_received : Z;
  lo_acked : Z;
  lo_acks : list Z;
  lo_seen : list HubMessage;
  lo_world : W
}.
Arguments lo_recorder {W}. Arguments lo_handshake_done {W}. Arguments lo_calls {W}.
Arguments lo_pending {W}. Arguments lo_received {W}. Arguments lo_acked {W}. Arguments lo_acks {W}.
Arguments lo_seen {W}. Arguments lo_world {W}.

(** What [select!] chooses: the deadline, a tick, a call whose time has come, a frame, with the
    time it arrives, or the end of the channel. *)
Inductive LoopEvent : Type :=
| LDeadline
| LKeepAlive
| LCallDue
| LFrame (now : Z) (frame : TransportMessage)
| LEnded.

(** What an iteration leads to. *)
Inductive LoopResult (W : Type) : Type :=
| LContinue (s : Loop W)
| LBreak (s : Loop W)
| LFailed (e : string) (s : Loop W).
Arguments LContinue {W}. Arguments LBreak {W}. Arguments LFailed {W}.

Section program.
Context `{JT : JsonText, MP : MsgPack, BD : BrotliDecoder, TR : Transport W, HO : !Host W,
  HT : HandshakeText}.
Context (tr : transport) (p : HubProtocol) (ack_messages : bool) (max_frames : option Z).

Definition with_record_world (w : W) (s : Loop W) : Loop W := {|
  lo_recorder := lo_recorder s; lo_handshake_done := lo_handshake_done s; lo_calls := lo_calls s;
  lo_pending := lo_pending s; lo_received := lo_received s; lo_acked := lo_acked s;
  lo_acks := lo_acks s; lo_seen := lo_seen s; lo_world := w |}.

Definition count_sequenced (messages : list HubMessage) : Z := len (List.filter is_sequenced messages).

(** The end of an iteration, after the messages of a frame. *)
Definition after_frame (messages : list HubMessage) (s : Loop W) : LoopResult W :=
  let received := lo_received s + count_sequenced messages in
  let s := {| lo_recorder := lo_recorder s; lo_handshake_done := lo_handshake_done s;
              lo_calls := lo_calls s; lo_pending := lo_pending s; lo_received := received;
              lo_acked := lo_acked s; lo_acks := lo_acks s;
              lo_seen := lo_seen s ++ messages; lo_world := lo_world s |} in
  let finish s :=
    match max_frames with
    | Some max => if max <=? Z.of_nat (re_frames (lo_recorder s)) then LBreak s else LContinue s
    | None => LContinue s
    end in
  if ack_messages && (lo_acked s <? received) then
    match record_send tr p (HAck {| ack_sequence_id := received |}) (lo_world s) with
    | (Err e, w) => LFailed e (with_record_world w s)
    | (Ok _, w) =>
        finish {| lo_recorder := lo_recorder s; lo_handshake_done := lo_handshake_done s;
                  lo_calls := lo_calls s; lo_pending := lo_pending s; lo_received := received;
                  lo_acked := received; lo_acks := lo_acks s ++ [received];
                  lo_seen := lo_seen s; lo_world := w |}
    end
  else finish s.

(** One iteration of the loop of [main]. *)
Definition loop_step (event : LoopEvent) (s : Loop W) : LoopResult W :=
  match event with
  | LDeadline | LEnded => LBreak s
  | LKeepAlive =>
      match record_send tr p HPing (lo_world s) with
      | (Err e, w) => LFailed e (with_record_world w s)
      | (Ok _, w) => LContinue (with_record_world w s)
      end
  | LCallDue =>
      match lo_pending s with
      | [] => LContinue s
      | (_, call) :: pending =>
          let s := {| lo_recorder := lo_recorder s; lo_handshake_done := lo_handshake_done s;
                      lo_calls := lo_calls s; lo_pending := pending; lo_received := lo_received s;
                      lo_acked := lo_acked s; lo_acks := lo_acks s; lo_seen := lo_seen s;
                      lo_world := lo_world s |} in
          match record_send tr p
            (HInvocation {| inv_headers := ∅; inv_invocation_id := call_invocation_id call;
                            inv_target := call_method call; inv_arguments := AJson (call_args call);
                            inv_stream_ids := None |}) (lo_world s) with
          | (Err e, w) => LFailed e (with_record_world w s)
          | (Ok _, w) => LContinue (with_record_world w s)
          end
      end
  | LFrame _ (TClosed _) => LBreak s
  | LFrame now frame =>
      let '(messages, r, w) :=
        if lo_handshake_done s then recorder_frame frame (lo_recorder s) (lo_world s)
        else recorder_handshake frame (lo_recorder s) (lo_world s) in
      let s := {| lo_recorder := r; lo_handshake_done := true;
                  lo_calls := if lo_handshake_done s then lo_calls s else [];
                  lo_pending := if lo_handshake_done s then lo_pending s
                                else map (fun call => (now + call_delay_secs call, call)) (lo_calls s);
                  lo_received := lo_received s; lo_acked := lo_acked s; lo_acks := lo_acks s;
                  lo_seen := lo_seen s; lo_world := w |} in
      match messages with
      | Err e => LFailed e s
      | Ok messages => after_frame messages s
      end
  end.

(** The loop over what [select!] chooses: it ends with a break, or an error. *)
Fixpoint record_loop (events : list LoopEvent) (s : Loop W) : LoopResult W :=
  match events with
  | [] => LContinue s
  | event :: events =>
      match loop_step event s with
      | LContinue s => record_loop events s
      | r => r
      end
  end.

End program.

(** ** Setting up *)

(** The protocol that [SIGNALR_PROTOCOL] names. *)
Definition record_protocol `{JsonText, MsgPack, BrotliDecoder} (name : string) : result string HubProtocol :=
  match protocol_by_name name with
  | Some p => Ok p
  | None => Err ("unsupported SIGNALR_PROTOCOL `" +:+ name +:+ "`")
  end.

(** [sort_by_key]: stable. *)
Fixpoint insert_call (call : Call) (calls : list Call) : list Call :=
  match calls with
  | [] => [call]
  | other :: calls =>
      if call_delay_secs call <? call_delay_secs other then call :: other :: calls
      else other :: insert_call call calls
  end.
Definition sort_calls (calls : list Call) : list Call :=
  fold_left (fun sorted call => insert_call call sorted) calls [].

(** The loop over the lines of [SIGNALR_HEADERS]. *)
Fixpoint parse_headers (ls : list string) : result string (list (string * string)) :=
  match ls with
  | [] => Ok []
  | line :: ls =>
      '(name, value) ← ok_or (split_once ":" line) ("header `" +:+ line +:+ "` is not `Name: value`");
      rest ← parse_headers ls;
      Ok ((trim name, trim value) :: rest)
  end.

(** What [main] reads from the environment. *)
Record RecordConfig := {
  rc_url : string;
  rc_protocol_name : string;
  rc_protocol : HubProtocol;
  rc_stateful : bool;
  rc_token : option string;
  rc_calls : list Call;
  rc_duration : Z;
  rc_max_frames : option Z;
  rc_headers : list (string * string)
}.

Section setup.
Context `{JT : JsonText, MP : MsgPack, BD : BrotliDecoder, UL : UrlLib} `{HC : HttpClient W}
  `{SO : !Sockets W, HO : !Host W, HT : HandshakeText}.

(** [env_or] *)
Definition env_or (name d : string) : string := default d (env_var name).

Definition read_config : result string RecordConfig :=
  url ← ok_or (env_var "SIGNALR_URL") "SIGNALR_URL must be set"%string;
  let protocol_name := env_or "SIGNALR_PROTOCOL" "json" in
  protocol ← record_protocol protocol_name;
  calls ← match env_var "SIGNALR_CALLS" with
          | Some path => text ← read_to_string path; calls_from_str text
          | None => Ok []
          end;
  duration ← parse_u64 (env_or "SIGNALR_DURATION_SECS" "30");
  max_frames ← match env_var "SIGNALR_MAX_FRAMES" with
               | Some value => Some <$> parse_u64 value
               | None => Ok None
               end;
  headers ← parse_headers (lines (env_or "SIGNALR_HEADERS" ""));
  Ok {| rc_url := url; rc_protocol_name := protocol_name; rc_protocol := protocol;
        rc_stateful := bool_decide (env_var "SIGNALR_STATEFUL_RECONNECT" = Some "1"%string);
        rc_token := env_var "ACCESS_TOKEN"; rc_calls := sort_calls calls; rc_duration := duration;
        rc_max_frames := max_frames; rc_headers := headers |}.

Definition record_options (c : RecordConfig) : NegotiateOptions := {|
  no_negotiate_version := no_negotiate_version negotiate_options_default;
  no_use_stateful_reconnect := rc_stateful c; no_headers := rc_headers c;
  no_timeout := no_timeout negotiate_options_default |}.

(** [main] after the negotiation, up to the loop: the socket, the handshake request, the output
    directory; the transport, whether to acknowledge, and the loop's first state. *)
Definition record_connect (c : RecordConfig) (negotiated : NegotiateResult) (w : W)
    : result string (transport * bool * Loop W) * W :=
  let ack_messages := rc_stateful c &&
    bool_decide (nr_use_stateful_reconnect (ng_response negotiated) = Some true) in
  match map_err error_text (token ← websocket_token (ng_response negotiated);
          build_websocket_url (ng_url negotiated) token (ng_access_token negotiated)) with
  | Err e => (Err e, w)
  | Ok websocket_url =>
      match connect_with_options websocket_url None w with
      | (Err e, w) => (Err (error_text e), w)
      | (Ok tr, w) =>
          match map_err error_text (write_request {|
                  hr_protocol := name (rc_protocol c);
                  hr_version := resolve_handshake_version (rc_stateful c) (version (rc_protocol c)) None |}) with
          | Err e => (Err e, w)
          | Ok payload =>
              match send_text tr payload w with
              | (Err e, w) => (Err (error_text e), w)
              | (Ok _, w) =>
                  let out := env_or "SIGNALR_OUT" "frames" in
                  match create_dir_all out w with
                  | (Err e, w) => (Err e, w)
                  | (Ok _, w) =>
                      (Ok (tr, ack_messages,
                           {| lo_recorder := {| re_out := out; re_protocol := rc_protocol c;
                                re_brotli := String.eqb (rc_protocol_name c) "messagepack+brotli";
                                re_frames := 0 |};
                              lo_handshake_done := false; lo_calls := rc_calls c; lo_pending := [];
                              lo_received := 0; lo_acked := 0; lo_acks := [];
                              lo_seen := []; lo_world := w |}), w)
                  end
              end
          end
      end
  end.

(** [main], given what [select!] chooses; [None] only if the negotiation runs out of fuel. *)
Definition record_main (events : list LoopEvent) (s : NegState W) : option (result string nat * W) :=
  match read_config with
  | Err e => Some (Err e, ns_world s)
  | Ok c =>
      match client_build (no_timeout (record_options c)) with
      | Err e => Some (Err e, ns_world s)
      | Ok _ =>
          match negotiate_with_client (rc_url c) (record_options c) (rc_token c) s with
          | None => None
          | Some (Err e, s) => Some (Err (error_text e), ns_world s)
          | Some (Ok negotiated, s) =>
              match record_connect c negotiated (ns_world s) with
              | (Err e, w) => Some (Err e, w)
              | (Ok (tr, ack_messages, l), _) =>
                  match record_loop tr (rc_protocol c) ack_messages (rc_max_frames c) events l with
                  | LFailed e l => Some (Err e, lo_world l)
                  | LContinue l | LBreak l =>
                      let '(r, w) := transport_close tr (lo_world l) in
                      Some (match r with
                            | Ok _ => Ok (re_frames (lo_recorder l))
                            | Err e => Err (error_text e)
                            end, w)
                  end
              end
          end
      end
  end.

End setup.

(** ** Acknowledgements *)

Lemma is_sequenced_invocation m : is_sequenced m = is_invocation_message m.
Proof. by destruct m. Qed.

(** The client's receiving half after the messages [ms]. *)
Definition client_receives (tr : transport) (format : TransferFormat) (ms : list HubMessage)
    : MessageBuffer :=
  fold_left (fun b m => (should_process_message m tr format b).2) ms buffer_new.

Lemma count_snoc ms m :
  count_sequenced (ms ++ [m]) = count_sequenced ms + (if is_sequenced m then 1 else 0).
Proof.
  unfold count_sequenced. rewrite List.filter_app, len_app. cbn [List.filter].
  by destruct (is_sequenced m).
Qed.

Lemma count_app ms ms' : count_sequenced (ms ++ ms') = count_sequenced ms + count_sequenced ms'.
Proof. unfold count_sequenced. by rewrite List.filter_app, len_app. Qed.

Lemma schedule_receiving tr format b : let b' := schedule_ack_timer tr format b in
  wait_for_sequence_message b' = wait_for_sequence_message b /\
  next_receiving_sequence_id b' = next_receiving_sequence_id b /\
  latest_received_sequence_id b' = latest_received_sequence_id b.
Proof. unfold schedule_ack_timer. by destruct (ack_scheduled b). Qed.

Lemma client_receives_count tr format ms : let b := client_receives tr format ms in
  wait_for_sequence_message b = false /\ next_receiving_sequence_id b = count_sequenced ms + 1 /\
  latest_received_sequence_id b = count_sequenced ms.
Proof.
  unfold client_receives. induction ms as [|m ms (IH1 & IH2 & IH3)] using rev_ind; [done|].
  cbv zeta. rewrite fold_left_app. cbn [fold_left]. set (b := fold_left _ ms _) in *.
  rewrite count_snoc, is_sequenced_invocation. unfold should_process_message. rewrite IH1.
  destruct (is_invocation_message m); cbn [negb snd]; [|split_and!; [done|lia|lia]].
  rewrite IH2, IH3. replace (_ <=? _) with false by lia.
  destruct (schedule_receiving tr format (set_receiving (count_sequenced ms + 1 + 1)
    (count_sequenced ms + 1) false (set_receiving (count_sequenced ms + 1 + 1) (count_sequenced ms) false b)))
    as (H1 & H2 & H3). cbn [snd]. rewrite H1, H2, H3. cbn. split_and!; [done|lia|lia].
Qed.

Section acks.
Context `{JT : JsonText, MP : MsgPack, BD : BrotliDecoder, TR : Transport W, HO : !Host W,
  HT : HandshakeText}.
Context (tr : transport) (p : HubProtocol) (ack_messages : bool) (max_frames : option Z).

Record loop_ok (s : Loop W) : Prop := {
  lk_received : lo_received s = count_sequenced (lo_seen s);
  lk_acked : if ack_messages then lo_acked s = lo_received s else lo_acked s = 0 /\ lo_acks s = [];
  lk_last : last (lo_acks s) = if lo_acked s =? 0 then None else Some (lo_acked s);
  lk_sorted : StronglySorted Z.lt (lo_acks s);
  lk_bounds : Forall (fun a => a <= lo_acked s) (lo_acks s)
}.

Definition result_state (r : LoopResult W) : option (Loop W) :=
  match r with LContinue s | LBreak s => Some s | LFailed _ _ => None end.

Lemma count_nonneg ms : 0 <= count_sequenced ms.
Proof. apply len_nonneg. Qed.

Lemma sorted_snoc (l : list Z) a : StronglySorted Z.lt l -> Forall (fun x => x < a) l ->
  StronglySorted Z.lt (l ++ [a]).
Proof.
  induction 1 as [|x l Hl IH Hx]; cbn; intros Ha; [repeat constructor|].
  apply Forall_cons in Ha as [Hxa Ha]. constructor; [by apply IH|].
  apply Forall_app. split; [done|]. by constructor.
Qed.

Lemma after_frame_ok ms (s s' : Loop W) : loop_ok s ->
  result_state (after_frame tr p ack_messages max_frames ms s) = Some s' -> loop_ok s'.
Proof.
  intros [Hr Ha Hl Hs Hb]. unfold after_frame. cbn [lo_acked]. pose proof (count_nonneg ms) as Hms.
  pose proof (count_nonneg (lo_seen s)) as Hse.
  destruct (ack_messages && (lo_acked s <? lo_received s + count_sequenced ms)) eqn:E.
  - apply andb_true_iff in E as [Hack Hlt%Z.ltb_lt]. rewrite Hack in Ha. cbn [lo_world].
    destruct (record_send tr p _ _) as [[[]|e] w]; [|done].
    enough (Hok : loop_ok {| lo_recorder := lo_recorder s; lo_handshake_done := lo_handshake_done s;
      lo_calls := lo_calls s; lo_pending := lo_pending s;
      lo_received := lo_received s + count_sequenced ms; lo_acked := lo_received s + count_sequenced ms;
      lo_acks := lo_acks s ++ [lo_received s + count_sequenced ms]; lo_seen := lo_seen s ++ ms;
      lo_world := w |}).
    { destruct max_frames as [max|]; [destruct (max <=? _)|]; cbn; by intros [= <-]. }
    split; cbn; [rewrite count_app; lia|by rewrite Hack| | |].
    + rewrite last_snoc. by replace (_ =? 0) with false by lia.
    + apply sorted_snoc; [done|]. eapply Forall_impl; [exact Hb|]. cbn. intros. lia.
    + apply Forall_app. split; [|by repeat constructor]. eapply Forall_impl; [exact Hb|]. cbn. intros. lia.
  - enough (Hok : loop_ok {| lo_recorder := lo_recorder s; lo_handshake_done := lo_handshake_done s;
      lo_calls := lo_calls s; lo_pending := lo_pending s;
      lo_received := lo_received s + count_sequenced ms; lo_acked := lo_acked s;
      lo_acks := lo_acks s; lo_seen := lo_seen s ++ ms; lo_world := lo_world s |}).
    { destruct max_frames as [max|]; [destruct (max <=? _)|]; cbn; by intros [= <-]. }
    split; cbn; [rewrite count_app; lia| |done..].
    destruct ack_messages eqn:Hack; [|done]. cbn in E. lia.
Qed.

Lemma loop_step_ok event (s s' : Loop W) : loop_ok s ->
  result_state (loop_step tr p ack_messages max_frames event s) = Some s' -> loop_ok s'.
Proof.
  intros Hok. destruct event as [| | |now frame|]; cbn [loop_step].
  - by intros [= <-].
  - destruct (record_send tr p HPing (lo_world s)) as [[[]|e] w]; [|done]. intros [= <-]. by destruct Hok.
  - destruct (lo_pending s) as [|[at_ call] pending]; [by intros [= <-]|].
    destruct (record_send tr p _ _) as [[[]|e] w]; [|done]. intros [= <-]. by destruct Hok.
  - destruct frame as [text|bytes|reason]; [| |by intros [= <-]].
    all: set (x := if lo_handshake_done s then _ else _); destruct x as [[[ms|e] r] w]; [|done];
      apply after_frame_ok; by destruct Hok.
  - by intros [= <-].
Qed.

Lemma record_loop_ok events (s s' : Loop W) : loop_ok s ->
  result_state (record_loop tr p ack_messages max_frames events s) = Some s' -> loop_ok s'.
Proof.
  revert s. induction events as [|event events IH]; intros s Hok; cbn [record_loop]; [by intros [= <-]|].
  pose proof (loop_step_ok event s) as Hst.
  destruct (loop_step _ _ _ _ event s) as [s1|s1|e s1]; cbn in *; [|intros [= <-]; by apply Hst|done].
  apply IH. by apply Hst.
Qed.

(** The recorder acknowledges what the client would: whatever frames, ticks and calls come in
    whatever order, the acknowledgements that the recorder sends increase, and after every
    iteration the last one is the sequence id that the client's own receiving half has reached
    after the same messages. *)
Theorem recorder_acks_like_client (events : list LoopEvent) (s s' : Loop W) (format : TransferFormat) :
  lo_received s = 0 -> lo_acked s = 0 -> lo_acks s = [] -> lo_seen s = [] -> ack_messages = true ->
  result_state (record_loop tr p ack_messages max_frames events s) = Some s' ->
  let id := latest_received_sequence_id (client_receives tr format (lo_seen s')) in
  lo_acked s' = id /\ StronglySorted Z.lt (lo_acks s') /\
  last (lo_acks s') = if id =? 0 then None else Some id.
Proof.
  intros H1 H2 H3 H4 Hack Hrun. apply record_loop_ok in Hrun as [Hr Ha Hl Hs _]; cycle 1.
  { split; rewrite ?H1, ?H2, ?H3, ?H4; [done|by destruct ack_messages|done|constructor|done]. }
  cbv zeta. destruct (client_receives_count tr format (lo_seen s')) as (_ & _ & ->).
  rewrite Hack in Ha. rewrite <- Hr, <- Ha. done.
Qed.
End acks.

(** ** Files *)

Lemma contains_pad n c : (forall d, pretty_N_char d <> c) -> c <> "-"%char -> Text.contains c (pad6 n) = false.
Proof.
  intros Hd Hm. unfold pad6. pose proof (pretty_Z_contains (Z.of_nat n) c Hd Hm) as Hp.
  induction (6 - _)%nat as [|k IH]; [done|]. cbn [pad_zeros Text.contains].
  apply orb_false_iff. split; [|done]. apply Ascii.eqb_neq. exact (Hd 0%N).
Qed.

(** The number of a frame can be read off its file names. *)
Lemma parse_pad n : Z.of_nat n <= u64_max -> parse_digits 0 (pad6 n) = Ok (Z.of_nat n).
Proof.
  intros Hn. unfold pad6. induction (6 - _)%nat as [|k IH]; [|done]. cbn [pad_zeros].
  rewrite <- (nat_N_Z n). apply parse_pretty. by rewrite nat_N_Z.
Qed.

(** Frames do not overwrite each other's files: the files of two different frames, of whatever
    kind, have different names. *)
Theorem recorded_files_distinct (out suffix suffix' : string) (n m : nat) :
  Z.of_nat n <= u64_max -> Z.of_nat m <= u64_max ->
  with_suffix (join out (pad6 n)) suffix = with_suffix (join out (pad6 m)) suffix' -> n = m.
Proof.
  intros Hn Hm Heq.
  assert (Hbase : pad6 n +:+ "." +:+ suffix = pad6 m +:+ "." +:+ suffix').
  { unfold with_suffix, join in Heq. destruct out as [|c out]; [done|].
    destruct (Text.ends_with "/" (String c out)); rewrite !string_app_assoc in Heq;
      apply (inj (String.append (String c out))) in Heq; [done|].
    by apply (inj (String.append "/")) in Heq. }
  apply (f_equal (split_once ".")) in Hbase.
  assert (Hdig : forall d, pretty_N_char d <> "."%char)
    by (intros d; unfold pretty_N_char; by repeat case_match).
  change ("." +:+ suffix) with (String "." suffix) in Hbase.
  change ("." +:+ suffix') with (String "." suffix') in Hbase.
  rewrite !split_once_at in Hbase by by apply contains_pad. injection Hbase as Hpad _.
  apply (f_equal (parse_digits 0)) in Hpad. rewrite !parse_pad in Hpad by done.
  injection Hpad as Hpad. lia.
Qed.

(** ** Frames that cannot be parsed *)

Section bad_frames.
Context `{JT : JsonText, MP : MsgPack, BD : BrotliDecoder, HO : Host W, HT : HandshakeText}.

(** One odd frame stops the recording of compressed messages: a frame that cannot be parsed is
    recorded together with the error, and recording goes on, but with the protocol
    [messagepack+brotli] the search for compressed payloads comes first, and what it cannot read
    ends the program without a record of the error. *)
Theorem odd_frame_stops_brotli_recording (bytes : list u8) (r : Recorder) (w w1 : W) (e : string)
    (error : ProtocolError) :
  let base := join (re_out r) (pad6 (S (re_frames r))) in
  fs_write (with_suffix base "raw.bin") bytes w = (Ok tt, w1) ->
  compressed_payloads bytes = Err e -> parse_messages (re_protocol r) (IBinary bytes) = Err error ->
  if re_brotli r then
    (recorder_frame (TBinary bytes) r w).1.1 = Err e /\ (recorder_frame (TBinary bytes) r w).2 = w1
  else
    let '(written, w2) := fs_write (with_suffix base "error.txt")
                            (bytes_of_string (protocol_error_text error)) w1 in
    (written = Ok tt -> (recorder_frame (TBinary bytes) r w).1.1 = Ok []) /\
    (recorder_frame (TBinary bytes) r w).2 = w2.
Proof.
  cbv zeta. intros Hraw Hpay Hparse. unfold recorder_frame, write_raw. cbn [re_out re_frames].
  rewrite Hraw. cbn [mbind result_bind]. unfold recorder_parse. cbn [re_brotli re_protocol].
  destruct (re_brotli r); [by rewrite Hpay|]. rewrite Hparse.
  destruct (fs_write _ (bytes_of_string _) w1) as [written w2]. by destruct written as [[]|].
Qed.

End bad_frames.

(** ** Compressed payloads *)

(** The payload that the recorder writes is the one that the client's parser decompresses: for
    the fake hub's compressed invocations, the encoded arguments. *)
Theorem recorded_payload_is_arguments `{MP : MsgPack, BD : BrotliDecoder, ML : !MsgPackLaws MP}
    (compress : list u8 -> list u8) (target : string) (arguments : mp_value) (bytes frame : list u8) :
  let message := MArray [MInteger 1; MMap []; MNil; MString target; MInteger 1; MBinary (compress bytes)] in
  mp_write_value arguments = Ok bytes -> decode (compress bytes) = Ok bytes ->
  mp_wf message = true -> (forall packed, mp_write_value message = Ok packed -> len packed < 2 ^ 31) ->
  compressed_invocation compress target arguments = Some frame ->
  compressed_payloads frame = Ok [(0%nat, bytes)].
Proof.
  cbv zeta. intros Hw Hdec Hwf Hsize. unfold compressed_invocation. rewrite Hw. cbn [mbind option_bind].
  destruct (mp_write_value (MArray _)) as [packed|] eqn:Hp; [|done]. cbn [mbind option_bind].
  intros [= <-]. unfold compressed_payloads.
  pose proof (Binary.framed_write_all [packed] ltac:(constructor; [by apply Hsize|done])) as Hf.
  apply Binary.parse_framed in Hf. cbn [map concat] in Hf. rewrite app_nil_r in Hf. rewrite Hf.
  cbn [map_err mbind result_bind payloads_from]. unfold message_payload_of.
  assert (Hread : mp_read_value packed = Ok (MArray [MInteger 1; MMap []; MNil; MString target; MInteger 1;
    MBinary (compress bytes)], [])).
  { rewrite <- (app_nil_r packed). apply read_written; [done|vm_compute; done|done]. }
  rewrite Hread. cbn [mbind result_bind].
  change (payload_places _) with (Some (4, 5)%nat). cbv iota beta. rewrite bool_decide_eq_true_2 by done.
  cbn [lookup list_lookup]. rewrite Hdec. done.
Qed.
