(* ===== verification/ProtocolTests.v ===== *)
(** * The unit tests of the protocol layer, run on the model

    The tests of [src/framing], [src/hub], [src/handshake.rs] and [src/negotiate.rs] as boolean
    functions: each builds the inputs of the test, calls the model of the function under test and
    compares as the test's assertions do.  The JSON texts are those of the tests ([SerdeJson]),
    and the HTTP server of the negotiation tests is a list of mounted answers.  What the tests
    compress, and the snapshots of [tests/messagepack_brotli_snapshots.rs], go through a compressor
    that sets a mark ([Marked]). *)

From Stdlib Require Import ZArith Lia String Ascii Strings.Byte.
From stdpp Require Import base list strings gmap pretty.
From S2P Require Import Prelude Framing Utf8 Errors Values Arguments Message JsonProtocol.
From S2P Require Import JsonReference MsgPackFormat MsgPackParse MsgPackProtocol Brotli.
From S2P Require Import MsgPackReference Handshake Negotiate RustStr JsonText FakeHub.

Local Open Scope Z_scope.

(** ** Writing tests *)

(** [assert_eq!] on [Ok] of a value *)
Definition returns {E A} `{EqDecision A} (r : result E A) (a : A) : bool :=
  match r with Ok b => bool_decide (a = b) | Err _ => false end.

(** [assert!(matches!(..))] on the value or on the error of a result *)
Definition ok_with {E A} (p : A -> bool) (r : result E A) : bool :=
  match r with Ok a => p a | Err _ => false end.
Definition err_with {E A} (p : E -> bool) (r : result E A) : bool :=
  match r with Err e => p e | Ok _ => false end.

(** Bytes given by their numbers. *)
Definition u8s (l : list Z) : list u8 := map Z_to_u8 l.

(** A JSON text with single quotes in place of its double quotes. *)
Definition text (s : string) : string :=
  string_of_list_ascii (map (fun c => if Ascii.eqb c "'" then QUOTE else c) (list_ascii_of_string s)).

(** [str::starts_with] *)
Definition text_starts_with (p s : string) : bool := if strip_prefix p s then true else false.

Definition RS : string := String Text.RECORD_SEPARATOR EmptyString.

#[global] Instance Arguments_eq_dec : EqDecision Arguments.
Proof. solve_decision. Defined.
#[global] Instance InvocationMessage_eq_dec : EqDecision InvocationMessage.
Proof. solve_decision. Defined.
#[global] Instance StreamInvocationMessage_eq_dec : EqDecision StreamInvocationMessage.
Proof. solve_decision. Defined.
#[global] Instance StreamItemMessage_eq_dec : EqDecision StreamItemMessage.
Proof. solve_decision. Defined.
#[global] Instance CompletionMessage_eq_dec : EqDecision CompletionMessage.
Proof. solve_decision. Defined.
#[global] Instance CancelInvocationMessage_eq_dec : EqDecision CancelInvocationMessage.
Proof. solve_decision. Defined.
#[global] Instance CloseMessage_eq_dec : EqDecision CloseMessage.
Proof. solve_decision. Defined.
#[global] Instance AckMessage_eq_dec : EqDecision AckMessage.
Proof. solve_decision. Defined.
#[global] Instance SequenceMessage_eq_dec : EqDecision SequenceMessage.
Proof. solve_decision. Defined.
#[global] Instance HubMessage_eq_dec : EqDecision HubMessage.
Proof. solve_decision. Defined.
#[global] Instance RemainingData_eq_dec : EqDecision RemainingData.
Proof. solve_decision. Defined.

#[local] Existing Instance SerdeJson.

(** ** [src/framing/binary.rs] *)

Module BinaryTests.

Definition write_empty_bytes : bool := bool_decide (Binary.write [] = u8s [0x00]).
Definition write_single_byte : bool := bool_decide (Binary.write (u8s [0x20]) = u8s [0x01; 0x20]).
Definition parse_empty_input : bool := returns (Binary.parse []) [].
Definition parse_zero_length_message : bool := returns (Binary.parse (u8s [0x00])) [[]].
Definition parse_single_message : bool :=
  returns (Binary.parse (u8s [0x01; 0xff])) [u8s [0xff]].
Definition parse_multiple_messages : bool :=
  returns (Binary.parse (u8s [0x01; 0xff; 0x01; 0x7f])) [u8s [0xff]; u8s [0x7f]].

(** Every payload is refused with the error. *)
Definition refused (e : FramingError) (payloads : list (list Z)) : bool :=
  forallb (fun payload => bool_decide (Binary.parse (u8s payload) = Err e)) payloads.

Definition parse_cannot_read_size : bool :=
  refused CannotReadSize
    [[0x80]; [0x02; 0x01; 0x80; 0x80]; [0x07; 0xff; 0xff; 0xff; 0xff; 0xff; 0xff; 0xff; 0x80]].
Definition parse_incomplete_message : bool :=
  refused IncompleteMessage
    [[0x07; 0xff; 0xff; 0xff; 0xff; 0xff; 0xff; 0xff; 0x01]; [0xff; 0xff; 0xff; 0xff; 0x07]; [0x02; 0x00]].
Definition parse_message_too_large : bool :=
  refused MessageTooLarge [[0xff; 0xff; 0xff; 0xff; 0xff]; [0x80; 0x80; 0x80; 0x80; 0x80]].

Definition all : list bool :=
  [write_empty_bytes; write_single_byte; parse_empty_input; parse_zero_length_message;
   parse_single_message; parse_multiple_messages; parse_cannot_read_size; parse_incomplete_message;
   parse_message_too_large].

End BinaryTests.

(** ** [src/framing/text.rs] *)

Module TextTests.

Definition write_appends_record_separator : bool :=
  bool_decide (Text.write "lol kek" = "lol kek" +:+ RS).
Definition parse_splits_messages : bool :=
  let input := ("lol" +:+ RS +:+ "kek" +:+ RS)%string in
  returns (Text.parse input) ["lol"; "kek"]%string.
Definition parse_rejects_incomplete_message : bool :=
  bool_decide (Text.parse "lol kek" = Err IncompleteMessage).

Definition all : list bool :=
  [write_appends_record_separator; parse_splits_messages; parse_rejects_incomplete_message].

End TextTests.

(** ** [src/hub/json.rs] *)

Module JsonTests.

Definition is_completion (m : HubMessage) : bool := match m with HCompletion _ => true | _ => false end.

Definition parse_messages_returns_completion_message : bool :=
  let input := (text "{'type':3,'invocationId':'abc','result':1514805840000,'headers':{}}" +:+ RS)%string in
  ok_with (fun messages => (len messages =? 1) && forallb is_completion messages)
    (parse_messages JsonProtocol (IText input)).

Definition parse_messages_ignores_unknown_type : bool :=
  let input := (text "{'type':228}" +:+ RS)%string in
  returns (parse_messages JsonProtocol (IText input)) [].

Definition parse_messages_rejects_binary_input : bool :=
  err_with (fun error => match error with PInvalidInput _ => true | _ => false end)
    (parse_messages JsonProtocol (IBinary (u8s [1; 2; 3]))).

Definition write_message_serializes_ping : bool :=
  ok_with (fun bytes => returns (from_utf8 bytes) (text "{'type':6}" +:+ RS))
    (write_message JsonProtocol HPing).

Definition json_round_trip_completion_message : bool :=
  let original := HCompletion {|
    comp_headers := ∅; comp_invocation_id := "abc"; comp_error := None;
    comp_result := Some (JNumber (num_from_i64 1514805840000)) |} in
  ok_with (fun encoded =>
    ok_with (fun s => returns (parse_messages JsonProtocol (IText s)) [original]) (from_utf8 encoded))
    (write_message JsonProtocol original).

Definition all : list bool :=
  [parse_messages_returns_completion_message; parse_messages_ignores_unknown_type;
   parse_messages_rejects_binary_input; write_message_serializes_ping; json_round_trip_completion_message].

End JsonTests.

(** ** [src/handshake.rs] *)

(** The derived [Serialize] of the request and [Deserialize] of the response. *)
Definition as_i32_value (v : json) : option Z :=
  match j_as_i64 v with
  | Some n => if (- 2 ^ 31 <=? n) && (n <? 2 ^ 31) then Some n else None
  | None => None
  end.

Definition serde_handshake : HandshakeText := {|
  request_to_string r :=
    json_to_string (JObject [("protocol"%string, JString (hr_protocol r));
                             ("version"%string, JNumber (num_from_i64 (hr_version r)))]);
  response_from_str s :=
    v ← json_from_str s;
    match v with
    | JObject m =>
        error ← opt_field as_string "error" m;
        minor_version ← opt_field as_i32_value "minorVersion" m;
        Ok {| Handshake.hs_error := error; hs_minor_version := minor_version |}
    | _ => Err "invalid type"%string
    end
|}.
#[local] Existing Instance serde_handshake.

Module HandshakeTests.

Definition resolve_handshake_version_uses_legacy_without_stateful_reconnect : bool :=
  resolve_handshake_version false 2 None =? LEGACY_HANDSHAKE_VERSION.
Definition resolve_handshake_version_uses_hub_protocol_with_stateful_reconnect : bool :=
  resolve_handshake_version true 2 None =? 2.
Definition resolve_handshake_version_honors_explicit_override : bool :=
  (resolve_handshake_version false 2 (Some 3) =? 3) && (resolve_handshake_version true 2 (Some 1) =? 1).

Definition write_request_serializes_json_with_separator : bool :=
  let request := {| hr_protocol := "protocol"; hr_version := 1 |} in
  returns (write_request request) (text "{'protocol':'protocol','version':1}" +:+ RS).

(** No error, no minor version, nothing after the response. *)
Definition is_empty_result (r : HandshakeResult) : bool :=
  bool_decide (Handshake.hs_error (response r) = None) &&
  bool_decide (hs_minor_version (response r) = None) && bool_decide (remaining r = None).

Definition parse_empty_json_response : bool :=
  let input := ("{}" +:+ RS)%string in ok_with is_empty_result (parse_response (HText input)).
Definition parse_empty_binary_response : bool :=
  let input := bytes_of_string "{}" ++ u8s [0x1e] in
  ok_with is_empty_result (parse_response (HBinary input)).

(** The error and the minor version, and what follows. *)
Definition is_error_result (rest : RemainingData) (r : HandshakeResult) : bool :=
  bool_decide (Handshake.hs_error (response r) = Some "error"%string) &&
  bool_decide (hs_minor_version (response r) = Some 1) && bool_decide (remaining r = Some rest).

Definition parse_text_response_with_remaining_data : bool :=
  let input := (text "{'error':'error','minorVersion':1}" +:+ RS +:+ "lol")%string in
  ok_with (is_error_result (RText "lol")) (parse_response (HText input)).
Definition parse_binary_response_with_remaining_data : bool :=
  let input := bytes_of_string (text "{'error':'error','minorVersion':1}") ++ u8s [0x1e] ++
               bytes_of_string "lol" in
  ok_with (is_error_result (RBytes (bytes_of_string "lol"))) (parse_response (HBinary input)).

Definition all : list bool :=
  [resolve_handshake_version_uses_legacy_without_stateful_reconnect;
   resolve_handshake_version_uses_hub_protocol_with_stateful_reconnect;
   resolve_handshake_version_honors_explicit_override; write_request_serializes_json_with_separator;
   parse_empty_json_response; parse_empty_binary_response; parse_text_response_with_remaining_data;
   parse_binary_response_with_remaining_data].

End HandshakeTests.

(** ** [src/negotiate.rs] *)

(** A URL in its parts; the texts of the tests need no percent encoding. *)
Record PlainUrl := {
  pu_scheme : string; pu_host : string; pu_path : string;
  pu_query : list (string * string); pu_fragment : option string
}.

Definition split_pair (s : string) : string * string := default (s, EmptyString) (split_once "=" s).

Definition plain_parse (s : string) : result string PlainUrl :=
  let '(s, fragment) := match split_once "#" s with Some (s, f) => (s, Some f) | None => (s, None) end in
  let '(s, query) := match split_once "?" s with
                     | Some (s, q) => (s, map split_pair (filter (fun p => p <> EmptyString) (Text.split "&" q)))
                     | None => (s, [])
                     end in
  '(scheme, rest) ← ok_or (split_once ":" s) "relative URL without a base"%string;
  rest ← ok_or (strip_prefix "//" rest) "relative URL without a base"%string;
  let '(host, path) := default (rest, EmptyString) (split_once "/" rest) in
  Ok {| pu_scheme := scheme; pu_host := host; pu_path := "/" +:+ path; pu_query := query;
        pu_fragment := fragment |}.

Definition join_query (pairs : list (string * string)) : string :=
  match map (fun p => (p.1 +:+ "=" +:+ p.2)%string) pairs with
  | [] => ""
  | p :: ps => foldl (fun acc p => (acc +:+ "&" +:+ p)%string) ("?" +:+ p)%string ps
  end.

Definition plain_url : UrlLib := {|
  Url := PlainUrl;
  url_parse := plain_parse;
  url_path := pu_path;
  url_set_path p u := {| pu_scheme := pu_scheme u; pu_host := pu_host u; pu_path := p;
    pu_query := pu_query u; pu_fragment := pu_fragment u |};
  url_clear_fragment u := {| pu_scheme := pu_scheme u; pu_host := pu_host u; pu_path := pu_path u;
    pu_query := pu_query u; pu_fragment := None |};
  query_pairs := pu_query;
  url_clear_query u := {| pu_scheme := pu_scheme u; pu_host := pu_host u; pu_path := pu_path u;
    pu_query := []; pu_fragment := pu_fragment u |};
  append_pair k v u := {| pu_scheme := pu_scheme u; pu_host := pu_host u; pu_path := pu_path u;
    pu_query := pu_query u ++ [(k, v)]; pu_fragment := pu_fragment u |};
  url_to_string u := (pu_scheme u +:+ "://" +:+ pu_host u +:+ pu_path u +:+ join_query (pu_query u) +:+
    match pu_fragment u with Some f => "#" +:+ f | None => "" end)%string
|}.
#[local] Existing Instance plain_url.

(** A mounted answer: the path it matches, the value of [Authorization] it asks for if any, the
    status and the body. *)
Record Mock := {
  mk_path : string; mk_authorization : option string; mk_status : Z; mk_body : option json
}.

(** [MockServer] with the number of requests it received, and the counter of the token factory. *)
Record MockServer := { ms_mocks : list Mock; ms_received : nat; ms_calls : nat }.

Definition uri : string := "http://127.0.0.1:80".

Definition matches_request (path : string) (headers : list (string * string)) (m : Mock) : bool :=
  String.eqb (mk_path m) path &&
  match mk_authorization m with
  | None => true
  | Some v => existsb (fun h => String.eqb h.1 "Authorization" && String.eqb h.2 v) headers
  end.

(** The first mounted answer that matches, or 404. *)
Definition mock_post (url : string) (headers : list (string * string)) (s : MockServer)
    : result string (Z * option json) * MockServer :=
  let s := {| ms_mocks := ms_mocks s; ms_received := S (ms_received s); ms_calls := ms_calls s |} in
  match plain_parse url with
  | Err e => (Err e, s)
  | Ok u =>
      match List.find (matches_request (pu_path u) headers) (ms_mocks s) with
      | Some m => (Ok (mk_status m, mk_body m), s)
      | None => (Ok (404, None), s)
      end
  end.

Definition mock_client : HttpClient MockServer := {|
  Body := option json;
  http_post := mock_post;
  status_text := pretty;
  body_json body := v ← ok_or body "EOF while parsing a value"%string; negotiate_response_of_json v
|}.
#[local] Existing Instance mock_client.

Module NegotiateTests.

(** [negotiate_ok] *)
Definition negotiate_ok : json :=
  JObject [("connectionId", JString "id"); ("connectionToken", JString "connection-token");
           ("negotiateVersion", JNumber (PosInt 1))]%string.

(** [counting_factory] *)
Definition counting_factory : AccessTokenFactory MockServer := fun s =>
  let call := S (ms_calls s) in
  (Ok ("token-" +:+ pretty call)%string,
   {| ms_mocks := ms_mocks s; ms_received := ms_received s; ms_calls := call |}).

(** [requests_to] *)
Definition requests_to (s : NegState MockServer) : nat := ms_received (ns_world s).

Definition serving (mocks : list Mock) : NegState MockServer := {|
  ns_world := {| ms_mocks := mocks; ms_received := 0; ms_calls := 0 |};
  ns_requests := []; ns_factory_calls := 0 |}.

Definition with_factory (s : NegState MockServer) :=
  negotiate_with_token_factory (uri +:+ "/hub") negotiate_options_default (Some counting_factory) s.

(** The result satisfies [p], after so many calls of the factory and requests. *)
Definition ends (p : result Error NegotiateResult -> bool) (calls requests : nat)
    (run : option (result Error NegotiateResult * NegState MockServer)) : bool :=
  match run with
  | Some (r, s) => p r && (ms_calls (ns_world s) =? calls)%nat && (requests_to s =? requests)%nat
  | None => false
  end.

Definition has_token (t : string) (r : result Error NegotiateResult) : bool :=
  ok_with (fun result => bool_decide (ng_access_token result = Some t)) r.
Definition is_unauthorized (r : result Error NegotiateResult) : bool :=
  err_with (fun error => match error with EUnauthorized _ => true | _ => false end) r.

Definition at_hub (authorization : option string) (status : Z) (body : option json) : Mock :=
  {| mk_path := "/hub/negotiate"; mk_authorization := authorization; mk_status := status; mk_body := body |}.

Definition token_factory_retries_once_after_401 : bool :=
  ends (has_token "token-2") 2 2 (with_factory (serving
    [at_hub (Some "Bearer token-1") 401 None; at_hub (Some "Bearer token-2") 200 (Some negotiate_ok)]%string)).

Definition token_factory_fails_after_second_401 : bool :=
  ends is_unauthorized 2 2 (with_factory (serving [at_hub None 401 None])).

Definition token_factory_is_called_once_on_success : bool :=
  ends (has_token "token-1") 1 1 (with_factory (serving
    [at_hub (Some "Bearer token-1"%string) 200 (Some negotiate_ok)])).

Definition fixed_token_is_not_retried_after_401 : bool :=
  ends is_unauthorized 0 1
    (negotiate_with_client (uri +:+ "/hub") negotiate_options_default (Some "fixed"%string)
      (serving [at_hub None 401 None])).

Definition server_issued_token_is_not_refreshed_after_401 : bool :=
  ends is_unauthorized 1 2 (with_factory (serving
    [at_hub None 200 (Some (JObject [("accessToken", JString "server-token");
                                     ("url", JString (uri +:+ "/redirected"))]%string));
     {| mk_path := "/redirected/negotiate"; mk_authorization := Some "Bearer server-token"%string;
        mk_status := 401; mk_body := None |}])).

Definition resolve_negotiate_url_appends_negotiate_and_version : bool :=
  ok_with (fun url => text_starts_with "https://example.com/signalr/negotiate?" url &&
      has_substring "client=web" url && has_substring "negotiateVersion=1" url)
    (resolve_negotiate_url "https://example.com/signalr?client=web" negotiate_options_default).

Definition build_websocket_url_sets_id_and_scheme : bool :=
  ok_with (fun url => text_starts_with "wss://example.com/signalr?" url && has_substring "client=web" url &&
      has_substring "id=connection-token" url && has_substring "access_token=jwt" url &&
      negb (has_substring "negotiateVersion" url))
    (build_websocket_url "https://example.com/signalr?client=web" "connection-token" (Some "jwt"%string)).

Definition websocket_token_prefers_connection_token : bool :=
  let response := {|
    nr_url := None; nr_access_token := None; nr_error := None; nr_connection_id := Some "id"%string;
    nr_connection_token := Some "token"%string; nr_negotiate_version := Some 1;
    nr_use_stateful_reconnect := None |} in
  returns (websocket_token response) "token"%string.

Definition websocket_token_falls_back_to_connection_id : bool :=
  let response := normalize {|
    nr_url := None; nr_access_token := None; nr_error := None; nr_connection_id := Some "id"%string;
    nr_connection_token := None; nr_negotiate_version := Some 0;
    nr_use_stateful_reconnect := None |} in
  returns (websocket_token response) "id"%string.

Definition all : list bool :=
  [token_factory_retries_once_after_401; token_factory_fails_after_second_401;
   token_factory_is_called_once_on_success; fixed_token_is_not_retried_after_401;
   server_issued_token_is_not_refreshed_after_401; resolve_negotiate_url_appends_negotiate_and_version;
   build_websocket_url_sets_id_and_scheme; websocket_token_prefers_connection_token;
   websocket_token_falls_back_to_connection_id].

End NegotiateTests.

(** ** [src/hub/arguments.rs] *)

Module ArgumentsTests.

(** 1.5 and 700.5 as the bits of an [f64]. *)
Definition f64_1_5 : Z := 0x3ff8000000000000.
Definition f64_700_5 : Z := 0x4085e40000000000.

(** The key of a JSON object as an [i64]. *)
Definition key_as_i64 (k : string) : result string Z :=
  match k with
  | String "-" k => Z.opp <$> parse_digits 0 k
  | k => parse_digits 0 k
  end.

(** [Deserialize] of [(String, HashMap<i64, f64>)] from a sequence *)
Definition name_and_map (values : list json) : result string (string * list (Z * Z)) :=
  match values with
  | [JString name; JObject m] =>
      m ← collect (map (fun kv => k ← key_as_i64 kv.1;
            match kv.2 with JNumber (Float b) => Ok (k, b) | _ => Err "expected f64"%string end) m);
      Ok (name, m)
  | _ => Err "invalid type"%string
  end.

Definition json_arguments_deserialize_without_conversion : bool :=
  let arguments := AJson [JString "name"; JObject [("10"%string, JNumber (Float f64_1_5))]] in
  returns (deserialize name_and_map (fun _ => Err EmptyString) arguments) ("name"%string, [(10, f64_1_5)]).

(** [Deserialize] of [(i64,)] *)
Definition one_i64 (values : list json) : result string Z :=
  match values with
  | [v] => ok_or (j_as_i64 v) "invalid type: string, expected i64"%string
  | _ => Err "invalid length"%string
  end.

Definition wrong_shape_is_invalid_arguments : bool :=
  err_with (fun error => match error with EInvalidArguments _ => true | _ => false end)
    (deserialize one_i64 (fun _ => Err EmptyString) (AJson [JString "name"])).

(** [messagepack] *)
Definition messagepack (arguments : list mp_value) : result ProtocolError Arguments :=
  bytes ← map_err PMessagePack (mp_write_value (MArray arguments)); from_messagepack bytes.

(** [int_keyed_map] *)
Definition int_keyed_map : mp_value :=
  MMap [(MInteger 10, MString "ten"); (MInteger 20, MString "twenty")].

(** [params] *)
Definition params : mp_value :=
  MMap [(MString "int", MInteger 100); (MString "float", MF64 f64_700_5); (MString "bool", MBoolean true);
        (MString "text", MString "x"); (MString "nested", int_keyed_map)].

(** [rmp_serde::from_slice] into a tuple of one value that [read] accepts *)
Definition from_slice {T} (read : mp_value -> result string T) (bytes : list u8) : result string T :=
  '(v, _) ← mp_read_value bytes;
  match v with MArray [v] => read v | _ => Err "invalid length"%string end.

(** [Deserialize] of a map with keys and values that [key] and [value] accept *)
Definition map_of {K V} (key : mp_value -> result string K) (value : mp_value -> result string V)
    (v : mp_value) : result string (list (K * V)) :=
  match v with
  | MMap m => collect (map (fun kv => k ← key kv.1; v ← value kv.2; Ok (k, v)) m)
  | _ => Err "expected a map"%string
  end.

Definition i64_of (v : mp_value) : result string Z := ok_or (m_as_i64 v) "expected i64"%string.
Definition string_of (v : mp_value) : result string string := ok_or (m_as_str v) "expected a string key"%string.

Definition read_from {T} (read : mp_value -> result string T) (arguments : list mp_value) : result Error T :=
  a ← map_err error_from_protocol (messagepack arguments);
  deserialize (fun _ => Err EmptyString) (from_slice read) a.

Definition integer_map_keys_stay_integers : bool :=
  ok_with (fun m => bool_decide ((list_to_map m : gmap Z string) !! 10 = Some "ten"%string) &&
      bool_decide (map fst m = [10; 20])) (read_from (map_of i64_of string_of) [int_keyed_map]).

(** [Param] *)
Inductive Param := PInt (n : Z) | PFloat (bits : Z) | PBool (b : bool) | PText (s : string) | POther (v : mp_value).

(** The derived [Deserialize] of the untagged enum: the first variant that fits. *)
Definition param_of (v : mp_value) : result string Param :=
  Ok (match v with
      | MInteger n => if n <=? i64_max then PInt n else POther v
      | MF64 b => PFloat b
      | MBoolean b => PBool b
      | MString s => PText s
      | _ => POther v
      end).

(** [Market] *)
Record Market := { mt_id : Z; mt_params : gmap string Param }.

Definition market_of (v : mp_value) : result string Market :=
  fields ← map_of string_of Ok v;
  let fields := list_to_map fields : gmap string mp_value in
  id ← ok_or (fields !! "id"%string) "missing field `id`"%string ≫= i64_of;
  ps ← ok_or (fields !! "params"%string) "missing field `params`"%string ≫= map_of string_of param_of;
  Ok {| mt_id := id; mt_params := list_to_map ps |}.

Definition is_int_keyed (v : mp_value) : bool :=
  match v with
  | MMap [(MInteger 10, MString "ten"); (MInteger 20, MString "twenty")] => true
  | _ => false
  end.

Definition mixed_value_map_into_untagged_enum : bool :=
  ok_with (fun market =>
      (mt_id market =? 7) &&
      match mt_params market !! "int"%string with Some (PInt 100) => true | _ => false end &&
      match mt_params market !! "float"%string with Some (PFloat b) => b =? f64_700_5 | _ => false end &&
      match mt_params market !! "bool"%string with Some (PBool true) => true | _ => false end &&
      match mt_params market !! "text"%string with Some (PText "x") => true | _ => false end &&
      match mt_params market !! "nested"%string with Some (POther v) => is_int_keyed v | _ => false end)
    (read_from market_of [MMap [(MString "id", MInteger 7); (MString "params", params)]]).

Definition mixed_value_map_into_rmpv_value : bool :=
  ok_with (fun m =>
      let m := list_to_map m : gmap string mp_value in
      match m !! "float"%string with Some (MF64 b) => b =? f64_700_5 | _ => false end &&
      match m !! "nested"%string with Some v => is_int_keyed v | None => false end)
    (read_from (map_of string_of Ok) [params]).

(** [Deserialize] of [serde_json::Value]: the keys of a map must be strings. *)
Fixpoint value_of (v : mp_value) : result string json :=
  match v with
  | MMap m => (fun l => JObject (obj_collect l)) <$>
      collect (map (fun kv => k ← string_of kv.1; (fun j => (k, j)) <$> value_of kv.2) m)
  | MArray l => JArray <$> collect (map value_of l)
  | v => mp_to_json v
  end.

Definition serde_json_value_rejects_integer_keyed_map : bool :=
  err_with (fun error => has_substring "expected a string key" (error_text error))
    (read_from (map_of string_of value_of) [params]).

Definition messagepack_arguments_convert_to_json : bool :=
  ok_with (fun a => returns (arguments_to_json a)
      [JObject [("10", JString "ten"); ("20", JString "twenty")]%string])
    (messagepack [int_keyed_map]).

Definition from_messagepack_rejects_non_array : bool :=
  ok_with (fun bytes => negb (is_ok (from_messagepack bytes))) (mp_write_value (MString "x")).

Definition all : list bool :=
  [json_arguments_deserialize_without_conversion; wrong_shape_is_invalid_arguments;
   integer_map_keys_stay_integers; mixed_value_map_into_untagged_enum; mixed_value_map_into_rmpv_value;
   serde_json_value_rejects_integer_keyed_map; messagepack_arguments_convert_to_json;
   from_messagepack_rejects_non_array].

End ArgumentsTests.

(** ** [src/hub/messagepack/write.rs] *)

Module WriteTests.

Definition write_ping_matches_dart_fixture : bool := returns write_ping (u8s [2; 145; 6]).

Definition write_cancel_invocation_matches_dart_fixture : bool :=
  let message := {| cancel_headers := ∅; cancel_invocation_id := "1" |} in
  returns (write_cancel_invocation message) (u8s [5; 147; 5; 128; 161; 49]).

Definition write_completion_matches_dart_fixture : bool :=
  let message := {| comp_headers := ∅; comp_invocation_id := "1"; comp_error := None; comp_result := None |} in
  returns (write_completion message) (u8s [6; 148; 3; 128; 161; 49; 2]).

Definition write_stream_item_matches_dart_fixture : bool :=
  let message := {| item_headers := ∅; item_invocation_id := Some "1"%string; item_item := JString "item" |} in
  returns (write_stream_item message) (u8s [10; 148; 2; 128; 161; 49; 164; 105; 116; 101; 109]).

Definition write_stream_invocation_matches_dart_fixture : bool :=
  let message := {| sinv_headers := ∅; sinv_invocation_id := "1"; sinv_target := "target";
                    sinv_arguments := []; sinv_stream_ids := None |} in
  returns (write_stream_invocation message)
    (u8s [13; 149; 4; 128; 161; 49; 166; 116; 97; 114; 103; 101; 116; 144]).

Definition write_invocation_matches_dart_fixture : bool :=
  let message := {| inv_headers := ∅; inv_invocation_id := None; inv_target := "target";
                    inv_arguments := arguments_default; inv_stream_ids := None |} in
  returns (write_invocation message)
    (u8s [12; 149; 1; 128; 192; 166; 116; 97; 114; 103; 101; 116; 144]).

Definition write_close_matches_dart_fixture : bool := returns write_close (u8s [3; 146; 7; 192]).
Definition write_ack_matches_dart_fixture : bool :=
  returns (write_ack {| ack_sequence_id := 1 |}) (u8s [3; 146; 8; 1]).
Definition write_sequence_matches_dart_fixture : bool :=
  returns (write_sequence {| seq_sequence_id := 1 |}) (u8s [3; 146; 9; 1]).
Definition write_message_dispatches_ping : bool :=
  ok_with (fun ping => returns (mp_write_message HPing) ping) write_ping.

Definition all : list bool :=
  [write_ping_matches_dart_fixture; write_cancel_invocation_matches_dart_fixture;
   write_completion_matches_dart_fixture; write_stream_item_matches_dart_fixture;
   write_stream_invocation_matches_dart_fixture; write_invocation_matches_dart_fixture;
   write_close_matches_dart_fixture; write_ack_matches_dart_fixture;
   write_sequence_matches_dart_fixture; write_message_dispatches_ping].

End WriteTests.

(** ** [src/hub/messagepack/mod.rs] and [src/hub/messagepack/parse.rs] *)

Module MessagePackTests.

Definition round_trips (original : HubMessage) : bool :=
  ok_with (fun encoded => returns (parse_messages MessagePackProtocol (IBinary encoded)) [original])
    (write_message MessagePackProtocol original).

Definition round_trip_ping_message : bool := round_trips HPing.
Definition mp_round_trip_completion_message : bool :=
  round_trips (HCompletion {| comp_headers := ∅; comp_invocation_id := "1"; comp_error := None; comp_result := None |}).
Definition mp_rejects_text_input : bool :=
  err_with (fun error => match error with PInvalidInput _ => true | _ => false end)
    (parse_messages MessagePackProtocol (IText "{}")).

Definition create_message_headers_parses_empty_and_non_empty : bool :=
  returns (create_message_headers [MInteger 1; MNil]) ∅ &&
  returns (create_message_headers [MInteger 1; MMap [(MString "hello", MString "world")]])
    {["hello"%string := "world"%string]}.

Definition parse_message_handles_known_and_unknown_types : bool :=
  ok_with (fun m => match m with Some (HInvocation _) => true | _ => false end)
    (parse_message [MInteger 1; MMap []; MString ""; MString ""; MNil] (Some (u8s [0x90]))) &&
  returns (parse_message [MInteger 6] None) (Some HPing) &&
  returns (parse_message [MInteger 10] None) None.

Definition all : list bool :=
  [round_trip_ping_message; mp_round_trip_completion_message; mp_rejects_text_input;
   create_message_headers_parses_empty_and_non_empty; parse_message_handles_known_and_unknown_types].

End MessagePackTests.

(** ** A compressor *)

(** For the tests that compress: the compressor puts a mark before the bytes and the decompressor
    takes it off, so that what is compressed has to go through the decoder to be read. *)
Module Marked.

Definition MARK : u8 := Z_to_u8 0x1b.
Definition compress (bytes : list u8) : list u8 := MARK :: bytes.
Definition decompress (bytes : list u8) : result string (list u8) :=
  match bytes with
  | b :: rest => if bool_decide (b = MARK) then Ok rest else Err "invalid data"%string
  | [] => Err "invalid data"%string
  end.
Definition MarkDecoder : BrotliDecoder := {| decode := default_decode decompress |}.

End Marked.

(** ** [src/hub/messagepack/brotli] *)

Module BrotliTests.

(** [IdentityDecoder] *)
Definition IdentityDecoder : BrotliDecoder := {| decode := Ok |}.
#[local] Existing Instance IdentityDecoder.

Definition the_type (t : MessageType) : mp_value := MInteger (message_type_number t).

(** [encode_value] *)
Definition encode_value (v : mp_value) : list u8 :=
  match mp_write_value v with Ok bytes => bytes | Err _ => [] end.

Definition create_completion_message_handles_error_non_void_and_void : bool :=
  let start := [the_type TCompletion; MMap []; MString "invocationId"] in
  ok_with (fun error => String.eqb (comp_invocation_id error) "invocationId" &&
      bool_decide (comp_error error = Some "error"%string))
    (br_completion_message (start ++ [MInteger ERROR_RESULT; MInteger 0; MString "error"])) &&
  ok_with (fun result => bool_decide (comp_result result = Some (JString "result")))
    (br_completion_message (start ++ [MInteger NON_VOID_RESULT; MInteger 0; MString "result"])) &&
  ok_with (fun void => bool_decide (comp_error void = None) && bool_decide (comp_result void = None))
    (br_completion_message (start ++ [MInteger VOID_RESULT])).

Definition create_stream_item_and_invocation_messages : bool :=
  ok_with (fun item => bool_decide (item_item item = JString "item"))
    (br_stream_item_message [the_type TStreamItem; MMap []; MString "invocationId"; MInteger 0; MString "item"]) &&
  ok_with (fun invocation => String.eqb (inv_target invocation) "target" &&
      ok_with (fun l => len l =? 2) (arguments_to_json (inv_arguments invocation)))
    (br_invocation_message [the_type TInvocation; MMap []; MString "invocationId"; MString "target"; MInteger 0; MNil]
      (Some (encode_value (MArray [MString "arg1"; MString "arg2"])))).

Definition unpack_data_decompresses_msgpack_payload : bool :=
  let payload := encode_value (MString "hello world") in
  ok_with (fun r => match r with Some (MString s) => String.eqb s "hello world" | _ => false end)
    (@unpack_data _ Marked.MarkDecoder (Some (MBinary (Marked.compress payload))) true).

Definition decode_round_trips_msgpack_payload : bool :=
  let original := encode_value (MString "hello world") in
  returns (@decode Marked.MarkDecoder (Marked.compress original)) original.

Definition parse_message_handles_common_message_types : bool :=
  ok_with (fun m => match m with Some (HInvocation _) => true | _ => false end)
    (br_parse_message [the_type TInvocation; MMap []; MString "id"; MString "target"; MInteger 0; MNil]
      (Some (encode_value (MArray [])))) &&
  returns (br_parse_message [the_type TPing] None) (Some HPing) &&
  ok_with (fun m => match m with Some (HClose _) => true | _ => false end)
    (br_parse_message [the_type TClose; MNil] None) &&
  returns (br_parse_message [the_type TAck; MInteger 1] None) (Some (HAck {| ack_sequence_id := 1 |})) &&
  returns (br_parse_message [MInteger 99] None) None.

(** [headers] *)
Definition headers : gmap string string := {["header"%string := "value"%string]}.

Definition write_invocation_brotli_matches_dart_fixture : bool :=
  let message := {| inv_headers := headers; inv_invocation_id := Some "invocationId"%string;
    inv_target := "target"; inv_arguments := AJson [JString "arg1"; JString "arg2"]; inv_stream_ids := None |} in
  returns (write_invocation_brotli message)
    (u8s [48; 150; 1; 129; 166; 104; 101; 97; 100; 101; 114; 165; 118; 97; 108; 117; 101;
          172; 105; 110; 118; 111; 99; 97; 116; 105; 111; 110; 73; 100; 166; 116; 97; 114;
          103; 101; 116; 0; 146; 164; 97; 114; 103; 49; 164; 97; 114; 103; 50]).

Definition write_stream_invocation_brotli_matches_dart_fixture : bool :=
  let message := {| sinv_headers := headers; sinv_invocation_id := "invocationId"; sinv_target := "target";
    sinv_arguments := [JString "arg1"; JString "arg2"]; sinv_stream_ids := None |} in
  returns (write_stream_invocation_brotli message)
    (u8s [48; 150; 4; 129; 166; 104; 101; 97; 100; 101; 114; 165; 118; 97; 108; 117; 101;
          172; 105; 110; 118; 111; 99; 97; 116; 105; 111; 110; 73; 100; 166; 116; 97; 114;
          103; 101; 116; 0; 146; 164; 97; 114; 103; 49; 164; 97; 114; 103; 50]).

Definition write_stream_item_brotli_matches_dart_fixture : bool :=
  let message := {| item_headers := headers; item_invocation_id := Some "invocationId"%string;
                    item_item := JString "item" |} in
  returns (write_stream_item_brotli message)
    (u8s [35; 149; 2; 129; 166; 104; 101; 97; 100; 101; 114; 165; 118; 97; 108; 117; 101;
          172; 105; 110; 118; 111; 99; 97; 116; 105; 111; 110; 73; 100; 0; 164; 105; 116;
          101; 109]).

Definition completion (error : option string) (result : option json) : CompletionMessage :=
  {| comp_headers := headers; comp_invocation_id := "invocationId"; comp_error := error; comp_result := result |}.

(** [ends_with] of a slice *)
Definition slice_ends_with (suffix bytes : list u8) : bool :=
  bool_decide (drop (length bytes - length suffix) bytes = suffix).

Definition write_completion_brotli_encodes_error_void_and_non_void_results : bool :=
  returns (write_completion_brotli (completion (Some "error"%string) None))
    (u8s [37; 150; 3; 129; 166; 104; 101; 97; 100; 101; 114; 165; 118; 97; 108; 117; 101;
          172; 105; 110; 118; 111; 99; 97; 116; 105; 111; 110; 73; 100; 1; 0; 165; 101; 114;
          114; 111; 114]) &&
  ok_with (fun encoded => bool_decide (encoded !! 30%nat = Some (Z_to_u8 3)) &&
      bool_decide (encoded !! 31%nat = Some (Z_to_u8 0)) &&
      slice_ends_with (u8s [166; 114; 101; 115; 117; 108; 116]) encoded)
    (write_completion_brotli (completion None (Some (JString "result")))) &&
  returns (write_completion_brotli (completion None None))
    (u8s [30; 148; 3; 129; 166; 104; 101; 97; 100; 101; 114; 165; 118; 97; 108; 117; 101;
          172; 105; 110; 118; 111; 99; 97; 116; 105; 111; 110; 73; 100; 2]).

Definition write_completion_brotli_round_trips_non_void_result : bool :=
  let message := completion None (Some (JString "result")) in
  ok_with (fun frame =>
    ok_with (fun frames =>
      match head frames with
      | Some frame =>
          ok_with (fun payload =>
            match payload.1 with
            | MArray items => returns (br_parse_message items None) (Some (HCompletion message))
            | _ => false
            end) (mp_read_value frame)
      | None => false
      end) (Binary.parse frame))
    (write_completion_brotli message).

Definition round_trip_uncompressed_invocation : bool :=
  let original := HInvocation {|
    inv_headers := ∅; inv_invocation_id := Some "id"%string; inv_target := "target";
    inv_arguments := AJson [JString "arg"]; inv_stream_ids := None |} in
  ok_with (fun encoded =>
    ok_with (fun decoded =>
      match decoded with
      | [HInvocation message] => String.eqb (inv_target message) "target" &&
          returns (arguments_to_json (inv_arguments message)) [JString "arg"]
      | _ => false
      end) (parse_messages MessagePackBrotliProtocol (IBinary encoded)))
    (write_message MessagePackBrotliProtocol original).

Definition brotli_rejects_text_input : bool :=
  err_with (fun error => match error with PInvalidInput _ => true | _ => false end)
    (parse_messages MessagePackBrotliProtocol (IText "{}")).

Definition all : list bool :=
  [create_completion_message_handles_error_non_void_and_void; create_stream_item_and_invocation_messages;
   unpack_data_decompresses_msgpack_payload; decode_round_trips_msgpack_payload;
   parse_message_handles_common_message_types; write_invocation_brotli_matches_dart_fixture;
   write_stream_invocation_brotli_matches_dart_fixture; write_stream_item_brotli_matches_dart_fixture;
   write_completion_brotli_encodes_error_void_and_non_void_results;
   write_completion_brotli_round_trips_non_void_result; round_trip_uncompressed_invocation;
   brotli_rejects_text_input].

End BrotliTests.

(** ** [tests/messagepack_brotli_snapshots.rs] *)

Module SnapshotTests.
Import Marked.
#[local] Existing Instance MarkDecoder.

Definition encode (value : mp_value) : list u8 :=
  match mp_write_value value with Ok bytes => bytes | Err _ => [] end.
Definition frame (items : list mp_value) : list u8 := Binary.write (encode (MArray items)).
Definition compressed (value : mp_value) : mp_value := MBinary (compress (encode value)).
Definition arguments : mp_value :=
  MArray [MString "price"; MMap [(MInteger 7, MF64 0x3FF4000000000000)]].
Definition headers : mp_value := MMap [].

(** What a snapshot holds: [Debug] of the messages, in which arguments are the JSON values they
    decode to, or the text of the error. *)
Definition shown (m : HubMessage) : HubMessage :=
  match m with
  | HInvocation i =>
      match json_values (inv_arguments i) with
      | Ok values => HInvocation {|
          inv_headers := inv_headers i; inv_invocation_id := inv_invocation_id i;
          inv_target := inv_target i; inv_arguments := AJson values; inv_stream_ids := inv_stream_ids i |}
      | Err _ => m
      end
  | _ => m
  end.
Definition parse (frame : list u8) : result string (list HubMessage) :=
  match parse_messages MessagePackBrotliProtocol (IBinary frame) with
  | Ok messages => Ok (map shown messages)
  | Err error => Err ("error: " +:+ protocol_error_text error)
  end.
Definition fails_with (text : string) (r : result string (list HubMessage)) : bool :=
  err_with (String.eqb text) r.

(** The arguments as the snapshots show them. *)
Definition shown_arguments : list json :=
  [JString "price"; JObject [("7"%string, JNumber (Float 0x3FF4000000000000))]].
Definition update : HubMessage := HInvocation {|
  inv_headers := ∅; inv_invocation_id := None; inv_target := "update";
  inv_arguments := AJson shown_arguments; inv_stream_ids := Some [] |}.

Definition invocation_frame (flag payload : mp_value) : list u8 :=
  frame [MInteger 1; headers; MNil; MString "update"; flag; payload].

Definition invocation : bool :=
  forallb (fun '(flag, payload) => returns (parse (invocation_frame flag payload)) [update])
    [(MInteger 1, compressed arguments); (MInteger 0, arguments); (MNil, arguments)].

Definition invocation_with_non_array_arguments_is_an_error : bool :=
  forallb (fun '(flag, payload) =>
      fails_with "error: invalid payload: expected array" (parse (invocation_frame flag payload)))
    [(MInteger 1, compressed (MString "x")); (MInteger 0, MString "x")].

Definition stream_invocation : bool :=
  returns (parse (frame [MInteger 4; headers; MString "1"; MString "watch"; MInteger 1;
                         compressed arguments; MArray []]))
    [HStreamInvocation {| sinv_headers := ∅; sinv_invocation_id := "1"; sinv_target := "watch";
       sinv_arguments := shown_arguments; sinv_stream_ids := Some [] |}].

Definition stream_item : bool :=
  forallb (fun '(flag, payload) =>
      returns (parse (frame [MInteger 2; headers; MString "1"; flag; payload]))
        [HStreamItem {| item_headers := ∅; item_invocation_id := Some "1"%string;
                        item_item := JArray shown_arguments |}])
    [(MInteger 1, compressed arguments); (MInteger 0, arguments)].

Definition completion : bool :=
  forallb (fun '(tail, error, result) =>
      returns (parse (frame ([MInteger 3; headers; MString "1"] ++ tail)))
        [HCompletion {| comp_headers := ∅; comp_invocation_id := "1"; comp_error := error;
                        comp_result := result |}])
    [([MInteger 1; MInteger 1; compressed (MString "failed")], Some "failed"%string, None);
     ([MInteger 2], None, None);
     ([MInteger 3; MInteger 1; compressed arguments], None, Some (JArray shown_arguments));
     ([MInteger 3; MInteger 0; MInteger 42], None, Some (JNumber (PosInt 42)))].

Definition messages_without_payload : bool :=
  forallb (fun '(items, messages) => returns (parse (frame items)) messages)
    [([MInteger 6], [HPing]);
     ([MInteger 7; MString "bye"; MBoolean true],
       [HClose {| close_error := Some "bye"%string; close_allow_reconnect := Some true |}]);
     ([MInteger 8; MInteger 3], [HAck {| ack_sequence_id := 3 |}]);
     ([MInteger 9; MInteger 4], [HSequence {| seq_sequence_id := 4 |}]);
     ([MInteger 5; headers; MString "1"], []);
     ([MInteger 99], [])].

Definition several_messages_in_one_frame : bool :=
  returns (parse (frame [MInteger 6] ++ invocation_frame (MInteger 1) (compressed arguments)))
    [HPing; update].

Definition handshake_version : bool :=
  let request stateful :=
    {| hr_protocol := name MessagePackBrotliProtocol;
       hr_version := resolve_handshake_version stateful (version MessagePackBrotliProtocol) None |} in
  String.eqb (hr_protocol (request true)) "messagepack+brotli" && (hr_version (request true) =? 2) &&
  String.eqb (hr_protocol (request false)) "messagepack+brotli" && (hr_version (request false) =? 1).

Definition all : list bool :=
  [invocation; invocation_with_non_array_arguments_is_an_error; stream_invocation; stream_item;
   completion; messages_without_payload; several_messages_in_one_frame; handshake_version].

End SnapshotTests.

(** ** All of them hold *)

(** The tests of the protocol layer hold of the model. *)
Theorem protocol_tests_pass : forallb id
  (BinaryTests.all ++ TextTests.all ++ JsonTests.all ++ HandshakeTests.all ++ NegotiateTests.all ++
   ArgumentsTests.all ++ WriteTests.all ++ MessagePackTests.all ++ BrotliTests.all ++
   SnapshotTests.all) = true.
Proof. vm_compute. reflexivity. Qed.
