(* ===== verification/ClientTests.v ===== *)
(** * The unit tests of the client, run on the model

    The tests of [src/bus.rs], [src/connection.rs], [src/transport] and [src/hub_connection] as
    boolean functions over the model, with the two transports that exist for tests
    ([WebSocketTransport::disconnected] and [recording]).  What a handler of a test sets or pushes
    is the state it acts on ([Handlers]).  Texts with fractions are those of [ReferenceJson]. *)

From Stdlib Require Import ZArith Lia String Ascii.
From stdpp Require Import base list strings gmap pretty.
From S2P Require Import Prelude Framing Utf8 Errors Values Arguments Message JsonProtocol.
From S2P Require Import JsonReference MsgPackFormat MsgPackParse MsgPackProtocol Brotli.
From S2P Require Import MsgPackReference MessageBuffer Bus Dispatch SendQueue Handshake Negotiate.
From S2P Require Import RustStr JsonText Retry Connection WebSocket Runtime Client Lifecycle.
From S2P Require Import Upload Builder FakeHub HubApi Handlers ProtocolTests.

Local Open Scope Z_scope.

#[local] Existing Instance SerdeJson.
#[local] Existing Instance serde_handshake.
#[local] Existing Instance plain_url.

(** ** Transports for tests *)

(** The texts sent to a recording transport; the URLs that sockets were opened at, and the frame
    that the next receive gives. *)
Record TestWorld := {
  tw_outgoing : list string;
  tw_urls : list string;
  tw_frames : list TransportMessage
}.

Definition test_world : TestWorld := {| tw_outgoing := []; tw_urls := []; tw_frames := [] |}.

(** [WebSocketTransport::disconnected] has nothing inside: every operation returns at once.
    [WebSocketTransport::recording] keeps the texts; it has no socket for anything else. *)
Definition disconnected_transport : transport := 0%nat.
Definition recording_transport : transport := 1%nat.

Definition push_outgoing (s : string) (w : TestWorld) : TestWorld :=
  {| tw_outgoing := tw_outgoing w ++ [s]; tw_urls := tw_urls w; tw_frames := tw_frames w |}.

#[local] Instance test_transport : Transport TestWorld := {|
  send_text tr payload w :=
    (Ok tt, if (tr =? disconnected_transport)%nat then w else push_outgoing payload w);
  send_binary _ _ w := (Ok tt, w);
  transport_close _ w := (Ok tt, w)
|}.

(** The server of the test of [src/connection.rs]: it answers the negotiation, and the handshake
    of the socket that is opened next. *)
#[local] Instance test_http : HttpClient TestWorld := {|
  Body := json;
  http_post _ _ w := (Ok (200, JObject [("connectionId", JString "id"); ("connectionToken", JString "token");
                                        ("negotiateVersion", JNumber (PosInt 1))]%string), w);
  status_text := pretty;
  body_json := negotiate_response_of_json
|}.

#[local] Instance test_sockets : Sockets TestWorld := {|
  client_build _ := Ok tt;
  ws_connect url w := (Ok recording_transport,
    {| tw_outgoing := tw_outgoing w; tw_urls := tw_urls w ++ [url];
       tw_frames := tw_frames w ++ [TText ("{}" +:+ RS)] |});
  ws_receive _ _ w :=
    (Some (head (tw_frames w)),
     {| tw_outgoing := tw_outgoing w; tw_urls := tw_urls w; tw_frames := tail (tw_frames w) |})
|}.

Definition invocation (id : option string) (target : string) (arguments : list json) : HubMessage :=
  HInvocation {| inv_headers := ∅; inv_invocation_id := id; inv_target := target;
                 inv_arguments := AJson arguments; inv_stream_ids := None |}.

Definition completion_of (id : string) (r : option json) : HubMessage :=
  HCompletion {| comp_headers := ∅; comp_invocation_id := id; comp_error := None; comp_result := r |}.

(** What a receiver gets: the items of a channel. *)
Definition received (ch : nat) (b : MessageBus) : list outcome :=
  match channels b !! ch with Some c => ch_items c | None => [] end.
Definition sender_gone (ch : nat) (b : MessageBus) : bool :=
  match channels b !! ch with Some c => ch_closed c | None => true end.

(** ** [src/bus.rs] *)

Module BusTests.

Definition register_and_dispatch_handler : bool :=
  let args := [JString "hello"] in
  let h : handler := fun received_args =>
    Ok (if decide (arguments_to_json received_args = Ok args) then Some (JBool true) else None) in
  let bus := (register_handler "TestEvent" h bus_new).2 in
  match handlers_for "TestEvent" bus with
  | [h] => bool_decide (h (AJson args) = Ok (Some (JBool true)))
  | _ => false
  end.

Definition multiple_handlers_are_registered_for_same_method : bool :=
  let bus := (register_handler "Event" (fun _ => Ok None) bus_new).2 in
  let bus := (register_handler "Event" (fun _ => Ok None) bus).2 in
  len (handlers_for "Event" bus) =? 2.

Definition remove_handler_can_target_single_registration : bool :=
  let '(removed_id, bus) := register_handler "Event" (fun _ => Ok None) bus_new in
  let bus := (register_handler "Event" (fun _ => Ok (Some (JBool true))) bus).2 in
  let bus := remove_handler "Event" (Some removed_id) bus in
  match handlers_for "Event" bus with
  | [h] => bool_decide (h arguments_default = Ok (Some (JBool true)))
  | _ => false
  end.

Definition register_and_complete_invocation : bool :=
  let result := Ok (JString "success") in
  let '(rx, bus) := register_pending "test_id" bus_new in
  let bus := complete_invocation "test_id" result bus in
  bool_decide (received rx bus = [result]).

Definition complete_nonexistent_invocation : bool :=
  let bus := complete_invocation "nonexistent" (Ok JNull) bus_new in
  bool_decide (channels bus = []).

Definition register_and_stream_items : bool :=
  let '(rx, bus) := register_stream "stream_id" bus_new in
  let bus := send_stream_item "stream_id" (Ok (JNumber (PosInt 42))) bus in
  let bus := send_stream_item "stream_id" (Ok (JString "done")) bus in
  bool_decide (received rx bus = [Ok (JNumber (PosInt 42)); Ok (JString "done")]).

Definition stream_completion_with_error : bool :=
  let '(rx, bus) := register_stream "stream_id" bus_new in
  let bus := complete_invocation "stream_id" (Err "Stream failed"%string) bus in
  bool_decide (head (received rx bus) = Some (Err "Stream failed"%string)).

Definition cancel_all_pending_fails_invoke_and_stream : bool :=
  let '(invoke, bus) := register_pending "invoke-1" bus_new in
  let '(stream, bus) := register_stream "stream-1" bus in
  let bus := cancel_all_pending "connection lost" bus in
  bool_decide (received invoke bus = [Err "connection lost"%string]) &&
  bool_decide (received stream bus = [Err "connection lost"%string]) && sender_gone stream bus.

Definition all : list bool :=
  [register_and_dispatch_handler; multiple_handlers_are_registered_for_same_method;
   remove_handler_can_target_single_registration; register_and_complete_invocation;
   complete_nonexistent_invocation; register_and_stream_items; stream_completion_with_error;
   cancel_all_pending_fails_invoke_and_stream].

End BusTests.

(** ** [src/hub_connection/dispatch.rs] *)

Module DispatchTests.

(** [test_dispatch_context] *)
Definition test_dispatch_context (bus : MessageBus) : DispatchState TestWorld := {|
  ds_bus := bus; ds_buffer := None; ds_events := []; ds_close_signaled := false; ds_world := test_world |}.

Definition dispatch_text (tr : transport) (m : HubMessage) (s : DispatchState TestWorld) :=
  dispatch JsonProtocol DEFAULT_STATEFUL_RECONNECT_BUFFER_SIZE tr FText m s.

Definition dispatch_ping_is_noop : bool :=
  is_ok (dispatch_text disconnected_transport HPing (test_dispatch_context bus_new)).1.

Definition dispatch_close_cancels_pending_and_emits_transport_event : bool :=
  let '(invoke, bus) := register_pending "invoke-1" bus_new in
  let '(stream, bus) := register_stream "stream-1" bus in
  let '(r, ctx) := dispatch_text disconnected_transport
    (HClose {| close_error := Some "server shutdown"%string; close_allow_reconnect := Some false |})
    (test_dispatch_context bus) in
  is_ok r && bool_decide (received invoke (ds_bus ctx) = [Err "server shutdown"%string]) &&
  bool_decide (head (received stream (ds_bus ctx)) = Some (Err "server shutdown"%string)) &&
  match ds_events ctx with
  | [info] => bool_decide (ci_error info = Some "server shutdown"%string) &&
              bool_decide (ci_allow_reconnect info = Some false)
  | _ => false
  end.

Definition all : list bool :=
  [dispatch_ping_is_noop; dispatch_close_cancels_pending_and_emits_transport_event].

End DispatchTests.

(** ** [src/hub_connection/callbacks.rs] and [src/hub_connection/retry.rs] *)

Module LifecycleTests.

(** How often callback [c] was called. *)
Definition count (c : nat) (l : LifecycleCallbacks) : nat :=
  length (filter (fun e => e.1 = c) (lc_called l)).

Definition invoke_closed_runs_only_after_connection_started : bool :=
  let callbacks := register_closed 7 lifecycle_new in
  let before := invoke_closed None callbacks in
  let after := invoke_closed (Some "boom"%string) (mark_started before) in
  (count 7 before =? 0)%nat && (count 7 after =? 1)%nat && (count 7 (invoke_closed None after) =? 1)%nat.

Definition reconnecting_and_reconnected_callbacks_receive_values : bool :=
  let callbacks := register_reconnected 2 (register_reconnecting 1 lifecycle_new) in
  let callbacks := invoke_reconnecting (Some "transport closed"%string) callbacks in
  let callbacks := invoke_reconnected (Some "abc"%string) callbacks in
  match lc_called callbacks with
  | [(1%nat, OnReconnecting reason); (2%nat, OnReconnected id)] =>
      bool_decide (reason = Some "transport closed"%string) && bool_decide (id = Some "abc"%string)
  | _ => false
  end.

Definition default_policy_returns_expected_delays : bool :=
  let delay n := next_retry_delay policy_default
    {| rc_elapsed := 0; rc_previous_retry_count := n; rc_retry_reason := "" |} in
  bool_decide (delay 0%nat = Some 0) && bool_decide (delay 1%nat = Some 2) && bool_decide (delay 4%nat = None).

Definition all : list bool :=
  [invoke_closed_runs_only_after_connection_started;
   reconnecting_and_reconnected_callbacks_receive_values; default_policy_returns_expected_delays].

End LifecycleTests.

(** ** [src/hub_connection/message_buffer.rs] *)

Module BufferTests.

Definition is_invocation_message_classifies_message_types : bool :=
  is_invocation_message (invocation None "t" []) && is_invocation_message (completion_of "1" None) &&
  negb (is_invocation_message HPing).

Definition ack_removes_acked_messages : bool :=
  let '(r, buffer, _) := MessageBuffer.send MessagePackProtocol 100 (invocation (Some "1"%string) "m" [])
    disconnected_transport FBinary buffer_new test_world in
  let buffer := (ack 100 {| ack_sequence_id := 1 |} buffer).1 in
  is_ok r && match messages buffer with [] => true | _ => false end.

Definition should_process_message_waits_for_sequence_after_disconnect : bool :=
  let buffer := disconnected buffer_new in
  let '(first, buffer) :=
    should_process_message (invocation None "t" []) disconnected_transport FBinary buffer in
  let '(second, _) := should_process_message (HSequence {| seq_sequence_id := 1 |})
    disconnected_transport FBinary buffer in
  negb first && second.

Definition all : list bool :=
  [is_invocation_message_classifies_message_types; ack_removes_acked_messages;
   should_process_message_waits_for_sequence_after_disconnect].

End BufferTests.

(** ** [src/transport] *)

Module TransportTests.

Definition redact_access_token_hides_only_the_token : bool :=
  let redacted := redact_access_token "wss://host/hub?room=1&id=abc&access_token=secret.jwt" in
  negb (has_substring "secret" redacted) &&
  (has_substring "access_token=***" redacted || has_substring "access_token=%2A%2A%2A" redacted) &&
  has_substring "id=abc" redacted && has_substring "room=1" redacted &&
  String.eqb (redact_access_token "wss://host/hub?id=abc") "wss://host/hub?id=abc".

Definition format_data_detail_hides_content_by_default : bool :=
  let detail := format_data_detail (DText "secret") false in
  has_substring "length 6" detail && negb (has_substring "secret" detail).
Definition format_data_detail_can_include_content : bool :=
  has_substring "secret" (format_data_detail (DText "secret") true).

Definition append_access_token_adds_query_parameter : bool :=
  ok_with (fun url => has_substring "access_token=token" url && has_substring "id=abc" url)
    (append_access_token "https://example.com/signalr?id=abc" (Some "token"%string)).
Definition append_access_token_skips_empty_token : bool :=
  returns (append_access_token "https://example.com/signalr" (Some EmptyString))
    "https://example.com/signalr"%string.

(** The worker goes on while it can. *)
Fixpoint work (fuel : nat) (q : Queue TestWorld) : Queue TestWorld :=
  match fuel with
  | O => q
  | S fuel => match loop_iteration recording_transport q with Some q => work fuel q | None => q end
  end.

(** Both callers put their payload into the channel before the worker runs. *)
Definition send_queue_batches_concurrent_text_payloads : bool :=
  let q := queue_send_text "b" 1%nat (queue_send_text "a" 0%nat (queue_new test_world)) in
  let q := work 4 q in
  bool_decide (q_answers q = [(0%nat, Ok tt); (1%nat, Ok tt)]) &&
  bool_decide (tw_outgoing (q_world q) = ["ab"%string]).

Definition push_payload_rejects_mixed_payload_types : bool :=
  err_with (fun error => match error with EProtocol _ => true | _ => false end)
    (push_payload [OText "hello"] (OBinary (u8s [1; 2; 3]))).

(** The pending call returns: with the answer it is given when its payload came before the shutdown,
    and because the worker is gone when it came after. *)
Definition stop_fails_pending_sends : bool :=
  let pending := Send (OText "pending") 0%nat in
  let before := work 4 (enqueue Shutdown (enqueue pending (queue_new test_world))) in
  let after := work 4 (enqueue pending (enqueue Shutdown (queue_new test_world))) in
  existsb (fun a => (a.1 =? 0)%nat && negb (is_ok a.2)) (q_answers before) && negb (q_running after).

Definition all : list bool :=
  [redact_access_token_hides_only_the_token; format_data_detail_hides_content_by_default;
   format_data_detail_can_include_content; append_access_token_adds_query_parameter;
   append_access_token_skips_empty_token; send_queue_batches_concurrent_text_payloads;
   push_payload_rejects_mixed_payload_types; stop_fails_pending_sends].

End TransportTests.

(** ** [src/connection.rs] *)

Module ConnectionTests.

Definition parse_transport_handshake_accepts_text_response : bool :=
  let payload := (text "{'error':null}" +:+ RS)%string in
  ok_with (fun result => bool_decide (Handshake.hs_error (response result) = None))
    (parse_transport_handshake (TText payload)).

(** [matches(..).count()]: the occurrences that do not overlap. *)
Fixpoint occurrences (p s : string) : nat :=
  match s with
  | EmptyString => 0
  | String _ s' => match strip_prefix p s with Some _ => 1 | None => 0 end + occurrences p s'
  end.

Definition connect_puts_access_token_into_websocket_url_once : bool :=
  let o : ConnectionOptions TestWorld := connection_options_new "http://127.0.0.1:80/hub" in
  let options := {|
    op_base_url := op_base_url o; op_negotiate := op_negotiate o;
    op_handshake_request := op_handshake_request o;
    op_handshake_version_override := op_handshake_version_override o;
    op_transfer_format := op_transfer_format o; op_handshake_timeout := op_handshake_timeout o;
    op_access_token_factory := Some (fun w => (Ok "secret"%string, w));
    op_hub_protocol := op_hub_protocol o; op_server_timeout := op_server_timeout o;
    op_keep_alive_interval := op_keep_alive_interval o; op_reconnect_policy := op_reconnect_policy o;
    op_stateful_reconnect_buffer_size := op_stateful_reconnect_buffer_size o;
    op_http_client := op_http_client o; op_log_message_content := op_log_message_content o |} in
  match connect options {| ns_world := test_world; ns_requests := []; ns_factory_calls := 0 |} with
  | Some (Ok _, s) =>
      match tw_urls (ns_world s) with
      | [url] => match split_once "?" url with
                 | Some (_, query) => (occurrences "access_token=secret" query =? 1)%nat
                 | None => false
                 end
      | _ => false
      end
  | _ => false
  end.

Definition all : list bool :=
  [parse_transport_handshake_accepts_text_response; connect_puts_access_token_into_websocket_url_once].

End ConnectionTests.

(** ** [src/hub_connection/runtime.rs], [stream.rs] and [upload_stream.rs] *)

Module StreamTests.

(** The options of [HubConnection::new] over a base URL. *)
Definition test_options : ConnectionOptions TestWorld := connection_options_new "https://example.com/signalr".

Definition started (tr : transport) : result Error HubRuntime := runtime_start tr JsonProtocol FText None.

Definition runtime_generates_monotonic_invocation_ids : bool :=
  ok_with (fun runtime =>
      let '(first, runtime) := next_invocation_id runtime in
      let '(second, _) := next_invocation_id runtime in
      String.eqb first "1" && String.eqb second "2") (started disconnected_transport).

Definition stream_maps_bus_items_and_errors : bool :=
  let '(items, bus) := register_stream "stream-1" bus_new in
  let stream := hub_method_stream_new "stream-1" items in
  let bus := send_stream_item "stream-1" (Ok (JNumber (PosInt 1))) bus in
  let bus := complete_invocation "stream-1" (Err "failed"%string) bus in
  match read_all 5 stream bus with
  | ([first; second], Ready None) =>
      returns first (JNumber (PosInt 1)) && bool_decide (second = Err (EInvocation "failed"))
  | _ => false
  end.

Definition replace_streaming_params_removes_streams_and_assigns_ids : bool :=
  ok_with (fun runtime =>
      let '(values, ids, streams, _) := replace_streaming_params
        [HValue (JString "arg"); HStream (from_iter [JNumber (PosInt 1)]); HStream (from_iter [JNumber (PosInt 2)])]
        runtime in
      bool_decide (values = [JString "arg"]) &&
      bool_decide (optional_ids ids = Some ["1"; "2"]%string) && bool_decide (map fst streams = ["1"; "2"]%string))
    (started disconnected_transport).

(** The upload tasks run: the loop whenever it can, otherwise a stream gives its next item. *)
Fixpoint upload (fuel : nat) (s : Uploads TestWorld) : Uploads TestWorld :=
  match fuel with
  | O => s
  | S fuel =>
      match sender_step test_options s with
      | Some s => upload fuel s
      | None => match reader_step 0 s with Some s => upload fuel s | None => s end
      end
  end.

(** The texts sent: the first message, and what the upload of the stream sends after it. *)
Definition uploaded (id : option string) (stream : ClientUploadStream) : list string :=
  match started recording_transport with
  | Err _ => []
  | Ok runtime =>
      let h := set_runtime (Some runtime) (hub_new test_world) in
      let h := (send_direct test_options
        (HInvocation {| inv_headers := ∅; inv_invocation_id := id; inv_target := "Upload";
                        inv_arguments := arguments_default; inv_stream_ids := Some ["1"%string] |}) h).2 in
      tw_outgoing (ns_world (hc_net (up_hub (upload 20 (launch_upload_streams [("1"%string, stream)] h)))))
  end.

Definition launch_upload_streams_sends_items_after_initial_message : bool :=
  match uploaded (Some "99"%string) (from_iter [JString "first"; JString "second"]) with
  | [m0; m1; m2; m3] =>
      has_substring (text "'type':1") m0 && has_substring "first" m1 && has_substring "second" m2 &&
      has_substring (text "'type':3") m3
  | _ => false
  end.

Definition launch_upload_streams_completes_stream_on_error_item : bool :=
  match uploaded None (from_stream [Ok (JString "only"); Err "boom"%string]) with
  | [_; m1; m2] => has_substring "only" m1 && has_substring "boom" m2
  | _ => false
  end.

Definition all : list bool :=
  [runtime_generates_monotonic_invocation_ids; stream_maps_bus_items_and_errors;
   replace_streaming_params_removes_streams_and_assigns_ids;
   launch_upload_streams_sends_items_after_initial_message;
   launch_upload_streams_completes_stream_on_error_item].

End StreamTests.

(** ** [src/hub_connection/mod.rs] *)

Module HubTests.
Import DispatchTests StreamTests.

Definition new_connection : HubConnection TestWorld := hub_new test_world.

(** [Point], with [y] as its bits, and [Deserialize] of [(String, Point)]. *)
Record Point := { pt_x : Z; pt_y : Z }.
#[global] Instance Point_eq_dec : EqDecision Point.
Proof. solve_decision. Defined.

Definition named_point (values : list json) : result string (string * Point) :=
  match values with
  | [JString name; JObject m] =>
      x ← ok_or (obj_get "x" m ≫= j_as_i64) "missing field `x`"%string;
      match obj_get "y" m with
      | Some (JNumber (Float y)) => Ok (name, {| pt_x := x; pt_y := y |})
      | _ => Err "missing field `y`"%string
      end
  | _ => Err "invalid type: integer `1`, expected a string"%string
  end.

(** [point_invocation] *)
Definition point_invocation (arguments : list json) : HubMessage := invocation None "Move" arguments.

Definition on_typed_reports_arguments_of_wrong_shape : bool :=
  let arguments := [JNumber (PosInt 1)] in
  let no_slice (bytes : list u8) : result string (string * Point) := Err EmptyString in
  let called := (on_typed_call "Move" named_point no_slice (fun _ _ => true) (AJson arguments) false).1 in
  let connection := (on_typed "Move" named_point no_slice new_connection).2 in
  match handlers_for "Move" (hc_bus connection) with
  | [h] => negb called && err_with (text_starts_with "invalid invocation arguments") (h (AJson arguments)) &&
      is_ok (dispatch_text disconnected_transport (point_invocation arguments)
        (test_dispatch_context (hc_bus connection))).1
  | _ => false
  end.

(** [Point] read from MessagePack bytes *)
Definition named_point_slice (bytes : list u8) : result string (string * Point) :=
  match mp_read_value bytes with
  | Ok (MArray [MString name; MMap m], _) =>
      let field name := head (omap (fun '(k, v) =>
        match k with MString k => if String.eqb k name then Some v else None | _ => None end) m) in
      match field "x"%string, field "y"%string with
      | Some (MInteger x), Some (MF64 y) => Ok (name, {| pt_x := x; pt_y := y |})
      | _, _ => Err "missing field"%string
      end
  | _ => Err "invalid type"%string
  end.

(** [dispatch_through]; handlers act on a state [A]. *)
Definition dispatch_through {A} (protocol : HubProtocol) (b : AppBus A) (message : HubMessage) (a : A)
    : option A :=
  match write_message protocol message with
  | Ok frame =>
      match parse_messages protocol (as_input (transfer_format protocol) frame) with
      | Ok parsed =>
          let '(r, _, a) := app_dispatch_all JsonProtocol DEFAULT_STATEFUL_RECONNECT_BUFFER_SIZE
            disconnected_transport FText b parsed (test_dispatch_context bus_new) a in
          if is_ok r then Some a else None
      | Err _ => None
      end
  | Err _ => None
  end.

(** [json!({ "x": x, "y": y })], [y] by its bits *)
Definition point_json (x y : Z) : json :=
  JObject [("x", JNumber (PosInt x)); ("y", JNumber (Float y))]%string.
Definition TWO_AND_A_HALF : Z := 0x4004000000000000.
Definition A_HALF : Z := 0x3FE0000000000000.

Definition on_typed_receives_arguments_in_every_protocol : bool :=
  forallb (fun protocol =>
      let b := (app_register "move" (on_typed_acting "move" named_point named_point_slice
        (fun arguments received => received ++ [arguments])) app_new).2 in
      let message := point_invocation [JString "a"; point_json 1 TWO_AND_A_HALF] in
      bool_decide (dispatch_through protocol b message [] =
        Some [("a"%string, {| pt_x := 1; pt_y := TWO_AND_A_HALF |})]))
    [@JsonProtocol.JsonProtocol ReferenceJson _; MessagePackProtocol;
     @MessagePackBrotliProtocol _ BrotliTests.IdentityDecoder].

Definition on_typed_and_on_share_a_method : bool :=
  let typed name := on_typed_acting "Move" named_point named_point_slice
    (fun '(_, point) calls => calls ++ [(name +:+ ": " +:+ pretty (pt_x point))%string]) in
  let b := (app_register "Move" (typed "typed 1"%string) app_new).2 in
  let b := (app_register "Move" (typed "typed 2"%string) b).2 in
  let b := (app_register "Move" (on_acting "Move" (fun arguments calls =>
    match arguments with
    | [_; JObject m] =>
        (calls ++ [("json: " +:+ from_option pretty "null" (obj_get "x" m ≫= j_as_i64))%string], None)
    | _ => (calls, None)
    end)) b).2 in
  let message := point_invocation [JString "a"; point_json 7 A_HALF] in
  bool_decide (dispatch_through MessagePackProtocol b message [] =
    Some ["typed 1: 7"; "typed 2: 7"; "json: 7"]%string).

(** Dispatching in the context of the tests, with handlers that act. *)
Definition dispatch_acting {A} (b : AppBus A) (m : HubMessage) (a : A) : bool * A :=
  let '(r, _, a) := app_dispatch JsonProtocol DEFAULT_STATEFUL_RECONNECT_BUFFER_SIZE disconnected_transport
    FText b m (test_dispatch_context bus_new) a in
  (is_ok r, a).

Definition dispatch_invokes_registered_client_handler : bool :=
  let b := (app_register "Echo" (fun arguments (called : bool) =>
    (true, await_output (ready (Ok (match arguments_to_json arguments with
                                    | Ok values => head values
                                    | Err _ => None
                                    end))))) app_new).2 in
  bool_decide (dispatch_acting b (invocation (Some "1"%string) "Echo" [JString "hello"]) false = (true, true)).

Definition dispatch_invokes_all_registered_client_handlers : bool :=
  let b := (app_register "Notify" (fun _ '(first, second) => (true, second, await_output (ready (Ok None))))
    app_new).2 in
  let b := (app_register "Notify" (fun _ '(first, second) => (first, true, await_output (ready (Ok None))))
    b).2 in
  bool_decide (dispatch_acting b (invocation None "Notify" []) (false, false) = (true, (true, true))).

Definition start_requires_disconnected_state : bool :=
  err_with (fun error => match error with EInvalidState _ => true | _ => false end)
    (start_check (set_state Connected new_connection)).

Definition close_is_idempotent_when_disconnected : bool :=
  match close_check new_connection with CloseReturns => true | _ => false end &&
  bool_decide (hc_state new_connection = Disconnected).

Definition invoke_requires_connected_state : bool :=
  bool_decide ((invoke test_options "Method" [] new_connection).1 = Err ENotConnected).
Definition stream_requires_connected_state : bool :=
  bool_decide ((Client.stream test_options "Method" [] new_connection).1 = Err ENotConnected).

Definition dispatch_routes_stream_items_until_completion : bool :=
  let '(items, bus) := register_stream "stream-42" bus_new in
  let stream := hub_method_stream_new "stream-42" items in
  let '(r, ctx) := dispatch_text disconnected_transport
    (HStreamItem {| item_headers := ∅; item_invocation_id := Some "stream-42"%string; item_item := JString "chunk" |})
    (test_dispatch_context bus) in
  let '(_, ctx) := dispatch_text disconnected_transport (completion_of "stream-42" None) ctx in
  is_ok r &&
  match read_all 5 stream (ds_bus ctx) with
  | ([chunk], Ready None) => returns chunk (JString "chunk")
  | _ => false
  end.

Definition dispatch_routes_completion_to_pending_invocation : bool :=
  let '(response, bus) := register_pending "42" bus_new in
  let '(r, ctx) := dispatch_text disconnected_transport (completion_of "42" (Some (JString "ok")))
    (test_dispatch_context bus) in
  is_ok r && bool_decide (received response (ds_bus ctx) = [Ok (JString "ok")]).

(** The last text sent when [handlers] are registered for [Echo] and the server invokes it. *)
Definition echoed (outputs : list output) : string :=
  let bus := foldl (fun b o => (register_handler "Echo" (fun _ => o) b).2) bus_new outputs in
  let ctx := (dispatch_text recording_transport (invocation (Some "1"%string) "Echo" [])
    (test_dispatch_context bus)).2 in
  default EmptyString (last (tw_outgoing (ds_world ctx))).

Definition dispatch_multiple_handler_results_send_error_completion : bool :=
  has_substring "Client provided multiple results."
    (echoed [await_output (ready (Ok (Some (JString "one")))); await_output (ready (Ok (Some (JString "two"))))]).

Definition dispatch_async_handler_can_complete_with_result : bool :=
  has_substring "async" (echoed [await_output (async (Ok (Some (JString "async"))))]).

Definition set_base_url_requires_disconnected_state : bool :=
  err_with (fun error => match error with EInvalidState _ => true | _ => false end)
    (set_base_url "https://other.example/signalr" test_options (set_state Connected new_connection)).1.

Definition json_protocol_round_trip_through_dispatch_context : bool :=
  let original := completion_of "abc" (Some (JNumber (num_from_i64 1514805840000))) in
  ok_with (fun encoded =>
    ok_with (fun s => returns (parse_messages JsonProtocol (IText s)) [original]) (from_utf8 encoded))
    (write_message JsonProtocol original).

Definition messagepack_protocol_round_trip_ping : bool :=
  ok_with (fun encoded => returns (parse_messages MessagePackProtocol (IBinary encoded)) [HPing])
    (write_message MessagePackProtocol HPing).

Definition all : list bool :=
  [on_typed_receives_arguments_in_every_protocol; on_typed_and_on_share_a_method;
   dispatch_invokes_registered_client_handler; dispatch_invokes_all_registered_client_handlers;
   on_typed_reports_arguments_of_wrong_shape; start_requires_disconnected_state;
   close_is_idempotent_when_disconnected; invoke_requires_connected_state; stream_requires_connected_state;
   dispatch_routes_stream_items_until_completion; dispatch_routes_completion_to_pending_invocation;
   dispatch_multiple_handler_results_send_error_completion; dispatch_async_handler_can_complete_with_result;
   set_base_url_requires_disconnected_state; json_protocol_round_trip_through_dispatch_context;
   messagepack_protocol_round_trip_ping].

End HubTests.

(** ** All of them hold *)

(** The tests of the client hold of the model. *)
Theorem client_tests_pass : forallb id
  (BusTests.all ++ DispatchTests.all ++ LifecycleTests.all ++ BufferTests.all ++ TransportTests.all ++
   ConnectionTests.all ++ StreamTests.all ++ HubTests.all) = true.
Proof. vm_compute. reflexivity. Qed.
