(* ===== verification/IntegrationTests.v ===== *)
(** * The integration tests, run on the model

    The tests of [tests/connect.rs] and [tests/reconnect.rs]: the model of the client against the
    model of the fake hub, from the builder over negotiation, handshake, calls, drops and
    resumption to the close.  The world is the hub with the server side of every socket opened;
    requests and responses are the bytes of HTTP messages, frames go through the reader of the
    socket, and the clock of the keepalive task is read in steps of some milliseconds.  The handlers of
    the tests act on what they were called with ([Handlers]). *)

From Stdlib Require Import ZArith Lia String Ascii.
From stdpp Require Import base list strings gmap pretty.
From S2P Require Import Prelude Framing Utf8 Errors Values Arguments Message JsonProtocol.
From S2P Require Import JsonReference MsgPackFormat MsgPackParse MsgPackProtocol Brotli.
From S2P Require Import MsgPackReference MessageBuffer Bus Dispatch SendQueue Handshake Negotiate.
From S2P Require Import RustStr JsonText Retry Connection WebSocket Runtime Client Lifecycle.
From S2P Require Import Upload Builder Usage FakeHub HubApi Handlers ProtocolTests ClientTests.

Local Open Scope Z_scope.

#[local] Existing Instance SerdeJson.
#[local] Existing Instance serde_handshake.
#[local] Existing Instance plain_url.
#[local] Existing Instance BrotliTests.IdentityDecoder.

(** ** The site *)

(** How the server greets a new socket: it accepts the handshake, refuses it, or says nothing. *)
Inductive Greeting : Type := Accepts | Refuses (error : string) | Silent.

(** The hub, the server side of the sockets in the order they were opened, whether each is still
    there, the handshake requests that were read, and the calls of the token callback. *)
Record Site := {
  si_hub : FakeHub;
  si_servers : list ServerConnection;
  si_alive : list bool;
  si_greeting : Greeting;
  si_handshakes : list json;
  si_calls : Z
}.

Definition site : Site := {|
  si_hub := fake_hub_start "127.0.0.1:80"; si_servers := []; si_alive := []; si_greeting := Accepts;
  si_handshakes := []; si_calls := 0 |}.

Definition set_servers (servers : list ServerConnection) (s : Site) : Site := {|
  si_hub := si_hub s; si_servers := servers; si_alive := si_alive s; si_greeting := si_greeting s;
  si_handshakes := si_handshakes s; si_calls := si_calls s |}.
Definition set_fake_hub (hub : FakeHub) (s : Site) : Site := {|
  si_hub := hub; si_servers := si_servers s; si_alive := si_alive s; si_greeting := si_greeting s;
  si_handshakes := si_handshakes s; si_calls := si_calls s |}.

(** A transport is the number of its socket, from 1. *)
Definition server_of (tr : transport) : nat := pred tr.

(** What the client writes arrives while the server is there; afterwards it is lost. *)
Definition arrive (tr : transport) (m : SocketMessage) (s : Site) : Site :=
  if default false (si_alive s !! server_of tr) then
    set_servers (alter (fun c => with_incoming (sc_incoming c ++ [Ok m]) c) (server_of tr) (si_servers s)) s
  else s.

#[local] Instance site_transport : Transport Site := {|
  send_text tr payload s := (Ok tt, arrive tr (SText payload) s);
  send_binary tr payload s := (Ok tt, arrive tr (SBinary payload) s);
  transport_close tr s := (Ok tt, arrive tr (SClose None) s)
|}.

(** The text of an HTTP response: its status and its body. *)
Fixpoint after_head (s : string) : string :=
  match s with
  | EmptyString => EmptyString
  | String _ s' => match strip_prefix (CRLF +:+ CRLF) s with Some body => body | None => after_head s' end
  end.

Definition read_response (response : string) : result string (Z * string) :=
  match parse_usize (default EmptyString (Text.split " " response !! 1%nat)) with
  | Some status => Ok (status, after_head response)
  | None => Err "invalid response"%string
  end.

(** The request target of a URL. *)
Definition target_of (url : string) : result string string :=
  u ← plain_parse url; Ok (pu_path u +:+ join_query (pu_query u))%string.

Definition site_post (url : string) (headers : list (string * string)) (s : Site)
    : result string (Z * string) * Site :=
  match target_of url with
  | Err e => (Err e, s)
  | Ok target =>
      match listen (InHttp (bytes_of_string (request_head target headers))) (si_hub s) with
      | Some (hub, Some response) => (read_response response, set_fake_hub hub s)
      | Some (hub, None) => (Err "connection closed"%string, set_fake_hub hub s)
      | None => (Err "connection closed"%string, s)
      end
  end.

#[local] Instance site_http : HttpClient Site := {|
  Body := string;
  http_post := site_post;
  status_text := pretty;
  body_json body := v ← json_from_str body; negotiate_response_of_json v
|}.

(** A socket is opened when the listener puts a new connection into the hub's queue; the test
    takes it out at once. *)
Definition site_connect (url : string) (s : Site) : result string transport * Site :=
  match plain_parse url with
  | Err e => (Err e, s)
  | Ok u =>
      match listen (InUpgrade (pu_path u) (pu_query u) [] false) (si_hub s) with
      | Some (hub, _) =>
          match hub_accept hub with
          | Some (c, hub) =>
              (Ok (S (length (si_servers s))),
               {| si_hub := hub; si_servers := si_servers s ++ [c]; si_alive := si_alive s ++ [true];
                  si_greeting := si_greeting s;
                  si_handshakes := si_handshakes s; si_calls := si_calls s |})
          | None => (Err "connection refused"%string, set_fake_hub hub s)
          end
      | None => (Err "connection closed"%string, s)
      end
  end.

Definition shook_hands (requests : list json) (s : Site) : Site := {|
  si_hub := si_hub s; si_servers := si_servers s; si_alive := si_alive s; si_greeting := si_greeting s;
  si_handshakes := si_handshakes s ++ requests; si_calls := si_calls s |}.

(** What arrives first on a new socket: the response that the server's handshake writes. *)
Definition site_receive (tr : transport) (timeout : Z) (s : Site) : option (option TransportMessage) * Site :=
  let greeted := c ← si_servers s !! server_of tr;
    '(request, c) ← handshake_request c;
    match si_greeting s with
    | Accepts => c ← handshake_response None c; Some (request, c)
    | Refuses error => c ← handshake_response (Some error) c; Some (request, c)
    | Silent => None
    end in
  match greeted with
  | Some (request, c) =>
      (match last (sc_written c) with Some (SText t) => Some (Some (TText t)) | _ => None end,
       shook_hands [request] (set_servers (<[server_of tr := c]> (si_servers s)) s))
  | None => (None, s)
  end.

#[local] Instance site_sockets : Sockets Site := {|
  client_build _ := Ok tt;
  ws_connect := site_connect;
  ws_receive := site_receive
|}.

(** ** Steps of a test *)

Local Abbreviation hub := (HubConnection Site).

Definition site_of (h : hub) : Site := ns_world (hc_net h).
Definition on_site (f : Site -> Site) (h : hub) : hub := Client.set_world (f (site_of h)) h.

(** [FakeHub::start] and the builder over the hub's URL. *)
Definition hub_url : string := fh_url (si_hub site).

(** The server [n] does something, as long as it can. *)
Definition serve {A} (n : nat) (f : ServerConnection -> option (A * ServerConnection)) (h : hub)
    : option (A * hub) :=
  c ← si_servers (site_of h) !! n;
  '(a, c) ← f c;
  Some (a, on_site (fun s => set_servers (<[n := c]> (si_servers s)) s) h).

Definition server_receives (n : nat) (h : hub) : option (HubMessage * hub) := serve n (recv 3) h.
Definition server_is (n : nat) (f : ServerConnection -> bool) (h : hub) : bool :=
  match si_servers (site_of h) !! n with Some c => f c | None => false end.

(** The runtime's receive task on a transport message: the new state, and the close events. *)
Definition receive (o : ConnectionOptions Site) (t : TransportMessage) (h : hub)
    : list TransportCloseInfo * hub :=
  match hc_runtime h with
  | None => ([], h)
  | Some rt =>
      let s := {| ds_bus := hc_bus h; ds_buffer := hr_message_buffer rt ≫= fun i => hc_buffers h !! i;
                  ds_events := []; ds_close_signaled := false; ds_world := site_of h |} in
      let s := (receive_one (hr_hub_protocol rt) (op_stateful_reconnect_buffer_size o) (hr_transport rt)
                  (hr_transfer_format rt) (RMessage (Some t) false) s).2 in
      let h := Client.set_world (ds_world s) (set_bus (ds_bus s) h) in
      (ds_events s, match hr_message_buffer rt, ds_buffer s with
                    | Some i, Some b => set_buffers (<[i := b]> (hc_buffers h)) h
                    | _, _ => h
                    end)
  end.

(** The server [n] sends a message, and the client receives its frame. *)
Definition server_tells (o : ConnectionOptions Site) (n : nat) (m : HubMessage) (h : hub)
    : option (list TransportCloseInfo * hub) :=
  '(frame, h) ← serve n (fun c => c' ← server_send m c; frame ← last (sc_written c'); Some (frame, c')) h;
  match read_loop [Ok frame] with
  | t :: _ => Some (receive o t h)
  | [] => None
  end.

(** [abort]: the server goes away; the reader ends with an error, and the supervisor is told. *)
Definition abort (o : ConnectionOptions Site) (n : nat) (h : hub) : hub :=
  let h := on_site (fun s => {| si_hub := si_hub s; si_servers := si_servers s;
    si_alive := <[n := false]> (si_alive s); si_greeting := si_greeting s;
                  si_handshakes := si_handshakes s; si_calls := si_calls s |}) h in
  match read_loop [Err "connection reset"%string] with
  | t :: _ =>
      match receive o t h with
      | (info :: _, h) => supervisor_closed o info 0 h
      | ([], h) => h
      end
  | [] => h
  end.

(** The supervisor wakes up after its delay. *)
Definition wake (o : ConnectionOptions Site) (h : hub) : option hub :=
  match hc_supervisor h with
  | Some (SupSleeping attempt started _) => supervisor_attempt o 1 attempt started h
  | _ => None
  end.

Definition started (r : option (result Error unit * hub)) : option hub :=
  match r with Some (Ok _, h) => Some h | _ => None end.

(** [connection.close().await.unwrap()], as the last line of a test *)
Definition closes (o : ConnectionOptions Site) (h : hub) : bool :=
  match close o h with Some (Ok _, h) => bool_decide (hc_state h = Disconnected) | _ => false end.

Definition check (o : option bool) : bool := default false o.
Definition guard_that (b : bool) : option unit := if b then Some tt else None.

(** The arguments of an invocation. *)
Definition called (m : HubMessage) : option (string * option string * list json) :=
  match m with
  | HInvocation m =>
      match arguments_to_json (inv_arguments m) with
      | Ok l => Some (inv_target m, inv_invocation_id m, l)
      | Err _ => None
      end
  | _ => None
  end.

Definition int (n : Z) : json := JNumber (num_from_i64 n).

(** ** [tests/connect.rs] *)

Local Abbreviation options := (ConnectionOptions Site).
Local Abbreviation builder := (HubConnectionBuilder Site).

(** [PROTOCOLS] *)
Definition PROTOCOLS : list (string * (builder -> builder)) := [
  ("json"%string, with_json_protocol);
  ("messagepack"%string, with_messagepack_protocol);
  ("messagepack+brotli"%string, with_messagepack_brotli_protocol)].

(** The connection under test, against a hub in the given state. *)
Definition connection (configure : builder -> builder) (s : Site) : options * hub :=
  build (configure (builder_new hub_url)) s.

(** [connect] *)
Definition connect_to_hub (configure : builder -> builder) (s : Site) : option (options * hub) :=
  let '(o, h) := connection configure s in
  h ← started (start o h); Some (o, h).

Definition connected (h : hub) : bool := bool_decide (hc_state h = Connected).
Definition is_disconnected (h : hub) : bool := bool_decide (hc_state h = Disconnected).
Definition negotiated_with (h : hub) : list NegotiateRequest := negotiate_requests (si_hub (site_of h)).
Definition query_is (key value : string) (c : ServerConnection) : bool :=
  bool_decide (query_value key c = Some (Some value)).

(** [expect_closed] on the server side of a socket *)
Definition sees_close (n : nat) (h : hub) : bool :=
  server_is n (fun c => bool_decide (is_Some (expect_closed (sc_protocol c) (sc_incoming c) false))) h.

(** [handshake_version_follows_stateful_reconnect] *)
Definition handshake_version_follows_stateful_reconnect : bool :=
  forallb (fun '(name, protocol) => forallb (fun (stateful : bool) => check (
    '(o, h) ← connect_to_hub (fun b => with_stateful_reconnect stateful (protocol b)) site;
    request ← head (negotiated_with h);
    Some (bool_decide (si_handshakes (site_of h) =
            [JObject [("protocol"%string, JString name); ("version"%string, int (if stateful then 2 else 1))]]) &&
          Bool.eqb (has_substring "useStatefulReconnect=true" (rq_path_and_query request)) stateful &&
          server_is 0 (query_is "id" "token-1") h && connected h &&
          match close o h with
          | Some (Ok _, h) => sees_close 0 h
          | _ => false
          end))) [false; true]) PROTOCOLS.

(** The value that an [invoke] returns. *)
Definition answered (waits : result Error nat) (f : result Error json -> bool) (h : hub) : bool :=
  match waits with
  | Ok ch => match channels (hc_bus h) !! ch ≫= invoke_response with Some r => f r | None => false end
  | Err _ => false
  end.

Definition arg (v : json) : HubArgument := HValue v.

(** [send_and_invoke_reach_the_server] *)
Definition send_and_invoke_reach_the_server : bool :=
  forallb (fun '(name, protocol) => check (
    '(o, h) ← connect_to_hub protocol site;
    let '(sent, h) := Client.send o "Notify" [arg (JString "a")] h in
    '(notify, h) ← server_receives 0 h;
    let '(waits, h) := invoke o "Add" [arg (int 2); arg (int 3)] h in
    '(add, h) ← server_receives 0 h;
    '(target, id, arguments) ← called add;
    id ← id;
    '(_, h) ← server_tells o 0 (HCompletion {| comp_headers := ∅; comp_invocation_id := id;
                                               comp_error := None; comp_result := Some (int 5) |}) h;
    Some (is_ok sent && bool_decide (called notify = Some ("Notify"%string, None, [JString "a"])) &&
          String.eqb target "Add" && bool_decide (arguments = [int 2; int 3]) &&
          answered waits (fun r => bool_decide (r = Ok (int 5))) h && closes o h))) PROTOCOLS.

(** The receive task on a transport message, with handlers that act. *)
Definition receive_acting {A} (o : options) (b : AppBus A) (t : TransportMessage) (h : hub) (a : A) : option A :=
  rt ← hc_runtime h;
  let s := {| ds_bus := hc_bus h; ds_buffer := hr_message_buffer rt ≫= fun i => hc_buffers h !! i;
              ds_events := []; ds_close_signaled := false; ds_world := site_of h |} in
  let process input := (app_process_input (hr_hub_protocol rt) (op_stateful_reconnect_buffer_size o)
    (hr_transport rt) (hr_transfer_format rt) b input s a).2 in
  match t with
  | TText text => Some (process (IText text))
  | TBinary bytes => Some (process (IBinary bytes))
  | TClosed _ => None
  end.

(** The server [n] sends what [f] makes it send, and the client receives the frame. *)
Definition handlers_receive {A} (o : options) (b : AppBus A) (n : nat)
    (f : ServerConnection -> option ServerConnection) (h : hub) (a : A) : option (A * hub) :=
  '(frame, h) ← serve n (fun c => c' ← f c; frame ← last (sc_written c'); Some (frame, c')) h;
  t ← head (read_loop [Ok frame]);
  a ← receive_acting o b t h a;
  Some (a, h).

Import HubTests.

Definition update_point : json * json := (JString "a", point_json 1 TWO_AND_A_HALF).
Definition typed_update {A} (push : string * Point -> A -> A) : acting A :=
  on_typed_acting "Update" named_point named_point_slice push.

(** [server_invocation_reaches_on_and_on_typed], for the protocols that write a fraction in binary *)
Definition server_invocation_reaches_on_and_on_typed : bool :=
  forallb (fun '(name, protocol) => check (
    '(o, h) ← connect_to_hub protocol site;
    let b := (app_register "Update" (on_acting "Update"
      (fun arguments '(json_rx, typed_rx) => ((json_rx ++ [arguments], typed_rx), None))) app_new).2 in
    let b := (app_register "Update" (typed_update
      (fun arguments '(json_rx, typed_rx) => (json_rx, typed_rx ++ [arguments]))) b).2 in
    '(received, h) ← handlers_receive o b 0 (server_send (HInvocation {|
      inv_headers := ∅; inv_invocation_id := None; inv_target := "Update";
      inv_arguments := AJson [update_point.1; update_point.2]; inv_stream_ids := None |})) h ([], []);
    Some (bool_decide (received.1 = [[update_point.1; update_point.2]]) &&
          bool_decide (received.2 = [("a"%string, {| pt_x := 1; pt_y := TWO_AND_A_HALF |})]) &&
          closes o h))) (tail PROTOCOLS).

(** [compressed_server_invocation_reaches_on_typed], with the compressor of [IdentityDecoder] *)
Definition compressed_server_invocation_reaches_on_typed : bool := check (
  '(o, h) ← connect_to_hub with_messagepack_brotli_protocol site;
  let b := (app_register "Update" (typed_update (fun arguments typed_rx => typed_rx ++ [arguments])) app_new).2 in
  let point := MMap [(MString "x", MInteger 1); (MString "y", MF64 TWO_AND_A_HALF)] in
  frame ← compressed_invocation id "Update" (MArray [MString "a"; point]);
  '(received, h) ← handlers_receive o b 0 (fun c => Some (server_send_binary frame c)) h [];
  Some (bool_decide (received = [("a"%string, {| pt_x := 1; pt_y := TWO_AND_A_HALF |})]) && closes o h)).

Definition with_hub (f : FakeHub -> FakeHub) (s : Site) : Site := set_fake_hub (f (si_hub s)) s.

(** The token callback that counts its calls. *)
Definition counting_token (s : Site) : result Error string * Site :=
  let calls := si_calls s + 1 in
  (Ok ("access-" +:+ pretty calls)%string,
   {| si_hub := si_hub s; si_servers := si_servers s; si_alive := si_alive s; si_greeting := si_greeting s;
      si_handshakes := si_handshakes s; si_calls := calls |}).

(** [negotiate_401_retries_with_a_fresh_token] *)
Definition negotiate_401_retries_with_a_fresh_token : bool := check (
  '(o, h) ← connect_to_hub (fun b => with_access_token counting_token (with_json_protocol b))
    (with_hub (reply_to_negotiate (RepStatus 401)) site);
  Some (bool_decide (map rq_authorization (negotiated_with h) =
          [Some "Bearer access-1"; Some "Bearer access-2"]%string) &&
        server_is 0 (query_is "access_token" "access-2") h && closes o h)).

(** [negotiate_redirect_moves_the_connection] *)
Definition negotiate_redirect_moves_the_connection : bool := check (
  let redirect := JObject (obj_collect [("url"%string, JString (fh_origin (si_hub site) +:+ "/redirected"));
                                        ("accessToken"%string, JString "server-token")]) in
  '(o, h) ← connect_to_hub
    (fun b => with_access_token (fun s => (Ok "client-token"%string, s)) (with_json_protocol b))
    (with_hub (reply_to_negotiate (RepJson redirect)) site);
  first ← negotiated_with h !! 0%nat;
  second ← negotiated_with h !! 1%nat;
  Some (text_starts_with "/hub/negotiate" (rq_path_and_query first) &&
        bool_decide (rq_authorization first = Some "Bearer client-token"%string) &&
        text_starts_with "/redirected/negotiate" (rq_path_and_query second) &&
        bool_decide (rq_authorization second = Some "Bearer server-token"%string) &&
        server_is 0 (fun c => String.eqb (sc_path c) "/redirected") h &&
        server_is 0 (query_is "access_token" "server-token") h && closes o h)).

Definition greets (g : Greeting) (s : Site) : Site := {|
  si_hub := si_hub s; si_servers := si_servers s; si_alive := si_alive s; si_greeting := g;
  si_handshakes := si_handshakes s; si_calls := si_calls s |}.

(** [handshake_error_fails_start] *)
Definition handshake_error_fails_start : bool :=
  let '(o, h) := connection with_json_protocol (greets (Refuses "protocol not supported") site) in
  match start o h with
  | Some (Err (EHandshake message), h) => has_substring "protocol not supported" message && is_disconnected h
  | _ => false
  end.

(** [close_aborts_a_start_that_waits_for_the_server]: the start is called and connects, the close
    is called and stops the connect, the start ends, the close gets the lock. *)
Definition close_aborts_a_start_that_waits_for_the_server : bool :=
  let '(o, h) := connection with_json_protocol (greets Silent site) in
  let s := call_start {| sys_hub := h; sys_lock := None; sys_calls := [] |} in
  check (
    s ← call_step o None 0 s;
    s ← call_step o (Some (hc_net (sys_hub s))) 0 (call_close s);
    s ← call_step o None 1 s;
    s ← call_step o None 0 s;
    s ← call_step o None 1 s;
    Some (match sys_calls s with
          | [StartDone (Err (EAborted _)); CloseDone (Ok _)] => is_disconnected (sys_hub s)
          | _ => false
          end)).

(** The lifecycle callbacks that were called. *)
Definition event_text (e : LifecycleEvent) : string :=
  match e with
  | OnReconnecting _ => "reconnecting"
  | OnReconnected id => "reconnected " +:+ default "-" id
  | OnClosed _ => "closed"
  end%string.

Definition lifecycle_events (h : hub) : list string := map (fun '(_, e) => event_text e) (lc_called (hc_lifecycle h)).

(** The three callbacks of [lifecycle_events], registered before the start. *)
Definition with_events (h : hub) : hub := on_close 2 (on_reconnected 1 (on_reconnecting 0 h)).

Definition connect_with_events (configure : builder -> builder) (s : Site) : option (options * hub) :=
  let '(o, h) := connection configure s in
  h ← started (start o (with_events h)); Some (o, h).

(** [close_from_server_closes_the_connection] *)
Definition close_from_server_closes_the_connection : bool := check (
  '(o, h) ← connect_with_events with_json_protocol site;
  '(events, h) ← server_tells o 0 (HClose {| close_error := Some "server is shutting down"%string;
                                             close_allow_reconnect := Some false |}) h;
  info ← head events;
  let h := supervisor_closed o info 0 h in
  Some (match lc_called (hc_lifecycle h) with
        | [(_, OnClosed (Some error))] => has_substring "server is shutting down" error
        | _ => false
        end && is_disconnected h)).

(** The sends of a list of values, and what the server gets. *)
Fixpoint send_items (o : options) (values : list Z) (h : hub) : bool * hub :=
  match values with
  | [] => (true, h)
  | n :: values => let '(r, h) := Client.send o "Item" [arg (int n)] h in
      let '(rest, h) := send_items o values h in (is_ok r && rest, h)
  end.

Fixpoint receive_items (n : nat) (h : hub) : option (list (list json) * hub) :=
  match n with
  | O => Some ([], h)
  | S n =>
      '(m, h) ← server_receives 0 h;
      '(_, _, arguments) ← called m;
      '(rest, h) ← receive_items n h;
      Some (arguments :: rest, h)
  end.

(** [consecutive_sends_arrive_in_order] *)
Definition consecutive_sends_arrive_in_order : bool := check (
  '(o, h) ← connect_to_hub with_messagepack_protocol site;
  let items := map Z.of_nat (seq 0 100) in
  let '(sent, h) := send_items o items h in
  '(received, h) ← receive_items 100 h;
  Some (sent && bool_decide (received = map (fun n => [int n]) items) && closes o h)).

(** The clock: at each of [n] steps of [d] milliseconds the keepalive task takes the notifications
    of what [happens], and the deadlines that have passed. *)
Fixpoint run_clock (o : options) (rt : HubRuntime) (n : nat) (d now : Z) (happens : list KeepaliveBranch)
    (k : Keepalive Site) : Keepalive Site :=
  match n with
  | O => k
  | S n =>
      let now := now + d in
      let iteration k branch := default k
        (keepalive_iteration (hr_hub_protocol rt) (hr_transport rt) (hr_transfer_format rt)
           (op_server_timeout o) (op_keep_alive_interval o) now branch k) in
      run_clock o rt n d now happens
        (fold_left iteration (happens ++ [KPingDeadline now; KServerDeadline]) k)
  end.

(** The connection that long after its start, and what the supervisor is told. *)
Definition later (o : options) (n : nat) (d : Z) (happens : list KeepaliveBranch) (h : hub)
    : option (list TransportCloseInfo * hub) :=
  rt ← hc_runtime h;
  let s := {| ds_bus := hc_bus h; ds_buffer := None; ds_events := []; ds_close_signaled := false;
              ds_world := site_of h |} in
  let k := run_clock o rt n d 0 happens (keepalive_new (op_keep_alive_interval o) 0 s) in
  Some (ds_events (ka_shared k), Client.set_world (ds_world (ka_shared k)) h).

Definition server_receives_any (n : nat) (h : hub) : option (HubMessage * hub) := serve n recv_any h.

(** [client_sends_keep_alive_pings] *)
Definition client_sends_keep_alive_pings : bool := check (
  '(o, h) ← connect_to_hub (fun b => with_keep_alive_interval 50 (with_json_protocol b)) site;
  '(_, h) ← later o 1 50 [] h;
  '(first, h) ← server_receives_any 0 h;
  '(second, h) ← server_receives_any 0 h;
  Some (is_ping first && is_ping second && closes o h)).

(** [client_pings_while_the_server_talks]: the initial ping is read first. *)
Definition client_pings_while_the_server_talks : bool := check (
  '(o, h) ← connect_to_hub (fun b => with_keep_alive_interval 200 (with_json_protocol b)) site;
  '(initial, h) ← server_receives_any 0 h;
  guard_that (server_is 0 (fun c => match recv_any c with None => true | Some _ => false end) h) ;;
  '(_, h) ← later o 20 50 [KReceived] h;
  '(ping, h) ← server_receives_any 0 h;
  Some (is_ping ping && closes o h)).

(** A server timeout of 300 milliseconds, with the default interval of pings in milliseconds. *)
Definition short_timeout (b : builder) : builder :=
  with_server_timeout 300 (with_keep_alive_interval (1000 * DEFAULT_KEEP_ALIVE_INTERVAL) (with_json_protocol b)).

(** The supervisor hears of the timeout, and the closed callback gets its text. *)
Definition times_out (o : options) (n : nat) (d : Z) (happens : list KeepaliveBranch) (h : hub) : option hub :=
  '(events, h) ← later o n d happens h;
  info ← head events;
  let h := supervisor_closed o info 0 h in
  match lc_called (hc_lifecycle h) with
  | [(_, OnClosed (Some error))] =>
      guard_that (has_substring "timeout" (to_ascii_lowercase error)) ;; Some h
  | _ => None
  end.

(** [client_sends_do_not_hide_a_silent_server] *)
Definition client_sends_do_not_hide_a_silent_server : bool := check (
  '(o, h) ← connect_with_events short_timeout site;
  h ← times_out o 6 50 [KSent] h;
  Some (negb (is_ok (Client.send o "Tick" [] h).1))).

(** [silent_server_times_out] *)
Definition silent_server_times_out : bool := check (
  '(o, h) ← connect_with_events short_timeout site;
  h ← times_out o 3 100 [] h;
  Some (is_disconnected h && sees_close 0 h)).

(** [server_pings_prevent_the_timeout] *)
Definition server_pings_prevent_the_timeout : bool := check (
  '(o, h) ← connect_with_events short_timeout site;
  '(events, h) ← later o 6 100 [KReceived] h;
  guard_that (match events with [] => true | _ => false end) ;;
  Some (connected h && closes o h)).

Definition connect_tests : list bool :=
  [handshake_version_follows_stateful_reconnect; send_and_invoke_reach_the_server;
   server_invocation_reaches_on_and_on_typed; compressed_server_invocation_reaches_on_typed;
   negotiate_401_retries_with_a_fresh_token; negotiate_redirect_moves_the_connection;
   handshake_error_fails_start; close_aborts_a_start_that_waits_for_the_server;
   close_from_server_closes_the_connection; consecutive_sends_arrive_in_order;
   client_sends_keep_alive_pings; client_pings_while_the_server_talks;
   client_sends_do_not_hide_a_silent_server; silent_server_times_out; server_pings_prevent_the_timeout].

(** ** [tests/reconnect.rs] *)

(** [quick_policy], in milliseconds *)
Definition quick_policy (attempts : nat) : RetryPolicy :=
  next_retry_delay (policy_new (map (fun attempt => 10 * Z.of_nat attempt) (seq 0 attempts))).

Definition count (h : hub) : nat := length (negotiated_with h).

(** [automatic_reconnect_follows_the_policy] *)
Definition automatic_reconnect_follows_the_policy : bool := check (
  '(o, h) ← connect_with_events
    (fun b => with_reconnect_policy (quick_policy 2) (with_json_protocol b)) site;
  let h := abort o 0 h in
  guard_that (bool_decide (lifecycle_events h = ["reconnecting"%string])) ;;
  h ← wake o h;
  guard_that (bool_decide (lifecycle_events h = ["reconnecting"; "reconnected id-token-2"]%string) &&
              connected h) ;;
  let fails := reply_to_negotiate (RepStatus 500) in
  let h := abort o 1 (on_site (with_hub (fun hub => fails (fails (fails hub)))) h) in
  h ← wake o h;
  h ← wake o h;
  Some (bool_decide (lifecycle_events h =
          ["reconnecting"; "reconnected id-token-2"; "reconnecting"; "closed"]%string) &&
        is_disconnected h && (count h =? 4)%nat)).

(** [without_automatic_reconnect_a_drop_closes_the_connection] *)
Definition without_automatic_reconnect_a_drop_closes_the_connection : bool := check (
  '(o, h) ← connect_with_events with_json_protocol site;
  let h := abort o 0 h in
  Some (bool_decide (lifecycle_events h = ["closed"%string]) && is_disconnected h && (count h =? 1)%nat)).

Definition is_invocation (m : HubMessage) : bool := match m with HInvocation _ => true | _ => false end.
Definition is_sequence (m : HubMessage) : bool := match m with HSequence _ => true | _ => false end.

(** [pending_invoke_fails_when_the_connection_drops] *)
Definition pending_invoke_fails_when_the_connection_drops : bool := check (
  '(o, h) ← connect_to_hub with_json_protocol site;
  let '(waits, h) := invoke o "Add" [arg (int 2)] h in
  '(m, h) ← server_receives 0 h;
  let h := abort o 0 h in
  Some (is_invocation m &&
        answered waits (fun r => match r with Err e => negb (Text.is_empty (error_text e)) | Ok _ => false end) h)).

(** [invocation] *)
Definition invocation (target : string) (argument : Z) : HubMessage :=
  HInvocation {| inv_headers := ∅; inv_invocation_id := None; inv_target := target;
                 inv_arguments := AJson [int argument]; inv_stream_ids := None |}.

(** One second after a message: the timer of the acknowledgement. *)
Definition ack_due (o : options) (h : hub) : hub :=
  match hc_message_buffer h with
  | Some i =>
      match hc_buffers h !! i with
      | Some b => let '(b, w) := ack_timer_fires (op_hub_protocol o) b (site_of h) in
          Client.set_world w (set_buffers (<[i := b]> (hc_buffers h)) h)
      | None => h
      end
  | None => h
  end.

Definition stateful (b : builder) : builder := with_stateful_reconnect true (with_json_protocol b).

(** The next server without a handshake *)
Definition assume (n : nat) (name : string) (h : hub) : option hub :=
  snd <$> serve n (fun c => c ← assume_protocol name c; Some (tt, c)) h.

Definition says (o : options) (n : nat) (m : HubMessage) (h : hub) : option hub := snd <$> server_tells o n m h.
Definition echo (o : options) (v : string) (h : hub) : bool * hub :=
  let '(r, h) := Client.send o "Echo" [arg (JString v)] h in (is_ok r, h).

(** [stateful_reconnect_resumes_the_same_connection] *)
Definition stateful_reconnect_resumes_the_same_connection : bool := check (
  '(o, h) ← connect_with_events stateful site;
  h ← says o 0 (invocation "Item" 1) h;
  h ← says o 0 (invocation "Item" 2) h;
  '(first, h) ← server_receives 0 (ack_due o h);
  let '(a, h) := echo o "a" h in
  '(second, h) ← server_receives 0 h;
  let h := abort o 0 h in
  let '(b, h) := echo o "b" h in
  h ← assume 1 "json" h;
  '(sequence, h) ← server_receives 1 h;
  '(again, h) ← server_receives 1 h;
  '(new, h) ← server_receives 1 h;
  h ← says o 1 (HSequence {| seq_sequence_id := 2 |}) h;
  h ← says o 1 (invocation "Item" 2) h;
  h ← says o 1 (invocation "Item" 3) h;
  '(last, h) ← server_receives 1 (ack_due o h);
  Some (bool_decide (first = HAck {| ack_sequence_id := 2 |}) && a && is_invocation second && b &&
        server_is 1 (query_is "id" "token-1") h && (count h =? 1)%nat &&
        bool_decide (sequence = HSequence {| seq_sequence_id := 1 |}) &&
        bool_decide (called again = Some ("Echo"%string, None, [JString "a"])) &&
        bool_decide (called new = Some ("Echo"%string, None, [JString "b"])) &&
        bool_decide (last = HAck {| ack_sequence_id := 3 |}) && connected h &&
        bool_decide (lifecycle_events h = []) && closes o h)).

(** [failed_stateful_reconnect_closes_the_connection] *)
Definition failed_stateful_reconnect_closes_the_connection : bool := check (
  '(o, h) ← connect_with_events stateful site;
  let h := abort o 0 (on_site (with_hub refuse_websockets) h) in
  Some (bool_decide (lifecycle_events h = ["closed"%string]) && is_disconnected h)).

(** [pending_invoke_survives_stateful_reconnect] *)
Definition pending_invoke_survives_stateful_reconnect : bool := check (
  '(o, h) ← connect_to_hub stateful site;
  let '(waits, h) := invoke o "Add" [arg (int 2); arg (int 3)] h in
  '(add, h) ← server_receives 0 h;
  '(_, id, _) ← called add;
  id ← id;
  h ← assume 1 "json" (abort o 0 h);
  '(sequence, h) ← server_receives 1 h;
  '(again, h) ← server_receives 1 h;
  h ← says o 1 (HSequence {| seq_sequence_id := 1 |}) h;
  h ← says o 1 (HCompletion {| comp_headers := ∅; comp_invocation_id := id; comp_error := None;
                               comp_result := Some (int 5) |}) h;
  Some (is_sequence sequence && is_invocation again &&
        answered waits (fun r => bool_decide (r = Ok (int 5))) h && closes o h)).

(** [rejected_stateful_reconnect_falls_back_to_automatic_reconnect] *)
Definition rejected_stateful_reconnect_falls_back_to_automatic_reconnect : bool := check (
  '(o, h) ← connect_with_events (fun b => with_reconnect_policy (quick_policy 2) (stateful b)) site;
  let h := abort o 0 (on_site (with_hub (refuse_connection_token "token-1")) h) in
  guard_that (bool_decide (lifecycle_events h = ["reconnecting"%string])) ;;
  h ← wake o h;
  guard_that (server_is 1 (query_is "id" "token-2") h) ;;
  h ← says o 1 (invocation "Item" 1) h;
  let '(x, h) := echo o "x" h in
  '(m, h) ← server_receives 1 h;
  Some (bool_decide (lifecycle_events h = ["reconnecting"; "reconnected id-token-2"]%string) && x &&
        is_invocation m && closes o h)).

(** [no_acks_when_the_server_declines_stateful_reconnect] *)
Definition no_acks_when_the_server_declines_stateful_reconnect : bool := check (
  let declines := JObject (obj_collect [("negotiateVersion"%string, int 1);
    ("connectionId"%string, JString "id"); ("connectionToken"%string, JString "token")]) in
  '(o, h) ← connect_to_hub stateful (with_hub (reply_to_negotiate (RepJson declines)) site);
  h ← says o 0 (invocation "Item" 1) h;
  let '(x, h) := echo o "x" (ack_due o h) in
  '(m, h) ← server_receives 0 h;
  Some (x && is_invocation m && closes o h)).

(** [full_buffer_waits_for_an_ack]: the send waits for a channel that the acknowledgement resolves. *)
Definition full_buffer_waits_for_an_ack : bool := check (
  '(o, h) ← connect_to_hub (fun b => with_stateful_reconnect_buffer_size 1 (stateful b)) site;
  let '(r, h) := send_through o (HInvocation {| inv_headers := ∅; inv_invocation_id := None;
    inv_target := "Echo"; inv_arguments := AJson [JString "x"]; inv_stream_ids := None |}) h in
  '(m, h) ← server_receives 0 h;
  b ← hc_message_buffer h ≫= fun i => hc_buffers h !! i;
  h ← says o 0 (HAck {| ack_sequence_id := 1 |}) h;
  b' ← hc_message_buffer h ≫= fun i => hc_buffers h !! i;
  let '(acked, resolved) := ack (op_stateful_reconnect_buffer_size o) {| ack_sequence_id := 1 |} b in
  Some (is_invocation m && bool_decide (length (messages b') = length (messages acked)) &&
        match r with Ok (Some waits) => bool_decide (resolved = [waits]) | _ => false end && closes o h)).

Definition reconnect_tests : list bool :=
  [automatic_reconnect_follows_the_policy; without_automatic_reconnect_a_drop_closes_the_connection;
   pending_invoke_fails_when_the_connection_drops; stateful_reconnect_resumes_the_same_connection;
   failed_stateful_reconnect_closes_the_connection; pending_invoke_survives_stateful_reconnect;
   rejected_stateful_reconnect_falls_back_to_automatic_reconnect;
   no_acks_when_the_server_declines_stateful_reconnect; full_buffer_waits_for_an_ack].

(** ** All of them hold *)

(** The integration tests hold of the client and the hub together. *)
Theorem integration_tests_pass : forallb id (connect_tests ++ reconnect_tests) = true.
Proof. vm_compute. reflexivity. Qed.
