(* ===== verification/Witnesses.v ===== *)
(** * The theorems on concrete inputs

    Each lemma applies a theorem with hypotheses to concrete messages, bytes or executions, with
    the codecs of [JsonReference] and [MsgPackReference].  [mp_link] and its lemmas show that the
    MessagePack protocol meets what [Resume] asks of a protocol. *)

From Stdlib Require Import ZArith Lia String.
From stdpp Require Import base list strings gmap relations.
From S2P Require Import Prelude Framing Utf8 Errors Values Arguments Message JsonProtocol.
From S2P Require Import JsonReference MsgPackFormat MsgPackParse MsgPackProtocol Brotli.
From S2P Require Import MsgPackReference MessageBuffer Link Resume Races Bus Dispatch.

Local Open Scope Z_scope.

(** ** Protocols *)

Definition sample_headers : headers := {[ "trace" := "7" ]}.

Definition sample_call : HubMessage :=
  HInvocation {| inv_headers := sample_headers; inv_invocation_id := Some "1";
                 inv_target := "Add"; inv_stream_ids := Some ["2"];
                 inv_arguments := AJson [JNumber (PosInt 2); JArray [JString "x"; JNull]] |}.

Definition sample_item : HubMessage :=
  HStreamItem {| item_headers := ∅; item_invocation_id := Some "3";
                 item_item := JObject [("a", JBool true); ("b", JNumber (NegInt (-4)))] |}.

Definition sample_ack : HubMessage := HAck {| ack_sequence_id := 12 |}.

Lemma json_value_roundtrip_witness :
  (v ← to_json_value sample_call; Ok (from_json_value v)) = Some <$> json_canon sample_call.
Proof. apply json_value_roundtrip. reflexivity. Defined.

Lemma json_protocol_roundtrip_witness :
  exists frames ms', Forall2 (fun m bytes => json_write_message m = Ok bytes)
      [sample_call; sample_ack] frames /\
    utf8_valid (concat frames) = true /\
    Forall2 (fun m m' => json_canon m = Ok m') [sample_call; sample_ack] ms' /\
    json_parse_messages (IText (string_of_bytes (concat frames))) = Ok ms'.
Proof.
  apply json_protocol_roundtrip; [done|]. constructor; [|constructor; [|constructor]].
  - split; vm_compute; reflexivity.
  - split; vm_compute; reflexivity.
Defined.

Lemma skip_value_exact_witness :
  skip_value (ref_write (json_to_value (JArray [JString "x"; JNull])) ++ [Byte.x01]) 0 =
    Ok [Byte.x01].
Proof. by apply (skip_value_exact (json_to_value (JArray [JString "x"; JNull]))). Defined.

Lemma decode_returns_witness :
  exists r, decode_items 2 4 0 15 [] None [Byte.xc0] = Some r /\
    decode_message [Byte.x9f; Byte.xc0] 4 = r.
Proof. by apply (decode_returns [Byte.x9f; Byte.xc0] 4 15 [Byte.xc0]). Defined.

(** The payload conditions of a message hold. *)
Ltac payload_ok :=
  eexists; split; [vm_compute; reflexivity|]; split; [vm_compute; reflexivity|];
  split; [repeat (apply Forall_cons_2; [vm_compute; discriminate|]); apply Forall_nil_2|];
  split; [intros packed Hp; vm_compute in Hp; injection Hp as <-; vm_compute; reflexivity|];
  split; vm_compute; reflexivity.

Lemma msgpack_protocol_roundtrip_witness :
  exists frames arrived, Forall2 (fun m bytes => mp_write_message m = Ok bytes)
      [sample_call; sample_item; sample_ack] frames /\
    Forall2 mp_arrives [sample_call; sample_item; sample_ack] arrived /\
    mp_parse_messages (IBinary (concat frames)) = Ok (concat arrived).
Proof.
  apply msgpack_protocol_roundtrip; [done|].
  constructor; [payload_ok|]. constructor; [payload_ok|]. constructor; [payload_ok|constructor].
Defined.

(** The decoder that returns its input, as the tests of the client use it. *)
Definition identity_decoder : BrotliDecoder := {| decode := Ok |}.

Lemma brotli_protocol_roundtrip_witness :
  exists frames arrived,
    Forall2 (fun m bytes => br_write_message m = Ok bytes) [sample_call; sample_item] frames /\
    Forall2 br_arrives [sample_call; sample_item] arrived /\
    br_parse_messages (BD := identity_decoder) (IBinary (concat frames)) = Ok (concat arrived).
Proof.
  destruct (brotli_protocol_roundtrip (BD := identity_decoder) [sample_call; sample_item])
    as (frames & arrived & Hw & Ha & Hp & _); [done| |].
  - constructor; [payload_ok|]. constructor; [payload_ok|constructor].
  - exists frames, arrived. split; [exact Hw|]. split; [exact Ha|exact Hp].
Defined.

Lemma brotli_compression_transparent_witness :
  br_stream_item_message (BD := identity_decoder)
    [MInteger 2; MNil; MString "3"; MInteger 1; MBinary [Byte.xc3]] =
  br_stream_item_message (BD := identity_decoder)
    [MInteger 2; MNil; MString "3"; MInteger 0; MBoolean true].
Proof.
  by apply (brotli_compression_transparent (BD := identity_decoder) [Byte.xc3] [Byte.xc3]
    (MBoolean true) [MInteger 2; MNil; MString "3"] []
    (ref_write (MBinary [Byte.xc3])) []).
Defined.

(** ** The MessagePack protocol carries a link *)

(** The messages a client reads. *)
Definition mp_link (m : HubMessage) : Prop :=
  mp_supported m /\ message_type m <> TStreamInvocation /\ message_type m <> TCancelInvocation.

Lemma mp_link_protocol : protocol_ok MessagePackProtocol mp_link mp_arrives.
Proof.
  destruct msgpack_protocol_laws as [Ht Hw].
  split; [intros m bytes [Hm _]; by apply Ht|intros m [Hm _]; by apply Hw].
Qed.

Lemma mp_link_one m ms : mp_link m -> mp_arrives m ms -> exists m', ms = [m'] /\ faithful m m'.
Proof.
  intros (_ & H1 & H2) Ha. destruct m; cbn in Ha; try done;
    try (destruct Ha as (a & _ & Ha)); subst ms; by eexists.
Qed.

Lemma small_number t n : 0 <= n <= i64_max ->
  mp_wf (MArray [type_value t; MInteger n]) = true /\
  len (ref_write (MArray [type_value t; MInteger n])) < 2 ^ 31.
Proof.
  intros Hn. unfold i64_max in Hn. split.
  - assert (0 <= message_type_number t < 10) by (by destruct t).
    cbn [mp_wf forallb type_value]. unfold i64_min, u64_max, len. cbn [length].
    repeat (apply andb_true_iff; split); (lia || done).
  - assert (Hi : forall z, len (ref_write (MInteger z)) <= 9).
    { intros z. cbn [ref_write]. unfold len. destruct (_ && _); [cbn; lia|].
      destruct (0 <=? z); cbn [length]; rewrite be_length; lia. }
    pose proof (Hi n). pose proof (Hi (message_type_number t)).
    change (ref_write (MArray [type_value t; MInteger n])) with
      (ref_head 0x90 16 Byte.xdd 2 ++ ref_write (type_value t) ++ ref_write (MInteger n) ++ []).
    rewrite !len_app. unfold type_value. change (len (ref_head 0x90 16 Byte.xdd 2)) with 1.
    rewrite len_nil. lia.
Qed.

Lemma mp_link_control n : 0 <= n <= i64_max ->
  mp_link (HSequence {| seq_sequence_id := n |}) /\ mp_link (HAck {| ack_sequence_id := n |}).
Proof.
  intros Hn. destruct (small_number TSequence n Hn) as [Hw1 Hl1].
  destruct (small_number TAck n Hn) as [Hw2 Hl2]. unfold i64_max in *.
  assert (Hr : i64_min <=? n = true /\ n <=? i64_max = true) by (unfold i64_min, i64_max; lia).
  split; (split; [|done]); eexists; (split; [reflexivity|]); (split; [done|]);
    (split; [by repeat constructor|]); (split; [by intros packed [= <-]|]); (split; [done|]);
    cbn; by apply andb_true_iff.
Qed.

Lemma call_link target : mp_supported (call target) -> mp_link (call target).
Proof. by split. Qed.

(** ** An execution with a reconnect *)

Abbreviation mp_step := (link_step MessagePackProtocol 100000 mp_link).

Definition run_sent : link :=
  on_left (ep_send MessagePackProtocol 100000 (call "B"))
    (on_left (ep_send MessagePackProtocol 100000 (call "A")) link_new).

(** A is delivered, B is lost with the transport, and the left endpoint resends both. *)
Definition run_resent : link :=
  let s := deliver MessagePackProtocol 100000 run_sent in
  let s := {| left := ep_drop (left s); right := ep_drop (right s) |} in
  let s := {| left := ep_resume 1 (left s); right := ep_resume 1 (right s) |} in
  on_left (ep_resend MessagePackProtocol) s.

Definition run_done : link :=
  let next := deliver MessagePackProtocol 100000 in next (next (next run_resent)).

Lemma deliver_step s : w_out (ep_wire (left s)) <> [] -> mp_step s (deliver MessagePackProtocol 100000 s).
Proof.
  intros Hne. unfold deliver. destruct (w_out (ep_wire (left s))) as [|payload rest] eqn:Hout; [done|].
  by apply step_receive.
Qed.

Lemma run_resent_reachable : rtc mp_step link_new run_resent.
Proof.
  eapply rtc_l; [eapply (step_send _ _ _ _ (call "A"))|].
  { split; [apply call_link; payload_ok|done]. }
  eapply rtc_l; [eapply (step_send _ _ _ _ (call "B"))|].
  { split; [apply call_link; payload_ok|done]. }
  eapply rtc_l; [apply deliver_step; vm_compute; discriminate|].
  eapply rtc_l; [apply step_drop|].
  eapply rtc_l; [apply (step_resume _ _ _ _ 1%nat); vm_compute; (reflexivity || lia)|].
  eapply rtc_l; [apply step_resend; vm_compute; reflexivity|].
  apply rtc_refl.
Qed.

Lemma run_done_reachable : rtc mp_step link_new run_done.
Proof.
  etrans; [apply run_resent_reachable|].
  do 3 (eapply rtc_l; [apply deliver_step; vm_compute; discriminate|]). apply rtc_refl.
Qed.

Lemma resume_exactly_once_witness :
  Forall2 (fun m m' => mp_arrives m [m']) (take (length (ep_processed (right run_resent)))
      (ep_sent (left run_resent))) (ep_processed (right run_resent)) /\
  Forall2 (fun m m' => mp_arrives m [m']) (take (length (ep_processed (left run_resent)))
      (ep_sent (right run_resent))) (ep_processed (left run_resent)).
Proof.
  exact (resume_exactly_once MessagePackProtocol 100000 mp_link mp_arrives mp_link_protocol
    mp_link_one mp_link_control run_resent run_resent_reachable).
Defined.

Lemma overlapping_sends_lose_and_duplicate_witness : exists m,
  mp_arrives (call "B") [m] /\
  ep_processed (right (overlap_run MessagePackProtocol 100000 (call "A") (call "B"))) = [m; m].
Proof.
  apply (overlapping_sends_lose_and_duplicate MessagePackProtocol 100000 mp_link mp_arrives mp_link_protocol
    mp_link_one mp_link_control (call "A") (call "B")).
  - apply call_link; payload_ok.
  - apply call_link; payload_ok.
  - reflexivity.
  - reflexivity.
Defined.

Lemma unbuffered_completion_loses_message_witness : exists c m,
  mp_arrives (answer "1") [c] /\ mp_arrives (call "A") [m] /\
  ep_processed (right (unbuffered_run MessagePackProtocol 100000 "1" (call "A") (call "B"))) = [c; m].
Proof.
  apply (unbuffered_completion_loses_message MessagePackProtocol 100000 mp_link mp_arrives mp_link_protocol
    mp_link_one mp_link_control "1" (call "A") (call "B")).
  - split; [payload_ok|done].
  - apply call_link; payload_ok.
  - apply call_link; payload_ok.
  - reflexivity.
  - reflexivity.
Defined.

Lemma resume_delivers_all_witness :
  Forall2 (fun m m' => mp_arrives m [m']) (ep_sent (left run_done)) (ep_processed (right run_done)).
Proof.
  apply (resume_delivers_all MessagePackProtocol 100000 mp_link mp_arrives mp_link_protocol
    mp_link_one mp_link_control run_done run_done_reachable); vm_compute; reflexivity.
Defined.

Lemma resume_sequence_accepted_witness :
  (reset_sequence {| seq_sequence_id := 1 |} (ep_buffer (right run_resent))).1 = Ok tt.
Proof.
  apply (resume_sequence_accepted MessagePackProtocol 100000 mp_link mp_arrives mp_link_protocol
    mp_link_one mp_link_control run_resent _ [Byte.x03; Byte.x92; Byte.x09; Byte.x01]
    (tail (w_out (ep_wire (left run_resent)))) run_resent_reachable).
  - vm_compute. reflexivity.
  - split; [apply mp_link_control; unfold i64_max; lia|vm_compute; reflexivity].
  - vm_compute. reflexivity.
Defined.

(** ** The buffer *)

Definition sample_buffer : MessageBuffer :=
  (send_locked MessagePackProtocol 10 (call "B")
     (send_locked MessagePackProtocol 10 (call "A") buffer_new).2).2.

Lemma sample_buffer_reachable : buffer_reachable (T := wire) MessagePackProtocol 10 sample_buffer.
Proof. repeat constructor. Qed.

Lemma buffer_invariant_witness : buffer_ok 10 sample_buffer.
Proof. apply (buffer_invariant (T := wire) MessagePackProtocol), sample_buffer_reachable. Defined.

Lemma ack_removes_acknowledged_witness :
  map bi_id (messages (ack 10 {| ack_sequence_id := 1 |} sample_buffer).1) = [2] /\
  ~ waiting (messages (ack 10 {| ack_sequence_id := 1 |} sample_buffer).1).
Proof.
  assert (Hok : buffer_ok 10 sample_buffer)
    by (apply (buffer_reachable_ok (T := wire) MessagePackProtocol), sample_buffer_reachable).
  pose proof (ack_removes_acknowledged 10 {| ack_sequence_id := 1 |} sample_buffer Hok) as H.
  destruct (ack 10 {| ack_sequence_id := 1 |} sample_buffer) as [b' r] eqn:E.
  destruct H as (_ & _ & _ & H). split; [|apply H]; vm_compute in E; injection E as <- <-; reflexivity.
Defined.

(** ** The bus and the dispatcher *)

Definition sample_bus : MessageBus := (register_stream "2" (register_pending "1" bus_new).2).2.

Lemma sample_bus_reachable : bus_reachable sample_bus.
Proof. repeat constructor. Qed.

Lemma bus_invariant_witness : bus_ok sample_bus.
Proof. apply bus_invariant, sample_bus_reachable. Defined.

Lemma cancel_reaches_everyone_witness :
  pending (cancel_all_pending "gone" sample_bus) = ∅ /\
  channels (cancel_all_pending "gone" sample_bus) !! 1%nat =
    Some {| ch_items := [Err "gone"%string]; ch_closed := true |}.
Proof.
  apply (cancel_reaches_everyone "gone" sample_bus 1 {| ch_items := []; ch_closed := false |}).
  - apply bus_reachable_ok, sample_bus_reachable.
  - vm_compute. reflexivity.
Defined.

Lemma completion_delivered_once_witness :
  pending (complete_invocation "1" (Ok JNull) sample_bus) = delete "1"%string (pending sample_bus) /\
  complete_invocation "1" (Err "late"%string) (complete_invocation "1" (Ok JNull) sample_bus) =
    complete_invocation "1" (Ok JNull) sample_bus.
Proof.
  apply (completion_delivered_once sample_bus "1" (Ok JNull) (Err "late"%string) (Single 0)).
  - apply bus_reachable_ok, sample_bus_reachable.
  - vm_compute. reflexivity.
Defined.

Definition sample_state : DispatchState wire := {|
  ds_bus := sample_bus;
  ds_buffer := Some sample_buffer;
  ds_events := [];
  ds_close_signaled := false;
  ds_world := {| w_epoch := 0; w_up := true; w_out := [] |}
|}.

Lemma sample_state_ok : dispatch_ok 10 sample_state.
Proof.
  split; [apply bus_reachable_ok, sample_bus_reachable|]. split; [|reflexivity]. intros b [= <-].
  apply (buffer_reachable_ok (T := wire) MessagePackProtocol), sample_buffer_reachable.
Qed.

Definition sample_endpoint : endpoint := {|
  ep_buffer := sample_buffer;
  ep_wire := {| w_epoch := 0; w_up := true; w_out := [] |};
  ep_sent := [];
  ep_processed := []
|}.

Lemma dispatch_refines_endpoint_witness :
  ds_buffer (dispatch MessagePackProtocol 10 0 FBinary sample_ack sample_state).2 =
    Some (ep_buffer (ep_dispatch MessagePackProtocol 10 sample_endpoint sample_ack)).
Proof.
  by apply (dispatch_refines_endpoint MessagePackProtocol 10 0 FBinary sample_ack sample_state
    sample_buffer sample_endpoint).
Defined.
