(* ===== verification/ClientWitnesses.v ===== *)
(** * The theorems on the connection on concrete runs

    A small network: every negotiation succeeds with stateful reconnect, sockets are the wires of
    [Link], and the handshake response is the first frame received.  The runs are computed. *)

From Stdlib Require Import ZArith Lia String.
From stdpp Require Import base list strings gmap relations pretty.
From S2P Require Import Prelude Framing Utf8 Errors Values Arguments Message JsonProtocol.
From S2P Require Import JsonReference MsgPackFormat MsgPackParse MsgPackProtocol Brotli.
From S2P Require Import MsgPackReference MessageBuffer Link Resume Races Bus Dispatch SendQueue.
From S2P Require Import Handshake Negotiate Retry Connection Runtime Pings Client Lifecycle Closing.
From S2P Require Import Reuse Witnesses.

Local Open Scope Z_scope.

(** ** The network *)

(** The wire, the frames to be received, and whether closing a socket fails. *)
Record net := {
  net_wire : wire;
  net_frames : list TransportMessage;
  net_close_fails : bool
}.

Definition on_wire {A} (f : wire -> A * wire) (n : net) : A * net :=
  let '(r, w) := f (net_wire n) in
  (r, {| net_wire := w; net_frames := net_frames n; net_close_fails := net_close_fails n |}).

(** A URL is its text up to the query, and the query. *)
Fixpoint write_query (pairs : list (string * string)) : string :=
  match pairs with
  | [] => ""
  | (k, v) :: pairs => "&" +:+ k +:+ "=" +:+ v +:+ write_query pairs
  end.

#[global] Instance net_url : UrlLib := {|
  Url := string * list (string * string);
  url_parse s := if String.eqb s "" then Err "relative URL without a base"%string else Ok (s, []);
  url_path u := u.1;
  url_set_path p u := (p, u.2);
  url_clear_fragment u := u;
  query_pairs u := u.2;
  url_clear_query u := (u.1, []);
  append_pair k v u := (u.1, u.2 ++ [(k, v)]);
  url_to_string u := u.1 +:+ write_query u.2
|}.

Definition final_response : NegotiateResponse := {|
  nr_url := None; nr_access_token := None; nr_error := None; nr_connection_id := Some "c"%string;
  nr_connection_token := Some "t"%string; nr_negotiate_version := Some 1;
  nr_use_stateful_reconnect := Some true |}.

(** The first hub redirects, with a token, to the second, which answers. *)
Definition redirect_response : NegotiateResponse := {|
  nr_url := Some "https://b"%string; nr_access_token := Some "server"%string; nr_error := None;
  nr_connection_id := None; nr_connection_token := None; nr_negotiate_version := Some 1;
  nr_use_stateful_reconnect := None |}.

#[global] Instance net_http : HttpClient net := {|
  Body := NegotiateResponse;
  http_post url _ n :=
    (Ok (200, if String.prefix "https://a" url then redirect_response else final_response), n);
  status_text := pretty;
  body_json := Ok
|}.

#[global] Instance net_transport : Transport net := {|
  send_text tr text := on_wire (send_text tr text);
  send_binary tr payload := on_wire (send_binary tr payload);
  transport_close tr n :=
    if net_close_fails n then (Err (EWebSocket "connection reset"), n)
    else on_wire (transport_close tr) n
|}.

#[global] Instance net_sockets : Sockets net := {|
  client_build _ := Ok tt;
  ws_connect _ n :=
    let tr := S (w_epoch (net_wire n)) in
    (Ok tr, {| net_wire := {| w_epoch := tr; w_up := true; w_out := [] |};
               net_frames := net_frames n; net_close_fails := net_close_fails n |});
  ws_receive _ _ n :=
    match net_frames n with
    | [] => (None, n)
    | frame :: frames =>
        (Some (Some frame), {| net_wire := net_wire n; net_frames := frames;
                               net_close_fails := net_close_fails n |})
    end
|}.

#[global] Instance net_handshake : HandshakeText := {|
  request_to_string r :=
    Ok ("{protocol:" +:+ hr_protocol r +:+ ",version:" +:+ pretty (hr_version r) +:+ "}")%string;
  response_from_str s :=
    if String.eqb s "{}" then Ok {| Handshake.hs_error := None; hs_minor_version := None |}
    else Err "unexpected token"%string
|}.

(** ** Negotiation and handshake *)

Definition net_options : NegotiateOptions := {|
  no_negotiate_version := 1; no_use_stateful_reconnect := true; no_headers := []; no_timeout := 100 |}.

Definition net_new (frames : list TransportMessage) (close_fails : bool) : net := {|
  net_wire := {| w_epoch := 0; w_up := false; w_out := [] |};
  net_frames := frames; net_close_fails := close_fails |}.



Lemma handshake_splits_first_record_witness :
  parse_response (HText (Text.write "{}" +:+ "rest")) =
    Ok {| response := {| Handshake.hs_error := None; hs_minor_version := None |};
          remaining := Some (RText "rest") |}.
Proof.
  apply (handshake_splits_first_record "{}" "rest" [Byte.x01]
    {| Handshake.hs_error := None; hs_minor_version := None |}); reflexivity.
Defined.

Lemma handshake_keeps_messages_witness : exists h ms,
  parse_transport_handshake
    (TBinary (bytes_of_string (Text.write "{}") ++ [Byte.x03; Byte.x92; Byte.x09; Byte.x01])) = Ok h /\
  parse_initial_messages MessagePackProtocol h = Ok ms /\
  mp_arrives (HSequence {| seq_sequence_id := 1 |}) ms.
Proof.
  destruct (handshake_keeps_messages MessagePackProtocol mp_link mp_arrives
    (HSequence {| seq_sequence_id := 1 |}) "{}"
    {| Handshake.hs_error := None; hs_minor_version := None |}
    [Byte.x03; Byte.x92; Byte.x09; Byte.x01] mp_link_protocol) as (h & ms & H1 & _ & H2 & H3).
  - apply mp_link_control. unfold i64_max. lia.
  - vm_compute. reflexivity.
  - discriminate.
  - reflexivity.
  - reflexivity.
  - reflexivity.
  - exists h, ms. split; [exact H1|]. split; [exact H2|exact H3].
Defined.

Lemma pair_split {A B} (p : A * B) a : fst p = a -> p = (a, snd p).
Proof. destruct p. cbn. by intros ->. Qed.

(** ** The send queue *)

(** Two texts arrive, and the worker takes both out and writes them together. *)
Definition queue_start : Queue net := queue_new (net_new [] false).
Definition two_sends : list QueueCommand := [Send (OText "a") 0%nat; Send (OText "b") 1%nat].
Definition two_sent : option (Queue net) :=
  loop_iteration 0%nat (fold_left (fun q c => enqueue c q) two_sends queue_start) ≫= loop_iteration 0%nat.

Lemma two_sent_run q : two_sent = Some q -> queue_run 0%nat queue_start two_sends q.
Proof.
  unfold two_sent. intros Hq. destruct (loop_iteration 0%nat _) as [q1|] eqn:H1; [|done].
  eapply queue_worked; [|exact Hq]. eapply queue_worked; [|exact H1].
  apply (queue_given _ _ [Send (OText "a") 0%nat]); [|reflexivity].
  apply (queue_given _ _ []); [constructor|reflexivity].
Qed.

Lemma send_queue_in_order_witness : exists q taken, two_sent = Some q /\ two_sends = taken ++ q_commands q /\
  exists batches frames, q_world q = fold_left (transmit 0%nat) frames (net_new [] false) /\
    Forall2 joins batches frames /\ concat batches ++ q_buffer q = [OText "a"; OText "b"].
Proof.
  eexists. destruct (send_queue_in_order 0%nat (net_new [] false) two_sends
    (default queue_start two_sent) true) as (taken & Ht & _ & Hw).
  - apply two_sent_run. vm_compute. reflexivity.
  - exists taken. split; [vm_compute; reflexivity|].
    assert (Hn : q_commands (default queue_start two_sent) = []) by (vm_compute; reflexivity).
    rewrite Hn, app_nil_r in Ht. subst taken. split; [reflexivity|].
    apply Hw. repeat constructor.
Defined.

Lemma send_queue_progress_witness :
  loop_iteration 0%nat queue_start = None <->
    (q_wait queue_start = true /\ q_commands queue_start = [] /\ q_senders queue_start = true).
Proof.
  apply (send_queue_progress 0%nat (net_new [] false) queue_start); [apply rtc_refl|reflexivity].
Defined.

(** ** The tasks of the runtime *)

Lemma receive_task_reports_witness :
  let s' := (receive_task MessagePackProtocol 10 0%nat FBinary [(HPing, false)]
    [RMessage (Some (TBinary [Byte.xff])) false; RMessage (Some (TClosed None)) false] sample_state).2 in
  bus_ok (ds_bus s') /\ length (ds_events s') = 1%nat.
Proof.
  pose proof (receive_task_reports MessagePackProtocol 10 0%nat FBinary [(HPing, false)]
    [RMessage (Some (TBinary [Byte.xff])) false; RMessage (Some (TClosed None)) false]
    sample_state sample_state_ok) as H.
  destruct (receive_task _ _ _ _ _ _ _) as [running s'] eqn:Hr.
  destruct H as (Hbus & _ & _ & Hone). cbn. split; [exact Hbus|]. apply Hone.
  - vm_compute. reflexivity.
  - vm_compute. reflexivity.
  - vm_compute in Hr. injection Hr as <- _. reflexivity.
Defined.

(** A sequence message that skips ids, after the handshake response. *)
Definition bad_sequence : HubMessage := HSequence {| seq_sequence_id := 5 |}.
Definition buffered_state : DispatchState wire := with_buffer (Some buffer_new) sample_state.

Lemma initial_error_silences_witness :
  (receive_task MessagePackProtocol 10 0%nat FBinary [(HPing, false); (bad_sequence, false)]
    [RMessage (Some (TClosed None)) false] buffered_state).1 = false /\
  ds_events (receive_task MessagePackProtocol 10 0%nat FBinary [(HPing, false); (bad_sequence, false)]
    [RMessage (Some (TClosed None)) false] buffered_state).2 = [].
Proof.
  destruct (initial_error_silences MessagePackProtocol 10 0%nat FBinary bad_sequence [(HPing, false)] []
    (EProtocol "sequence ID greater than amount of messages we've received")
    buffered_state buffered_state buffered_state "") as (H & Hev & _).
  - discriminate.
  - reflexivity.
  - reflexivity.
  - change [(HPing, false); (bad_sequence, false)] with ([(HPing, false)] ++ [(bad_sequence, false)]).
    rewrite H. split; reflexivity.
Defined.

(** A frame comes at time 5, and nothing after it. *)
Definition quiet_server : Watched wire :=
  frame_received 5 (receive_one MessagePackProtocol 10 0%nat FBinary
    (RMessage (Some (TBinary [Byte.xff])) false) sample_state).2 (watch_new 15 0 sample_state).

Lemma keepalive_watches_witness : exists k',
  keepalive_iteration MessagePackProtocol 0%nat FBinary 30 15 35 KServerDeadline (wa_task quiet_server) =
    Some k' /\ ka_running k' = false /\
  (wa_sent quiet_server = false -> Forall (fun r => r + 15 <= 35) (wa_calls quiet_server)).
Proof.
  destruct (keepalive_watches MessagePackProtocol 10 0%nat FBinary 30 15 0 sample_state quiet_server 35)
    as (_ & _ & _ & H).
  - eapply rtc_l; [|apply rtc_refl]. eapply watch_frame; [cbn; lia|]. apply surjective_pairing.
  - destruct H as (k' & H1 & H2 & _); [reflexivity|cbn; lia|]. exists k'.
    split; [exact H1|]. split; [exact H2|]. intros _. constructor.
Defined.

Lemma completion_not_noticed_witness : exists (x : Watched wire) k',
  wa_now x = 15 /\ wa_sent x = false /\
  keepalive_iteration MessagePackProtocol 0%nat FBinary 30 15 (wa_now x) (KPingDeadline (wa_now x)) (wa_task x) =
    Some k'.
Proof.
  destruct (completion_not_noticed MessagePackProtocol 10 0%nat FBinary 30 15 0 sample_state
    (send_completion MessagePackProtocol 0%nat FBinary {| comp_headers := ∅; comp_invocation_id := "1";
       comp_error := None; comp_result := None |} sample_state).2
    {| comp_headers := ∅; comp_invocation_id := "1"; comp_error := None; comp_result := None |})
    as (x & k' & _ & H1 & _ & H2 & H3 & _); [lia|apply pair_split; vm_compute; reflexivity|].
  exists x, k'. split; [exact H1|]. split; [exact H2|exact H3].
Defined.

(** ** The connection *)

Definition net_connection : ConnectionOptions net := {|
  op_base_url := "https://b"; op_negotiate := net_options;
  op_handshake_request := {| hr_protocol := "messagepack"; hr_version := 2 |};
  op_handshake_version_override := None; op_transfer_format := FBinary;
  op_handshake_timeout := DEFAULT_HANDSHAKE_TIMEOUT; op_access_token_factory := None;
  op_hub_protocol := MessagePackProtocol; op_server_timeout := DEFAULT_SERVER_TIMEOUT;
  op_keep_alive_interval := DEFAULT_KEEP_ALIVE_INTERVAL;
  op_reconnect_policy := Some (next_retry_delay policy_default);
  op_stateful_reconnect_buffer_size := DEFAULT_STATEFUL_RECONNECT_BUFFER_SIZE;
  op_http_client := true; op_log_message_content := false |}.

Definition hello : TransportMessage := TText (Text.write "{}").

(** Calls and steps one after the other. *)
Definition steps (order : list nat) (s : option (System (W := net))) : option (System (W := net)) :=
  fold_left (fun s i => s ≫= call_step net_connection None i) order s.

Lemma steps_reachable order : forall s s' w, steps order (Some s) = Some s' ->
  rtc (system_step net_connection) (system_new w) s -> rtc (system_step net_connection) (system_new w) s'.
Proof.
  induction order as [|i order IH]; intros s s' w Hs Hr; [by injection Hs as <-|].
  unfold steps in Hs. cbn [fold_left mbind option_bind] in Hs.
  destruct (call_step net_connection None i s) as [s1|] eqn:Hc.
  - eapply (IH s1); [exact Hs|]. eapply rtc_r; [exact Hr|]. by eapply sys_call_step.
  - exfalso. revert Hs. clear. induction order; cbn; [done|exact IHorder].
Qed.

(** A callback is registered, [start] runs to its end, then [close]. *)
Definition system_closing (close_fails : bool) : option (System (W := net)) :=
  let s := system_new (net_new [hello; hello] close_fails) in
  let s := on_hub (fun h => set_lifecycle (register_closed 7%nat (hc_lifecycle h)) h) s in
  call_close <$> steps [0; 0; 0]%nat (Some (call_start s)).

Definition system_closed : option (System (W := net)) := steps [1; 1]%nat (system_closing false).

Lemma system_closing_reachable close_fails s : system_closing close_fails = Some s ->
  rtc (system_step net_connection) (system_new (net_new [hello; hello] close_fails)) s.
Proof.
  unfold system_closing. intros Hs. destruct (steps [0; 0; 0]%nat _) as [s1|] eqn:H1; [|done].
  injection Hs as <-. eapply rtc_r; [|apply sys_call_close].
  eapply steps_reachable; [exact H1|].
  eapply rtc_l; [apply (sys_on_close _ 7%nat)|]. eapply rtc_l; [apply sys_call_start|]. apply rtc_refl.
Qed.

Definition or_new (s : option (System (W := net))) : System (W := net) :=
  default (system_new (net_new [] false)) s.

Lemma or_new_Some s : (match s with Some _ => true | None => false end) = true -> s = Some (or_new s).
Proof. by destruct s. Qed.

Lemma steps_of_reachable order close_fails :
  (match steps order (system_closing close_fails) with Some _ => true | None => false end) = true ->
  rtc (system_step net_connection) (system_new (net_new [hello; hello] close_fails))
    (or_new (steps order (system_closing close_fails))).
Proof.
  pose proof (system_closing_reachable close_fails) as Hr. revert Hr.
  generalize (system_closing close_fails) as s0. intros [s0|] Hr Hs.
  - eapply (steps_reachable order s0); [by apply or_new_Some|by apply Hr].
  - exfalso. revert Hs. clear. induction order; cbn; [done|exact IHorder].
Qed.

Lemma closed_once_per_start_witness :
  closed_calls 7%nat (hc_lifecycle (sys_hub (or_new system_closed))) = 1%nat /\
  (closed_calls 7%nat (hc_lifecycle (sys_hub (or_new system_closed))) <=
    starts (sys_calls (or_new system_closed)) *
    registered 7%nat (hc_lifecycle (sys_hub (or_new system_closed))))%nat.
Proof.
  split; [vm_compute; reflexivity|].
  refine (closed_once_per_start net_connection (net_new [hello; hello] false) _ 7%nat _).
  unfold system_closed. apply (steps_of_reachable [1; 1]%nat false). vm_compute. reflexivity.
Defined.

(** The close that fails, up to the lock, and after it. *)
Definition system_failing : System (W := net) := or_new (steps [1]%nat (system_closing true)).
Definition system_failed : System (W := net) := or_new (call_step net_connection None 1%nat system_failing).

Lemma failed_close_wedges_witness :
  sys_calls system_failed !! 1%nat = Some (CloseDone (Err (EWebSocket "connection reset"))) /\
  hc_state (sys_hub (call_close (call_start system_failed))) = Disconnecting /\
  Forall (fun c => hopeless c = true)
    (drop (length (sys_calls system_failed)) (sys_calls (call_close (call_start system_failed)))).
Proof.
  apply (failed_close_wedges net_connection system_failing system_failed
    (call_close (call_start system_failed)) 1%nat (EWebSocket "connection reset")).
  - vm_compute. reflexivity.
  - vm_compute. reflexivity.
  - vm_compute. reflexivity.
  - intros [|[|j]] c; vm_compute; intros [= <-]; tauto.
  - vm_compute. reflexivity.
  - apply or_new_Some. vm_compute. reflexivity.
  - eapply rtc_l; [apply sys_call_start|]. eapply rtc_l; [apply sys_call_close|]. apply rtc_refl.
Defined.

(** A close that succeeds, up to the lock, while a second one has read the state; after it, the
    second one begins to wait. *)
Definition system_two_closes : System (W := net) := call_close (or_new (steps [1]%nat (system_closing false))).
Definition system_one_closed : System (W := net) :=
  or_new (call_step net_connection None 1%nat system_two_closes).
Definition system_waiting : System (W := net) :=
  or_new (call_step net_connection None 2%nat system_one_closed).

Lemma close_misses_notification_witness :
  sys_calls system_one_closed !! 1%nat = Some (CloseDone (Ok tt)) /\
  hc_state (sys_hub (call_close system_waiting)) = Disconnected /\
  exists c, sys_calls (call_close system_waiting) !! 2%nat = Some c /\ waits c = true.
Proof.
  apply (close_misses_notification net_connection system_two_closes system_one_closed
    (call_close system_waiting) 1%nat 2%nat).
  - vm_compute. reflexivity.
  - vm_compute. reflexivity.
  - vm_compute. reflexivity.
  - intros [|[|[|j]]] c; vm_compute; intros [= <-]; tauto.
  - vm_compute. reflexivity.
  - apply or_new_Some. vm_compute. reflexivity.
  - eapply rtc_l; [split|].
    + eapply (sys_call_step net_connection None 2%nat). apply or_new_Some. vm_compute. reflexivity.
    + intros Heq. apply (f_equal (fun s => length (sys_calls s))) in Heq. vm_compute in Heq. discriminate.
    + eapply rtc_l; [split|apply rtc_refl]; [apply sys_call_close|].
      intros Heq. apply (f_equal (fun s => last (sys_calls s))) in Heq. vm_compute in Heq. discriminate.
Defined.

(** ** Ids used again *)

Definition or_hub {A} (r : option (A * HubConnection net)) : HubConnection net :=
  match r with Some (_, h) => h | None => hub_new (net_new [] false) end.

Lemma or_hub_Some {A} (r : option (A * HubConnection net)) a : fst <$> r = Some a -> r = Some (a, or_hub r).
Proof. destruct r as [[? ?]|]; [|done]. cbn. by intros [= ->]. Qed.

(** A started connection with one call pending. *)
Definition hub_started : HubConnection net :=
  sys_hub (or_new (steps [0; 0; 0]%nat
    (Some (call_start (system_new (net_new [hello; hello] false)))))).
Definition hub_calling : HubConnection net := (invoke net_connection "First" (map HValue []) hub_started).2.

Definition net_target : ResumeTarget := {| rt_url := "wss://b"; rt_server_token := None |}.
Definition hub_resumed : HubConnection net := (resume_transport net_connection net_target 0%nat hub_calling).2.

Lemma resume_reuses_invocation_ids_witness :
  let h2 := (invoke net_connection "Second" (map HValue []) hub_resumed).2 in
  let h3 := set_bus (complete_invocation "1" (Ok (JString "for the first")) (hc_bus h2)) h2 in
  response_on hub_calling 0%nat = None /\ response_on h2 0%nat = Some (Err ECanceled) /\
  response_on h3 1%nat = Some (Ok (JString "for the first")).
Proof.
  apply (resume_reuses_invocation_ids net_connection net_target 0%nat hub_calling hub_resumed
    (invoke net_connection "Second" (map HValue []) hub_resumed).2 "Second" [] 0%nat 1%nat
    (JString "for the first")).
  - vm_compute. reflexivity.
  - vm_compute. reflexivity.
  - unfold hub_resumed. apply pair_split. vm_compute. reflexivity.
  - apply pair_split. vm_compute. reflexivity.
Defined.

(** The connection is lost; the supervisor cancels the calls and sleeps; then it reconnects. *)
Definition lost : TransportCloseInfo :=
  {| ci_error := None; ci_allow_reconnect := None; ci_transport_dropped := false |}.
Definition hub_lost : HubConnection net := supervisor_closed net_connection lost 0 hub_calling.
Definition hub_again : HubConnection net := or_hub (reconnect_once net_connection hub_lost).

Lemma stale_stream_cancels_new_call_witness :
  let h2 := (invoke net_connection "New" (map HValue []) (set_state Connected hub_again)).2 in
  response_on h2 1%nat = None /\
  response_on (stream_drop net_connection "1" h2) 1%nat = Some (Err ECanceled).
Proof.
  apply (stale_stream_cancels_new_call net_connection hub_lost hub_again
    (invoke net_connection "New" (map HValue []) (set_state Connected hub_again)).2 "New" [] 1%nat).
  - vm_compute. reflexivity.
  - assert (H : fst <$> reconnect_once net_connection hub_lost = Some (Ok tt))
      by (vm_compute; reflexivity).
    unfold hub_again. exact (or_hub_Some _ _ H).
  - apply pair_split. vm_compute. reflexivity.
Defined.
