(* ===== verification/SystemWitnesses.v ===== *)
(** * The theorems on transports, streams and the programs around the client on concrete runs

    The socket of a transport is a sink that accepts everything; connections are those of
    [ClientWitnesses]; the fake hub is met by an HTTP client that hands it the bytes of a request;
    files are a list.  The runs are computed. *)

From Stdlib Require Import ZArith Lia String Sorting.Sorted.
From stdpp Require Import base list strings gmap relations pretty.
From S2P Require Import Prelude Framing Utf8 Errors Values Arguments Message JsonProtocol.
From S2P Require Import JsonReference MsgPackFormat MsgPackParse MsgPackProtocol Brotli.
From S2P Require Import MsgPackReference MessageBuffer Link Bus Dispatch SendQueue.
From S2P Require Import Handshake Negotiate RustStr Retry Connection WebSocket Runtime Client.
From S2P Require Import Lifecycle Reuse Reconnect Upload Builder Usage Starts Session Pieces Attempts FakeHub HubApi HubTraffic.
From S2P Require Import EndToEnd Survival Recorder Urls ProtocolTests.
From S2P Require Import Witnesses ClientWitnesses.

Local Open Scope Z_scope.

Definition is_Some_b {A} (o : option A) : bool := match o with Some _ => true | None => false end.

(** A computed state is the one its name stands for. *)
Lemma computed {A} (d : A) (o : option A) : is_Some_b o = true -> o = Some (default d o).
Proof. by destruct o. Qed.

(** ** The WebSocket transport *)

(** A sink that takes every frame, and whose closing fails when it says so. *)
#[global] Instance open_sink : Sink bool := {|
  sink_send _ (fails : bool) := (Ok tt, fails);
  sink_close (fails : bool) := (if fails then Err "connection reset"%string else Ok tt, fails)
|}.

Definition ws_handle : WebSocketTransport := queued_handle false.

(** What happens next: a call comes, a call goes on, or the worker does. *)
Inductive ws_event : Type := WsCalls (c : WsCall) | WsGoesOn (i : nat) | WsWorks.

Definition ws_next_state (s : option (WsSystem bool)) (e : ws_event) : option (WsSystem bool) :=
  s ← s;
  match e with
  | WsCalls c =>
      if starts c then Some {| ws_queue := ws_queue s; ws_worker := ws_worker s;
                               ws_calls := ws_calls s ++ [c]; ws_next := ws_next s |} else None
  | WsGoesOn i => ws_call_step ws_handle i s
  | WsWorks =>
      q ← loop_iteration (TR := direct_transport (clone_without_send_queue ws_handle)) 0%nat (ws_queue s);
      Some {| ws_queue := q; ws_worker := ws_worker s; ws_calls := ws_calls s; ws_next := ws_next s |}
  end.

Definition ws_run (events : list ws_event) (s : WsSystem bool) : option (WsSystem bool) :=
  fold_left ws_next_state events (Some s).

Lemma ws_run_stuck events : fold_left ws_next_state events None = None.
Proof. induction events; done. Qed.

Lemma ws_run_reachable events s s' : ws_run events s = Some s' -> rtc (ws_step ws_handle) s s'.
Proof.
  revert s. induction events as [|e events IH]; intros s; [by intros [= ->]|].
  unfold ws_run. cbn [fold_left]. destruct (ws_next_state (Some s) e) as [s1|] eqn:He;
    [|by rewrite ws_run_stuck]. intros Hr. eapply rtc_l; [|by apply IH]. destruct e as [c|i|]; cbn in He.
  - destruct (starts c) eqn:Hc; [|done]. injection He as <-. by apply ws_called.
  - by eapply ws_calls_on.
  - destruct (loop_iteration _ _) as [q|] eqn:Hq; [|done]. injection He as <-. by apply ws_works.
Qed.

(** Two sends, which the worker writes together, then a close, and another send. *)
Definition ws_sending : list ws_event :=
  [WsCalls (CSend (OText "a")); WsCalls (CSend (OText "b")); WsGoesOn 0; WsGoesOn 1; WsWorks; WsWorks;
   WsGoesOn 0; WsGoesOn 1]%nat.
Definition ws_closing : list ws_event :=
  [WsCalls CClose; WsGoesOn 2; WsGoesOn 2; WsWorks; WsGoesOn 2; WsGoesOn 2]%nat.

Definition ws_sent (fails : bool) : WsSystem bool :=
  default (ws_new fails) (ws_run ws_sending (ws_new fails)).
Definition ws_closed (fails : bool) : WsSystem bool :=
  default (ws_new fails) (ws_run (ws_sending ++ ws_closing) (ws_new fails)).
Definition ws_later : WsSystem bool :=
  default (ws_new false) (ws_run [WsCalls (CSend (OText "c"))] (ws_closed false)).

Lemma ws_sent_is_written_witness :
  ws_calls (ws_sent false) !! 0%nat = Some (CSent (OText "a") (Ok tt)) /\
  written (OText "a") (ws_queue (ws_sent false)).
Proof.
  split; [vm_compute; reflexivity|].
  apply (ws_sent_is_written false false (ws_sent false) 0%nat (OText "a")).
  - apply (ws_run_reachable ws_sending), computed. vm_compute. reflexivity.
  - vm_compute. reflexivity.
Defined.

Lemma ws_close_is_final_witness :
  ws_calls (ws_closed false) !! 2%nat = Some (CClosed (Ok tt)) /\
  q_running (ws_queue ws_later) = false /\
  sk_sent (q_world (ws_queue ws_later)) = sk_sent (q_world (ws_queue (ws_closed false))) /\
  forall s, ws_call_step ws_handle 3%nat ws_later = Some s ->
    ws_calls s !! 3%nat = Some (CSent (OText "c") (Err (EProtocol "transport send queue closed"))).
Proof.
  split; [vm_compute; reflexivity|].
  destruct (ws_close_is_final false false (ws_closed false) ws_later 2%nat (Ok tt))
    as (Hrun & Hsent & _ & Hlater).
  - apply (ws_run_reachable (ws_sending ++ ws_closing)), computed. vm_compute. reflexivity.
  - vm_compute. reflexivity.
  - apply (ws_run_reachable [WsCalls (CSend (OText "c"))]), computed. vm_compute. reflexivity.
  - split; [exact Hrun|]. split; [exact Hsent|]. intros s. apply (Hlater 3%nat (OText "c")).
    vm_compute. reflexivity.
Defined.

Lemma ws_failed_close_leaves_reader_witness :
  sk_read_task (q_world (ws_queue (ws_closed true))) = true.
Proof.
  apply (ws_failed_close_leaves_reader false true (ws_closed true) (ws_closed true) 2%nat
    (EWebSocket "connection reset")).
  - apply (ws_run_reachable (ws_sending ++ ws_closing)), computed. vm_compute. reflexivity.
  - vm_compute. reflexivity.
  - apply rtc_refl.
Defined.

(** ** Uploads *)

(** A stream of two values and one that fails, uploaded on a started connection.  [None] is a
    step of the loop, [Some i] one of the task of stream [i]. *)
Definition up_streams : list (string * ClientUploadStream) :=
  [("1"%string, from_iter [JNull; JBool true]); ("2"%string, from_stream [Ok JNull; Err "broken"%string])].

Definition up_next (s : option (Uploads net)) (e : option nat) : option (Uploads net) :=
  s ← s; match e with Some i => reader_step i s | None => sender_step net_connection s end.

Definition up_run (events : list (option nat)) (s : Uploads net) : option (Uploads net) :=
  fold_left up_next events (Some s).

Lemma up_run_run events : forall steps s0 s s', upload_run net_connection steps s0 s ->
  up_run events s = Some s' -> exists steps', length steps' = (length events + length steps)%nat /\
    upload_run net_connection steps' s0 s'.
Proof.
  induction events as [|e events IH]; intros steps s0 s s' Hn; [intros [= <-]; by exists steps|].
  unfold up_run. cbn [fold_left length]. destruct (up_next (Some s) e) as [s1|] eqn:He; cycle 1.
  { intros Hs. exfalso. revert Hs. clear. induction events; cbn; [done|exact IHevents]. }
  intros Hr. destruct (IH (steps ++ [(up_hub s, up_hub s1)]) s0 s1 s') as (steps' & Hlen & Hrun); [|exact Hr|].
  - eapply run_step; [exact Hn|]. destruct e as [i|]; cbn in He; [by eapply up_read|by eapply up_send].
  - exists steps'. split; [|done]. rewrite Hlen, length_app. cbn. lia.
Qed.

Definition up_events : list (option nat) :=
  [Some 0; Some 1; None; Some 1; Some 0; None; None; Some 0; None; None; None]%nat.
Definition up_start : Uploads net := launch_upload_streams up_streams hub_started.
Definition up_end : Uploads net := default up_start (up_run up_events up_start).

Lemma up_reached : is_Some_b (up_run up_events up_start) = true ->
  exists steps, length steps = 11%nat /\ upload_run net_connection steps up_start up_end.
Proof.
  intros H. apply (up_run_run up_events [] up_start up_start up_end (Upload.run_done _ _)).
  by apply computed.
Qed.

Lemma upload_in_order_witness : exists steps effects,
  upload_run net_connection steps up_start up_end /\ Forall2 (has_effect net_connection) effects steps /\
  for_stream "2" (sent_by effects) =
    [HStreamItem {| item_headers := ∅; item_invocation_id := Some "2"%string; item_item := JNull |};
     HCompletion {| comp_headers := ∅; comp_invocation_id := "2"; comp_error := Some "broken"%string;
                    comp_result := None |}].
Proof.
  destruct (up_reached (eq_refl true)) as (steps & _ & Hrun). exists steps.
  destruct (upload_in_order net_connection up_streams hub_started steps up_end "2"
    (from_stream [Ok JNull; Err "broken"%string])) as [(effects & He & _ & _ & Hall) _].
  - apply (bool_decide_eq_true_1 _). vm_compute. reflexivity.
  - apply list_elem_of_further, list_elem_of_here.
  - exact Hrun.
  - exists effects. split; [exact Hrun|]. split; [exact He|]. apply Hall. vm_compute. reflexivity.
Defined.

Lemma upload_terminates_witness : (11 <= 3 * 2 + 2 * 4 + 1)%nat.
Proof.
  destruct (up_reached (eq_refl true)) as (steps & <- & Hrun).
  exact (upload_terminates net_connection up_streams hub_started steps up_end Hrun).
Defined.

(** An item read before the connection was lost, and a new call with a stream after it. *)
Definition up_stale : Uploads net := {|
  up_readers := [("1"%string, Some [])]; up_commands := [UItem "1" (JString "old")];
  up_loop := ULRunning; up_hub := hub_lost |}.
Definition hub_new_stream : HubConnection net :=
  (Client.send net_connection "Upload" [HStream (from_iter [JString "new"])] (set_state Connected hub_again)).2.

Lemma stale_upload_feeds_new_stream_witness :
  hc_uploads hub_new_stream = hc_uploads hub_again ++ [("1"%string, from_iter [JString "new"])] /\
  exists s', sender_step net_connection (set_hub hub_new_stream up_stale) = Some s' /\
    up_commands s' = [] /\ up_hub s' =
      (Client.send_direct net_connection (upload_message (UItem "1" (JString "old"))) hub_new_stream).2.
Proof.
  destruct (stale_upload_feeds_new_stream net_connection up_stale hub_lost hub_again hub_new_stream
    (Client.send_direct net_connection (upload_message (UItem "1" (JString "old"))) hub_new_stream).2
    "Upload" (from_iter [JString "new"]) (JString "old") []) as (Hu & s' & Hs & _ & Hsent).
  - reflexivity.
  - reflexivity.
  - assert (H : fst <$> reconnect_once net_connection hub_lost = Some (Ok tt))
      by (vm_compute; reflexivity).
    unfold hub_again. exact (or_hub_Some _ _ H).
  - unfold hub_new_stream. apply pair_split. vm_compute. reflexivity.
  - apply pair_split. vm_compute. reflexivity.
  - split; [exact Hu|]. exists s'. split; [exact Hs|exact Hsent].
Defined.

(** ** Streams *)

Definition stream_ops : list bus_op :=
  [BPending "7"; BItem "3" (Ok JNull); BComplete "7" (Ok JNull); BItem "3" (Ok (JBool true))].

Lemma stream_yields_in_order_witness :
  let '(ch, b) := register_stream "3" bus_new in
  read_all 3 (hub_method_stream_new "3" ch)
    (complete_invocation "3" (Err "failed"%string) (fold_left run_op stream_ops b)) =
  ([Ok JNull; Ok (JBool true); Err (EInvocation "failed")], Ready None).
Proof.
  pose proof (stream_yields_in_order bus_new "3" stream_ops (Err "failed"%string)
    (bus_reachable_ok _ bus_reach_new)) as H.
  destruct (register_stream "3" bus_new) as [ch b]. apply H. reflexivity.
Defined.

(** ** The builder *)

Lemma built_options_consistent_witness :
  op_transfer_format (built (W := net) "https://b" [] (net_new [] false)) = FBinary /\
  op_transfer_format (built (W := net) "https://b" [WithHandshakeProtocol "odd" 7;
    WithHubProtocol JsonProtocol; WithStatefulReconnect true] (net_new [] false)) = FText.
Proof.
  split.
  - apply (built_options_consistent (W := net) "https://b" [] (net_new [] false)). reflexivity.
  - apply (built_options_consistent (W := net) "https://b" [WithHandshakeProtocol "odd" 7;
      WithHubProtocol JsonProtocol; WithStatefulReconnect true] (net_new [] false)). reflexivity.
Defined.

(** ** Handlers *)

(** A handler for a pair, called with one argument. *)
Definition read_pair_of (arguments : list json) : result string (json * json) :=
  match arguments with [a; b] => Ok (a, b) | _ => Err "invalid length"%string end.

Definition pair_hub : HubConnection net :=
  (on_typed "Pair" read_pair_of (fun _ => Err "unused"%string) (hub_new (net_new [] false))).2.

Definition one_argument : InvocationMessage := {|
  inv_headers := ∅; inv_invocation_id := Some "5"%string; inv_target := "pair";
  inv_arguments := AJson [JNull]; inv_stream_ids := None |}.

Definition pair_state : DispatchState net := {|
  ds_bus := hc_bus pair_hub; ds_buffer := None; ds_events := []; ds_close_signaled := false;
  ds_world := net_new [] false |}.

Lemma unreadable_arguments_reported_witness :
  handle_invocation JsonProtocol 0%nat FText one_argument pair_state =
    send_completion JsonProtocol 0%nat FText
      {| comp_headers := ∅; comp_invocation_id := "5";
         comp_error := Some "invalid invocation arguments: invalid length"%string;
         comp_result := None |} pair_state.
Proof.
  destruct (unreadable_arguments_reported (A := nat) JsonProtocol 0%nat FText "Pair" "invalid length"
    read_pair_of (fun _ => Err "unused"%string) (hub_new (net_new [] false)) one_argument pair_state)
    as (_ & error & Ha & He).
  - reflexivity.
  - reflexivity.
  - reflexivity.
  - rewrite Ha, He; [reflexivity|reflexivity].
Defined.

(** ** Traffic with the fake hub *)

Definition json_frame (ms : list HubMessage) : SocketMessage :=
  SText (string_of_bytes (concat (omap (fun m => match json_write_message m with
                                                 | Ok bytes => Some bytes | Err _ => None end) ms))).

Definition server_with (frames : list SocketMessage) (protocol : option HubProtocol) : ServerConnection := {|
  sc_path := "/hub"; sc_query := ∅; sc_incoming := map Ok frames; sc_eof := true; sc_written := [];
  sc_protocol := protocol; sc_pending := [] |}.

(** A ping and a call in one frame, an acknowledgement in the next. *)
Definition sample_batches : list (list HubMessage) := [[HPing; sample_call]; [sample_ack]].

Lemma server_receives_in_order_witness : exists arrived c',
  Forall2 json_arrives [HPing; sample_call; sample_ack] arrived /\
  recv_many (length (List.filter not_ping (concat arrived))) (length (concat arrived))
    (server_with (map json_frame sample_batches) (Some JsonProtocol)) =
  Some (List.filter not_ping (concat arrived), c').
Proof.
  apply (server_receives_in_order (p := JsonProtocol) sample_batches (map json_frame sample_batches)).
  - repeat constructor; try discriminate; vm_compute; reflexivity.
  - apply Forall2_cons_2; [|apply Forall2_cons_2; [|apply Forall2_nil_2]].
    + eexists. split; [repeat (apply Forall2_cons_2; [vm_compute; reflexivity|]); apply Forall2_nil_2|].
      vm_compute. reflexivity.
    + eexists. split; [repeat (apply Forall2_cons_2; [vm_compute; reflexivity|]); apply Forall2_nil_2|].
      vm_compute. reflexivity.
  - reflexivity.
  - reflexivity.
  - reflexivity.
Defined.

(** The handshake in the reference JSON text. *)
Definition json_handshake : HandshakeText := {|
  request_to_string r := json_to_string (JObject [("protocol"%string, JString (hr_protocol r));
    ("version"%string, JNumber (num_from_i64 (hr_version r)))]);
  response_from_str s :=
    if String.eqb s "{}" then Ok {| Handshake.hs_error := None; hs_minor_version := None |}
    else
      v ← json_from_str s;
      match v with
      | JObject m =>
          error ← opt_field as_string "error" m;
          Ok {| Handshake.hs_error := error; hs_minor_version := None |}
      | _ => Err "invalid type"%string
      end
|}.

Lemma reference_reads (v : json) : json_from_str (print_positive (encode v)) = Ok v.
Proof. cbn. rewrite read_print_positive. cbn. by rewrite decode_encode. Qed.

Lemma reference_printed (v : json) text : json_to_string v = Ok text -> text = print_positive (encode v).
Proof. by intros [= <-]. Qed.

Lemma json_handshake_laws : HandshakeJson ReferenceJson json_handshake.
Proof.
  split.
  - intros r _. do 2 eexists. split; [reflexivity|]. split; [apply reference_reads|reflexivity].
  - reflexivity.
  - intros e text Ht. rewrite (reference_printed _ _ Ht). unfold response_from_str, json_handshake.
    destruct (String.eqb_spec (print_positive (encode (JObject [("error"%string, JString e)]))) "{}")
      as [H|_]; [by destruct (encode _)|]. by rewrite reference_reads.
Qed.

Definition json_request : HandshakeRequest := {| hr_protocol := "json"; hr_version := 1 |}.
Definition json_payload : string :=
  match write_request (HT := json_handshake) json_request with Ok s => s | Err _ => "" end.

Lemma handshake_agreed_witness : exists request c' text,
  server_handshake (BD := identity_decoder) (server_with [SText json_payload] None) = Some (request, c') /\
  sc_protocol c' = Some JsonProtocol /\ sc_written c' = [SText text].
Proof.
  destruct (handshake_agreed (HT := json_handshake) (BD := identity_decoder) (HJ := json_handshake_laws)
    json_request JsonProtocol json_payload "busy" (server_with [SText json_payload] None) [])
    as ((request & c' & text & H1 & H2 & _ & H3 & _) & _).
  - reflexivity.
  - reflexivity.
  - vm_compute. reflexivity.
  - reflexivity.
  - reflexivity.
  - exists request, c', text. split; [exact H1|]. split; [exact H2|exact H3].
Defined.

(** ** Negotiation with the fake hub *)

(** An HTTP client that hands the hub the bytes of its request and takes the reply. *)
Definition hub_post (url : string) (headers : list (string * string)) (h : FakeHub)
    : result string (Z * string) * FakeHub :=
  let stream := bytes_of_string (request_head url headers) in
  match listen (InHttp stream) h, read_head [] stream with
  | Some (h', Some _), Some (bytes, _) =>
      (ok_or (reply_body (head (fh_replies h)) ("token-" +:+ pretty (fh_tokens h + 1))
         (asks_stateful (request_of bytes))) "no reply"%string, h')
  | Some (h', _), _ => (Err "connection closed"%string, h')
  | None, _ => (Err "connection closed"%string, h)
  end.

Definition hub_client : HttpClient FakeHub := {|
  Body := string;
  http_post := hub_post;
  status_text := pretty;
  body_json text := v ← json_from_str text; negotiate_response_of_json v
|}.

Definition hub_http : HubHttp ReferenceJson hub_client.
Proof.
  refine {| target_of := fun url => url; body_of := (fun text => text) : string -> Body (HttpClient := hub_client) |};
    [|reflexivity].
  intros url headers h h' response Hl. cbn [http_post hub_client]. unfold hub_post.
  rewrite Hl. revert Hl. unfold listen. destruct (starts_with_post _); [|done]. unfold negotiate.
  destruct (read_head [] _) as [[bytes rest]|]; [|done].
  destruct (reply_body _ _ _) as [[status body]|]; [|done]. cbn [mbind option_bind ok_or].
  intros [= _ <-]. by exists status, body.
Defined.

Definition hub_at : string := "http://127.0.0.1:80/hub".
Definition hub_state : NegState FakeHub :=
  {| ns_world := fake_hub_start "127.0.0.1:80"; ns_requests := []; ns_factory_calls := 0 |}.

Lemma client_negotiates_with_hub_witness : exists s',
  negotiate_with_client (HC := hub_client) hub_at net_options (Some "mine"%string) hub_state =
    Some (Ok {| ng_response := default_response "token-1" true; ng_access_token := Some "mine"%string;
                ng_url := hub_at; ng_token_from_server := false |}, s') /\
  fh_tokens (ns_world s') = 1.
Proof.
  destruct (client_negotiates_with_hub (HC := hub_client) (HH := hub_http) hub_at
    (match resolve_negotiate_url hub_at net_options with Ok u => u | Err _ => "" end) net_options
    (Some "mine"%string) hub_state) as (s' & Hn & Ht & _).
  - vm_compute. reflexivity.
  - vm_compute. reflexivity.
  - vm_compute. reflexivity.
  - reflexivity.
  - exists s'. split; [exact Hn|exact Ht].
Defined.

(** ** The recorder *)

(** Files are written in front of the transport's world. *)
#[global] Instance net_host : Host net := {|
  env_var _ := None;
  read_to_string _ := Err "no such file"%string;
  calls_from_str _ := Ok [];
  to_vec_pretty _ := Ok [];
  create_dir_all _ n := (Ok tt, n);
  fs_write _ _ n := (Ok tt, n)
|}.

Definition net_up : net := {|
  net_wire := {| w_epoch := 1; w_up := true; w_out := [] |}; net_frames := []; net_close_fails := false |}.

Definition mp_frame (ms : list HubMessage) : TransportMessage :=
  TBinary (concat (omap (fun m => match mp_write_message m with Ok b => Some b | Err _ => None end) ms)).

Definition record_item : HubMessage :=
  HStreamItem {| item_headers := ∅; item_invocation_id := Some "3"%string; item_item := JNull |}.

(** The handshake response, two items with a ping between them, a tick, another item. *)
Definition record_events : list LoopEvent :=
  [LFrame 0 hello; LFrame 1 (mp_frame [record_item; HPing; record_item]); LKeepAlive;
   LFrame 2 (mp_frame [record_item])].

Definition record_start : Loop net := {|
  lo_recorder := {| re_out := "frames"; re_protocol := MessagePackProtocol; re_brotli := false;
                    re_frames := 0 |};
  lo_handshake_done := false; lo_calls := []; lo_pending := []; lo_received := 0; lo_acked := 0;
  lo_acks := []; lo_seen := []; lo_world := net_up |}.

Definition record_result : option (Loop net) :=
  result_state (record_loop (BD := identity_decoder) 1%nat MessagePackProtocol true None record_events
    record_start).
Definition record_end : Loop net := default record_start record_result.

Lemma recorder_acks_like_client_witness :
  lo_acks record_end = [2; 3] /\
  lo_acked record_end = latest_received_sequence_id (client_receives 1%nat FBinary (lo_seen record_end)).
Proof.
  split; [vm_compute; reflexivity|].
  apply (recorder_acks_like_client (BD := identity_decoder) 1%nat MessagePackProtocol true None
    record_events record_start record_end FBinary).
  - reflexivity.
  - reflexivity.
  - reflexivity.
  - reflexivity.
  - reflexivity.
  - assert (H : is_Some_b record_result = true) by (vm_compute; reflexivity).
    exact (computed record_start record_result H).
Defined.

(** A length that promises more than there is. *)
Definition record_brotli : Recorder := {|
  re_out := "frames"; re_protocol := MessagePackBrotliProtocol (BD := identity_decoder); re_brotli := true;
  re_frames := 4 |}.

Lemma odd_frame_stops_brotli_recording_witness : exists e,
  (recorder_frame (BD := identity_decoder) (TBinary [Byte.x05; Byte.x01]) record_brotli net_up).1.1 = Err e.
Proof.
  eexists.
  eapply (odd_frame_stops_brotli_recording (BD := identity_decoder) [Byte.x05; Byte.x01] record_brotli
    net_up net_up).
  - reflexivity.
  - vm_compute. reflexivity.
  - vm_compute. reflexivity.
Defined.

(** ** Reconnecting *)

Lemma reconnect_terminates_witness : exists n h',
  reconnect_run net_connection [0; 2; 10; 30] (begin_reconnect net_connection lost 0 hub_calling) =
    Some (n, h') /\ (n <= 4)%nat.
Proof.
  destruct (reconnect_terminates net_connection DEFAULT_RETRY_DELAYS eq_refl lost 0 [0; 2; 10; 30]
    hub_calling) as ((n & h' & Hr & Hn & _) & _).
  - discriminate.
  - vm_compute. reflexivity.
  - vm_compute. reflexivity.
  - apply Nat.le_refl.
  - exists n, h'. split; [exact Hr|exact Hn].
Defined.

(** ** Calls from end to end *)

Definition json_runtime : HubRuntime := {|
  hr_transport := 1%nat; hr_hub_protocol := JsonProtocol; hr_transfer_format := FText;
  hr_message_buffer := None; hr_invocation_id := 4; hr_cached_ping := [] |}.
Definition json_hub : HubConnection net :=
  set_state Connected (set_runtime (Some json_runtime) (hub_new net_up)).
Definition json_called : HubConnection net :=
  (invoke net_connection "Add" (map HValue [JNull; JBool true]) json_hub).2.
Definition calling_state : DispatchState net := {|
  ds_bus := hc_bus json_called; ds_buffer := None; ds_events := []; ds_close_signaled := false;
  ds_world := net_up |}.

Lemma call_answered_witness : exists f m c1,
  recv 0 (server_with [f] (Some JsonProtocol)) = Some (HInvocation m, c1) /\
  inv_invocation_id m = Some "5"%string /\ inv_target m = "Add"%string /\
  exists f' t s', server_send (HCompletion (answer "5" (Err "no"%string))) c1 = Some (send_frame f' c1) /\
    read_loop [Ok f'] = [t; TClosed None] /\
    receive_one JsonProtocol 10 1%nat FText (RMessage (Some t) false) calling_state = (true, s') /\
    response_on (set_bus (ds_bus s') json_called) 0%nat = Some (Err (EInvocation "no")).
Proof.
  destruct (call_answered (p := JsonProtocol) net_connection json_hub json_called json_runtime "Add"
    [JNull; JBool true] 0%nat) as (bytes & f & _ & _ & Hcall).
  - reflexivity.
  - reflexivity.
  - reflexivity.
  - reflexivity.
  - split; vm_compute; reflexivity.
  - unfold json_called. apply pair_split. vm_compute. reflexivity.
  - destruct (Hcall (server_with [f] (Some JsonProtocol)) [] eq_refl eq_refl eq_refl)
      as (m & c1 & Hrecv & Hid & Htgt & _ & Hans).
    exists f, m, c1. split; [exact Hrecv|]. split; [exact Hid|]. split; [exact Htgt|].
    apply (Hans (Err "no"%string) 10 calling_state []).
    + split; vm_compute; reflexivity.
    + reflexivity.
    + reflexivity.
Defined.



(** A handler that returns its first argument, when there is one. *)
Definition echo_state : DispatchState net := {|
  ds_bus := hc_bus (on "Echo" head json_hub).2; ds_buffer := None; ds_events := [];
  ds_close_signaled := false; ds_world := net_up |}.

Lemma server_call_answered_witness : exists f t s' f',
  server_send (call_message "9" "echo" [JBool true]) (server_with [] (Some JsonProtocol)) =
    Some (send_frame f (server_with [] (Some JsonProtocol))) /\
  read_loop [Ok f] = [t; TClosed None] /\
  receive_one JsonProtocol 10 1%nat FText (RMessage (Some t) false) echo_state = (true, s') /\
  exists c2, recv 0 (server_with [f'] (Some JsonProtocol)) =
    Some (HCompletion (answer "9" (Ok (JBool true))), c2).
Proof.
  destruct (server_call_answered (p := JsonProtocol) "Echo" "echo" "9" head [JBool true]
    (server_with [] (Some JsonProtocol)) echo_state 1%nat 10 [])
    as (f & t & s' & bytes & f' & Hsrv & Hread & Hrecv & _ & _ & Hback).
  - reflexivity.
  - reflexivity.
  - reflexivity.
  - split; vm_compute; reflexivity.
  - split; vm_compute; reflexivity.
  - exists f, t, s', f'. split; [exact Hsrv|]. split; [exact Hread|]. split; [exact Hrecv|].
    apply (Hback (server_with [f'] (Some JsonProtocol)) []); reflexivity.
Defined.

(** ** URLs *)

(** A URL in its parts.  It is printed as usual when that text reads back as the same parts, and
    otherwise by its number, so that printing can be undone for all parts. *)
Definition url_parts (u : PlainUrl) :=
  (pu_scheme u, pu_host u, pu_path u, pu_query u, pu_fragment u).
Definition of_parts (p : string * string * string * list (string * string) * option string) : PlainUrl :=
  let '(scheme, host, path, query, fragment) := p in
  {| pu_scheme := scheme; pu_host := host; pu_path := path; pu_query := query; pu_fragment := fragment |}.

#[global] Instance PlainUrl_eq_dec : EqDecision PlainUrl.
Proof. solve_decision. Defined.

Definition numbered (s : string) : option PlainUrl := of_parts <$> (read_positive s ≫= countable.decode).

Definition prints_plain (u : PlainUrl) : bool :=
  bool_decide (numbered (url_to_string (UrlLib := plain_url) u) = None) &&
  bool_decide (plain_parse (url_to_string (UrlLib := plain_url) u) = Ok u).

Definition total_url : UrlLib := {|
  Url := PlainUrl;
  url_parse s := match numbered s with Some u => Ok u | None => plain_parse s end;
  url_path := pu_path;
  url_set_path := url_set_path (UrlLib := plain_url);
  url_clear_fragment := url_clear_fragment (UrlLib := plain_url);
  query_pairs := pu_query;
  url_clear_query := url_clear_query (UrlLib := plain_url);
  append_pair := append_pair (UrlLib := plain_url);
  url_to_string u :=
    if prints_plain u then url_to_string (UrlLib := plain_url) u else print_positive (encode (url_parts u))
|}.

Lemma total_url_laws : UrlLaws total_url.
Proof.
  split; try done. intros u. unfold total_url, url_to_string, url_parse. destruct (prints_plain u) eqn:Hp.
  - unfold prints_plain in Hp. apply andb_true_iff in Hp as [H1%bool_decide_eq_true H2%bool_decide_eq_true].
    unfold url_to_string in *. cbn in *. by rewrite H1.
  - unfold numbered. rewrite read_print_positive. cbn. rewrite decode_encode. by destruct u.
Qed.

Definition at_root : string := "https://h/?access_token=secret&useStatefulReconnect=true".

Lemma redaction_hides_token_witness : exists u',
  url_parse (UrlLib := total_url) (redact_access_token (UL := total_url) at_root) = Ok u' /\
  query_pairs (UrlLib := total_url) u' = [("access_token", "***"); ("useStatefulReconnect", "true")]%string.
Proof.
  destruct (redaction_hides_token (UL := total_url) (LW := total_url_laws) at_root) as [H _].
  assert (Hp : url_parse (UrlLib := total_url) at_root = Ok (of_parts ("https", "h", "/",
    [("access_token", "secret"); ("useStatefulReconnect", "true")], None)%string)) by (vm_compute; reflexivity).
  rewrite Hp in H. destruct H as (u' & H1 & H2 & _). exists u'. split; [exact H1|exact H2].
Defined.

Lemma negotiate_url_spec_witness : exists text u',
  resolve_negotiate_url (UL := total_url) at_root negotiate_options_default = Ok text /\
  url_parse (UrlLib := total_url) text = Ok u' /\
  values_of (UL := total_url) "useStatefulReconnect" u' = [] /\
  url_path (UrlLib := total_url) u' = "//negotiate"%string.
Proof.
  pose proof (negotiate_url_spec (UL := total_url) (LW := total_url_laws) at_root negotiate_options_default) as H.
  assert (Hp : url_parse (UrlLib := total_url) at_root = Ok (of_parts ("https", "h", "/",
    [("access_token", "secret"); ("useStatefulReconnect", "true")], None)%string)) by (vm_compute; reflexivity).
  rewrite Hp in H.
  destruct H as (text & u' & Hr & Ht & _ & Hs & _ & Hroot & _). exists text, u'.
  split; [exact Hr|]. split; [exact Ht|]. split; [exact Hs|]. apply Hroot. reflexivity.
Defined.

(** A hub behind a proxy that takes the address of the hub as its path. *)
Definition proxied : string := "https://proxy/http://hub".

Lemma websocket_url_spec_witness :
  build_websocket_url (UL := total_url) proxied "t" None = Ok "wss://proxy/ws://hub?id=t"%string.
Proof.
  pose proof (websocket_url_spec (UL := total_url) (LW := total_url_laws) proxied "t" None) as H.
  assert (Hp : url_parse (UrlLib := total_url) proxied =
    Ok (of_parts ("https", "proxy", "/http://hub", [], None)%string)) by (vm_compute; reflexivity).
  rewrite Hp in H. destruct H as (_ & _ & _ & _ & H).
  rewrite (H "proxy/"%string "hub?id=t"%string).
  - reflexivity.
  - vm_compute. reflexivity.
  - apply first_at_true. vm_compute. reflexivity.
Defined.

(** ** A session *)

(** A connection to a server that greets, and whose transport does not close cleanly. *)
Definition fresh_hub (close_fails : bool) : HubConnection net := hub_new (net_new [hello] close_fails).

Lemma session_spec_witness : exists h1 h2,
  start net_connection (fresh_hub true) = Some (Ok tt, h1) /\ hc_state h1 = Connected /\
  close net_connection h1 = Some (Err (EWebSocket "connection reset"), h2) /\
  hc_state h2 = Disconnecting /\ close net_connection h2 = None.
Proof.
  destruct (session_spec net_connection (fresh_hub true)) as (r & h1 & Hs & H); [reflexivity|].
  assert (Hrun : ('(r, h) ← start net_connection (fresh_hub true); '(r', _) ← close net_connection h;
                  Some (r, r')) = Some (Ok tt, Err (EWebSocket "connection reset"))) by (vm_compute; reflexivity).
  rewrite Hs in Hrun. cbn [mbind option_bind] in Hrun. destruct r as [[]|e].
  - destruct H as (Hst & _ & _ & r' & h2 & Hc & _ & _ & Hr). rewrite Hc in Hrun.
    cbn [mbind option_bind] in Hrun. injection Hrun as ->.
    destruct Hr as (Hst2 & _ & Hagain). exists h1, h2. repeat split; assumption.
  - destruct (close net_connection h1) as [[]|]; discriminate Hrun.
Defined.

(** ** Two starts *)

(** The server greets once: the first connect succeeds, the second does not. *)
Definition unstarted : System (W := net) := {| sys_hub := fresh_hub false; sys_lock := None; sys_calls := [] |}.
Definition first_connected : HubConnection net :=
  or_hub (connect_runtime net_connection None (start_begin (sys_hub unstarted))).
Definition second_connected : HubConnection net :=
  or_hub (connect_runtime net_connection None (start_begin (up net_connection first_connected))).

Lemma overlapping_starts_witness : exists s1 s2 r,
  rtc (system_step net_connection) unstarted s1 /\
  rtc (system_step net_connection) s1 s2 /\ is_ok r = false /\
  sys_calls s1 !! 0%nat = Some (StartDone (Ok tt)) /\ hc_state (sys_hub s1) = Connected /\
  sys_calls s2 !! 1%nat = Some (StartDone r) /\ hc_state (sys_hub s2) = Disconnected.
Proof.
  set (r := Err (EHandshake "handshake timeout") : result Error unit).
  assert (Hc1 : connect_runtime net_connection None (start_begin (sys_hub unstarted)) = Some (Ok tt, first_connected))
    by (unfold first_connected; apply or_hub_Some; vm_compute; reflexivity).
  assert (Hc2 : connect_runtime net_connection None (start_begin (up net_connection first_connected)) =
    Some (r, second_connected)) by (unfold second_connected; apply or_hub_Some; vm_compute; reflexivity).
  destruct (overlapping_starts net_connection unstarted first_connected second_connected r eq_refl eq_refl Hc1 Hc2)
    as (s1 & s' & s2 & H1 & Hb & H2 & (Hc & Hst & _) & (_ & Hd & _) & _ & _ & Hst2).
  exists s1, s2, r. repeat split; [exact H1| |exact Hc|exact Hst|exact Hd|exact Hst2].
  eapply rtc_l; [exact Hb|exact H2].
Defined.

(** ** A session with a callback that hears everything *)

Definition observed : HubConnection net :=
  on_close 7 (on_reconnecting 7 (on_reconnected 7 (hub_new (net_new [hello; hello] false)))).
Definition observed_up : HubConnection net := or_hub (start net_connection observed).
Definition observed_lost : HubConnection net := supervisor_closed net_connection lost 0 observed_up.
Definition observed_again : HubConnection net :=
  default observed_lost (supervisor_attempt net_connection 1 1 0 observed_lost).

Lemma observed_sleeping : exists started reason,
  hc_supervisor observed_lost = Some (SupSleeping 1 started reason).
Proof. eexists _, _. vm_compute. reflexivity. Qed.

Lemma session_refines_witness : exists trace ph, phase_run Idle trace ph /\ phase_ok ph observed_again /\
  lc_called (hc_lifecycle observed_again) =
    lc_called (hc_lifecycle observed) ++ flat_map (callbacks (hc_lifecycle observed)) trace /\
  well_told Settled trace = true.
Proof.
  destruct (session_refines net_connection observed observed_again) as (trace & ph & H1 & H2 & H3 & H4 & _).
  - split; [reflexivity|]. split; [left; reflexivity|reflexivity].
  - apply (rtc_l _ _ observed_up).
    { apply (cs_start _ _ (Ok tt)). unfold observed_up. apply or_hub_Some. vm_compute. reflexivity. }
    apply (rtc_l _ _ observed_lost); [apply cs_closed; vm_compute; reflexivity|].
    apply rtc_once. apply (cs_attempt _ _ 1 1 0 "connection closed"); [vm_compute; reflexivity|].
    unfold observed_again. apply computed. vm_compute. reflexivity.
  - exists trace, ph. exact (conj H1 (conj H2 (conj H3 H4))).
Defined.

Lemma attempt_overtakes_close_witness : exists h2 h3 rt,
  close net_connection h2 = Some (Ok tt, h3) /\ hc_state h3 = Disconnected /\
  hc_state (attempt_report true (attempt_store rt h3)) = Connected.
Proof.
  assert (Hrun : match attempt_connect net_connection observed_lost with
                 | Some (Ok c, h1) => is_ok (attempt_prepare net_connection c h1).1
                 | _ => false
                 end = true) by (vm_compute; reflexivity).
  destruct (attempt_connect net_connection observed_lost) as [[[c|e] h1]|] eqn:Hc; [|discriminate Hrun..].
  destruct (attempt_prepare net_connection c h1) as [[rt|e] h2] eqn:Hp; [|discriminate Hrun].
  destruct (attempt_overtakes_close net_connection 1 c rt observed_lost h1 h2) as (h3 & H3 & Hst & _ & Hst4 & _).
  - cbn [phase_ok]. destruct observed_sleeping as (started & reason & Hs).
    repeat split; try (vm_compute; reflexivity). exists started, reason. exact Hs.
  - vm_compute. reflexivity.
  - exact Hc.
  - exact Hp.
  - exists h2, h3, rt. exact (conj H3 (conj Hst Hst4)).
Defined.
